(* ===== verification/_CoqProject ===== *)
-Q . S2P
Prelude.v
Types.v
Ring.v
SpscQueue.v
SpscConcurrent.v
TimingWheel.v
FrameAllocator.v
PacketParser.v
ChaosEngine.v
DataPlane.v
Protocol.v
ControlCore.v
SocketManager.v
Layout.v
Runtime.v
Delays.v
ControlPlane.v
SnapshotConcurrent.v
ControlServer.v
Float64.v
Tui.v
XdpRedirect.v
LibxdpSocket.v
Live.v
Demo.v
RuleEffect.v
Main.v
Client.v
ClientSession.v
