(* ===== verification/Prelude.v ===== *)
(** * Chronos-X: a verification development

    Chronos-X is a network chaos engine: it receives Ethernet frames over AF_XDP, and
    drops, delays, corrupts or reflects them according to rules that operators send
    over a control connection.  This library models its C++ headers (under
    [src/include/chronosx/]), its main program, the XDP program it loads into the kernel
    and its Python client as executable definitions, and proves what
    makes them correct.

    ** The program and the files that model it

    - [types.hpp]: constants, [PacketAction], [StatUpdate] -> [Types.v].
    - [spsc_queue.hpp]: the statistics queue between the data plane and the control
      thread -> [SpscQueue.v] (the operations, one after another) and
      [SpscConcurrent.v] (the two threads as a step relation in which an acquire load
      may return any value of the location's modification order not older than the
      last one seen); [Ring.v] holds the power-of-two ring both this queue and the
      simulated AF_XDP rings store their items in.
    - [timing_wheel.hpp]: the delay scheduler -> [TimingWheel.v].
    - [frame_allocator.hpp]: the UMEM frame pool with its owner table ->
      [FrameAllocator.v].
    - [packet_parser.hpp]: the Ethernet/IPv4/TCP/UDP parser -> [PacketParser.v].
    - [chaos_engine.hpp]: rules, hashes and decisions -> [ChaosEngine.v].
    - [data_plane.hpp]: the batch pipeline, which calls the parser, the engine and the
      delay queue -> [DataPlane.v]; its template parameter is the class [DelayQueue],
      which [TimingWheel_delay_queue] implements.
    - [protocol.hpp]: messages and CRC-32 -> [Protocol.v]; [RuleTable] and
      [ControlCore] -> [ControlCore.v].
    - [socket_manager.hpp]: [SimulatedRing] and [SimulatedXskSocket] ->
      [SocketManager.v].
    - [af_xdp_runtime.hpp]: the adapter that ties allocator, socket, wheel and data plane
      together -> [Runtime.v]; its template parameters are the classes [XskSocket] and
      [TimedQueue], which [SimulatedXskSocket_socket], [LibxdpSocket_socket] and
      [TimingWheel_timed_queue] implement; the kernel's side of the rings is the class
      [RingKernel].  [Delays.v] runs the adapter over a wheel with
      a log of its calls, another instance of [TimedQueue].
    - [control_plane.hpp]: connection buffers, rule snapshots and the core behind them ->
      [ControlPlane.v]; the snapshots between the control thread and its readers, as steps
      that interleave, with the use counts of [shared_ptr] -> [SnapshotConcurrent.v]; the
      epoll server -> [ControlServer.v], over system calls that are
      the class [Os] with the laws [OsLaws].
    - [tui.hpp]: histogram, sparkline, dashboard -> [Tui.v], with the binary64 arithmetic
      of [Float64.v]; the queue it drains is the class [BoundedFifo], which [SPSCQueue]
      implements.
    - [bpf/xdp_redirect.bpf.c]: the XDP program -> [XdpRedirect.v].
    - [libxdp_socket.hpp]: the socket over libxdp -> [LibxdpSocket.v]; the rings and calls
      of libxdp are the classes [ProdRing], [ConsRing] and [Libxdp] with their laws, and
      lists and a small kernel state implement them.
    - [src/main.cpp]: live mode -> [Live.v], the demonstrations -> [Demo.v], the command
      line and server mode -> [Main.v].  [RuleEffect.v] composes the control plane and the
      data plane as the demonstration does.
    - [tools/chronos_client.py]: messages and rules of the client -> [Client.v]; the
      exchange with the server, the commands and [main] -> [ClientSession.v], over the
      class [StreamSocket].
    - The memory layout of the structs of all headers, with the sizes and alignments that
      they assert, and the overlay structs of [packet_parser.hpp] -> [Layout.v].

    This file holds what all of them share: machine integers, arrays, notations, the
    tactics [ub_inv] and [zcase], the hint databases, and lemmas on numbers, bytes and
    arrays.

    ** How the code is modelled

    An unsigned integer of [w] bits is a [Z], with [wrap w] where the code computes
    modulo [2^w] or casts; [size_t] has 64 bits.  Arrays and memories are lists.  Code
    that could access an array, a span or a memory out of range runs in the option
    monad, with [None] for undefined behaviour, so a theorem that concludes
    [... = Some r] also says that every access is in range.  A class is a record of its
    members, a method a function from the record to its result and the new record, an
    [enum class] an inductive type (with a constructor [_raw] where a byte of the
    network is cast to it), a template parameter a section variable and a [requires]
    clause a section hypothesis.  A loop over an index is a fixpoint on the number of
    iterations left, which the loop's own bound gives.  Four loops have no bound of their
    own and take fuel, where [None] stands for a loop that goes on; each theorem says how
    much is enough, and that the loop ends then: [send_all] needs the number of
    interrupts plus the 8192 bytes of the response buffer, [client_loop] one more than
    the bytes in the connection's buffer, [drain_stats_queue] one more than the items in
    the queue, and the client's [recv_exact] the number of bytes it waits for.  The loops
    that run until they are stopped take the list of values that their flag reads.  The two
    loops of live mode run while the kernel works on the rings: they take the list of its
    turns, one per iteration; the initial fill ends after one iteration more than there are
    batches of 64 frames in the pool at the latest (65 turns in the program).
    Pointers are offsets into one byte memory, [nullptr] is [None].  Objects that are
    copied to the wire have the representation of a little-endian host; the padding of
    [StatUpdate] is a parameter.

    ** What is proved

    - [SpscQueue.v], [SpscConcurrent.v]: the queue refines a bounded FIFO, in every
      interleaving, without data races, and each call ends after a bounded number of
      its own steps.
    - [TimingWheel.v]: the wheel refines a calendar; frames are released exactly on
      time; the compaction branch of [tick] is never taken.
    - [FrameAllocator.v]: the ownership invariant (of calls that do not name [Free] as the
      owner to give or to expect), exclusive allocation, transitions with the answer of each
      failed check, all-or-nothing batch release, and two ways to alias frames that the
      checks do not catch.
    - [PacketParser.v]: memory safety and exact acceptance of well-formed frames; the
      parser looks at headers only.
    - [ChaosEngine.v]: the hash is FNV-1a over a fixed serialisation with a bijective
      finaliser; the first matching rule decides, as a threshold on a reproducible
      roll; how the fast and the full path relate.
    - [DataPlane.v]: a batch partitions its frames; each has exactly the fate that the
      decision on its own bytes and the room left give it ([batch_fates]), with the bytes
      [frame_byte_after]; a batch writes only inside of its frames, and its helpers (corruption, MAC swap, delay in ticks)
      do what they say.
    - [Protocol.v]: the table-driven CRC is the bit-serial one, encoding and decoding are
      inverse to each other, single-byte errors are detected.
    - [ControlCore.v]: the rule table is a bounded list; every request is answered as
      specified; rules survive the wire.
    - [Layout.v]: the structs have the asserted sizes and alignments; the bytes of a rule
      and of the statistics on the wire are those of the objects; the parser reads each
      field where the overlay structs have it.
    - [SocketManager.v]: the simulated socket is four bounded queues.
    - [Runtime.v]: in every interleaving of polls with the kernel's moves on the rings,
      which may deliver a packet at any offset in its frame, each frame is in exactly one
      place, owned accordingly, and the only frames lost are the ones that a full ring or
      [handle_from_address] refuses: none if the rings have room for all and the kernel
      leaves no headroom.  A poll's counters account for every frame, also with full rings;
      [init] fills or reports.  [full_ring_strands_frame] and [headroom_strands_frame] are
      polls that lose a frame.
    - [Delays.v]: in the same interleavings, every delayed frame leaves the wheel at the
      tick its rule's delay asks for, in order, and is submitted to the transmit ring at
      once.
    - [ControlPlane.v]: the published snapshot is the rule table after any run of
      requests.
    - [SnapshotConcurrent.v]: in every interleaving of the control thread with readers, a
      snapshot lives exactly as long as it is held, is the table after some of the
      requests, and readers see the tables in order.
    - [ControlServer.v]: requests of up to 4097 bytes are answered once and in order
      however TCP cuts them up; a connection that sends too much is closed; no descriptor is leaked whatever
      the operating system returns.
    - [Float64.v], [Tui.v]: the histogram counts every sample exactly; its bars stay in
      range under rounding; the sparkline is the window of the latest samples; draining
      ends and merges every update once.
    - [XdpRedirect.v]: the kernel program stays inside of the frame, delivers every frame
      that the parser accepts, only frames with the EtherType and a header length of IPv4,
      and its counters are exact.
    - [LibxdpSocket.v]: the socket moves four bounded queues; [init] is all or nothing
      and [shutdown] gives back what it took, in the order that libxdp asks for: the library
      refuses to delete a UMEM that a socket uses.
    - [Live.v]: live mode strands up to 64 frames at its start and accounts for the rest in
      every interleaving with the kernel, which works during the start, too; it ends with
      every resource given back, whatever packets it forwarded.
    - [Demo.v]: the frames the demonstrations build are well-formed TCP packets, and both
      demonstrations end as they announce.
    - [RuleEffect.v]: a rule sent over the wire decides exactly the packets it matches, from
      the next batch on.
    - [Main.v]: the command line's dispatch with its number conversions; the server mode
      ends with every descriptor closed.
    - [Client.v]: client and server agree on messages, and disagree on the byte order of
      rules.
    - [ClientSession.v]: every command against the control plane prints and changes what
      [command_outcome] says, however the network cuts the answer.

    ** What is not modelled

    Output to the terminal (apart from the text of the dashboard and what the client
    prints), the installation of signal handlers, and accessors that only return a member
    or a reference.  Of the client: argument parsing, which is [argparse]'s, and what a
    socket does beyond [sendall] and [recv].  The tests and the benchmark.  System calls,
    libxdp, the kernel's side of the AF_XDP rings and the BPF helpers are not in the
    repository: they are parameters with laws that state what their documentation says.  The C++ memory model is modelled where two
    threads share data, in the statistics queue; operations on the atomic pointer to the
    rule snapshot are single steps that every thread sees in one order, as its one
    location's modification order. *)

From Stdlib Require Export ZArith Lia.
From Stdlib Require Import Permutation.
From stdpp Require Export option numbers strings list prelude.

#[global] Open Scope Z_scope.

(** ** Machine integers

    A [w]-bit unsigned integer of the source is a [Z] in [[0, 2^w)]; [wrap]
    is the conversion that C++ applies to the result of unsigned arithmetic
    and to a [static_cast] to a narrower type. *)

Definition wrap (w x : Z) : Z := x mod 2 ^ w.

Definition fits (w x : Z) : Prop := 0 <= x < 2 ^ w.

#[export] Instance fits_dec w x : Decision (fits w x).
Proof. unfold fits. apply _. Defined.

Abbreviation u8 := (wrap 8).
Abbreviation u16 := (wrap 16).
Abbreviation u32 := (wrap 32).
Abbreviation u64 := (wrap 64).

(** ** Undefined behaviour

    A piece of C++ that may index an array out of range is modelled in the
    option monad: [None] stands for undefined behaviour, [Some r] for a run
    that ends with [r].  Arrays are lists of a fixed length, and reading or
    writing outside of them is [None]. *)

Definition aget {A} (a : list A) (i : Z) : option A :=
  if decide (0 <= i) then a !! Z.to_nat i else None.

Definition aset {A} (a : list A) (i : Z) (x : A) : option (list A) :=
  if decide (0 <= i < Z.of_nat (length a)) then Some (<[Z.to_nat i := x]> a)
  else None.

Declare Scope chronos_scope.
Delimit Scope chronos_scope with chronos.
Notation "a .[ i ]" := (aget a i) (at level 1, left associativity, format "a .[ i ]") : chronos_scope.
Notation "a .[ i <- x ]" := (aset a i x) (at level 1, left associativity, format "a .[ i  <-  x ]") : chronos_scope.
Notation "a =?? b" := (bool_decide (a = b)) (at level 70) : chronos_scope.
#[global] Open Scope chronos_scope.

Definition zlen {A} (a : list A) : Z := Z.of_nat (length a).

(** ** Automation *)

Create HintDb chronos.
Create Rewrite HintDb zlen.

(** Takes apart a run [m = Some r] of the option monad: every bind and every
    conditional on the way is destructed, keeping its equation. *)
Ltac ub_inv :=
  repeat match goal with
  | H : mbind _ ?m = Some _ |- _ =>
      let E := fresh "E" in destruct m eqn:E; simpl in H; [|discriminate H]
  | H : Some _ = Some _ |- _ => injection H as H
  | H : mret _ = Some _ |- _ => injection H as H
  | H : (_, _) = (_, _) |- _ => injection H as H
  end; simplify_eq/=.

(** Splits on the boolean comparisons of [Z] that the source's guards become. *)
Ltac zcase :=
  match goal with
  | |- context [?a <? ?b] => destruct (Z.ltb_spec a b)
  | |- context [?a <=? ?b] => destruct (Z.leb_spec a b)
  | |- context [?a =? ?b] => destruct (Z.eqb_spec a b)
  | H : context [?a <? ?b] |- _ => destruct (Z.ltb_spec a b)
  | H : context [?a <=? ?b] |- _ => destruct (Z.leb_spec a b)
  | H : context [?a =? ?b] |- _ => destruct (Z.eqb_spec a b)
  end.

(** ** Lemmas on machine integers *)

Lemma pow2_pos k : 0 <= k -> 0 < 2 ^ k.
Proof. intros. apply Z.pow_pos_nonneg; lia. Qed.

Lemma wrap_fits w x : 0 <= w -> fits w (wrap w x).
Proof. intros. apply Z.mod_pos_bound, pow2_pos; lia. Qed.

Lemma wrap_small w x : fits w x -> wrap w x = x.
Proof. apply Z.mod_small. Qed.

Lemma wrap_wrap_le v w x : 0 <= v <= w -> wrap v (wrap w x) = wrap v x.
Proof.
  intros. unfold wrap. apply Z.mod_mod_divide.
  exists (2 ^ (w - v)). rewrite <-Z.pow_add_r by lia. f_equal. lia.
Qed.

Lemma wrap_add_l w a b : 0 <= w -> wrap w (wrap w a + b) = wrap w (a + b).
Proof. intros. unfold wrap. rewrite Zplus_mod_idemp_l; auto. Qed.

Lemma wrap_add_r w a b : 0 <= w -> wrap w (a + wrap w b) = wrap w (a + b).
Proof. intros. unfold wrap. rewrite Zplus_mod_idemp_r; auto. Qed.

Lemma wrap_sub w a b : 0 <= w -> wrap w (wrap w a - wrap w b) = wrap w (a - b).
Proof. intros. unfold wrap. rewrite <-Zminus_mod; auto. Qed.

Lemma wrap_sub_l w a b : wrap w (wrap w a - b) = wrap w (a - b).
Proof. unfold wrap. apply Zminus_mod_idemp_l. Qed.

Lemma fits_le v w x : v <= w -> fits v x -> fits w x.
Proof.
  unfold fits. intros ? [? ?]. split; [done|].
  eapply Z.lt_le_trans; [done|]. apply Z.pow_le_mono_r; lia.
Qed.

(** A power-of-two mask is a remainder: the index arithmetic of every ring. *)
Lemma land_mask k x : 0 <= k -> Z.land x (2 ^ k - 1) = x mod 2 ^ k.
Proof.
  intros. rewrite <-Z.land_ones by lia. f_equal. rewrite Z.ones_equiv. lia.
Qed.

Lemma land_mask_bound k x : 0 <= k -> 0 <= Z.land x (2 ^ k - 1) < 2 ^ k.
Proof. intros. rewrite land_mask by lia. apply Z.mod_pos_bound, pow2_pos; lia. Qed.

(** Bytes put side by side: a disjoint [|] is a sum. *)
Lemma lor_shift_add n a b : 0 <= n -> 0 <= a -> fits n b -> Z.lor (Z.shiftl a n) b = a * 2 ^ n + b.
Proof.
  intros Hn Ha Hb. rewrite <-Z.add_lor_land, Z.shiftl_mul_pow2 by lia.
  enough (Z.land (a * 2 ^ n) b = 0) by lia.
  rewrite <-Z.shiftl_mul_pow2 by lia. apply Z.bits_inj'. intros i Hi.
  rewrite Z.land_spec, Z.bits_0. destruct (decide (i < n)).
  - by rewrite Z.shiftl_spec_low by lia.
  - rewrite <-(wrap_small n b) by done. unfold wrap.
    by rewrite Z.mod_pow2_bits_high, andb_false_r by lia.
Qed.

(** A byte of a word is a byte of what the word was cut from. *)
Lemma wrap_byte w k x : 0 <= k -> k + 8 <= w -> u8 (wrap w x / 2 ^ k) = u8 (x / 2 ^ k).
Proof.
  intros Hk Hw. unfold wrap. apply Z.bits_inj'. intros i Hi.
  destruct (decide (i < 8)); [|by rewrite !Z.mod_pow2_bits_high by lia].
  by rewrite !Z.mod_pow2_bits_low, !Z.div_pow2_bits, Z.mod_pow2_bits_low by lia.
Qed.

Lemma land_ones_wrap w x : 0 <= w -> Z.land x (Z.ones w) = wrap w x.
Proof. intros. by rewrite Z.land_ones. Qed.

(** The [n] low bytes of [x], most significant first. *)
Fixpoint be_bytes (n : nat) (x : Z) : list Z :=
  match n with
  | O => []
  | S n => u8 (x / 2 ^ (8 * Z.of_nat n)) :: be_bytes n x
  end.

Lemma be_bytes_length n x : length (be_bytes n x) = n.
Proof. induction n as [|n IH]; simpl; [done|by rewrite IH]. Qed.

Lemma be_bytes_fits n x : Forall (fits 8) (be_bytes n x).
Proof. induction n as [|n IH]; constructor; [by apply wrap_fits|done]. Qed.

Lemma be_bytes_wrap n w x : 8 * Z.of_nat n <= w -> be_bytes n (wrap w x) = be_bytes n x.
Proof.
  induction n as [|n IH]; intros Hw; [done|]. simpl. rewrite IH, wrap_byte by lia. done.
Qed.

(** The number that bytes stand for, most significant first. *)
Fixpoint be_value (l : list Z) : Z :=
  match l with
  | [] => 0
  | b :: l => b * 2 ^ (8 * Z.of_nat (length l)) + be_value l
  end.

Lemma be_value_fits l : Forall (fits 8) l -> fits (8 * Z.of_nat (length l)) (be_value l).
Proof.
  induction 1 as [|b l Hb _ IH]; [done|]. unfold fits in *. simpl be_value. cbn [length].
  replace (8 * Z.of_nat (S (length l))) with (8 + 8 * Z.of_nat (length l)) by lia.
  rewrite Z.pow_add_r by lia. nia.
Qed.

Lemma be_value_be_bytes n x : be_value (be_bytes n x) = wrap (8 * Z.of_nat n) x.
Proof.
  induction n as [|n IH]; [symmetry; apply Z.mod_1_r|].
  cbn [be_bytes be_value]. rewrite IH, be_bytes_length. unfold wrap.
  replace (8 * Z.of_nat (S n)) with (8 * Z.of_nat n + 8) by lia.
  pose proof (pow2_pos (8 * Z.of_nat n) ltac:(lia)). rewrite Z.pow_add_r, Z.rem_mul_r by lia. lia.
Qed.

Lemma be_bytes_be_value l : Forall (fits 8) l -> be_bytes (length l) (be_value l) = l.
Proof.
  induction 1 as [|b l Hb Hl IH]; [done|]. cbn [length be_bytes be_value].
  pose proof (be_value_fits l Hl) as Hf. unfold fits in Hf.
  pose proof (pow2_pos (8 * Z.of_nat (length l)) ltac:(lia)).
  rewrite Z.div_add_l, Z.div_small, Z.add_0_r, (wrap_small 8) by (done || lia). f_equal.
  rewrite <-(be_bytes_wrap _ (8 * Z.of_nat (length l))) by lia. unfold wrap.
  rewrite Z.add_comm, Z_mod_plus_full, Z.mod_small by lia. done.
Qed.

Lemma lor_be32 b0 b1 b2 b3 :
  fits 8 b0 -> fits 8 b1 -> fits 8 b2 -> fits 8 b3 ->
  Z.lor (Z.lor (Z.lor (u32 (Z.shiftl b0 24)) (u32 (Z.shiftl b1 16))) (u32 (Z.shiftl b2 8))) b3
  = be_value [b0; b1; b2; b3].
Proof.
  unfold fits. intros H0 H1 H2 H3.
  rewrite !(wrap_small 32) by (unfold fits; rewrite ?Z.shiftl_mul_pow2 by lia; lia).
  replace (Z.shiftl b0 24) with (Z.shiftl (Z.shiftl (Z.shiftl b0 8) 8) 8) by by rewrite !Z.shiftl_shiftl.
  replace (Z.shiftl b1 16) with (Z.shiftl (Z.shiftl b1 8) 8) by by rewrite !Z.shiftl_shiftl.
  rewrite <-!Z.shiftl_lor. rewrite (lor_shift_add 8 b0) by (unfold fits; lia).
  rewrite (lor_shift_add 8 (b0 * _ + _)), lor_shift_add by (unfold fits; lia). simpl. lia.
Qed.

Lemma lor_be16 b0 b1 : fits 8 b0 -> fits 8 b1 -> u16 (Z.lor (Z.shiftl b0 8) b1) = be_value [b0; b1].
Proof.
  unfold fits. intros H0 H1. rewrite lor_shift_add, wrap_small by (unfold fits; lia). simpl. lia.
Qed.

#[global] Arguments be_value : simpl never.

(** Two indices that a window of length [2^k] separates get different cells. *)
Lemma mod_window_inj m a b :
  0 < m -> a mod m = b mod m -> Z.abs (a - b) < m -> a = b.
Proof.
  intros Hm Hab Hw.
  pose proof (Z.div_mod a m ltac:(lia)). pose proof (Z.div_mod b m ltac:(lia)).
  assert (m * (a / m - b / m) = a - b) by lia.
  assert (a / m - b / m = 0) by nia. nia.
Qed.

#[export] Hint Resolve pow2_pos wrap_fits land_mask_bound : chronos.
#[export] Hint Extern 5 (_ <= _) => lia : chronos.
#[export] Hint Extern 5 (_ < _) => lia : chronos.

(** ** Lemmas on arrays *)

Section arrays.
Context {A : Type}.
Implicit Types (a : list A) (x : A) (i j : Z).

Lemma aget_Some a i x : a.[i] = Some x <-> 0 <= i /\ a !! Z.to_nat i = Some x.
Proof. unfold aget. case_decide; [tauto|]. split; [done|lia]. Qed.

Lemma aget_lt a i x : a.[i] = Some x -> 0 <= i < zlen a.
Proof.
  intros [? ?%lookup_lt_Some]%aget_Some. unfold zlen. lia.
Qed.

Lemma aget_in_range a i : 0 <= i < zlen a -> exists x, a.[i] = Some x.
Proof.
  intros Hi. destruct (lookup_lt_is_Some_2 a (Z.to_nat i)) as [x Hx];
    [unfold zlen in *; lia|]. exists x. apply aget_Some. split; [lia|done].
Qed.

Lemma aget_None a i : a.[i] = None <-> ~ 0 <= i < zlen a.
Proof.
  split.
  - intros HN Hr. destruct (aget_in_range a i Hr). congruence.
  - intros Hr. destruct (a.[i]) eqn:E; [|done]. apply aget_lt in E. lia.
Qed.

Lemma aset_in_range a i x : 0 <= i < zlen a -> a.[i <- x] = Some (<[Z.to_nat i := x]> a).
Proof. unfold aset, zlen. intros. by rewrite decide_True by lia. Qed.

Lemma aset_Some a a' i x :
  a.[i <- x] = Some a' <-> 0 <= i < zlen a /\ a' = <[Z.to_nat i := x]> a.
Proof.
  unfold aset, zlen. case_decide; split; [by intros [= <-]|by intros [_ ->]|done|lia].
Qed.

Lemma aset_zlen a a' i x : a.[i <- x] = Some a' -> zlen a' = zlen a.
Proof. intros [? ->]%aset_Some. unfold zlen. by rewrite length_insert. Qed.

Lemma aget_aset_eq a a' i x : a.[i <- x] = Some a' -> a'.[i] = Some x.
Proof.
  intros [? ->]%aset_Some. apply aget_Some. split; [lia|].
  apply list_lookup_insert_eq. unfold zlen in *. lia.
Qed.

Lemma aget_aset_ne a a' i j x : a.[i <- x] = Some a' -> i <> j -> a'.[j] = a.[j].
Proof.
  intros [? ->]%aset_Some Hij. unfold aget. case_decide; [|done].
  apply list_lookup_insert_ne. lia.
Qed.

Lemma aget_ext a b : (forall i, a.[i] = b.[i]) -> a = b.
Proof.
  intros H. apply list_eq. intros n. specialize (H (Z.of_nat n)). unfold aget in H.
  by rewrite !decide_True, Nat2Z.id in H by lia.
Qed.

Lemma Forall_aget (P : A -> Prop) a : Forall P a <-> forall i x, a.[i] = Some x -> P x.
Proof.
  rewrite Forall_lookup. split; intros H.
  - intros i x [_ Hx]%aget_Some. by eapply H.
  - intros n x Hx. apply (H (Z.of_nat n)). apply aget_Some. rewrite Nat2Z.id. split; [lia|done].
Qed.

Lemma aget_app_r a b i : 0 <= i -> (a ++ b).[zlen a + i] = b.[i].
Proof.
  intros Hi. unfold aget, zlen. rewrite !decide_True by lia. rewrite lookup_app_r by lia. f_equal. lia.
Qed.

Lemma aset_middle a x b i y : i = zlen a -> (a ++ x :: b).[i <- y] = Some (a ++ y :: b).
Proof.
  intros ->. rewrite aset_in_range; unfold zlen; [|rewrite length_app; simpl; lia].
  rewrite Nat2Z.id. by rewrite insert_app_r_alt, Nat.sub_diag by lia.
Qed.

Lemma aset_app_r a b i y : 0 <= i -> (a ++ b).[zlen a + i <- y] = (app a) <$> b.[i <- y].
Proof.
  intros Hi. unfold aset, zlen. rewrite length_app. case_decide.
  - rewrite decide_True by lia. cbn. rewrite insert_app_r_alt by lia. do 3 f_equal. lia.
  - by rewrite decide_False by lia.
Qed.

Lemma zlen_nonneg a : 0 <= zlen a.
Proof. unfold zlen. lia. Qed.

Lemma zlen_replicate (n : nat) x : zlen (replicate n x) = Z.of_nat n.
Proof. unfold zlen. by rewrite length_replicate. Qed.

Lemma zlen_app a b : zlen (a ++ b) = zlen a + zlen b.
Proof. unfold zlen. rewrite length_app. lia. Qed.

Lemma zlen_cons x a : zlen (x :: a) = 1 + zlen a.
Proof. unfold zlen. simpl. lia. Qed.

Lemma zlen_nil : zlen (@nil A) = 0.
Proof. done. Qed.

End arrays.

#[export] Hint Rewrite @zlen_replicate @zlen_app @zlen_cons @zlen_nil : zlen.

(** ** Permutations

    Two lists are permutations of each other when every element occurs as often in
    both; [perm_solver] decides permutations of concatenations this way. *)

Section occurrences.
Context {A : Type} `{EqDecision A}.
Implicit Types (l k : list A) (x y : A).

Definition occurrences l x : nat := count_occ (fun a b => decide (a = b)) l x.

Lemma Permutation_occurrences l k : l ≡ₚ k <-> forall x, occurrences l x = occurrences k x.
Proof. apply Permutation_count_occ. Qed.

Lemma occurrences_app l k x : occurrences (l ++ k) x = (occurrences l x + occurrences k x)%nat.
Proof. apply count_occ_app. Qed.

Lemma occurrences_nil x : occurrences [] x = 0%nat.
Proof. done. Qed.

End occurrences.

Ltac perm_solver :=
  rewrite Permutation_occurrences;
  let x := fresh "x" in intros x;
  repeat match goal with
  | H : ?l ≡ₚ ?k |- _ => let P := fresh "P" in pose proof (proj1 (Permutation_occurrences l k) H x) as P; clear H
  end;
  repeat match goal with
  | |- context [?e :: ?l] => lazymatch l with [] => fail | _ => change (e :: l) with ([e] ++ l) end
  | H : context [occurrences (?e :: ?l) x] |- _ =>
      lazymatch l with [] => fail | _ => change (e :: l) with ([e] ++ l) in H end
  end;
  rewrite ?fmap_app, ?fmap_nil, ?list_fmap_singleton, ?occurrences_app, ?occurrences_nil;
  repeat match goal with
  | H : context [occurrences _ x] |- _ => progress rewrite ?fmap_app, ?fmap_nil, ?list_fmap_singleton, ?occurrences_app, ?occurrences_nil in H
  end; lia.
