(* ===== verification/Types.v ===== *)
(** * [include/chronosx/types.hpp]: the vocabulary types

    The integer aliases of the header ([Byte], [PacketLength], [PacketCount],
    ...) are all [Z], kept at their width by the operations that produce them.
    [size_t] is 64 bits wide, as on the Linux targets AF_XDP runs on. *)

From S2P Require Import Prelude.

Definition kCacheLineSize : Z := 64.
Definition kDefaultStatsQueueCapacity : Z := 4096.
Definition kEthernetHeaderBytes : Z := 14.
Definition kIPv4BaseHeaderBytes : Z := 20.
Definition kTCPBaseHeaderBytes : Z := 20.
Definition kUDPHeaderBytes : Z := 8.
Definition kMaxEthernetFrameBytes : Z := 1518.
Definition kMaxVlanEthernetFrameBytes : Z := 1522.

Definition is_power_of_two (value : Z) : bool :=
  negb (value =? 0) && (Z.land value (u64 (value - 1)) =? 0).

Abbreviation Byte := Z (only parsing).

(** An [enum class] with a fixed underlying type holds every value of that
    type, and rules are copied bytewise from the network: [PacketAction_raw v]
    is the value [v] that no enumerator names. *)
Inductive PacketAction :=
| PacketAction_Pass
| PacketAction_Drop
| PacketAction_Delay
| PacketAction_Corrupt
| PacketAction_raw (value : Z).

#[export] Instance PacketAction_eq_dec : EqDecision PacketAction.
Proof. solve_decision. Defined.

Definition to_wire_value (action : PacketAction) : Z :=
  match action with
  | PacketAction_Pass => 0
  | PacketAction_Drop => 1
  | PacketAction_Delay => 2
  | PacketAction_Corrupt => 3
  | PacketAction_raw value => value
  end.

(** The inverse conversion: the enumeration object whose byte is [value]. *)
Definition packet_action_of_byte (value : Z) : PacketAction :=
  if value =? 0 then PacketAction_Pass
  else if value =? 1 then PacketAction_Drop
  else if value =? 2 then PacketAction_Delay
  else if value =? 3 then PacketAction_Corrupt
  else PacketAction_raw value.

Definition PacketAction_wf (action : PacketAction) : Prop :=
  match action with
  | PacketAction_raw value => 4 <= value < 256
  | _ => True
  end.

Record StatUpdate := mkStatUpdate {
  su_timestamp_cycles : Z;
  su_packets_seen : Z;
  su_packets_dropped : Z;
  su_bytes_seen : Z;
  su_average_latency_ns : Z;
  su_last_action : PacketAction;
  su_reserved0 : Z;
  su_reserved1 : Z;
}.

(** [StatUpdate{}]: every member has its default initialiser. *)
Definition StatUpdate_default : StatUpdate :=
  mkStatUpdate 0 0 0 0 0 PacketAction_Pass 0 0.

(** ** Powers of two *)

Lemma is_power_of_two_pow k : 0 <= k < 64 -> is_power_of_two (2 ^ k) = true.
Proof.
  intros Hk. pose proof (pow2_pos k ltac:(lia)).
  assert (2 ^ k <= 2 ^ 63) by (apply Z.pow_le_mono_r; lia).
  unfold is_power_of_two. rewrite wrap_small by (unfold fits; lia).
  rewrite land_mask, Z.mod_same by lia. by destruct (Z.eqb_spec (2 ^ k) 0); [lia|].
Qed.

Lemma is_power_of_two_inv v :
  fits 64 v -> is_power_of_two v = true -> exists k, 0 <= k < 64 /\ v = 2 ^ k.
Proof.
  unfold is_power_of_two, fits.
  intros Hv [Hnz%negb_true_iff%Z.eqb_neq Hand%Z.eqb_eq]%andb_true_iff.
  rewrite wrap_small in Hand by (unfold fits; lia).
  pose proof (Z.log2_spec v ltac:(lia)) as [Hlo Hhi].
  pose proof (Z.log2_nonneg v).
  exists (Z.log2 v). split.
  - split; [done|]. apply Z.log2_lt_pow2; lia.
  - destruct (decide (v = 2 ^ Z.log2 v)) as [|Hne]; [done|exfalso].
    assert (Z.testbit (Z.land v (v - 1)) (Z.log2 v) = true) as Hb.
    { rewrite Z.land_spec, Z.bit_log2 by lia. simpl.
      replace (Z.log2 v) with (Z.log2 (v - 1)); [apply Z.bit_log2; lia|].
      apply Z.log2_unique; lia. }
    rewrite Hand, Z.bits_0 in Hb. discriminate.
Qed.

(** The bit trick of the header decides exactly the powers of two of [size_t]. *)
Lemma is_power_of_two_iff v :
  fits 64 v -> is_power_of_two v = true <-> exists k, 0 <= k < 64 /\ v = 2 ^ k.
Proof.
  intros Hv. split; [by apply is_power_of_two_inv|].
  intros (k & Hk & ->). by apply is_power_of_two_pow.
Qed.

Lemma packet_action_of_to_wire a :
  PacketAction_wf a -> packet_action_of_byte (to_wire_value a) = a.
Proof.
  destruct a as [| | | |v]; try done. simpl. intros Hv.
  unfold packet_action_of_byte. repeat zcase; try lia; done.
Qed.

Lemma packet_action_to_of_wire v : to_wire_value (packet_action_of_byte v) = v.
Proof. unfold packet_action_of_byte. by repeat zcase; subst. Qed.

Lemma packet_action_of_byte_wf v : fits 8 v -> PacketAction_wf (packet_action_of_byte v).
Proof.
  unfold fits, packet_action_of_byte. intros. repeat zcase; simpl; trivial; lia.
Qed.
