(* ===== verification/Ring.v ===== *)
(** * Power-of-two ring storage

    What the SPSC queue ([spsc_queue.hpp]) and the simulated AF_XDP rings
    ([socket_manager.hpp]) share: an array of [2^k] cells, a window that starts
    at a free-running index, and cells found by masking the index.  The window
    is related to the abstract queue by [ring_repr]; the interface [BoundedFifo]
    is what a queue promises to the code that drains it. *)

From S2P Require Import Prelude Types.

Section ring.
Context {T : Type}.
Implicit Types (buf : list T) (l : list T).

(** [l] is the queue stored in [buf] from index [h] on. *)
Definition ring_repr (m : Z) buf (h : Z) l : Prop :=
  zlen buf = m /\ zlen l <= m /\
  forall (i : nat) x, l !! i = Some x -> buf.[(h + Z.of_nat i) mod m] = Some x.

Lemma ring_repr_nil m buf h : zlen buf = m -> ring_repr m buf h [].
Proof. intros <-. split_and!; [done|apply zlen_nonneg|done]. Qed.

Lemma ring_repr_push m buf h l x :
  0 < m -> ring_repr m buf h l -> zlen l < m ->
  exists buf', buf.[(h + zlen l) mod m <- x] = Some buf' /\ ring_repr m buf' h (l ++ [x]).
Proof.
  intros Hm (Hb & _ & Hl) Hlt.
  pose proof (Z.mod_pos_bound (h + zlen l) m Hm).
  rewrite (aset_in_range buf) by lia. eexists; split; [done|]. split_and!.
  - unfold zlen in *. by rewrite length_insert.
  - autorewrite with zlen. lia.
  - intros i y [Hi|(Hi & [? <-]%list_lookup_singleton_Some)]%lookup_app_Some.
    + rewrite <-(Hl i y Hi). pose proof (lookup_lt_Some _ _ _ Hi).
      eapply aget_aset_ne; [apply aset_in_range; lia|].
      intros Heq. apply mod_window_inj in Heq; unfold zlen in *; lia.
    + replace (h + Z.of_nat i) with (h + zlen l) by (unfold zlen in *; lia).
      eapply aget_aset_eq, aset_in_range. lia.
Qed.

Lemma ring_repr_pop m buf h x l :
  ring_repr m buf h (x :: l) -> buf.[h mod m] = Some x /\ ring_repr m buf (h + 1) l.
Proof.
  intros (Hb & Hle & Hl). split.
  - rewrite <-(Hl 0%nat x) by done. f_equal. f_equal. lia.
  - split_and!; [done|autorewrite with zlen in Hle; lia|].
    intros i y Hi. rewrite <-(Hl (S i) y) by done. f_equal. f_equal. lia.
Qed.

(** Only the cell of the start index matters, so an index kept modulo [2^64]
    describes the same window. *)
Lemma ring_repr_index m buf h h' l :
  h mod m = h' mod m -> ring_repr m buf h l -> ring_repr m buf h' l.
Proof.
  intros Hh (Hb & Hle & Hl). split_and!; [done..|].
  intros i x Hi. rewrite <-(Hl i x Hi). f_equal.
  by rewrite <-(Zplus_mod_idemp_l h'), <-Hh, Zplus_mod_idemp_l.
Qed.

Lemma ring_repr_inj m buf h l1 l2 :
  ring_repr m buf h l1 -> ring_repr m buf h l2 -> length l1 = length l2 -> l1 = l2.
Proof.
  intros (_ & _ & H1) (_ & _ & H2) Hlen. apply list_eq_same_length with (length l1); [done..|].
  intros i x y _ Hx Hy. apply H1 in Hx. apply H2 in Hy. congruence.
Qed.

(** A write to a cell outside of the window leaves the window alone. *)
Lemma ring_repr_frame m buf buf' h l i x :
  0 < m -> ring_repr m buf h l -> buf.[i mod m <- x] = Some buf' ->
  (forall j : nat, (j < length l)%nat -> i mod m <> (h + Z.of_nat j) mod m) ->
  ring_repr m buf' h l.
Proof.
  intros Hm (Hb & Hle & Hl) Hset Hout. split_and!; [by rewrite (aset_zlen _ _ _ _ Hset)|done|].
  intros j y Hj. rewrite <-(Hl j y Hj). eapply aget_aset_ne; [done|].
  apply Hout. by eapply lookup_lt_Some.
Qed.

End ring.

(** ** Masked 64-bit indices *)

Lemma mask_index k x : 0 <= k <= 64 -> Z.land (u64 x) (2 ^ k - 1) = x mod 2 ^ k.
Proof. intros. rewrite land_mask by lia. by apply (wrap_wrap_le k 64). Qed.

Lemma mod_u64 k x : 0 <= k <= 64 -> u64 x mod 2 ^ k = x mod 2 ^ k.
Proof. intros. by apply (wrap_wrap_le k 64). Qed.

(** ** The interface of a queue that is drained

    [bf_repr q l]: the queue [q] is well formed and holds [l], oldest first.
    [bf_pop] is the consumer's operation; the laws are what its clients use. *)

Class BoundedFifo (Q T : Type) := {
  bf_repr : Q -> list T -> Prop;
  bf_pop : Q -> option (option T * Q);
  bf_pop_nil : forall q, bf_repr q [] -> bf_pop q = Some (None, q);
  bf_pop_cons : forall q x l, bf_repr q (x :: l) ->
    exists q', bf_pop q = Some (Some x, q') /\ bf_repr q' l;
}.
