(* ===== verification/SpscQueue.v ===== *)
(** * [include/chronosx/spsc_queue.hpp]: the lock-free SPSC queue

    The three members of the class as a record, its operations as the thread
    that runs them alone executes them, and the refinement to a bounded FIFO
    list.  [SpscConcurrent.v] interleaves the two threads. *)

From S2P Require Import Prelude Types Ring.

Record SPSCQueue (T : Type) := mkSPSCQueue {
  spsc_head_ : Z;
  spsc_tail_ : Z;
  spsc_buffer_ : list T;
}.
Arguments mkSPSCQueue {T} _ _ _.
Arguments spsc_head_ {T} _.
Arguments spsc_tail_ {T} _.
Arguments spsc_buffer_ {T} _.

Section SPSCQueue.
Context {T : Type} `{Inhabited T} (Capacity : Z).

Definition kIndexMask : Z := u64 (Capacity - 1).

(** [SPSCQueue() = default]: zero indices, [Capacity] value-initialised cells. *)
Definition SPSCQueue_default : SPSCQueue T :=
  mkSPSCQueue 0 0 (replicate (Z.to_nat Capacity) inhabitant).

Definition try_push (q : SPSCQueue T) (item : T) : option (bool * SPSCQueue T) :=
  let tail := spsc_tail_ q in
  let head := spsc_head_ q in
  if Capacity <=? u64 (tail - head) then Some (false, q)
  else
    buffer ← (spsc_buffer_ q).[Z.land tail kIndexMask <- item];
    Some (true, mkSPSCQueue head (u64 (tail + 1)) buffer).

Definition try_pop (q : SPSCQueue T) : option (option T * SPSCQueue T) :=
  let head := spsc_head_ q in
  let tail := spsc_tail_ q in
  if head =? tail then Some (None, q)
  else
    item ← (spsc_buffer_ q).[Z.land head kIndexMask];
    Some (Some item, mkSPSCQueue (u64 (head + 1)) tail (spsc_buffer_ q)).

Definition size_approx (q : SPSCQueue T) : Z := u64 (spsc_tail_ q - spsc_head_ q).

Definition empty_approx (q : SPSCQueue T) : bool := size_approx q =? 0.

Definition full_approx (q : SPSCQueue T) : bool := Capacity <=? size_approx q.

(** ** The abstract queue *)

Inductive SpscOp := OpPush (item : T) | OpPop.
Inductive SpscReply := DidPush (ok : bool) | DidPop (item : option T).

Definition spsc_apply (q : SPSCQueue T) (o : SpscOp) : option (SpscReply * SPSCQueue T) :=
  match o with
  | OpPush item => '(ok, q') ← try_push q item; Some (DidPush ok, q')
  | OpPop => '(item, q') ← try_pop q; Some (DidPop item, q')
  end.

Fixpoint spsc_run (q : SPSCQueue T) (ops : list SpscOp) : option (list SpscReply * SPSCQueue T) :=
  match ops with
  | [] => Some ([], q)
  | o :: ops =>
      '(r, q') ← spsc_apply q o;
      '(rs, q'') ← spsc_run q' ops;
      Some (r :: rs, q'')
  end.

(** A FIFO list that refuses a push at [Capacity] elements. *)
Definition fifo_apply (l : list T) (o : SpscOp) : SpscReply * list T :=
  match o, l with
  | OpPush item, _ =>
      if bool_decide (zlen l < Capacity) then (DidPush true, l ++ [item]) else (DidPush false, l)
  | OpPop, [] => (DidPop None, [])
  | OpPop, item :: l => (DidPop (Some item), l)
  end.

Fixpoint fifo_run (l : list T) (ops : list SpscOp) : list SpscReply * list T :=
  match ops with
  | [] => ([], l)
  | o :: ops =>
      let '(r, l') := fifo_apply l o in
      let '(rs, l'') := fifo_run l' ops in
      (r :: rs, l'')
  end.

(** ** Refinement *)

Definition spsc_repr (q : SPSCQueue T) (l : list T) : Prop :=
  fits 64 (spsc_head_ q) /\
  spsc_tail_ q = u64 (spsc_head_ q + zlen l) /\
  ring_repr Capacity (spsc_buffer_ q) (spsc_head_ q) l.

(** The template's [requires PowerOfTwoCapacity<Capacity>]. *)
Hypothesis Capacity_fits : fits 64 Capacity.
Hypothesis Capacity_pow2 : is_power_of_two Capacity = true.

Lemma Capacity_exp : exists k, 0 <= k < 64 /\ Capacity = 2 ^ k.
Proof. by apply is_power_of_two_inv. Qed.

Lemma Capacity_bounds : 0 < Capacity <= 2 ^ 63.
Proof.
  destruct Capacity_exp as (k & Hk & ->). split; [apply pow2_pos; lia|].
  apply Z.pow_le_mono_r; lia.
Qed.

Lemma kIndexMask_index x : Z.land (u64 x) kIndexMask = x mod Capacity.
Proof.
  pose proof Capacity_bounds. unfold kIndexMask. rewrite (wrap_small 64 (Capacity - 1)) by (unfold fits; lia).
  destruct Capacity_exp as (k & Hk & ->). apply mask_index; lia.
Qed.

Lemma kIndexMask_fits x : fits 64 x -> Z.land x kIndexMask = x mod Capacity.
Proof. intros Hx. by rewrite <-kIndexMask_index, wrap_small. Qed.

Lemma spsc_size_approx q l : spsc_repr q l -> size_approx q = zlen l.
Proof.
  intros (Hh & Ht & _ & Hle & _). pose proof Capacity_bounds. pose proof (zlen_nonneg l).
  unfold size_approx. rewrite Ht, wrap_sub_l.
  replace (_ - _) with (zlen l) by lia. apply wrap_small. unfold fits. lia.
Qed.

Lemma SPSCQueue_default_repr : spsc_repr SPSCQueue_default [].
Proof.
  pose proof Capacity_bounds. split_and!; [done|done|]. apply ring_repr_nil. simpl.
  rewrite zlen_replicate. lia.
Qed.

Lemma try_push_room q l x :
  spsc_repr q l -> zlen l < Capacity ->
  exists q', try_push q x = Some (true, q') /\ spsc_repr q' (l ++ [x]).
Proof.
  intros Hq Hlt. pose proof Hq as (Hh & Ht & Hr). pose proof Capacity_bounds.
  unfold try_push. fold (size_approx q). rewrite (spsc_size_approx q l Hq).
  destruct (Z.leb_spec Capacity (zlen l)); [lia|].
  rewrite Ht, kIndexMask_index.
  destruct (ring_repr_push Capacity _ _ _ x ltac:(lia) Hr Hlt) as (buf & -> & Hr').
  eexists; split; [done|]. split_and!; [done| |done]. simpl.
  autorewrite with zlen. rewrite wrap_add_l by lia. f_equal. lia.
Qed.

Lemma try_push_full q l x :
  spsc_repr q l -> zlen l = Capacity -> try_push q x = Some (false, q).
Proof.
  intros Hq Heq. unfold try_push. fold (size_approx q). rewrite (spsc_size_approx q l Hq).
  destruct (Z.leb_spec Capacity (zlen l)); [done|lia].
Qed.

Lemma spsc_head_eq_tail q l :
  spsc_repr q l -> (spsc_head_ q =? spsc_tail_ q) = bool_decide (l = []).
Proof.
  intros Hq. pose proof (spsc_size_approx q l Hq) as Hs. unfold size_approx in Hs.
  destruct Hq as (Hh & Ht & _). apply Bool.eq_iff_eq_true.
  rewrite Z.eqb_eq, bool_decide_eq_true. split.
  - intros He. rewrite He, Z.sub_diag in Hs. by destruct l.
  - intros ->. rewrite Ht. autorewrite with zlen. rewrite Z.add_0_r. by rewrite wrap_small.
Qed.

Lemma try_pop_empty q : spsc_repr q [] -> try_pop q = Some (None, q).
Proof. intros Hq. unfold try_pop. by rewrite (spsc_head_eq_tail q [] Hq). Qed.

Lemma try_pop_cons q x l :
  spsc_repr q (x :: l) ->
  exists q', try_pop q = Some (Some x, q') /\ spsc_repr q' l.
Proof.
  intros Hq. unfold try_pop. rewrite (spsc_head_eq_tail q _ Hq). simpl.
  destruct Hq as (Hh & Ht & Hr). apply ring_repr_pop in Hr as [Hget Hr].
  rewrite (kIndexMask_fits _ Hh), Hget. simpl.
  eexists; split; [done|]. split_and!; simpl.
  - by apply wrap_fits.
  - rewrite Ht. autorewrite with zlen. rewrite wrap_add_l by lia. f_equal. lia.
  - eapply ring_repr_index; [|done]. destruct Capacity_exp as (k & Hk & ->).
    symmetry. apply mod_u64. lia.
Qed.

Lemma spsc_apply_refines q l o :
  spsc_repr q l ->
  exists q', spsc_apply q o = Some ((fifo_apply l o).1, q') /\ spsc_repr q' (fifo_apply l o).2.
Proof.
  intros Hq. destruct o as [x|]; simpl.
  - case_bool_decide.
    + destruct (try_push_room q l x) as (q' & -> & ?); eauto.
    + assert (zlen l = Capacity) by (destruct Hq as (_ & _ & _ & ? & _); lia).
      rewrite (try_push_full q l x) by done. eauto.
  - destruct l as [|x l]; simpl.
    + rewrite try_pop_empty by done. eauto.
    + destruct (try_pop_cons q x l Hq) as (q' & -> & ?). eauto.
Qed.

Lemma spsc_run_refines_from q l ops :
  spsc_repr q l ->
  exists q', spsc_run q ops = Some ((fifo_run l ops).1, q') /\ spsc_repr q' (fifo_run l ops).2.
Proof.
  revert q l. induction ops as [|o ops IH]; intros q l Hq; simpl; [eauto|].
  destruct (spsc_apply_refines q l o Hq) as (q1 & -> & H1). simpl.
  destruct (fifo_apply l o) as [r l1]. simpl in *.
  destruct (IH q1 l1 H1) as (q2 & -> & H2). simpl.
  destruct (fifo_run l1 ops) as [rs l2]. eauto.
Qed.

(** C19: the SPSC queue refines a bounded FIFO list.  From any state that
    represents a list, whatever its indices are (so also across the wrap-around
    of [head_] and [tail_] at [2^64]), every sequence of [try_push] and
    [try_pop] runs without touching a cell outside of [buffer_], answers exactly
    what the bounded FIFO answers, and ends in a state that represents the
    FIFO's list, whose length [size_approx] returns. *)
Theorem spsc_refines_fifo (q : SPSCQueue T) (l : list T) (ops : list SpscOp) :
  spsc_repr q l ->
  exists q', spsc_run q ops = Some ((fifo_run l ops).1, q')
    /\ spsc_repr q' (fifo_run l ops).2
    /\ size_approx q' = zlen (fifo_run l ops).2.
Proof.
  intros (q' & Hrun & Hq')%(spsc_run_refines_from q l ops).
  exists q'. split_and!; [done|done|]. by apply spsc_size_approx.
Qed.

End SPSCQueue.

(** A queue of capacity 4 whose indices are about to wrap around at [2^64]. *)
Lemma spsc_refines_fifo_witness :
  let q := mkSPSCQueue (2 ^ 64 - 2) (2 ^ 64 - 1) [0; 0; 7; 0] in
  let ops := [OpPush 8; OpPush 9; OpPush 10; OpPush 11; OpPop; OpPop] in
  exists q', spsc_run 4 q ops
      = Some ([DidPush true; DidPush true; DidPush true; DidPush false; DidPop (Some 7); DidPop (Some 8)], q')
    /\ spsc_repr 4 q' [9; 10] /\ size_approx q' = 2.
Proof.
  apply (spsc_refines_fifo 4 ltac:(done) ltac:(done) _ [7]).
  split_and!; [done|done|]. split_and!; [done|done|].
  intros [|i] x; [by intros [= <-]|done].
Defined.

#[export] Instance SPSCQueue_fifo {T} `{Inhabited T} (k : Z) (Hk : 0 <= k < 64) :
  BoundedFifo (SPSCQueue T) T.
Proof.
  assert (fits 64 (2 ^ k)) as Hfits.
  { split; [apply Z.pow_nonneg; lia|]. apply Z.pow_lt_mono_r; lia. }
  refine {| bf_repr := spsc_repr (2 ^ k); bf_pop := try_pop (2 ^ k) |}.
  - intros q. by apply try_pop_empty; auto using is_power_of_two_pow.
  - intros q x l. by apply try_pop_cons; auto using is_power_of_two_pow.
Defined.
