(* ===== verification/SpscConcurrent.v ===== *)
(** * [spsc_queue.hpp] under concurrency

    One producer thread runs [try_push], one consumer thread runs [try_pop], and
    their memory accesses interleave.  Each atomic index is its modification
    order, the list of the values stored to it so far; an acquire load may
    return any store that is not older than the last one the loading thread has
    seen (so a stale value), while a thread reads back its own last store.  What
    an acquire load has seen is kept as a view: reading the [j]-th store
    synchronises with it, which is the happens-before edge the plain accesses
    to [buffer_] rely on. *)

From S2P Require Import Prelude Types Ring SpscQueue.

(** Where the producer is inside [try_push(item)], with the locals it has. *)
Inductive ProducerPc (T : Type) :=
| P_idle
| P_called (item : T)
| P_tail (item : T) (tail : Z)
| P_head (item : T) (tail head : Z)
| P_written (item : T) (tail : Z).
Arguments P_idle {T}.
Arguments P_called {T} _.
Arguments P_tail {T} _ _.
Arguments P_head {T} _ _ _.
Arguments P_written {T} _ _.

(** Where the consumer is inside [try_pop()]. *)
Inductive ConsumerPc (T : Type) :=
| C_idle
| C_called
| C_head (head : Z)
| C_tail (head tail : Z)
| C_read (head : Z) (item : T).
Arguments C_idle {T}.
Arguments C_called {T}.
Arguments C_head {T} _.
Arguments C_tail {T} _ _.
Arguments C_read {T} _ _.

(** [cs_pushed] and [cs_popped] are the histories of completed operations. *)
Record ConcSpsc (T : Type) := mkConc {
  cs_head_mo : list Z;
  cs_tail_mo : list Z;
  cs_buffer : list T;
  cs_producer : ProducerPc T;
  cs_head_view : nat;
  cs_consumer : ConsumerPc T;
  cs_tail_view : nat;
  cs_pushed : list T;
  cs_popped : list T;
}.
Arguments mkConc {T} _ _ _ _ _ _ _ _ _.
Arguments cs_head_mo {T} _.
Arguments cs_tail_mo {T} _.
Arguments cs_buffer {T} _.
Arguments cs_producer {T} _.
Arguments cs_head_view {T} _.
Arguments cs_consumer {T} _.
Arguments cs_tail_view {T} _.
Arguments cs_pushed {T} _.
Arguments cs_popped {T} _.

Section SpscConcurrent.
Context {T : Type} `{Inhabited T} (Capacity : Z).

Definition conc_init : ConcSpsc T :=
  mkConc [0] [0] (replicate (Z.to_nat Capacity) inhabitant) P_idle 0 C_idle 0 [] [].

(** One memory access or one local branch of the producer. *)
Inductive producer_step : ConcSpsc T -> ConcSpsc T -> Prop :=
| step_push_call hm tm b hv cp tv hs ps item :
    producer_step (mkConc hm tm b P_idle hv cp tv hs ps)
              (mkConc hm tm b (P_called item) hv cp tv hs ps)
| step_push_load_tail hm tm b hv cp tv hs ps item tail :
    last tm = Some tail ->
    producer_step (mkConc hm tm b (P_called item) hv cp tv hs ps)
              (mkConc hm tm b (P_tail item tail) hv cp tv hs ps)
| step_push_load_head hm tm b hv cp tv hs ps item tail j head :
    (hv <= j)%nat -> hm !! j = Some head ->
    producer_step (mkConc hm tm b (P_tail item tail) hv cp tv hs ps)
              (mkConc hm tm b (P_head item tail head) j cp tv hs ps)
| step_push_full hm tm b hv cp tv hs ps item tail head :
    Capacity <= u64 (tail - head) ->
    producer_step (mkConc hm tm b (P_head item tail head) hv cp tv hs ps)
              (mkConc hm tm b P_idle hv cp tv hs ps)
| step_push_write hm tm b b' hv cp tv hs ps item tail head :
    u64 (tail - head) < Capacity ->
    b.[Z.land tail (kIndexMask Capacity) <- item] = Some b' ->
    producer_step (mkConc hm tm b (P_head item tail head) hv cp tv hs ps)
              (mkConc hm tm b' (P_written item tail) hv cp tv hs ps)
| step_push_store_tail hm tm b hv cp tv hs ps item tail :
    producer_step (mkConc hm tm b (P_written item tail) hv cp tv hs ps)
              (mkConc hm (tm ++ [u64 (tail + 1)]) b P_idle hv cp tv (hs ++ [item]) ps).

(** One memory access or one local branch of the consumer. *)
Inductive consumer_step : ConcSpsc T -> ConcSpsc T -> Prop :=
| step_pop_call hm tm b pp hv tv hs ps :
    consumer_step (mkConc hm tm b pp hv C_idle tv hs ps)
              (mkConc hm tm b pp hv C_called tv hs ps)
| step_pop_load_head hm tm b pp hv tv hs ps head :
    last hm = Some head ->
    consumer_step (mkConc hm tm b pp hv C_called tv hs ps)
              (mkConc hm tm b pp hv (C_head head) tv hs ps)
| step_pop_load_tail hm tm b pp hv tv hs ps head j tail :
    (tv <= j)%nat -> tm !! j = Some tail ->
    consumer_step (mkConc hm tm b pp hv (C_head head) tv hs ps)
              (mkConc hm tm b pp hv (C_tail head tail) j hs ps)
| step_pop_empty hm tm b pp hv tv hs ps head tail :
    head = tail ->
    consumer_step (mkConc hm tm b pp hv (C_tail head tail) tv hs ps)
              (mkConc hm tm b pp hv C_idle tv hs ps)
| step_pop_read hm tm b pp hv tv hs ps head tail item :
    head <> tail ->
    b.[Z.land head (kIndexMask Capacity)] = Some item ->
    consumer_step (mkConc hm tm b pp hv (C_tail head tail) tv hs ps)
              (mkConc hm tm b pp hv (C_read head item) tv hs ps)
| step_pop_store_head hm tm b pp hv tv hs ps head item :
    consumer_step (mkConc hm tm b pp hv (C_read head item) tv hs ps)
              (mkConc (hm ++ [u64 (head + 1)]) tm b pp hv C_idle tv hs (ps ++ [item])).

Definition conc_step (c c' : ConcSpsc T) : Prop := producer_step c c' \/ consumer_step c c'.

Definition conc_reachable : ConcSpsc T -> Prop := rtc conc_step conc_init.

(** ** The invariant *)

(** The stores to an index so far: it counts up by one, modulo [2^64]. *)
Definition counting (mo : list Z) : Prop :=
  forall (i : nat) v, mo !! i = Some v -> v = u64 (Z.of_nat i).

Definition producer_ok (c : ConcSpsc T) : Prop :=
  let n := Z.of_nat (length (cs_pushed c)) in
  match cs_producer c with
  | P_idle | P_called _ => True
  | P_tail _ tail => tail = u64 n
  | P_head _ tail head => tail = u64 n /\ head = u64 (Z.of_nat (cs_head_view c))
  | P_written item tail =>
      tail = u64 n /\ n - Z.of_nat (cs_head_view c) < Capacity /\
      (cs_buffer c).[n mod Capacity] = Some item
  end.

Definition consumer_ok (c : ConcSpsc T) : Prop :=
  let h := Z.of_nat (length (cs_popped c)) in
  match cs_consumer c with
  | C_idle | C_called => True
  | C_head head => head = u64 h
  | C_tail head tail => head = u64 h /\ tail = u64 (Z.of_nat (cs_tail_view c))
  | C_read head item =>
      head = u64 h /\ (length (cs_popped c) < cs_tail_view c)%nat /\
      cs_pushed c !! length (cs_popped c) = Some item
  end.

Record conc_inv (c : ConcSpsc T) : Prop := {
  ci_head_mo : counting (cs_head_mo c);
  ci_tail_mo : counting (cs_tail_mo c);
  ci_head_len : length (cs_head_mo c) = S (length (cs_popped c));
  ci_tail_len : length (cs_tail_mo c) = S (length (cs_pushed c));
  ci_views : (cs_head_view c <= length (cs_popped c) <= cs_tail_view c)%nat
             /\ (cs_tail_view c <= length (cs_pushed c))%nat;
  ci_room : Z.of_nat (length (cs_pushed c)) - Z.of_nat (cs_head_view c) <= Capacity;
  ci_fifo : cs_popped c `prefix_of` cs_pushed c;
  ci_cells : ring_repr Capacity (cs_buffer c) (Z.of_nat (length (cs_popped c)))
               (drop (length (cs_popped c)) (cs_pushed c));
  ci_producer : producer_ok c;
  ci_consumer : consumer_ok c;
}.

Hypothesis Capacity_fits : fits 64 Capacity.
Hypothesis Capacity_pow2 : is_power_of_two Capacity = true.

Lemma counting_snoc mo x :
  counting mo -> x = u64 (Z.of_nat (length mo)) -> counting (mo ++ [x]).
Proof.
  intros Hc -> i v [Hi|[Hi [Hz <-]%list_lookup_singleton_Some]]%lookup_app_Some; [by apply Hc|].
  f_equal. lia.
Qed.

Lemma counting_last mo v : counting mo -> last mo = Some v -> v = u64 (Z.of_nat (pred (length mo))).
Proof. intros Hc Hl. apply Hc. by rewrite <-last_lookup. Qed.

(** A wrapped difference of two counters that are close is the difference. *)
Lemma u64_counter_diff a b : 0 <= a - b < 2 ^ 64 -> u64 (u64 a - u64 b) = a - b.
Proof. intros. rewrite wrap_sub by lia. by apply wrap_small. Qed.

Lemma u64_counter_eq a b : 0 <= a - b < 2 ^ 64 -> u64 a = u64 b -> a = b.
Proof.
  intros Hd Heq. pose proof (u64_counter_diff a b Hd) as Hz.
  rewrite Heq, Z.sub_diag, wrap_small in Hz by done. lia.
Qed.

Lemma conc_init_inv : conc_inv conc_init.
Proof.
  pose proof (Capacity_bounds Capacity Capacity_fits Capacity_pow2).
  split; simpl; try done; try lia.
  - intros [|i] v; [by intros [= <-]|done].
  - intros [|i] v; [by intros [= <-]|done].
  - apply ring_repr_nil. rewrite zlen_replicate. lia.
Qed.

(** ** Preservation *)

Section preservation.
Context (c : ConcSpsc T) (Hinv : conc_inv c).

Let n := Z.of_nat (length (cs_pushed c)).
Let h := Z.of_nat (length (cs_popped c)).
Let hv := Z.of_nat (cs_head_view c).
Let tv := Z.of_nat (cs_tail_view c).

(** The order of the four counters, and their spread. *)
Lemma conc_counters : 0 <= hv <= h /\ h <= tv <= n /\ n - hv <= Capacity /\ Capacity <= 2 ^ 63.
Proof.
  pose proof (Capacity_bounds Capacity Capacity_fits Capacity_pow2).
  destruct Hinv as [_ _ _ _ [Hv1 Hv2] Hroom _ _ _ _]. subst n h hv tv. lia.
Qed.

Lemma producer_room item tail head :
  cs_producer c = P_head item tail head -> u64 (tail - head) = n - hv.
Proof.
  intros Hpc. pose proof conc_counters. pose proof (ci_producer _ Hinv) as Hp.
  unfold producer_ok in Hp. rewrite Hpc in Hp. destruct Hp as [-> ->].
  apply u64_counter_diff. subst n hv. lia.
Qed.

Lemma consumer_sees head tail :
  cs_consumer c = C_tail head tail -> head <> tail <-> h < tv.
Proof.
  intros Hpc. pose proof conc_counters. pose proof (ci_consumer _ Hinv) as Hp.
  unfold consumer_ok in Hp. rewrite Hpc in Hp. destruct Hp as [-> ->].
  fold h tv. split; intros Hne.
  - destruct (decide (h = tv)) as [->|]; [done|lia].
  - intros Heq. symmetry in Heq. apply u64_counter_eq in Heq; lia.
Qed.

(** The cells from the oldest item on hold the items not popped yet. *)
Lemma conc_front item :
  cs_pushed c !! length (cs_popped c) = Some item ->
  (cs_buffer c).[h mod Capacity] = Some item.
Proof.
  intros Hi. destruct (ci_cells _ Hinv) as (_ & _ & Hl).
  rewrite <-(Hl 0%nat item).
  - f_equal. subst h. f_equal. lia.
  - by rewrite lookup_drop, Nat.add_0_r.
Qed.

Lemma drop_pushed_length : zlen (drop (length (cs_popped c)) (cs_pushed c)) = n - h.
Proof. pose proof conc_counters. unfold zlen. rewrite length_drop. subst n h. lia. Qed.

(** Writing the cell of index [n] does not disturb the items in flight. *)
Lemma conc_write_frame b item :
  n - hv < Capacity -> (cs_buffer c).[n mod Capacity <- item] = Some b ->
  ring_repr Capacity b h (drop (length (cs_popped c)) (cs_pushed c)).
Proof.
  intros Hlt Hset. pose proof conc_counters. pose proof drop_pushed_length as Hlen.
  eapply ring_repr_frame; [lia|apply (ci_cells _ Hinv)|done|].
  intros j Hj Heq. apply mod_window_inj in Heq; unfold zlen in Hlen; subst h n; lia.
Qed.

Lemma conc_push_cells item :
  n - hv < Capacity -> (cs_buffer c).[n mod Capacity] = Some item ->
  ring_repr Capacity (cs_buffer c) h (drop (length (cs_popped c)) (cs_pushed c ++ [item])).
Proof.
  intros Hlt Hcell. pose proof conc_counters. pose proof drop_pushed_length as Hlen.
  rewrite drop_app_le by (subst n h; lia).
  destruct (ci_cells _ Hinv) as (Hb & _ & Hl). split_and!; [done| |].
  - autorewrite with zlen. lia.
  - intros i x [Hi|[Hi [Hz <-]%list_lookup_singleton_Some]]%lookup_app_Some; [by apply Hl|].
    rewrite <-Hcell. f_equal. f_equal. unfold zlen in Hlen. subst h n. lia.
Qed.

Lemma conc_pop_cells item :
  cs_pushed c !! length (cs_popped c) = Some item ->
  ring_repr Capacity (cs_buffer c) (h + 1) (drop (S (length (cs_popped c))) (cs_pushed c)).
Proof.
  intros Hi. pose proof (ci_cells _ Hinv) as Hr. fold h in Hr.
  rewrite (drop_S _ _ _ Hi) in Hr. by apply ring_repr_pop in Hr as [_ Hr].
Qed.

End preservation.

Lemma prefix_snoc_lookup {A} (l1 l2 : list A) x :
  l1 `prefix_of` l2 -> l2 !! length l1 = Some x -> (l1 ++ [x]) `prefix_of` l2.
Proof.
  intros [k ->] Hx. rewrite lookup_app_r, Nat.sub_diag in Hx by lia.
  destruct k as [|y k]; simplify_eq/=. exists k. by rewrite <-app_assoc.
Qed.

Ltac inv_step :=
  match goal with
  | H : conc_inv _ |- _ =>
      pose proof (conc_counters _ H); destruct H;
      unfold producer_ok, consumer_ok in *; simpl in *
  end.

Lemma producer_step_inv c c' : conc_inv c -> producer_step c c' -> conc_inv c'.
Proof.
  intros Hinv Hstep. destruct Hstep; simpl in *; simplify_eq.
  - inv_step. by split.
  - inv_step. split; try done. simpl. unfold producer_ok. simpl.
    rewrite (counting_last tm tail) by done. by rewrite ci_tail_len0.
  - inv_step. assert (head = u64 (Z.of_nat j)) as -> by by apply ci_head_mo0.
    assert (j < length hm)%nat by by eapply lookup_lt_Some.
    split; simpl; try done; try lia.
  - inv_step. by split.
  - pose proof (producer_room _ Hinv item tail head eq_refl) as Hroom.
    pose proof (conc_write_frame _ Hinv) as Hw.
    inv_step. destruct ci_producer0 as [-> ->].
    rewrite kIndexMask_index in * by done. rewrite Hroom in *.
    split; simpl; try done.
    + apply (Hw b' item); [lia|done].
    + split_and!; [done|simpl; lia|]. simpl. by eapply aget_aset_eq.
  - pose proof (conc_push_cells _ Hinv item) as Hcells.
    inv_step. destruct ci_producer0 as (-> & Hlt & Hcell).
    split; simpl; rewrite ?length_app; simpl in *; try done; try lia.
    + apply counting_snoc; [done|]. rewrite wrap_add_l by lia. f_equal. lia.
    + by apply prefix_app_r.
    + by apply Hcells.
    + unfold consumer_ok in *. simpl in *. destruct cp as [| | | |head0 x]; try done.
      destruct ci_consumer0 as (? & ? & Hx). split_and!; [done..|].
      by apply lookup_app_l_Some.
Qed.

Lemma consumer_step_inv c c' : conc_inv c -> consumer_step c c' -> conc_inv c'.
Proof.
  intros Hinv Hstep. destruct Hstep; simpl in *; simplify_eq.
  - inv_step. by split.
  - inv_step. split; try done. simpl. unfold consumer_ok. simpl.
    rewrite (counting_last hm head) by done. by rewrite ci_head_len0.
  - inv_step. assert (tail = u64 (Z.of_nat j)) as -> by by apply ci_tail_mo0.
    assert (j < length tm)%nat by by eapply lookup_lt_Some.
    split; simpl; try done; try lia.
  - inv_step. by split.
  - pose proof (proj1 (consumer_sees _ Hinv head tail eq_refl) ltac:(done)) as Hlt.
    pose proof (conc_front _ Hinv) as Hfront.
    inv_step. destruct ci_consumer0 as [-> ->].
    rewrite kIndexMask_index in * by done.
    destruct (lookup_lt_is_Some_2 hs (length ps)) as [x Hx]; [lia|].
    rewrite (Hfront x Hx) in *. simplify_eq.
    split; simpl; try done. split_and!; [done|simpl; lia|done].
  - pose proof (conc_pop_cells _ Hinv item) as Hcells.
    inv_step. destruct ci_consumer0 as (-> & Hlt & Hx). simpl in *.
    split; simpl; rewrite ?length_app; simpl; try done; try lia.
    + apply counting_snoc; [done|]. rewrite wrap_add_l by lia. f_equal. lia.
    + by apply prefix_snoc_lookup.
    + rewrite Nat.add_1_r. replace (Z.of_nat (S _)) with (Z.of_nat (length ps) + 1) by lia.
      by apply Hcells.
Qed.

Lemma conc_reachable_inv c : conc_reachable c -> conc_inv c.
Proof.
  unfold conc_reachable. generalize conc_init, conc_init_inv.
  intros c0 H0 Hr. induction Hr as [|c1 c2 c3 [Hs|Hs] _ IH]; [done|..].
  - apply IH. by eapply producer_step_inv.
  - apply IH. by eapply consumer_step_inv.
Qed.

(** ** What the queue guarantees its two threads *)

(** C3: the concurrent queue is a bounded FIFO channel.  In every state the two
    threads can reach, with stale index loads allowed, the items popped so far
    are a prefix of the items pushed so far (nothing is lost, duplicated,
    reordered or invented) and at most [Capacity] items are in flight. *)
Theorem spsc_concurrent_fifo c :
  conc_reachable c ->
  cs_popped c `prefix_of` cs_pushed c /\
  Z.of_nat (length (cs_pushed c)) - Z.of_nat (length (cs_popped c)) <= Capacity.
Proof.
  intros Hinv%conc_reachable_inv. split; [apply (ci_fifo _ Hinv)|].
  pose proof (conc_counters _ Hinv). lia.
Qed.

(** The thread is about to access this cell of [buffer_] without an atomic. *)
Definition writes_cell (c : ConcSpsc T) (i : Z) : Prop :=
  exists item tail head, cs_producer c = P_head item tail head
    /\ u64 (tail - head) < Capacity /\ i = Z.land tail (kIndexMask Capacity).

Definition reads_cell (c : ConcSpsc T) (i : Z) : Prop :=
  exists head tail, cs_consumer c = C_tail head tail
    /\ head <> tail /\ i = Z.land head (kIndexMask Capacity).

Lemma writes_cell_spec c i :
  conc_inv c -> writes_cell c i ->
  i = Z.of_nat (length (cs_pushed c)) mod Capacity /\
  Z.of_nat (length (cs_pushed c)) - Z.of_nat (cs_head_view c) < Capacity.
Proof.
  intros Hinv (item & tail & head & Hpc & Hlt & ->).
  rewrite (producer_room _ Hinv _ _ _ Hpc) in Hlt.
  pose proof (ci_producer _ Hinv) as Hp. unfold producer_ok in Hp. rewrite Hpc in Hp.
  destruct Hp as [-> _]. by rewrite kIndexMask_index.
Qed.

Lemma reads_cell_spec c i :
  conc_inv c -> reads_cell c i ->
  i = Z.of_nat (length (cs_popped c)) mod Capacity /\
  (length (cs_popped c) < cs_tail_view c)%nat.
Proof.
  intros Hinv (head & tail & Hpc & Hne & ->).
  apply (consumer_sees _ Hinv _ _ Hpc) in Hne.
  pose proof (ci_consumer _ Hinv) as Hp. unfold consumer_ok in Hp. rewrite Hpc in Hp.
  destruct Hp as [-> _]. rewrite kIndexMask_index by done. split; [done|lia].
Qed.

(** C33: the plain accesses to [buffer_] are free of data races.  In every
    reachable state the cell the producer is about to overwrite is not the one
    the consumer is about to read; every earlier item that lived in the
    producer's cell has an index below the producer's view of [head_], so the
    pop that read it happens before the write through an acquired release of
    [head_]; and the item the consumer is about to read has an index below its
    view of [tail_], so the push that wrote it happens before the read. *)
Theorem spsc_no_data_race c i j :
  conc_reachable c ->
  (writes_cell c i -> reads_cell c j -> i <> j) /\
  (writes_cell c i -> forall old : nat, (old < length (cs_pushed c))%nat ->
     Z.of_nat old mod Capacity = i -> (old < cs_head_view c)%nat) /\
  (reads_cell c j -> (length (cs_popped c) < cs_tail_view c)%nat).
Proof.
  intros Hinv%conc_reachable_inv. pose proof (conc_counters _ Hinv) as Hc.
  pose proof (Capacity_bounds Capacity Capacity_fits Capacity_pow2). split_and!.
  - intros [-> Hw]%writes_cell_spec [-> Hr]%reads_cell_spec Heq; [|done..].
    apply mod_window_inj in Heq; lia.
  - intros [-> Hw]%writes_cell_spec old Hold Heq; [|done].
    destruct (decide (old < cs_head_view c)%nat) as [|Hge]; [done|].
    apply mod_window_inj in Heq; lia.
  - intros [_ Hr]%reads_cell_spec; done.
Qed.

(** How many of its own steps a call still takes, at most. *)
Definition push_rank (c : ConcSpsc T) : nat :=
  match cs_producer c with
  | P_idle => 0 | P_written _ _ => 1 | P_head _ _ _ => 2 | P_tail _ _ => 3 | P_called _ => 4
  end.

Definition pop_rank (c : ConcSpsc T) : nat :=
  match cs_consumer c with
  | C_idle => 0 | C_read _ _ => 1 | C_tail _ _ => 2 | C_head _ => 3 | C_called => 4
  end.

Lemma producer_progress c :
  conc_inv c -> cs_producer c <> P_idle -> exists c', producer_step c c'.
Proof.
  intros Hinv Hpc. pose proof (Capacity_bounds Capacity Capacity_fits Capacity_pow2).
  pose proof (writes_cell_spec c) as Hw. pose proof (ci_cells _ Hinv) as (Hb & _).
  destruct c as [hm tm b [|item|item tail|item tail head|item tail] hv cp tv hs ps]; simpl in *.
  - done.
  - destruct (last tm) as [tail|] eqn:Hl; [eexists; by econstructor|].
    apply last_None in Hl as ->. by destruct Hinv.
  - destruct Hinv as [_ _ Hlen _ [? _] _ _ _ _ _]; simpl in *.
    destruct (lookup_lt_is_Some_2 hm hv) as [head Hh]; [lia|].
    eexists. by apply (step_push_load_head _ _ _ _ _ _ _ _ _ _ hv head).
  - destruct (decide (Capacity <= u64 (tail - head))); [eexists; by apply step_push_full|].
    destruct (Hw (Z.land tail (kIndexMask Capacity)) Hinv) as [Hi _].
    { exists item, tail, head. split_and!; [done|lia|done]. }
    eexists. eapply step_push_write; [lia|]. rewrite Hi. apply aset_in_range. rewrite Hb.
    apply Z.mod_pos_bound. lia.
  - eexists. apply step_push_store_tail.
Qed.

Lemma consumer_progress c :
  conc_inv c -> cs_consumer c <> C_idle -> exists c', consumer_step c c'.
Proof.
  intros Hinv Hpc. pose proof (reads_cell_spec c) as Hr. pose proof (conc_front c Hinv) as Hf.
  pose proof (conc_counters _ Hinv) as Hc.
  destruct c as [hm tm b pp hv [| |head|head tail|head item] tv hs ps]; simpl in *.
  - done.
  - destruct (last hm) as [head|] eqn:Hl; [eexists; by econstructor|].
    apply last_None in Hl as ->. by destruct Hinv.
  - destruct Hinv as [_ _ _ Hlen [_ ?] _ _ _ _ _]; simpl in *.
    destruct (lookup_lt_is_Some_2 tm tv) as [tail Ht]; [lia|].
    eexists. by apply (step_pop_load_tail _ _ _ _ _ _ _ _ _ tv tail).
  - destruct (decide (head = tail)); [eexists; by apply step_pop_empty|].
    destruct (Hr (Z.land head (kIndexMask Capacity)) Hinv) as [Hi Hlt]; [by exists head, tail|].
    destruct (lookup_lt_is_Some_2 hs (length ps)) as [x Hx]; [lia|].
    eexists. eapply step_pop_read; [done|]. rewrite Hi. by apply Hf.
  - eexists. apply step_pop_store_head.
Qed.

(** Both operations are wait-free and stay inside of [buffer_].  In every
    reachable state a thread that is inside a call has an enabled step of its
    own (in particular its array index is in range), and each of its own steps
    brings the call closer to its end, so a call ends after at most four of
    them, whatever the other thread does. *)
Theorem spsc_wait_free c :
  conc_reachable c ->
  (cs_producer c <> P_idle -> exists c', producer_step c c') /\
  (cs_consumer c <> C_idle -> exists c', consumer_step c c') /\
  (forall c', producer_step c c' -> cs_producer c <> P_idle -> (push_rank c' < push_rank c <= 4)%nat) /\
  (forall c', consumer_step c c' -> cs_consumer c <> C_idle -> (pop_rank c' < pop_rank c <= 4)%nat).
Proof.
  intros Hinv%conc_reachable_inv. split_and!.
  - by apply producer_progress.
  - by apply consumer_progress.
  - intros c' [] ?; simpl in *; unfold push_rank; simpl; try done; lia.
  - intros c' [] ?; simpl in *; unfold pop_rank; simpl; try done; lia.
Qed.

End SpscConcurrent.

(** A state at capacity 2 with both threads inside a call: 5 has been pushed,
    the producer is about to write 6 and the consumer is about to read 5. *)
Definition conc_example : ConcSpsc Z :=
  mkConc [0] [0; 1] [5; inhabitant] (P_head 6 1 0) 0 (C_tail 0 1) 1 [5] [].

Lemma conc_example_reachable : conc_reachable 2 conc_example.
Proof.
  unfold conc_reachable, conc_init.
  eapply rtc_l; [left; apply (step_push_call 2 _ _ _ _ _ _ _ _ 5)|].
  eapply rtc_l; [left; by apply (step_push_load_tail 2 _ _ _ _ _ _ _ _ _ 0)|].
  eapply rtc_l; [left; by apply (step_push_load_head 2 _ _ _ _ _ _ _ _ _ _ 0 0)|].
  eapply rtc_l; [left; apply (step_push_write 2 _ _ _ [5; inhabitant]); by vm_compute|].
  eapply rtc_l; [left; apply step_push_store_tail|].
  eapply rtc_l; [left; apply (step_push_call 2 _ _ _ _ _ _ _ _ 6)|].
  eapply rtc_l; [right; apply step_pop_call|].
  eapply rtc_l; [right; by apply (step_pop_load_head 2 _ _ _ _ _ _ _ _ 0)|].
  eapply rtc_l; [left; by apply (step_push_load_tail 2 _ _ _ _ _ _ _ _ _ 1)|].
  eapply rtc_l; [left; by apply (step_push_load_head 2 _ _ _ _ _ _ _ _ _ _ 0 0)|].
  eapply rtc_l; [right; apply (step_pop_load_tail 2 _ _ _ _ _ _ _ _ _ 1 1); [lia|done]|].
  apply rtc_refl.
Qed.

Lemma fits_64_2 : fits 64 2.
Proof. done. Qed.

Lemma spsc_concurrent_fifo_witness :
  cs_popped conc_example `prefix_of` cs_pushed conc_example /\
  Z.of_nat (length (cs_pushed conc_example)) - Z.of_nat (length (cs_popped conc_example)) <= 2.
Proof. apply (spsc_concurrent_fifo 2); [done|done|apply conc_example_reachable]. Defined.

Lemma spsc_no_data_race_witness :
  writes_cell 2 conc_example 1 /\ reads_cell 2 conc_example 0 /\ 1 <> 0.
Proof.
  assert (writes_cell 2 conc_example 1) as Hw by by exists 6, 1, 0.
  assert (reads_cell 2 conc_example 0) as Hr by by exists 0, 1.
  split_and!; [done|done|].
  by destruct (spsc_no_data_race 2 fits_64_2 eq_refl conc_example 1 0 conc_example_reachable)
    as [Hne _]; apply Hne.
Defined.

Lemma spsc_wait_free_witness :
  (exists c', producer_step 2 conc_example c') /\ (exists c', consumer_step 2 conc_example c').
Proof.
  destruct (spsc_wait_free 2 fits_64_2 eq_refl conc_example conc_example_reachable) as (H1 & H2 & _).
  split; [by apply H1|by apply H2].
Defined.
