(* ===== verification/TimingWheel.v ===== *)
(** * [include/chronosx/timing_wheel.hpp]: the delay scheduler

    The wheel's arrays and counters as the class keeps them, [schedule] and
    [tick] as they run, and the refinement to a calendar: the function that maps
    a tick to the frames that are due then. *)

From S2P Require Import Prelude Types Ring.

Record DelayedFrame := mkDelayedFrame {
  df_frame_address : Z;
  df_frame_length : Z;
  df_rule_id : Z;
  df_release_tick : Z;
}.

#[export] Instance DelayedFrame_inhabited : Inhabited DelayedFrame :=
  populate (mkDelayedFrame 0 0 0 0).

Definition df_set_release_tick (f : DelayedFrame) (t : Z) : DelayedFrame :=
  mkDelayedFrame (df_frame_address f) (df_frame_length f) (df_rule_id f) t.

Inductive ScheduleStatus :=
| ScheduleStatus_Scheduled
| ScheduleStatus_DelayTooLarge
| ScheduleStatus_SlotFull.

#[export] Instance ScheduleStatus_eq_dec : EqDecision ScheduleStatus.
Proof. solve_decision. Defined.

Definition schedule_status_name (status : ScheduleStatus) : string :=
  match status with
  | ScheduleStatus_Scheduled => "Scheduled"
  | ScheduleStatus_DelayTooLarge => "DelayTooLarge"
  | ScheduleStatus_SlotFull => "SlotFull"
  end.

Record Slot := mkSlot {
  slot_frames : list DelayedFrame;
  slot_count : Z;
}.

Record TimingWheel := mkTimingWheel {
  tw_slots_ : list Slot;
  tw_expired_ : list DelayedFrame;
  tw_current_tick_ : Z;
  tw_expired_count_ : Z;
  tw_pending_count_ : Z;
  tw_schedule_failures_ : Z;
}.

Section TimingWheel.
Context (SlotCount MaxFramesPerSlot : Z).

Definition kSlotMask : Z := u64 (SlotCount - 1).

Definition TimingWheel_default : TimingWheel :=
  mkTimingWheel
    (replicate (Z.to_nat SlotCount) (mkSlot (replicate (Z.to_nat MaxFramesPerSlot) inhabitant) 0))
    (replicate (Z.to_nat MaxFramesPerSlot) inhabitant) 0 0 0 0.

Definition schedule_failed (w : TimingWheel) : TimingWheel :=
  mkTimingWheel (tw_slots_ w) (tw_expired_ w) (tw_current_tick_ w) (tw_expired_count_ w)
    (tw_pending_count_ w) (u64 (tw_schedule_failures_ w + 1)).

Definition schedule (w : TimingWheel) (frame : DelayedFrame) (delay_ticks : Z)
    : option (ScheduleStatus * TimingWheel) :=
  if SlotCount <? delay_ticks then Some (ScheduleStatus_DelayTooLarge, schedule_failed w)
  else
    let delay_ticks := if delay_ticks =? 0 then 1 else delay_ticks in
    let frame := df_set_release_tick frame (u64 (tw_current_tick_ w + delay_ticks)) in
    let slot_index := Z.land (df_release_tick frame) kSlotMask in
    slot ← (tw_slots_ w).[slot_index];
    if MaxFramesPerSlot <=? slot_count slot
    then Some (ScheduleStatus_SlotFull, schedule_failed w)
    else
      frames ← (slot_frames slot).[slot_count slot <- frame];
      slots ← (tw_slots_ w).[slot_index <- mkSlot frames (u64 (slot_count slot + 1))];
      Some (ScheduleStatus_Scheduled,
        mkTimingWheel slots (tw_expired_ w) (tw_current_tick_ w) (tw_expired_count_ w)
          (u64 (tw_pending_count_ w + 1)) (tw_schedule_failures_ w)).

(** The locals and members the loop of [tick] changes. *)
Record TickLoop := mkTickLoop {
  tl_frames : list DelayedFrame;
  tl_kept_count : Z;
  tl_expired : list DelayedFrame;
  tl_expired_count : Z;
  tl_pending_count : Z;
}.

(** The loop from [index] on, with [n] iterations left. *)
Fixpoint tick_loop (n : nat) (index current_tick : Z) (st : TickLoop) : option TickLoop :=
  match n with
  | O => Some st
  | S n =>
      frame ← (tl_frames st).[index];
      if df_release_tick frame <=? current_tick then
        expired ← (tl_expired st).[tl_expired_count st <- frame];
        tick_loop n (index + 1) current_tick
          (mkTickLoop (tl_frames st) (tl_kept_count st) expired
             (u64 (tl_expired_count st + 1)) (u64 (tl_pending_count st - 1)))
      else
        frames ← (tl_frames st).[tl_kept_count st <- frame];
        tick_loop n (index + 1) current_tick
          (mkTickLoop frames (u64 (tl_kept_count st + 1)) (tl_expired st)
             (tl_expired_count st) (tl_pending_count st))
  end.

(** Returns the frames of the span [{expired_.data(), expired_count_}]. *)
Definition tick (w : TimingWheel) : option (list DelayedFrame * TimingWheel) :=
  let current_tick := u64 (tw_current_tick_ w + 1) in
  let slot_index := Z.land current_tick kSlotMask in
  slot ← (tw_slots_ w).[slot_index];
  st ← tick_loop (Z.to_nat (slot_count slot)) 0 current_tick
         (mkTickLoop (slot_frames slot) 0 (tw_expired_ w) 0 (tw_pending_count_ w));
  slots ← (tw_slots_ w).[slot_index <- mkSlot (tl_frames st) (tl_kept_count st)];
  Some (take (Z.to_nat (tl_expired_count st)) (tl_expired st),
    mkTimingWheel slots (tl_expired st) current_tick (tl_expired_count st)
      (tl_pending_count st) (tw_schedule_failures_ w)).

Definition slot_pending_count (w : TimingWheel) (slot_index : Z) : option Z :=
  if slot_index <? SlotCount then slot ← (tw_slots_ w).[slot_index]; Some (slot_count slot)
  else Some 0.

Definition wheel_empty (w : TimingWheel) : bool := tw_pending_count_ w =? 0.

Definition max_delay_ticks : Z := SlotCount.

(** ** The calendar

    [D t] is the list of the frames due at tick [t], in the order in which they
    were scheduled; ticks are counted without wrap-around. *)

Definition Calendar := Z -> list DelayedFrame.

Definition cal_empty : Calendar := fun _ => [].

Definition cal_add (D : Calendar) (t : Z) (f : DelayedFrame) : Calendar :=
  fun t' => if decide (t' = t) then D t ++ [f] else D t'.

Definition cal_clear (D : Calendar) (t : Z) : Calendar :=
  fun t' => if decide (t' = t) then [] else D t'.

Fixpoint cal_size (D : Calendar) (t : Z) (n : nat) : Z :=
  match n with
  | O => 0
  | S n => zlen (D t) + cal_size D (t + 1) n
  end.

(** The frames a slot holds. *)
Definition slot_live (s : Slot) : list DelayedFrame := take (Z.to_nat (slot_count s)) (slot_frames s).

Definition slot_ok (s : Slot) : Prop :=
  zlen (slot_frames s) = MaxFramesPerSlot /\ 0 <= slot_count s <= MaxFramesPerSlot.

(** At tick [now] the wheel holds the calendar [D]. *)
Record wheel_repr (w : TimingWheel) (now : Z) (D : Calendar) : Prop := {
  wr_now : tw_current_tick_ w = u64 now;
  wr_slots : zlen (tw_slots_ w) = SlotCount;
  wr_expired : zlen (tw_expired_ w) = MaxFramesPerSlot;
  wr_slot_ok : forall i s, (tw_slots_ w).[i] = Some s -> slot_ok s;
  wr_due : forall t, now < t <= now + SlotCount ->
    exists s, (tw_slots_ w).[t mod SlotCount] = Some s /\ slot_live s = D t;
  wr_release : forall t f, f ∈ D t -> df_release_tick f = u64 t;
  wr_window : forall t, ~ now < t <= now + SlotCount -> D t = [];
  wr_pending : tw_pending_count_ w = cal_size D (now + 1) (Z.to_nat SlotCount);
}.

(** The template's [requires] clause; the slots fit in memory. *)
Hypothesis SlotCount_fits : fits 64 SlotCount.
Hypothesis SlotCount_pow2 : is_power_of_two SlotCount = true.
Hypothesis MaxFrames_pos : 0 < MaxFramesPerSlot.
Hypothesis wheel_memory : SlotCount * MaxFramesPerSlot < 2 ^ 64.

Lemma SlotCount_exp : exists k, 0 <= k < 64 /\ SlotCount = 2 ^ k.
Proof. by apply is_power_of_two_inv. Qed.

Lemma SlotCount_bounds : 0 < SlotCount <= 2 ^ 63.
Proof.
  destruct SlotCount_exp as (k & Hk & ->). split; [apply pow2_pos; lia|].
  apply Z.pow_le_mono_r; lia.
Qed.

Lemma MaxFrames_bounds : 0 < MaxFramesPerSlot < 2 ^ 64.
Proof. pose proof SlotCount_bounds. nia. Qed.

Lemma kSlotMask_index x : Z.land (u64 x) kSlotMask = x mod SlotCount.
Proof.
  pose proof SlotCount_bounds. unfold kSlotMask.
  rewrite (wrap_small 64 (SlotCount - 1)) by (unfold fits; lia).
  destruct SlotCount_exp as (k & Hk & ->). apply mask_index; lia.
Qed.

(** *** Sizes of calendars *)

Lemma cal_size_ext D D' t n :
  (forall u, t <= u < t + Z.of_nat n -> D u = D' u) -> cal_size D t n = cal_size D' t n.
Proof.
  revert t. induction n as [|n IH]; intros t Heq; [done|]. simpl.
  rewrite (Heq t) by lia. f_equal. apply IH. intros u Hu. apply Heq. lia.
Qed.

Lemma cal_size_snoc D t n : cal_size D t (S n) = cal_size D t n + zlen (D (t + Z.of_nat n)).
Proof.
  revert t. induction n as [|n IH]; intros t; [simpl; rewrite !Z.add_0_r; lia|].
  change (cal_size D t (S (S n))) with (zlen (D t) + cal_size D (t + 1) (S n)).
  rewrite IH. simpl. replace (t + 1 + Z.of_nat n) with (t + Z.of_nat (S n)) by lia. lia.
Qed.

Lemma cal_size_add D t n u f :
  t <= u < t + Z.of_nat n -> cal_size (cal_add D u f) t n = cal_size D t n + 1.
Proof.
  revert t. induction n as [|n IH]; intros t Hu; [lia|]. simpl.
  destruct (decide (u = t)) as [->|Hne].
  - rewrite (cal_size_ext (cal_add D t f) D (t + 1)).
    + unfold cal_add. rewrite decide_True by done. autorewrite with zlen. lia.
    + intros v Hv. unfold cal_add. by rewrite decide_False by lia.
  - rewrite IH by lia. unfold cal_add at 1. rewrite decide_False by lia. lia.
Qed.

Lemma cal_size_bound D t n m :
  (forall u, t <= u < t + Z.of_nat n -> zlen (D u) <= m) -> 0 <= cal_size D t n <= Z.of_nat n * m.
Proof.
  revert t. induction n as [|n IH]; intros t Hm; simpl; [lia|].
  pose proof (Hm t ltac:(lia)). pose proof (zlen_nonneg (D t)).
  specialize (IH (t + 1) ltac:(intros; apply Hm; lia)). nia.
Qed.

Lemma cal_size_head D t n : (0 < n)%nat -> zlen (D t) <= cal_size D t n.
Proof.
  assert (forall u m, 0 <= cal_size D u m) as Hpos.
  { intros u m. revert u. induction m as [|m IH]; intros u; simpl; [lia|].
    specialize (IH (u + 1)). pose proof (zlen_nonneg (D u)). lia. }
  destruct n as [|n]; [lia|]. intros _. simpl. specialize (Hpos (t + 1) n). lia.
Qed.

(** One tick later: the entry due now leaves the window, an empty one enters. *)
Lemma cal_size_tick D t n :
  D (t + Z.of_nat n) = [] ->
  cal_size (cal_clear D t) (t + 1) n = cal_size D t n - zlen (D t).
Proof.
  intros Hnil. rewrite (cal_size_ext _ D (t + 1)).
  - pose proof (cal_size_snoc D t n) as Hs. rewrite Hnil in Hs. simpl in Hs.
    autorewrite with zlen in Hs. lia.
  - intros u Hu. unfold cal_clear. by rewrite decide_False by lia.
Qed.

(** *** Slots *)

Lemma slot_live_length s : slot_ok s -> zlen (slot_live s) = slot_count s.
Proof.
  intros [Hl Hc]. unfold slot_live, zlen in *. rewrite length_take. lia.
Qed.

Lemma slot_live_push s f frames :
  slot_ok s -> slot_count s < MaxFramesPerSlot ->
  (slot_frames s).[slot_count s <- f] = Some frames ->
  slot_ok (mkSlot frames (slot_count s + 1)) /\
  slot_live (mkSlot frames (slot_count s + 1)) = slot_live s ++ [f].
Proof.
  intros [Hl Hc] Hlt Hset. split.
  - split; simpl; [by rewrite (aset_zlen _ _ _ _ Hset)|lia].
  - apply aset_Some in Hset as [Hr ->]. unfold slot_live. simpl.
    rewrite Z2Nat.inj_add by lia. rewrite Nat.add_1_r.
    rewrite (take_S_r _ _ f).
    + f_equal. by rewrite take_insert_ge by lia.
    + apply list_lookup_insert_eq. unfold zlen in Hr. lia.
Qed.

Lemma due_slot w now D t s :
  wheel_repr w now D -> now < t <= now + SlotCount ->
  (tw_slots_ w).[t mod SlotCount] = Some s ->
  slot_ok s /\ slot_live s = D t /\ slot_count s = zlen (D t).
Proof.
  intros Hr Ht Hs. destruct (wr_due _ _ _ Hr t Ht) as (s' & Hs' & Hl). simplify_eq.
  assert (slot_ok s) as Hok by by eapply wr_slot_ok. split_and!; [done..|].
  by rewrite <-Hl, slot_live_length.
Qed.

Lemma wheel_pending_bounds w now D :
  wheel_repr w now D ->
  0 <= cal_size D (now + 1) (Z.to_nat SlotCount) <= SlotCount * MaxFramesPerSlot.
Proof.
  intros Hr. pose proof SlotCount_bounds.
  replace (SlotCount * MaxFramesPerSlot) with (Z.of_nat (Z.to_nat SlotCount) * MaxFramesPerSlot) by lia.
  apply cal_size_bound. intros u Hu. destruct (wr_due _ _ _ Hr u ltac:(lia)) as (s & Hs & _).
  apply (due_slot _ _ _ _ _ Hr) in Hs as ([_ ?] & _ & <-); lia.
Qed.

(** A slot with room leaves room in the total. *)
Lemma wheel_pending_room w now D t :
  wheel_repr w now D -> now < t <= now + SlotCount -> zlen (D t) < MaxFramesPerSlot ->
  0 <= cal_size D (now + 1) (Z.to_nat SlotCount) < SlotCount * MaxFramesPerSlot.
Proof.
  intros Hr Ht Hlt. pose proof SlotCount_bounds.
  pose proof (wheel_pending_bounds w now D Hr).
  pose proof (cal_size_bound (cal_add D t inhabitant) (now + 1) (Z.to_nat SlotCount) MaxFramesPerSlot) as Hb.
  rewrite cal_size_add, Z2Nat.id in Hb by lia.
  enough (0 <= cal_size D (now + 1) (Z.to_nat SlotCount) + 1 <= SlotCount * MaxFramesPerSlot) by lia.
  apply Hb. intros u Hu. unfold cal_add. case_decide as Heq; [subst u; autorewrite with zlen; lia|].
  destruct (wr_due _ _ _ Hr u ltac:(lia)) as (su & Hsu & _).
  apply (due_slot _ _ _ _ _ Hr) in Hsu as ([_ ?] & _ & <-); lia.
Qed.

(** *** [schedule] *)

Definition effective_delay (delay_ticks : Z) : Z := Z.max 1 delay_ticks.

Lemma schedule_too_large w f d :
  SlotCount < d -> schedule w f d = Some (ScheduleStatus_DelayTooLarge, schedule_failed w).
Proof. intros. unfold schedule. by destruct (Z.ltb_spec SlotCount d); [|lia]. Qed.

Lemma schedule_failed_repr w now D : wheel_repr w now D -> wheel_repr (schedule_failed w) now D.
Proof. intros []. by split. Qed.

(** Replacing the slot of tick [u] by one that holds [D' u]. *)
Lemma wheel_repr_set_slot w now D D' u s slots pending failures :
  wheel_repr w now D -> now < u <= now + SlotCount ->
  (tw_slots_ w).[u mod SlotCount <- s] = Some slots ->
  slot_ok s -> slot_live s = D' u ->
  (forall t, t <> u -> D' t = D t) ->
  (forall f, f ∈ D' u -> df_release_tick f = u64 u) ->
  pending = cal_size D' (now + 1) (Z.to_nat SlotCount) ->
  wheel_repr (mkTimingWheel slots (tw_expired_ w) (tw_current_tick_ w) (tw_expired_count_ w)
                pending failures) now D'.
Proof.
  intros Hr Hu Hset Hok Hlive Hsame Hrel Hpend. split; simpl.
  - apply Hr.
  - rewrite (aset_zlen _ _ _ _ Hset). apply Hr.
  - apply Hr.
  - intros i s' Hi. destruct (decide (i = u mod SlotCount)) as [->|Hne].
    + rewrite (aget_aset_eq _ _ _ _ Hset) in Hi. by simplify_eq.
    + rewrite (aget_aset_ne _ _ _ i _ Hset) in Hi by done. by eapply wr_slot_ok.
  - intros t Ht. destruct (decide (t = u)) as [->|Hne].
    + exists s. split; [by eapply aget_aset_eq|done].
    + destruct (wr_due _ _ _ Hr t Ht) as (s' & Hs' & Hl). exists s'. split; [|by rewrite Hsame].
      rewrite <-Hs'. eapply aget_aset_ne; [done|]. intros Heq. apply Hne. symmetry.
      apply (mod_window_inj SlotCount); lia.
  - intros t f Hf. destruct (decide (t = u)) as [->|Hne]; [by apply Hrel|].
    rewrite Hsame in Hf by done. by eapply wr_release.
  - intros t Ht. rewrite Hsame by lia. by eapply wr_window.
  - done.
Qed.

Lemma schedule_in_window w now D f d :
  wheel_repr w now D -> 0 <= d <= SlotCount ->
  let t := now + effective_delay d in
  let f' := df_set_release_tick f (u64 t) in
  if bool_decide (zlen (D t) < MaxFramesPerSlot) then
    exists w', schedule w f d = Some (ScheduleStatus_Scheduled, w') /\ wheel_repr w' now (cal_add D t f')
  else schedule w f d = Some (ScheduleStatus_SlotFull, schedule_failed w).
Proof.
  intros Hr Hd t f'. pose proof SlotCount_bounds. pose proof MaxFrames_bounds.
  assert (now < t <= now + SlotCount) as Ht by (subst t; unfold effective_delay; lia).
  unfold schedule. destruct (Z.ltb_spec SlotCount d); [lia|].
  replace (if d =? 0 then 1 else d) with (effective_delay d)
    by (unfold effective_delay; destruct (Z.eqb_spec d 0); lia).
  replace (u64 (tw_current_tick_ w + effective_delay d)) with (u64 t)
    by (by rewrite (wr_now _ _ _ Hr), wrap_add_l by lia).
  fold f'. simpl. rewrite kSlotMask_index.
  destruct (wr_due _ _ _ Hr t Ht) as (s & Hs & _). rewrite Hs. simpl.
  destruct (due_slot _ _ _ _ _ Hr Ht Hs) as (Hok & Hlive & Hcount).
  case_bool_decide as Hfull; destruct (Z.leb_spec MaxFramesPerSlot (slot_count s)); try lia; [|done].
  rewrite (aset_in_range (slot_frames s)) by (destruct Hok; lia). simpl.
  destruct (slot_live_push s f' _ Hok ltac:(lia)
    (aset_in_range (slot_frames s) (slot_count s) f' ltac:(destruct Hok; lia))) as [Hok' Hlive'].
  rewrite (wrap_small 64 (slot_count s + 1)) by (destruct Hok; unfold fits; lia).
  pose proof (Z.mod_pos_bound t SlotCount ltac:(lia)).
  rewrite aset_in_range by (rewrite (wr_slots _ _ _ Hr); lia). simpl.
  eexists; split; [done|].
  eapply wheel_repr_set_slot; [done|done|..].
  - apply aset_in_range. rewrite (wr_slots _ _ _ Hr); lia.
  - done.
  - unfold cal_add. rewrite decide_True by done. by rewrite <-Hlive.
  - intros u Hu. unfold cal_add. by rewrite decide_False.
  - intros g. unfold cal_add. rewrite decide_True by done.
    intros [Hg|Hg%list_elem_of_singleton]%elem_of_app; [by eapply wr_release|by subst g].
  - pose proof (wheel_pending_room w now D t Hr Ht Hfull).
    rewrite cal_size_add, (wr_pending _ _ _ Hr) by lia. apply wrap_small. unfold fits. lia.
Qed.

(** *** [tick] *)

(** When every frame of the slot is due, the loop moves all of them to
    [expired_] and keeps none. *)
Lemma tick_loop_all_due n index now st :
  0 <= index ->
  (forall i, index <= i < index + Z.of_nat n -> exists f, (tl_frames st).[i] = Some f /\ df_release_tick f <= now) ->
  tl_expired_count st = index ->
  take (Z.to_nat index) (tl_expired st) = take (Z.to_nat index) (tl_frames st) ->
  index + Z.of_nat n <= zlen (tl_expired st) < 2 ^ 64 ->
  exists expired, tick_loop n index now st
      = Some (mkTickLoop (tl_frames st) (tl_kept_count st) expired (index + Z.of_nat n)
                (match n with O => tl_pending_count st | _ => u64 (tl_pending_count st - Z.of_nat n) end))
    /\ zlen expired = zlen (tl_expired st)
    /\ take (Z.to_nat (index + Z.of_nat n)) expired = take (Z.to_nat (index + Z.of_nat n)) (tl_frames st).
Proof.
  revert index st. induction n as [|n IH]; intros index st Hi Hdue Hcount Htake Hlen.
  { exists (tl_expired st). destruct st; simpl in *. subst. by rewrite Z.add_0_r. }
  simpl. destruct (Hdue index ltac:(lia)) as (f & Hf & Hrel). rewrite Hf. simpl.
  destruct (Z.leb_spec (df_release_tick f) now); [|lia].
  rewrite Hcount, aset_in_range by lia. simpl.
  rewrite (wrap_small 64 (index + 1)) by (unfold fits; lia).
  destruct (IH (index + 1) (mkTickLoop (tl_frames st) (tl_kept_count st)
    (<[Z.to_nat index := f]> (tl_expired st)) (index + 1) (u64 (tl_pending_count st - 1))))
    as (expired & -> & Hz & Ht); simpl.
  - lia.
  - intros i Hr. apply Hdue. lia.
  - done.
  - apply aget_Some in Hf as [_ Hf]. replace (Z.to_nat (index + 1)) with (S (Z.to_nat index)) by lia.
    rewrite (take_S_r _ _ f), (take_S_r (tl_frames st) _ f), take_insert_ge by
      (done || lia || (apply list_lookup_insert_eq; unfold zlen in Hlen; lia)).
    by rewrite Htake.
  - unfold zlen in *. rewrite length_insert. lia.
  - exists expired. simpl in *.
    replace (index + 1 + Z.of_nat n) with (index + Z.pos (Pos.of_succ_nat n)) in * by lia.
    unfold zlen in *. rewrite length_insert in Hz. split_and!; [|done|done]. do 2 f_equal.
    destruct n; [done|]. rewrite wrap_sub_l. f_equal. lia.
Qed.

Lemma cal_clear_repr w now D s slots expired count failures :
  wheel_repr w now D ->
  (tw_slots_ w).[(now + 1) mod SlotCount <- s] = Some slots ->
  slot_ok s -> slot_count s = 0 -> zlen expired = MaxFramesPerSlot ->
  wheel_repr (mkTimingWheel slots expired (u64 (now + 1)) count
                (cal_size D (now + 1) (Z.to_nat SlotCount) - zlen (D (now + 1))) failures)
    (now + 1) (cal_clear D (now + 1)).
Proof.
  intros Hr Hset Hok Hzero Hexp. pose proof SlotCount_bounds. split; simpl; try done.
  - rewrite (aset_zlen _ _ _ _ Hset). apply Hr.
  - intros i s' Hi. destruct (decide (i = (now + 1) mod SlotCount)) as [->|Hne].
    + rewrite (aget_aset_eq _ _ _ _ Hset) in Hi. by simplify_eq.
    + rewrite (aget_aset_ne _ _ _ i _ Hset) in Hi by done. by eapply wr_slot_ok.
  - intros t Ht. unfold cal_clear. rewrite decide_False by lia.
    destruct (decide (t = now + 1 + SlotCount)) as [->|Hne].
    + exists s. rewrite <-Z.add_mod_idemp_r, Z_mod_same_full, Z.add_0_r by lia.
      split; [by eapply aget_aset_eq|]. rewrite (wr_window _ _ _ Hr) by lia.
      unfold slot_live. by rewrite Hzero.
    + destruct (wr_due _ _ _ Hr t ltac:(lia)) as (s' & Hs' & Hl). exists s'. split; [|done].
      rewrite <-Hs'. eapply aget_aset_ne; [done|]. intros Heq.
      apply mod_window_inj in Heq; lia.
  - intros t f. unfold cal_clear. case_decide; [by intros ?%not_elem_of_nil|]. by eapply wr_release.
  - intros t Ht. unfold cal_clear. case_decide; [done|]. apply (wr_window _ _ _ Hr). lia.
  - rewrite cal_size_tick; [done|]. apply (wr_window _ _ _ Hr). lia.
Qed.

Lemma tick_releases_due w now D :
  wheel_repr w now D ->
  exists w', tick w = Some (D (now + 1), w') /\ wheel_repr w' (now + 1) (cal_clear D (now + 1)).
Proof.
  intros Hr. pose proof SlotCount_bounds. pose proof MaxFrames_bounds.
  unfold tick. rewrite (wr_now _ _ _ Hr), wrap_add_l, kSlotMask_index by lia.
  destruct (wr_due _ _ _ Hr (now + 1) ltac:(lia)) as (s & Hs & _). rewrite Hs. simpl.
  destruct (due_slot _ _ _ (now + 1) _ Hr ltac:(lia) Hs) as (Hok & Hlive & Hcount).
  pose proof (wr_expired _ _ _ Hr) as Hexp. pose proof Hok as [Hfl Hc].
  destruct (tick_loop_all_due (Z.to_nat (slot_count s)) 0 (u64 (now + 1))
    (mkTickLoop (slot_frames s) 0 (tw_expired_ w) 0 (tw_pending_count_ w)))
    as (expired & -> & Hz & Ht); simpl in *; try done; try lia.
  { intros i Hi. destruct (aget_in_range (slot_frames s) i ltac:(lia)) as [f Hf].
    exists f. split; [done|]. rewrite (wr_release _ _ _ Hr (now + 1) f); [lia|].
    rewrite <-Hlive. apply aget_Some in Hf as [_ Hf]. unfold slot_live.
    apply list_elem_of_lookup. exists (Z.to_nat i). rewrite lookup_take_lt by lia. done. }
  rewrite Z.add_0_l, Z2Nat.id in * by lia.
  pose proof (Z.mod_pos_bound (now + 1) SlotCount ltac:(lia)).
  rewrite aset_in_range by (rewrite (wr_slots _ _ _ Hr); lia). simpl.
  eexists. split; [by rewrite Ht, <-Hlive|].
  replace (match Z.to_nat (slot_count s) with O => _ | _ => _ end)
    with (cal_size D (now + 1) (Z.to_nat SlotCount) - zlen (D (now + 1))).
  - eapply cal_clear_repr; [done|apply aset_in_range; rewrite (wr_slots _ _ _ Hr); lia|..]; simpl; try done.
    + split; simpl; [done|lia].
    + by rewrite Hz.
  - rewrite (wr_pending _ _ _ Hr). pose proof (wheel_pending_bounds _ _ _ Hr).
    pose proof (cal_size_head D (now + 1) (Z.to_nat SlotCount) ltac:(lia)).
    destruct (Z.to_nat (slot_count s)) eqn:E; [lia|]. symmetry.
    rewrite Hcount. apply wrap_small. unfold fits. lia.
Qed.

(** ** Runs of the wheel and of the calendar *)

Inductive WheelOp := OpSchedule (frame : DelayedFrame) (delay_ticks : Z) | OpTick.
Inductive WheelReply := DidSchedule (status : ScheduleStatus) | DidTick (expired : list DelayedFrame).

Definition wheel_apply (w : TimingWheel) (o : WheelOp) : option (WheelReply * TimingWheel) :=
  match o with
  | OpSchedule f d => '(status, w') ← schedule w f d; Some (DidSchedule status, w')
  | OpTick => '(expired, w') ← tick w; Some (DidTick expired, w')
  end.

Fixpoint wheel_run (w : TimingWheel) (ops : list WheelOp) : option (list WheelReply * TimingWheel) :=
  match ops with
  | [] => Some ([], w)
  | o :: ops =>
      '(r, w') ← wheel_apply w o;
      '(rs, w'') ← wheel_run w' ops;
      Some (r :: rs, w'')
  end.

(** The specification: a frame scheduled with delay [d] at tick [now] is entered
    at [now + max 1 d] unless [d] exceeds [SlotCount] or that entry is full, and
    a tick returns and clears the entry of the new tick. *)
Definition cal_apply (s : Z * Calendar) (o : WheelOp) : WheelReply * (Z * Calendar) :=
  let '(now, D) := s in
  match o with
  | OpSchedule f d =>
      let t := now + effective_delay d in
      if bool_decide (SlotCount < d) then (DidSchedule ScheduleStatus_DelayTooLarge, (now, D))
      else if bool_decide (zlen (D t) < MaxFramesPerSlot)
      then (DidSchedule ScheduleStatus_Scheduled, (now, cal_add D t (df_set_release_tick f (u64 t))))
      else (DidSchedule ScheduleStatus_SlotFull, (now, D))
  | OpTick => (DidTick (D (now + 1)), (now + 1, cal_clear D (now + 1)))
  end.

Fixpoint cal_run (s : Z * Calendar) (ops : list WheelOp) : list WheelReply * (Z * Calendar) :=
  match ops with
  | [] => ([], s)
  | o :: ops =>
      let '(r, s') := cal_apply s o in
      let '(rs, s'') := cal_run s' ops in
      (r :: rs, s'')
  end.

(** The delay is an unsigned argument. *)
Definition op_ok (o : WheelOp) : Prop :=
  match o with OpSchedule _ d => 0 <= d | OpTick => True end.

Definition wheel_repr_at (w : TimingWheel) (s : Z * Calendar) : Prop := wheel_repr w s.1 s.2.

Lemma wheel_apply_refines w s o :
  wheel_repr_at w s -> op_ok o ->
  exists w', wheel_apply w o = Some ((cal_apply s o).1, w') /\ wheel_repr_at w' (cal_apply s o).2.
Proof.
  destruct s as [now D]. unfold wheel_repr_at. intros Hr Ho. destruct o as [f d|]; simpl in *.
  - case_bool_decide as Hbig.
    + rewrite schedule_too_large by done. simpl. eauto using schedule_failed_repr.
    + pose proof (schedule_in_window w now D f d Hr ltac:(lia)) as Hsched. simpl in Hsched.
      case_bool_decide.
      * destruct Hsched as (w' & -> & ?). simpl. eauto.
      * rewrite Hsched. simpl. eauto using schedule_failed_repr.
  - destruct (tick_releases_due w now D Hr) as (w' & -> & ?). simpl. eauto.
Qed.

Lemma wheel_run_refines w s ops :
  wheel_repr_at w s -> Forall op_ok ops ->
  exists w', wheel_run w ops = Some ((cal_run s ops).1, w') /\ wheel_repr_at w' (cal_run s ops).2.
Proof.
  revert w s. induction ops as [|o ops IH]; intros w s Hr Hok; simpl; [eauto|].
  apply Forall_cons in Hok as [Ho Hok].
  destruct (wheel_apply_refines w s o Hr Ho) as (w1 & -> & H1). simpl.
  destruct (cal_apply s o) as [r s1]. simpl in *.
  destruct (IH w1 s1 H1 Hok) as (w2 & -> & H2). simpl.
  destruct (cal_run s1 ops) as [rs s2]. eauto.
Qed.

Lemma TimingWheel_default_repr : wheel_repr TimingWheel_default 0 cal_empty.
Proof.
  pose proof SlotCount_bounds. pose proof MaxFrames_bounds.
  assert (forall i s, (tw_slots_ TimingWheel_default).[i] = Some s ->
    s = mkSlot (replicate (Z.to_nat MaxFramesPerSlot) inhabitant) 0) as Hs.
  { intros i s [_ Hi]%aget_Some. simpl in Hi. by apply lookup_replicate in Hi as [-> _]. }
  split; simpl; rewrite ?zlen_replicate; try done; try lia.
  - intros i s ->%Hs. split; simpl; rewrite ?zlen_replicate; lia.
  - intros t _. destruct (aget_in_range (tw_slots_ TimingWheel_default) (t mod SlotCount)) as [s Hget].
    { simpl. rewrite zlen_replicate. pose proof (Z.mod_pos_bound t SlotCount). lia. }
    exists s. split; [done|]. by apply Hs in Hget as ->.
  - intros t f ?%not_elem_of_nil. done.
  - assert (forall n t, cal_size cal_empty t n = 0) as ->; [|done].
    intros n. induction n as [|n IH]; intros t; simpl; [done|by rewrite IH].
Qed.

(** C23: the timing wheel refines the calendar.  Every sequence of [schedule] and
    [tick] calls on a fresh wheel runs inside its arrays, answers what the
    calendar answers (statuses, and at each tick exactly the frames due then, in
    scheduling order), and leaves [pending_count] equal to the number of frames
    still in the calendar; the wrap-around of [current_tick_] is covered. *)
Theorem wheel_refines_calendar ops :
  Forall op_ok ops ->
  exists w', wheel_run TimingWheel_default ops = Some ((cal_run (0, cal_empty) ops).1, w')
    /\ wheel_repr w' (cal_run (0, cal_empty) ops).2.1 (cal_run (0, cal_empty) ops).2.2
    /\ tw_pending_count_ w' = cal_size (cal_run (0, cal_empty) ops).2.2
         ((cal_run (0, cal_empty) ops).2.1 + 1) (Z.to_nat SlotCount).
Proof.
  intros Hok.
  destruct (wheel_run_refines TimingWheel_default (0, cal_empty) ops) as (w' & Hrun & Hr);
    [apply TimingWheel_default_repr|done|].
  exists w'. split_and!; [done|done|]. by apply (wr_pending _ _ _ Hr).
Qed.

(** *** Frames are released on time *)

Fixpoint count_ticks (ops : list WheelOp) : Z :=
  match ops with
  | [] => 0
  | OpTick :: ops => 1 + count_ticks ops
  | OpSchedule _ _ :: ops => count_ticks ops
  end.

Lemma count_ticks_nonneg ops : 0 <= count_ticks ops.
Proof. induction ops as [|[] ops IH]; simpl; lia. Qed.

Fixpoint reply_ticks (rs : list WheelReply) : Z :=
  match rs with
  | [] => 0
  | DidTick _ :: rs => 1 + reply_ticks rs
  | DidSchedule _ :: rs => reply_ticks rs
  end.

(** Every tick hands out only frames stamped with its own number, counted from [now]. *)
Fixpoint ticks_on_time (now : Z) (rs : list WheelReply) : Prop :=
  match rs with
  | [] => True
  | DidTick expired :: rs => Forall (fun g => df_release_tick g = u64 (now + 1)) expired /\ ticks_on_time (now + 1) rs
  | DidSchedule _ :: rs => ticks_on_time now rs
  end.

Definition cal_stamped (D : Calendar) : Prop := forall t g, g ∈ D t -> df_release_tick g = u64 t.

Lemma cal_apply_stamped s o : cal_stamped s.2 -> cal_stamped (cal_apply s o).2.2.
Proof.
  destruct s as [now D]. intros Hs. destruct o as [f d|]; simpl; [repeat case_bool_decide; simpl; try done|].
  - intros t g. unfold cal_add. case_decide; [subst|apply Hs]. intros [?%Hs|?%list_elem_of_singleton]%elem_of_app; [done|by subst].
  - intros t g. unfold cal_clear. case_decide; [by intros ?%not_elem_of_nil|apply Hs].
Qed.

Lemma cal_run_on_time s ops : cal_stamped s.2 -> ticks_on_time s.1 (cal_run s ops).1.
Proof.
  revert s. induction ops as [|o ops IH]; intros s Hs; [done|]. cbn [cal_run].
  pose proof (IH _ (cal_apply_stamped s o Hs)) as IHo. destruct s as [now D], o as [f d|]; simpl in *.
  - repeat case_bool_decide; simpl in *; by destruct (cal_run _ ops).
  - destruct (cal_run _ ops). simpl in *. split; [|done]. apply Forall_forall. intros g. apply Hs.
Qed.

(** A frame of the calendar is handed out by the tick it is entered at. *)
Lemma cal_run_releases s ops t g :
  g ∈ s.2 t -> s.1 < t <= s.1 + count_ticks ops ->
  exists before expired after, (cal_run s ops).1 = before ++ DidTick expired :: after /\
    reply_ticks before = t - 1 - s.1 /\ g ∈ expired.
Proof.
  revert s. induction ops as [|o ops IH]; intros s Hg Ht; simpl in Ht; [lia|]. cbn [cal_run].
  assert (o = OpTick /\ t = s.1 + 1 \/ ~ (o = OpTick /\ t = s.1 + 1)) as [[-> ->]|Hne].
  { destruct o; [by right; intros []|]. destruct (decide (t = s.1 + 1)); [by left|by right; intros []]. }
  { destruct s as [now D]. simpl in *. destruct (cal_run _ ops) as [rs s']. exists [], (D (now + 1)), rs. split_and!; [done|simpl; lia|done]. }
  destruct (IH (cal_apply s o).2) as (before & expired & after & Hrun & Hticks & Hin).
  { destruct s as [now D], o as [f d|]; simpl in *; [repeat case_bool_decide; simpl; try done|].
    - unfold cal_add. case_decide; [|done]. subst. apply elem_of_app. by left.
    - unfold cal_clear. case_decide; [|done]. subst. tauto. }
  { destruct s as [now D], o as [f d|]; simpl in *; [repeat case_bool_decide; simpl; lia|]. assert (t <> now + 1) by tauto. lia. }
  destruct (cal_apply s o) as [r s1] eqn:Ho. simpl in Hrun, Hticks. destruct (cal_run s1 ops) as [rs s2]. simpl in Hrun. subst rs.
  exists (r :: before), expired, after. split_and!; [done| |done].
  destruct s as [now D], o as [f d|]; simpl in Ho; repeat case_bool_decide; apply pair_equal_spec in Ho as [<- <-]; simpl in *; lia.
Qed.

Lemma cal_add_elem D t f : f ∈ cal_add D t f t.
Proof. unfold cal_add. rewrite decide_True by done. apply elem_of_app. right. by apply list_elem_of_singleton. Qed.

(** C5: a delayed frame is released exactly on time, and never lost.  When
    [schedule(frame, d)] answers [Scheduled] at tick [now], every further sequence of
    [schedule] and [tick] calls runs, and once it has [max 1 d] ticks, the tick number
    [now + max 1 d] hands the frame out, stamped with that number; and every tick of the
    sequence hands out only frames stamped with its own number, so none comes early, late
    or again. *)
Theorem wheel_releases_on_time w now D f d w1 ops :
  wheel_repr w now D -> 0 <= d ->
  schedule w f d = Some (ScheduleStatus_Scheduled, w1) -> Forall op_ok ops ->
  exists rs w2,
    wheel_run w1 ops = Some (rs, w2) /\ ticks_on_time now rs /\
    (effective_delay d <= count_ticks ops ->
     exists before expired after, rs = before ++ DidTick expired :: after /\ reply_ticks before = effective_delay d - 1 /\
       df_set_release_tick f (u64 (now + effective_delay d)) ∈ expired).
Proof.
  intros Hr Hd Hs Hok.
  destruct (decide (SlotCount < d)) as [Hbig|]; [by rewrite schedule_too_large in Hs|].
  pose proof (schedule_in_window w now D f d Hr ltac:(lia)) as Hsched. simpl in Hsched.
  case_bool_decide; [|congruence]. destruct Hsched as (w1' & Hs' & Hr1).
  assert (w1' = w1) as -> by congruence. clear Hs'. set (t := now + effective_delay d) in *.
  set (s := (now, cal_add D t (df_set_release_tick f (u64 t)))).
  destruct (wheel_run_refines w1 s ops Hr1 Hok) as (w2 & Hrun & _).
  exists (cal_run s ops).1, w2. split_and!; [done|exact (cal_run_on_time s ops (wr_release _ _ _ Hr1))|]. intros Hticks.
  destruct (cal_run_releases s ops t (df_set_release_tick f (u64 t))) as (before & expired & after & Hrs & Hb & Hin).
  - apply cal_add_elem.
  - subst s t. unfold effective_delay in *. simpl. lia.
  - exists before, expired, after. split_and!; [done| |done]. subst s t. simpl in *. lia.
Qed.

(** The compaction branch of [tick] is dead code.  On every wheel that a
    run reaches, the slot [tick] visits holds only frames that are due, so the
    loop keeps none of them: afterwards that slot is empty, and the wheel holds
    exactly the released frames less. *)
Theorem wheel_tick_empties_slot w now D expired w' :
  wheel_repr w now D -> tick w = Some (expired, w') ->
  expired = D (now + 1) /\
  slot_pending_count w' (Z.land (tw_current_tick_ w') kSlotMask) = Some 0 /\
  tw_pending_count_ w' = tw_pending_count_ w - zlen expired.
Proof.
  intros Hr Ht. pose proof SlotCount_bounds.
  destruct (tick_releases_due w now D Hr) as (w0 & Ht0 & Hr'). rewrite Ht in Ht0. simplify_eq.
  split_and!; [done| |].
  - rewrite (wr_now _ _ _ Hr'), kSlotMask_index. unfold slot_pending_count.
    pose proof (Z.mod_pos_bound (now + 1) SlotCount ltac:(lia)).
    destruct (Z.ltb_spec ((now + 1) mod SlotCount) SlotCount); [|lia].
    destruct (wr_due _ _ _ Hr' (now + 1 + SlotCount) ltac:(lia)) as (s & Hs & _).
    destruct (due_slot _ _ _ (now + 1 + SlotCount) s Hr' ltac:(lia) Hs) as (_ & _ & Hc).
    rewrite <-Z.add_mod_idemp_r, Z_mod_same_full, Z.add_0_r in Hs by lia. rewrite Hs. simpl.
    rewrite Hc. unfold cal_clear. rewrite decide_False by lia.
    by rewrite (wr_window _ _ _ Hr) by lia.
  - rewrite (wr_pending _ _ _ Hr'), (wr_pending _ _ _ Hr), cal_size_tick; [done|].
    apply (wr_window _ _ _ Hr). lia.
Qed.

End TimingWheel.

(** ** Concrete runs, on a wheel of four slots of two frames *)

Definition example_frame : DelayedFrame := mkDelayedFrame 4096 64 7 0.

Lemma wheel_refines_calendar_witness :
  exists w', wheel_run 4 2 (TimingWheel_default 4 2)
      [OpSchedule example_frame 2; OpSchedule example_frame 5; OpTick; OpTick; OpTick]
    = Some ([DidSchedule ScheduleStatus_Scheduled; DidSchedule ScheduleStatus_DelayTooLarge;
             DidTick []; DidTick [mkDelayedFrame 4096 64 7 2]; DidTick []], w')
    /\ tw_pending_count_ w' = 0.
Proof.
  destruct (wheel_refines_calendar 4 2 ltac:(done) ltac:(done) ltac:(done) ltac:(done)
    [OpSchedule example_frame 2; OpSchedule example_frame 5; OpTick; OpTick; OpTick])
    as (w' & Hrun & _ & Hp); [by repeat constructor|].
  exists w'. split; [exact Hrun|exact Hp].
Defined.

Lemma wheel_releases_on_time_witness :
  exists w1 rs w2,
    schedule 4 2 (TimingWheel_default 4 2) example_frame 2 = Some (ScheduleStatus_Scheduled, w1) /\
    wheel_run 4 2 w1 [OpTick; OpTick; OpTick] = Some (rs, w2) /\ ticks_on_time 0 rs /\
    exists before expired after, rs = before ++ DidTick expired :: after /\ reply_ticks before = 1 /\
      mkDelayedFrame 4096 64 7 2 ∈ expired.
Proof.
  destruct (schedule 4 2 (TimingWheel_default 4 2) example_frame 2) as [[st w1]|] eqn:Hs; [|done].
  assert (st = ScheduleStatus_Scheduled) as -> by (vm_compute in Hs; congruence).
  destruct (wheel_releases_on_time 4 2 ltac:(done) ltac:(done) ltac:(done) ltac:(done)
    (TimingWheel_default 4 2) 0 cal_empty example_frame 2 w1 [OpTick; OpTick; OpTick])
    as (rs & w2 & H1 & H2 & H3);
    [by apply TimingWheel_default_repr|done|done|by repeat constructor|].
  exists w1, rs, w2. split; [done|]. split; [exact H1|]. split; [exact H2|]. apply H3. by vm_compute.
Defined.

Lemma wheel_tick_empties_slot_witness :
  exists expired w', tick 4 (TimingWheel_default 4 2) = Some (expired, w') /\ expired = [] /\
    slot_pending_count 4 w' (Z.land (tw_current_tick_ w') (kSlotMask 4)) = Some 0.
Proof.
  destruct (tick 4 (TimingWheel_default 4 2)) as [[expired w']|] eqn:Ht; [|done].
  destruct (wheel_tick_empties_slot 4 2 ltac:(done) ltac:(done) ltac:(done) ltac:(done)
    (TimingWheel_default 4 2) 0 cal_empty expired w') as (H1 & H2 & _);
    [by apply TimingWheel_default_repr|done|].
  exists expired, w'. done.
Defined.
