(* ===== verification/FrameAllocator.v ===== *)
(** * [include/chronosx/frame_allocator.hpp]: UMEM frame ownership

    The free stack, the owner table and the failure counters of the class, all
    of its operations, the ownership invariant and what follows from it. *)

From S2P Require Import Prelude Types.

Definition kDefaultFrameSizeBytes : Z := 4096.
Definition kDefaultFrameCount : Z := 4096.
Definition kMinXdpFrameSizeBytes : Z := 2048.

Inductive FrameOwner :=
| FrameOwner_Free
| FrameOwner_FillRing
| FrameOwner_RxRing
| FrameOwner_DataPlane
| FrameOwner_TimingWheel
| FrameOwner_TxRing
| FrameOwner_CompletionRing.

#[export] Instance FrameOwner_eq_dec : EqDecision FrameOwner.
Proof. solve_decision. Defined.

Definition frame_owner_name (owner : FrameOwner) : string :=
  match owner with
  | FrameOwner_Free => "Free"
  | FrameOwner_FillRing => "FillRing"
  | FrameOwner_RxRing => "RxRing"
  | FrameOwner_DataPlane => "DataPlane"
  | FrameOwner_TimingWheel => "TimingWheel"
  | FrameOwner_TxRing => "TxRing"
  | FrameOwner_CompletionRing => "CompletionRing"
  end.

Inductive FrameStatus :=
| FrameStatus_Ok
| FrameStatus_PoolEmpty
| FrameStatus_PoolFull
| FrameStatus_InvalidFrameIndex
| FrameStatus_InvalidFrameAddress
| FrameStatus_InvalidOwner.

#[export] Instance FrameStatus_eq_dec : EqDecision FrameStatus.
Proof. solve_decision. Defined.

Definition frame_status_name (status : FrameStatus) : string :=
  match status with
  | FrameStatus_Ok => "Ok"
  | FrameStatus_PoolEmpty => "PoolEmpty"
  | FrameStatus_PoolFull => "PoolFull"
  | FrameStatus_InvalidFrameIndex => "InvalidFrameIndex"
  | FrameStatus_InvalidFrameAddress => "InvalidFrameAddress"
  | FrameStatus_InvalidOwner => "InvalidOwner"
  end.

Record FrameHandle := mkFrameHandle {
  fh_address : Z;
  fh_index : Z;
  fh_reserved : Z;
}.

Definition FrameHandle_default : FrameHandle := mkFrameHandle 0 0 0.

Record FrameAllocation := mkFrameAllocation {
  fal_frame : FrameHandle;
  fal_status : FrameStatus;
}.

Definition fal_ok (a : FrameAllocation) : bool := fal_status a =?? FrameStatus_Ok.

Record FrameAllocator := mkFrameAllocator {
  fa_free_stack_ : list Z;
  fa_owners_ : list FrameOwner;
  fa_free_count_ : Z;
  fa_allocation_failures_ : Z;
  fa_release_failures_ : Z;
  fa_transition_failures_ : Z;
}.

Definition fa_count_allocation_failure (a : FrameAllocator) : FrameAllocator :=
  mkFrameAllocator (fa_free_stack_ a) (fa_owners_ a) (fa_free_count_ a)
    (u64 (fa_allocation_failures_ a + 1)) (fa_release_failures_ a) (fa_transition_failures_ a).

Definition fa_count_release_failure (a : FrameAllocator) : FrameAllocator :=
  mkFrameAllocator (fa_free_stack_ a) (fa_owners_ a) (fa_free_count_ a)
    (fa_allocation_failures_ a) (u64 (fa_release_failures_ a + 1)) (fa_transition_failures_ a).

Definition fa_count_transition_failure (a : FrameAllocator) : FrameAllocator :=
  mkFrameAllocator (fa_free_stack_ a) (fa_owners_ a) (fa_free_count_ a)
    (fa_allocation_failures_ a) (fa_release_failures_ a) (u64 (fa_transition_failures_ a + 1)).

Definition fa_set_owners (a : FrameAllocator) (owners : list FrameOwner) : FrameAllocator :=
  mkFrameAllocator (fa_free_stack_ a) owners (fa_free_count_ a)
    (fa_allocation_failures_ a) (fa_release_failures_ a) (fa_transition_failures_ a).

Definition fa_set_pool (a : FrameAllocator) (stack : list Z) (owners : list FrameOwner) (count : Z)
    : FrameAllocator :=
  mkFrameAllocator stack owners count
    (fa_allocation_failures_ a) (fa_release_failures_ a) (fa_transition_failures_ a).

Section FrameAllocator.
Context (FrameCount FrameSize : Z).

(** The constructor's loop writes every cell of both arrays once. *)
Definition FrameAllocator_new : FrameAllocator :=
  mkFrameAllocator
    ((fun index => u32 (u64 (FrameCount - index - 1))) <$> seqZ 0 FrameCount)
    (replicate (Z.to_nat FrameCount) FrameOwner_Free) FrameCount 0 0 0.

Definition umem_size_bytes : Z := u64 (FrameCount * FrameSize).

Definition make_handle (index : Z) : FrameHandle :=
  mkFrameHandle (u64 (index * FrameSize)) index 0.

Definition valid_index (index : Z) : bool := index <? FrameCount.

Definition valid_address_for_index (frame : FrameHandle) : bool :=
  fh_address frame =? u64 (fh_index frame * FrameSize).

Definition validate_frame (frame : FrameHandle) : FrameStatus :=
  if negb (valid_index (fh_index frame)) then FrameStatus_InvalidFrameIndex
  else if negb (valid_address_for_index frame) then FrameStatus_InvalidFrameAddress
  else FrameStatus_Ok.

Definition allocate (a : FrameAllocator) (owner : FrameOwner) : option (FrameAllocation * FrameAllocator) :=
  if fa_free_count_ a =? 0 then
    Some (mkFrameAllocation FrameHandle_default FrameStatus_PoolEmpty, fa_count_allocation_failure a)
  else
    index ← (fa_free_stack_ a).[fa_free_count_ a - 1];
    owners ← (fa_owners_ a).[index <- owner];
    Some (mkFrameAllocation (make_handle index) FrameStatus_Ok,
          fa_set_pool a (fa_free_stack_ a) owners (fa_free_count_ a - 1)).

(** The [while] of [allocate_batch] with [n] cells of [output] left. *)
Fixpoint allocate_batch_loop (n : nat) (a : FrameAllocator) (owner : FrameOwner)
    (output : list FrameHandle) (count : Z) : option (Z * list FrameHandle * FrameAllocator) :=
  match n with
  | O => Some (count, output, a)
  | S n =>
      if 0 <? fa_free_count_ a then
        '(allocation, a) ← allocate a owner;
        output ← output.[count <- fal_frame allocation];
        allocate_batch_loop n a owner output (count + 1)
      else Some (count, output, a)
  end.

Definition allocate_batch (a : FrameAllocator) (output : list FrameHandle) (owner : FrameOwner)
    : option (Z * list FrameHandle * FrameAllocator) :=
  '(count, output, a) ← allocate_batch_loop (length output) a owner output 0;
  Some (count, output, if count <? zlen output then fa_count_allocation_failure a else a).

Definition release (a : FrameAllocator) (frame : FrameHandle) (expected_owner : FrameOwner)
    : option (FrameStatus * FrameAllocator) :=
  let status := validate_frame frame in
  if negb (status =?? FrameStatus_Ok) then Some (status, fa_count_release_failure a)
  else
    owner ← (fa_owners_ a).[fh_index frame];
    if negb (owner =?? expected_owner) then Some (FrameStatus_InvalidOwner, fa_count_release_failure a)
    else if FrameCount <=? fa_free_count_ a then Some (FrameStatus_PoolFull, fa_count_release_failure a)
    else
      owners ← (fa_owners_ a).[fh_index frame <- FrameOwner_Free];
      stack ← (fa_free_stack_ a).[fa_free_count_ a <- fh_index frame];
      Some (FrameStatus_Ok, fa_set_pool a stack owners (fa_free_count_ a + 1)).

Definition transition (a : FrameAllocator) (frame : FrameHandle) (expected_owner next_owner : FrameOwner)
    : option (FrameStatus * FrameAllocator) :=
  let status := validate_frame frame in
  if negb (status =?? FrameStatus_Ok) then Some (status, fa_count_transition_failure a)
  else
    owner ← (fa_owners_ a).[fh_index frame];
    if negb (owner =?? expected_owner) then Some (FrameStatus_InvalidOwner, fa_count_transition_failure a)
    else if next_owner =?? FrameOwner_Free then release a frame expected_owner
    else
      owners ← (fa_owners_ a).[fh_index frame <- next_owner];
      Some (FrameStatus_Ok, fa_set_owners a owners).

(** The first loop of [release_batch]: the status of the first bad frame. *)
Fixpoint release_batch_check (a : FrameAllocator) (frames : list FrameHandle)
    (expected_owner : FrameOwner) : option FrameStatus :=
  match frames with
  | [] => Some FrameStatus_Ok
  | frame :: frames =>
      let status := validate_frame frame in
      if negb (status =?? FrameStatus_Ok) then Some status
      else
        owner ← (fa_owners_ a).[fh_index frame];
        if negb (owner =?? expected_owner) then Some FrameStatus_InvalidOwner
        else release_batch_check a frames expected_owner
  end.

(** Its second loop. *)
Fixpoint release_batch_loop (a : FrameAllocator) (frames : list FrameHandle) : option FrameAllocator :=
  match frames with
  | [] => Some a
  | frame :: frames =>
      owners ← (fa_owners_ a).[fh_index frame <- FrameOwner_Free];
      stack ← (fa_free_stack_ a).[fa_free_count_ a <- fh_index frame];
      release_batch_loop (fa_set_pool a stack owners (fa_free_count_ a + 1)) frames
  end.

Definition release_batch (a : FrameAllocator) (frames : list FrameHandle) (expected_owner : FrameOwner)
    : option (FrameStatus * FrameAllocator) :=
  status ← release_batch_check a frames expected_owner;
  if negb (status =?? FrameStatus_Ok) then Some (status, fa_count_release_failure a)
  else if FrameCount <? u64 (fa_free_count_ a + zlen frames)
  then Some (FrameStatus_PoolFull, fa_count_release_failure a)
  else
    a ← release_batch_loop a frames;
    Some (FrameStatus_Ok, a).

Definition handle_from_address (address : Z) : FrameAllocation :=
  if negb (address mod FrameSize =? 0) || (umem_size_bytes <=? address)
  then mkFrameAllocation (mkFrameHandle address 0 0) FrameStatus_InvalidFrameAddress
  else mkFrameAllocation (make_handle (u32 (address / FrameSize))) FrameStatus_Ok.

Definition owner_of (a : FrameAllocator) (index : Z) : option FrameOwner :=
  if index <? FrameCount then (fa_owners_ a).[index] else Some FrameOwner_Free.

Definition fa_available (a : FrameAllocator) : Z := fa_free_count_ a.

Definition fa_in_use (a : FrameAllocator) : Z := u64 (FrameCount - fa_free_count_ a).

Definition fa_empty (a : FrameAllocator) : bool := fa_free_count_ a =? 0.

Definition fa_full (a : FrameAllocator) : bool := fa_free_count_ a =? FrameCount.

(** ** The ownership invariant *)

(** The live part of the free stack. *)
Definition free_list (a : FrameAllocator) : list Z := take (Z.to_nat (fa_free_count_ a)) (fa_free_stack_ a).

(** The indices whose owner satisfies [P]. *)
Definition frames_with (P : FrameOwner -> bool) (a : FrameAllocator) : list Z :=
  filter (fun i => from_option P false (fa_owners_ a).[i] = true) (seqZ 0 FrameCount).

(** Every frame is on the free stack exactly once when it is free, and not on it
    when some ring or plane owns it. *)
Record fa_inv (a : FrameAllocator) : Prop := {
  fi_stack : zlen (fa_free_stack_ a) = FrameCount;
  fi_owners : zlen (fa_owners_ a) = FrameCount;
  fi_count : 0 <= fa_free_count_ a <= FrameCount;
  fi_nodup : NoDup (free_list a);
  fi_free : forall i, i ∈ free_list a <-> (fa_owners_ a).[i] = Some FrameOwner_Free;
}.

(** The [requires] clause; indices are 32-bit and the UMEM fits in memory. *)
Hypothesis FrameCount_bounds : 0 < FrameCount <= 2 ^ 32.
Hypothesis FrameSize_pos : 0 < FrameSize.
Hypothesis umem_fits : FrameCount * FrameSize < 2 ^ 64.

Lemma frame_offset i : 0 <= i < FrameCount -> u64 (i * FrameSize) = i * FrameSize.
Proof. intros. apply wrap_small. unfold fits. nia. Qed.

Lemma free_list_length a : fa_inv a -> zlen (free_list a) = fa_free_count_ a.
Proof.
  intros [Hs _ Hc _ _]. unfold free_list, zlen in *. rewrite length_take. lia.
Qed.

Lemma free_list_incl a : fa_inv a -> free_list a ⊆+ seqZ 0 FrameCount.
Proof.
  intros Ha. apply NoDup_submseteq; [apply Ha|].
  intros i Hi. apply (fi_free _ Ha), aget_lt in Hi. rewrite (fi_owners _ Ha) in Hi.
  apply elem_of_seqZ. lia.
Qed.

(** A frame in use leaves room on the free stack. *)
Lemma owned_leaves_room a i o :
  fa_inv a -> (fa_owners_ a).[i] = Some o -> o <> FrameOwner_Free -> fa_free_count_ a < FrameCount.
Proof.
  intros Ha Ho Hne. destruct (decide (fa_free_count_ a < FrameCount)) as [|Hge]; [done|exfalso].
  apply Hne. enough (i ∈ free_list a) as Hi by (apply (fi_free _ Ha) in Hi; congruence).
  pose proof (free_list_length a Ha) as Hlen. pose proof (fi_count _ Ha).
  rewrite (submseteq_length_Permutation _ _ (free_list_incl a Ha)).
  - apply aget_lt in Ho. rewrite (fi_owners _ Ha) in Ho. apply elem_of_seqZ. lia.
  - rewrite length_seqZ. unfold zlen in Hlen. lia.
Qed.

Lemma validate_frame_ok frame :
  0 <= fh_index frame -> validate_frame frame = FrameStatus_Ok ->
  0 <= fh_index frame < FrameCount /\ fh_address frame = fh_index frame * FrameSize.
Proof.
  unfold validate_frame, valid_index, valid_address_for_index. intros Hi.
  destruct (Z.ltb_spec (fh_index frame) FrameCount); [|done]. simpl.
  rewrite frame_offset by lia.
  destruct (Z.eqb_spec (fh_address frame) (fh_index frame * FrameSize)); [|done]. done.
Qed.

Lemma FrameAllocator_new_inv : fa_inv FrameAllocator_new.
Proof.
  assert (free_list FrameAllocator_new
    = (fun index => FrameCount - index - 1) <$> seqZ 0 FrameCount) as Hfl.
  { unfold free_list. simpl. rewrite take_ge by (rewrite length_fmap, length_seqZ; lia).
    apply list_fmap_ext. intros ? i [-> ?]%lookup_seqZ.
    rewrite (wrap_small 64), wrap_small by (unfold fits; lia). done. }
  split; simpl.
  - unfold zlen. rewrite length_fmap, length_seqZ. lia.
  - rewrite zlen_replicate. lia.
  - lia.
  - rewrite Hfl. apply NoDup_fmap_2_strong; [intros x y _ _ Heq; simpl in Heq; lia|apply NoDup_seqZ].
  - intros i. rewrite Hfl, list_elem_of_fmap, aget_Some, lookup_replicate. split.
    + intros (j & -> & Hj%elem_of_seqZ). split_and!; [lia|done|lia].
    + intros (? & _ & Hlt). exists (FrameCount - i - 1). split; [lia|]. apply elem_of_seqZ. lia.
Qed.

(** *** How the pool changes *)

Lemma pool_pop a i :
  fa_inv a -> (fa_free_stack_ a).[fa_free_count_ a - 1] = Some i ->
  free_list a = take (Z.to_nat (fa_free_count_ a - 1)) (fa_free_stack_ a) ++ [i].
Proof.
  intros Ha [? Hi]%aget_Some. unfold free_list.
  replace (Z.to_nat (fa_free_count_ a)) with (S (Z.to_nat (fa_free_count_ a - 1))) by lia.
  by apply take_S_r.
Qed.

Lemma fa_inv_pop a i o owners :
  fa_inv a -> o <> FrameOwner_Free ->
  (fa_free_stack_ a).[fa_free_count_ a - 1] = Some i ->
  (fa_owners_ a).[i <- o] = Some owners ->
  fa_inv (fa_set_pool a (fa_free_stack_ a) owners (fa_free_count_ a - 1)).
Proof.
  intros Ha Hne Hi Hset. pose proof (pool_pop a i Ha Hi) as Hfl.
  pose proof (fi_nodup _ Ha) as Hnd. rewrite Hfl in Hnd.
  apply NoDup_app in Hnd as (Hnd & Hnotin & _).
  pose proof (aget_lt _ _ _ Hi). destruct Ha as [Hs Ho Hc _ Hfree]. split; simpl; try done.
  - by rewrite (aset_zlen _ _ _ _ Hset).
  - lia.
  - intros j. unfold free_list; simpl. destruct (decide (j = i)) as [->|Hj].
    + rewrite (aget_aset_eq _ _ _ _ Hset). split; [|congruence].
      intros Hin. exfalso. apply (Hnotin i Hin). by apply list_elem_of_singleton.
    + rewrite (aget_aset_ne _ _ _ j _ Hset) by done. rewrite <-Hfree, Hfl, elem_of_app, list_elem_of_singleton.
      tauto.
Qed.

Lemma fa_inv_push a i o owners stack :
  fa_inv a -> (fa_owners_ a).[i] = Some o -> o <> FrameOwner_Free ->
  (fa_owners_ a).[i <- FrameOwner_Free] = Some owners ->
  (fa_free_stack_ a).[fa_free_count_ a <- i] = Some stack ->
  fa_inv (fa_set_pool a stack owners (fa_free_count_ a + 1)) /\
  free_list (fa_set_pool a stack owners (fa_free_count_ a + 1)) = free_list a ++ [i].
Proof.
  intros Ha Hi Hne Hset Hstk. pose proof (aset_zlen _ _ _ _ Hstk) as Hz.
  pose proof Ha as [Hs Ho Hc Hnd Hfree].
  assert (free_list (fa_set_pool a stack owners (fa_free_count_ a + 1)) = free_list a ++ [i]) as Hfl.
  { apply aset_Some in Hstk as [Hr ->]. unfold free_list. simpl.
    replace (Z.to_nat (fa_free_count_ a + 1)) with (S (Z.to_nat (fa_free_count_ a))) by lia.
    rewrite (take_S_r _ _ i), take_insert_ge by
      (lia || (apply list_lookup_insert_eq; unfold zlen in Hr; lia)). done. }
  assert (i ∉ free_list a) as Hnotin by (intros Hin%Hfree; congruence).
  split; [|done]. apply aset_Some in Hstk as [Hr _]. split; simpl.
  - by rewrite Hz.
  - by rewrite (aset_zlen _ _ _ _ Hset).
  - lia.
  - rewrite Hfl. apply NoDup_app. split_and!; [done| |apply NoDup_singleton].
    intros x Hx Hxi%list_elem_of_singleton. by subst x.
  - intros j. rewrite Hfl, elem_of_app, list_elem_of_singleton, Hfree.
    destruct (decide (j = i)) as [->|Hj].
    + rewrite (aget_aset_eq _ _ _ _ Hset). tauto.
    + rewrite (aget_aset_ne _ _ _ j _ Hset) by done. tauto.
Qed.

Lemma fa_inv_reown a i o o' owners :
  fa_inv a -> (fa_owners_ a).[i] = Some o -> o <> FrameOwner_Free -> o' <> FrameOwner_Free ->
  (fa_owners_ a).[i <- o'] = Some owners -> fa_inv (fa_set_owners a owners).
Proof.
  intros [Hs Ho Hc Hnd Hfree] Hi Hne Hne' Hset. split; simpl; try done.
  - by rewrite (aset_zlen _ _ _ _ Hset).
  - intros j. unfold free_list; simpl. rewrite Hfree. destruct (decide (j = i)) as [->|Hj].
    + rewrite (aget_aset_eq _ _ _ _ Hset). split; congruence.
    + by rewrite (aget_aset_ne _ _ _ j _ Hset) by done.
Qed.

Lemma fa_inv_counters a a' :
  fa_free_stack_ a' = fa_free_stack_ a -> fa_owners_ a' = fa_owners_ a ->
  fa_free_count_ a' = fa_free_count_ a -> fa_inv a -> fa_inv a'.
Proof.
  intros E1 E2 E3 [Hs Ho Hc Hnd Hf]. unfold free_list in *.
  by split; unfold free_list; rewrite ?E1, ?E2, ?E3.
Qed.

(** ** The operations *)

Lemma allocate_empty a o :
  fa_free_count_ a = 0 ->
  allocate a o = Some (mkFrameAllocation FrameHandle_default FrameStatus_PoolEmpty, fa_count_allocation_failure a).
Proof. intros Hz. unfold allocate. by rewrite Hz. Qed.

Lemma allocate_some a o :
  fa_inv a -> 0 < fa_free_count_ a ->
  exists i owners, (fa_free_stack_ a).[fa_free_count_ a - 1] = Some i
    /\ (fa_owners_ a).[i] = Some FrameOwner_Free
    /\ (fa_owners_ a).[i <- o] = Some owners
    /\ allocate a o = Some (mkFrameAllocation (make_handle i) FrameStatus_Ok,
         fa_set_pool a (fa_free_stack_ a) owners (fa_free_count_ a - 1)).
Proof.
  intros Ha Hpos.
  destruct (aget_in_range (fa_free_stack_ a) (fa_free_count_ a - 1)) as [i Hi].
  { rewrite (fi_stack _ Ha). pose proof (fi_count _ Ha). lia. }
  assert ((fa_owners_ a).[i] = Some FrameOwner_Free) as Hfree.
  { apply (fi_free _ Ha). rewrite (pool_pop a i Ha Hi), elem_of_app, list_elem_of_singleton. tauto. }
  assert ((fa_owners_ a).[i <- o] = Some (<[Z.to_nat i := o]> (fa_owners_ a))) as Hset
    by (apply aset_in_range; by eapply aget_lt).
  exists i. eexists. split_and!; [done|done|done|]. unfold allocate.
  destruct (Z.eqb_spec (fa_free_count_ a) 0); [lia|]. by rewrite Hi; simpl; rewrite Hset.
Qed.

Lemma allocate_inv a o :
  fa_inv a -> o <> FrameOwner_Free -> exists r a', allocate a o = Some (r, a') /\ fa_inv a'.
Proof.
  intros Ha Hne. destruct (decide (fa_free_count_ a = 0)) as [Hz|Hz].
  - rewrite allocate_empty by done. do 2 eexists. split; [done|]. by eapply fa_inv_counters; [..|apply Ha].
  - pose proof (fi_count _ Ha).
    destruct (allocate_some a o Ha ltac:(lia)) as (i & owners & Hi & _ & Hset & ->).
    do 2 eexists. split; [done|]. by eapply fa_inv_pop.
Qed.

Lemma allocate_batch_loop_inv n a o output count :
  fa_inv a -> o <> FrameOwner_Free -> 0 <= count -> count + Z.of_nat n <= zlen output ->
  exists count' output' a', allocate_batch_loop n a o output count = Some (count', output', a') /\ fa_inv a'
    /\ zlen output' = zlen output
    /\ count' = count + Z.min (Z.of_nat n) (fa_free_count_ a)
    /\ fa_free_count_ a' = fa_free_count_ a - (count' - count).
Proof.
  revert a output count. induction n as [|n IH]; intros a output count Ha Hne Hc Hlen; simpl.
  { pose proof (fi_count _ Ha). do 3 eexists. split_and!; [done..|lia|lia]. }
  pose proof (fi_count _ Ha). destruct (Z.ltb_spec 0 (fa_free_count_ a)) as [Hpos|Hz].
  - destruct (allocate_some a o Ha Hpos) as (i & owners & Hi & _ & Hset & ->). simpl.
    rewrite aset_in_range by lia. simpl.
    destruct (IH (fa_set_pool a (fa_free_stack_ a) owners (fa_free_count_ a - 1))
      (<[Z.to_nat count := make_handle i]> output) (count + 1))
      as (c' & out' & a' & -> & Ha' & Hlen' & Hcount & Hfc); [by eapply fa_inv_pop|done|lia| |].
    { unfold zlen in *. rewrite length_insert. lia. }
    simpl in *. do 3 eexists. split_and!; [done|done| |lia|lia].
    rewrite Hlen'. unfold zlen. by rewrite length_insert.
  - do 3 eexists. split_and!; [done..|lia|lia].
Qed.

(** What [transition] and [release] do with a handle that names a frame. *)
Definition handle_ok (frame : FrameHandle) : Prop := fits 32 (fh_index frame) /\ fits 64 (fh_address frame).

Lemma release_spec a frame expected :
  fa_inv a -> handle_ok frame -> expected <> FrameOwner_Free ->
  exists a', release a frame expected = Some (
      (if negb (validate_frame frame =?? FrameStatus_Ok) then validate_frame frame
       else if (fa_owners_ a).[fh_index frame] =?? Some expected then FrameStatus_Ok
       else FrameStatus_InvalidOwner), a')
    /\ fa_inv a'
    /\ if (validate_frame frame =?? FrameStatus_Ok) && ((fa_owners_ a).[fh_index frame] =?? Some expected)
       then (fa_owners_ a).[fh_index frame <- FrameOwner_Free] = Some (fa_owners_ a')
            /\ free_list a' = free_list a ++ [fh_index frame]
       else a' = fa_count_release_failure a.
Proof.
  intros Ha [[Hi _] _] Hne. unfold release.
  case_bool_decide as Hv; simpl.
  2: { eexists. split_and!; [done| |done]. by eapply fa_inv_counters; [..|apply Ha]. }
  apply validate_frame_ok in Hv as [Hr _]; [|done].
  destruct (aget_in_range (fa_owners_ a) (fh_index frame)) as [o Ho]; [by rewrite (fi_owners _ Ha)|].
  rewrite Ho. simpl. rewrite (bool_decide_ext (Some o = Some expected) (o = expected)) by (split; congruence).
  case_bool_decide as Heq; simpl.
  2: { eexists. split_and!; [done| |done]. by eapply fa_inv_counters; [..|apply Ha]. }
  subst o. pose proof (owned_leaves_room a _ _ Ha Ho Hne). pose proof (fi_count _ Ha).
  destruct (Z.leb_spec FrameCount (fa_free_count_ a)); [lia|].
  assert (exists owners, (fa_owners_ a).[fh_index frame <- FrameOwner_Free] = Some owners) as [owners Hset]
    by (eexists; apply aset_in_range; by rewrite (fi_owners _ Ha)).
  assert (exists stack, (fa_free_stack_ a).[fa_free_count_ a <- fh_index frame] = Some stack) as [stack Hstk]
    by (eexists; apply aset_in_range; rewrite (fi_stack _ Ha); lia).
  rewrite Hset. simpl. rewrite Hstk. simpl.
  destruct (fa_inv_push a _ _ _ _ Ha Ho Hne Hset Hstk) as [Hinv Hfl].
  eexists. split_and!; [done|done|done|done].
Qed.

(** The handle names a frame that [expected] owns. *)
Definition owned_frame (a : FrameAllocator) (expected : FrameOwner) (frame : FrameHandle) : Prop :=
  validate_frame frame = FrameStatus_Ok /\ (fa_owners_ a).[fh_index frame] = Some expected.

Lemma validate_frame_cases frame :
  handle_ok frame ->
  (FrameCount <= fh_index frame -> validate_frame frame = FrameStatus_InvalidFrameIndex) /\
  (fh_index frame < FrameCount -> fh_address frame <> fh_index frame * FrameSize ->
   validate_frame frame = FrameStatus_InvalidFrameAddress) /\
  (fh_index frame < FrameCount -> fh_address frame = fh_index frame * FrameSize -> validate_frame frame = FrameStatus_Ok).
Proof.
  intros [[Hi _] _]. unfold validate_frame, valid_index, valid_address_for_index. split_and!.
  - intros Hbig. by destruct (Z.ltb_spec (fh_index frame) FrameCount); [lia|].
  - intros Hlt Hne. rewrite wrap_small by (unfold fits; nia). destruct (Z.ltb_spec (fh_index frame) FrameCount); [|lia].
    by destruct (Z.eqb_spec (fh_address frame) (fh_index frame * FrameSize)).
  - intros Hlt Heq. rewrite wrap_small by (unfold fits; nia). destruct (Z.ltb_spec (fh_index frame) FrameCount); [|lia].
    by rewrite Heq, Z.eqb_refl.
Qed.

Lemma transition_spec a frame expected next :
  fa_inv a -> handle_ok frame -> expected <> FrameOwner_Free ->
  exists a', transition a frame expected next = Some (
      (if negb (validate_frame frame =?? FrameStatus_Ok) then validate_frame frame
       else if (fa_owners_ a).[fh_index frame] =?? Some expected then FrameStatus_Ok
       else FrameStatus_InvalidOwner), a')
    /\ fa_inv a'
    /\ if (validate_frame frame =?? FrameStatus_Ok) && ((fa_owners_ a).[fh_index frame] =?? Some expected)
       then (fa_owners_ a).[fh_index frame <- next] = Some (fa_owners_ a') /\
            free_list a' = (if next =?? FrameOwner_Free then free_list a ++ [fh_index frame] else free_list a)
       else a' = fa_count_transition_failure a.
Proof.
  intros Ha Hh Hne. pose proof Hh as [[Hi _] _]. unfold transition.
  destruct (release_spec a frame expected Ha Hh Hne) as (ar & Hrel & Har & Hcases).
  case_bool_decide as Hv; simpl in *.
  2: { eexists. split_and!; [done| |done]. by eapply fa_inv_counters; [..|apply Ha]. }
  apply validate_frame_ok in Hv as [Hr _]; [|done].
  destruct (aget_in_range (fa_owners_ a) (fh_index frame)) as [o Ho]; [by rewrite (fi_owners _ Ha)|].
  rewrite Ho in *. simpl.
  rewrite (bool_decide_ext (Some o = Some expected) (o = expected)) in * by (split; congruence).
  case_bool_decide as Heq; simpl in *.
  2: { eexists. split_and!; [done| |done]. by eapply fa_inv_counters; [..|apply Ha]. }
  subst o. case_bool_decide as Hfree.
  - subst next. exists ar. split_and!; [done|done|tauto|tauto].
  - assert (exists owners, (fa_owners_ a).[fh_index frame <- next] = Some owners) as [owners Hset]
      by (eexists; apply aset_in_range; by rewrite (fi_owners _ Ha)).
    rewrite Hset. simpl. eexists. split_and!; [done| |done|done]. by eapply fa_inv_reown.
Qed.

Lemma release_batch_check_spec a frames expected :
  fa_inv a -> Forall handle_ok frames ->
  exists status, release_batch_check a frames expected = Some status
    /\ (status = FrameStatus_Ok <-> Forall (owned_frame a expected) frames).
Proof.
  intros Ha. induction 1 as [|frame frames [[Hi _] _] _ (st & IH & Hst)]; simpl.
  { eexists. split; [done|]. split; [constructor|done]. }
  setoid_rewrite Forall_cons. unfold owned_frame at 1.
  case_bool_decide as Hv; simpl.
  2: { eexists. split; [done|]. tauto. }
  pose proof (validate_frame_ok _ Hi Hv) as [Hr _].
  destruct (aget_in_range (fa_owners_ a) (fh_index frame)) as [o Ho]; [by rewrite (fi_owners _ Ha)|].
  rewrite Ho. simpl. case_bool_decide as Heq; simpl.
  - subst o. exists st. rewrite Hst. tauto.
  - eexists. split; [done|]. split; [done|]. intros [[_ [= ?]] _]. done.
Qed.

Lemma release_batch_loop_spec a frames :
  fa_inv a -> NoDup (fh_index <$> frames) ->
  Forall (fun f => exists o, o <> FrameOwner_Free /\ (fa_owners_ a).[fh_index f] = Some o) frames ->
  exists a', release_batch_loop a frames = Some a' /\ fa_inv a'
    /\ free_list a' = free_list a ++ (fh_index <$> frames)
    /\ fa_free_count_ a' = fa_free_count_ a + zlen frames.
Proof.
  revert a. induction frames as [|f frames IH]; intros a Ha Hnd Hown; simpl.
  { exists a. rewrite app_nil_r. split_and!; [done..|autorewrite with zlen; lia]. }
  apply NoDup_cons in Hnd as [Hnotin Hnd]. apply Forall_cons in Hown as [(o & Hne & Ho) Hown].
  pose proof (owned_leaves_room a _ _ Ha Ho Hne). pose proof (fi_count _ Ha).
  pose proof (aget_lt _ _ _ Ho) as Hr.
  assert (exists owners, (fa_owners_ a).[fh_index f <- FrameOwner_Free] = Some owners) as [owners Hset]
    by (eexists; by apply aset_in_range).
  assert (exists stack, (fa_free_stack_ a).[fa_free_count_ a <- fh_index f] = Some stack) as [stack Hstk]
    by (eexists; apply aset_in_range; rewrite (fi_stack _ Ha); lia).
  rewrite Hset. simpl. rewrite Hstk. simpl.
  destruct (fa_inv_push a _ _ _ _ Ha Ho Hne Hset Hstk) as [Hinv Hfl].
  destruct (IH _ Hinv Hnd) as (a' & -> & Ha' & Hfl' & Hcount); simpl in *.
  - apply Forall_forall. intros g Hg. rewrite Forall_forall in Hown.
    destruct (Hown g Hg) as (og & ? & Hog). exists og. split; [done|].
    rewrite (aget_aset_ne _ _ _ (fh_index g) _ Hset); [done|].
    intros Heq. apply Hnotin. rewrite Heq. by apply list_elem_of_fmap_2.
  - exists a'. split_and!; [done|done| |autorewrite with zlen; lia].
    rewrite Hfl', Hfl. by rewrite <-app_assoc.
Qed.

(** A batch of distinct frames of one owner goes back as a whole, or not at all. *)
Lemma release_batch_spec a frames expected :
  fa_inv a -> Forall handle_ok frames -> expected <> FrameOwner_Free -> NoDup (fh_index <$> frames) ->
  exists status a', release_batch a frames expected = Some (status, a') /\ fa_inv a'
    /\ (status = FrameStatus_Ok <-> Forall (owned_frame a expected) frames)
    /\ (status = FrameStatus_Ok -> free_list a' = free_list a ++ (fh_index <$> frames))
    /\ (status <> FrameStatus_Ok -> a' = fa_count_release_failure a).
Proof.
  intros Ha Hok Hne Hnd. unfold release_batch.
  destruct (release_batch_check_spec a frames expected Ha Hok) as (st & -> & Hst). simpl.
  case_bool_decide as Hs; simpl.
  2: { do 2 eexists. split_and!; [done|by eapply fa_inv_counters; [..|apply Ha]|done|done|done]. }
  pose proof (proj1 Hst Hs) as Hall.
  destruct (release_batch_loop_spec a frames Ha Hnd) as (a' & -> & Ha' & Hfl & Hcount).
  { eapply Forall_impl; [done|]. intros f [_ Hf]. eauto. }
  pose proof (fi_count _ Ha'). pose proof (fi_count _ Ha). pose proof (zlen_nonneg frames).
  rewrite wrap_small by (unfold fits; lia).
  destruct (Z.ltb_spec FrameCount (fa_free_count_ a + zlen frames)); [lia|]. simpl.
  do 2 eexists. split_and!; [done|done| |done|done]. subst st. tauto.
Qed.

(** ** Runs of the allocator *)

Inductive FaOp :=
| FaAllocate (owner : FrameOwner)
| FaAllocateBatch (output : list FrameHandle) (owner : FrameOwner)
| FaTransition (frame : FrameHandle) (expected_owner next_owner : FrameOwner)
| FaRelease (frame : FrameHandle) (expected_owner : FrameOwner)
| FaReleaseBatch (frames : list FrameHandle) (expected_owner : FrameOwner).

Definition fa_apply (a : FrameAllocator) (o : FaOp) : option FrameAllocator :=
  match o with
  | FaAllocate owner => snd <$> allocate a owner
  | FaAllocateBatch output owner => snd <$> allocate_batch a output owner
  | FaTransition frame expected next => snd <$> transition a frame expected next
  | FaRelease frame expected => snd <$> release a frame expected
  | FaReleaseBatch frames expected => snd <$> release_batch a frames expected
  end.

Fixpoint fa_run (a : FrameAllocator) (ops : list FaOp) : option FrameAllocator :=
  match ops with
  | [] => Some a
  | o :: ops => a' ← fa_apply a o; fa_run a' ops
  end.

(** The calls the contract covers: [Free] is never named as the owner a frame is
    taken for or taken from, and a batch does not name a frame twice. *)
Definition fa_op_ok (o : FaOp) : Prop :=
  match o with
  | FaAllocate owner => owner <> FrameOwner_Free
  | FaAllocateBatch _ owner => owner <> FrameOwner_Free
  | FaTransition frame expected _ => handle_ok frame /\ expected <> FrameOwner_Free
  | FaRelease frame expected => handle_ok frame /\ expected <> FrameOwner_Free
  | FaReleaseBatch frames expected =>
      Forall handle_ok frames /\ expected <> FrameOwner_Free /\ NoDup (fh_index <$> frames)
  end.

Lemma fa_apply_inv a o : fa_inv a -> fa_op_ok o -> exists a', fa_apply a o = Some a' /\ fa_inv a'.
Proof.
  intros Ha Ho. destruct o as [ow|out ow|f e n|f e|fs e]; simpl in *.
  - destruct (allocate_inv a ow Ha Ho) as (r & a' & -> & ?). eauto.
  - unfold allocate_batch.
    destruct (allocate_batch_loop_inv (length out) a ow out 0) as (c & out' & a' & -> & ? & _);
      [done|done|lia|unfold zlen; lia|]. simpl. eexists. split; [done|].
    case_match; [|done]. by eapply fa_inv_counters; [..|done].
  - destruct Ho. destruct (transition_spec a f e n) as (a' & -> & ? & _); simpl; eauto.
  - destruct Ho. destruct (release_spec a f e) as (a' & -> & ? & _); simpl; eauto.
  - destruct Ho as (? & ? & ?).
    destruct (release_batch_spec a fs e) as (st & a' & -> & ? & _); simpl; eauto.
Qed.

Lemma fa_run_inv a ops : fa_inv a -> Forall fa_op_ok ops -> exists a', fa_run a ops = Some a' /\ fa_inv a'.
Proof.
  intros Ha Hops. revert a Ha. induction Hops as [|o ops Ho _ IH]; intros a Ha; simpl; [eauto|].
  destruct (fa_apply_inv a o Ha Ho) as (a1 & -> & Ha1). simpl. by apply IH.
Qed.

Lemma free_list_frames a : fa_inv a -> free_list a ≡ₚ frames_with (fun o => o =?? FrameOwner_Free) a.
Proof.
  intros Ha. apply NoDup_Permutation; [apply Ha|apply NoDup_filter, NoDup_seqZ|].
  intros i. unfold frames_with. rewrite list_elem_of_filter, elem_of_seqZ, (fi_free _ Ha).
  destruct ((fa_owners_ a).[i]) as [o|] eqn:Ho; simpl; [|split; [done|by intros [? _]]].
  apply aget_lt in Ho. rewrite (fi_owners _ Ha) in Ho. rewrite bool_decide_eq_true. split.
  - intros [= ->]. split; [done|lia].
  - by intros [-> _].
Qed.

Lemma filter_negb_length {A} (P Q : A -> bool) (l : list A) :
  (forall x, x ∈ l -> Q x = negb (P x)) ->
  zlen (filter (fun x => P x = true) l) + zlen (filter (fun x => Q x = true) l) = zlen l.
Proof.
  induction l as [|x l IH]; intros Hpq; [done|].
  specialize (IH ltac:(intros; apply Hpq; by right)).
  specialize (Hpq x ltac:(by left)). rewrite !filter_cons.
  destruct (P x); rewrite Hpq; simpl; autorewrite with zlen; lia.
Qed.

(** Every frame is accounted for: [in_use] counts the frames that are not free. *)
Lemma fa_in_use_count a :
  fa_inv a -> fa_in_use a = zlen (frames_with (fun o => negb (o =?? FrameOwner_Free)) a).
Proof.
  intros Ha. pose proof (fi_count _ Ha). unfold fa_in_use. rewrite wrap_small by (unfold fits; lia).
  pose proof (free_list_length a Ha) as Hlen.
  unfold zlen in Hlen. rewrite (Permutation_length (free_list_frames a Ha)) in Hlen.
  pose proof (filter_negb_length
    (fun i => from_option (fun o => o =?? FrameOwner_Free) false (fa_owners_ a).[i])
    (fun i => from_option (fun o => negb (o =?? FrameOwner_Free)) false (fa_owners_ a).[i])
    (seqZ 0 FrameCount)) as Hsum.
  unfold frames_with, zlen in *. rewrite length_seqZ in Hsum.
  enough (forall i, i ∈ seqZ 0 FrameCount -> exists o, (fa_owners_ a).[i] = Some o) as Hall.
  - rewrite Hlen in Hsum. specialize (Hsum ltac:(intros i [o ->]%Hall; done)). lia.
  - intros i Hi%elem_of_seqZ. apply aget_in_range. rewrite (fi_owners _ Ha). lia.
Qed.

(** ** What the allocator guarantees *)

(** C4: exclusive ownership is an invariant.  Every run, on a new allocator, of calls
    that pass no [Free] owner (neither as the owner to give nor as the expected one, except
    the next owner of [transition]) and no frame twice in one [release_batch]
    ([fa_op_ok]) stays inside of its arrays and ends in a state where the free stack holds each free frame exactly once and no owned frame, and
    where [available] and [in_use] count the free and the owned frames. *)
Theorem allocator_ownership_invariant ops :
  Forall fa_op_ok ops ->
  exists a, fa_run FrameAllocator_new ops = Some a /\ fa_inv a
    /\ free_list a ≡ₚ frames_with (fun o => o =?? FrameOwner_Free) a
    /\ fa_available a = zlen (free_list a)
    /\ fa_in_use a = zlen (frames_with (fun o => negb (o =?? FrameOwner_Free)) a).
Proof.
  intros Hops. destruct (fa_run_inv _ ops FrameAllocator_new_inv Hops) as (a & Hrun & Ha).
  exists a. split_and!; [done|done|by apply free_list_frames| |by apply fa_in_use_count].
  symmetry. by apply free_list_length.
Qed.

(** An allocation hands out a free frame, exclusively.  With a frame
    available, [allocate(owner)] succeeds; its handle is the one of a frame that
    was free, with the address of that frame inside of the UMEM; afterwards
    [owner] owns it, it has left the free stack, and no other frame changed.
    With none available it answers [PoolEmpty] and only counts the failure. *)
Theorem allocate_exclusive a owner :
  fa_inv a -> owner <> FrameOwner_Free ->
  exists r a', allocate a owner = Some (r, a') /\ fa_inv a' /\
  if 0 <? fa_free_count_ a then
    let i := fh_index (fal_frame r) in
    fal_status r = FrameStatus_Ok /\ validate_frame (fal_frame r) = FrameStatus_Ok
    /\ fh_address (fal_frame r) = i * FrameSize /\ 0 <= i * FrameSize < umem_size_bytes
    /\ (fa_owners_ a).[i] = Some FrameOwner_Free /\ (fa_owners_ a').[i] = Some owner
    /\ free_list a = free_list a' ++ [i]
    /\ forall j, j <> i -> (fa_owners_ a').[j] = (fa_owners_ a).[j]
  else fal_status r = FrameStatus_PoolEmpty /\ a' = fa_count_allocation_failure a.
Proof.
  intros Ha Hne. pose proof (fi_count _ Ha). destruct (Z.ltb_spec 0 (fa_free_count_ a)) as [Hpos|Hz].
  2: { rewrite allocate_empty by lia. do 2 eexists. split_and!; [done| |done|done].
       by eapply fa_inv_counters; [..|apply Ha]. }
  destruct (allocate_some a owner Ha Hpos) as (i & owners & Hi & Hfree & Hset & ->).
  pose proof (aget_lt _ _ _ Hfree) as Hr. rewrite (fi_owners _ Ha) in Hr.
  do 2 eexists. split_and!; [done|by eapply fa_inv_pop|]. simpl. split_and!.
  - done.
  - unfold validate_frame, valid_index, valid_address_for_index. simpl.
    destruct (Z.ltb_spec i FrameCount); [|lia]. by rewrite Z.eqb_refl.
  - by apply frame_offset.
  - nia.
  - unfold umem_size_bytes. rewrite wrap_small; [nia|]. unfold fits. nia.
  - done.
  - by eapply aget_aset_eq.
  - by apply pool_pop.
  - intros j Hj. by eapply aget_aset_ne.
Qed.

(** C34: [transition] checks the handle and the owner before it changes anything, and
    says which check failed.  An index outside of the pool is answered with
    [InvalidFrameIndex], an address that is not that frame's with [InvalidFrameAddress], a
    frame with another owner than the expected one with [InvalidOwner]; each of these only
    counts the failure, whatever the owners.  If all checks pass and the expected owner is
    not [Free], the answer is [Ok], the frame gets [next_owner], it is put on top of the free
    stack exactly when that is [Free], and no other frame changes. *)
Theorem transition_checked a frame expected next :
  fa_inv a -> handle_ok frame ->
  let failed status := transition a frame expected next = Some (status, fa_count_transition_failure a) in
  (FrameCount <= fh_index frame -> failed FrameStatus_InvalidFrameIndex) /\
  (fh_index frame < FrameCount -> fh_address frame <> fh_index frame * FrameSize -> failed FrameStatus_InvalidFrameAddress) /\
  (fh_index frame < FrameCount -> fh_address frame = fh_index frame * FrameSize ->
   (fa_owners_ a).[fh_index frame] <> Some expected -> failed FrameStatus_InvalidOwner) /\
  (fh_index frame < FrameCount -> fh_address frame = fh_index frame * FrameSize ->
   (fa_owners_ a).[fh_index frame] = Some expected -> expected <> FrameOwner_Free ->
   exists a', transition a frame expected next = Some (FrameStatus_Ok, a') /\ fa_inv a' /\
     (fa_owners_ a').[fh_index frame] = Some next /\
     (forall j, j <> fh_index frame -> (fa_owners_ a').[j] = (fa_owners_ a).[j]) /\
     free_list a' = if next =?? FrameOwner_Free then free_list a ++ [fh_index frame] else free_list a).
Proof.
  intros Ha Hh failed. subst failed. cbv beta. split_and!.
  - intros Hi. unfold transition. by rewrite (proj1 (validate_frame_cases frame Hh)).
  - intros Hi Haddr. unfold transition. by rewrite (proj1 (proj2 (validate_frame_cases frame Hh))).
  - intros Hi Haddr Ho. unfold transition. rewrite (proj2 (proj2 (validate_frame_cases frame Hh))) by done.
    destruct Hh as [[Hnn _] _]. destruct (aget_in_range (fa_owners_ a) (fh_index frame)) as [o E]; [by rewrite (fi_owners _ Ha)|].
    rewrite E in *. cbn. by rewrite (bool_decide_false (o = expected)) by congruence.
  - intros Hi Haddr Ho Hne. pose proof (proj2 (proj2 (validate_frame_cases frame Hh)) Hi Haddr) as Hv.
    destruct (transition_spec a frame expected next Ha Hh Hne) as (a' & Hrun & Ha' & Hc).
    rewrite Hv, Ho in Hrun, Hc. rewrite !bool_decide_true in Hrun, Hc by done. cbn [negb andb] in *. destruct Hc as [Hset Hfree].
    exists a'. split_and!; [done|done|by eapply aget_aset_eq|intros j Hj; by eapply aget_aset_ne|done].
Qed.

(** [release_batch] is all or nothing.  For a batch of distinct frames it
    answers [Ok] exactly when every handle is valid and owned by
    [expected_owner], and then all of them are free and on the stack; otherwise
    it releases none of them and only counts the failure. *)
Theorem release_batch_all_or_nothing a frames expected :
  fa_inv a -> Forall handle_ok frames -> expected <> FrameOwner_Free -> NoDup (fh_index <$> frames) ->
  exists status a', release_batch a frames expected = Some (status, a') /\ fa_inv a'
    /\ (status = FrameStatus_Ok <-> Forall (owned_frame a expected) frames)
    /\ (status = FrameStatus_Ok -> free_list a' = free_list a ++ (fh_index <$> frames))
    /\ (status <> FrameStatus_Ok -> a' = fa_count_release_failure a).
Proof. apply release_batch_spec. Qed.

Lemma make_handle_valid i : 0 <= i < FrameCount -> validate_frame (make_handle i) = FrameStatus_Ok.
Proof.
  intros Hi. unfold validate_frame, valid_index, valid_address_for_index. simpl.
  destruct (Z.ltb_spec i FrameCount); [|lia]. by rewrite Z.eqb_refl.
Qed.

Lemma umem_size_bytes_eq : umem_size_bytes = FrameCount * FrameSize.
Proof. apply wrap_small. unfold fits. nia. Qed.

Lemma handle_of_frame i :
  0 <= i < FrameCount -> handle_from_address (i * FrameSize) = mkFrameAllocation (make_handle i) FrameStatus_Ok.
Proof.
  intros Hi. unfold handle_from_address. rewrite Z_mod_mult, umem_size_bytes_eq. simpl.
  destruct (Z.leb_spec (FrameCount * FrameSize) (i * FrameSize)); [nia|].
  rewrite Z_div_mult, wrap_small by (unfold fits; lia). done.
Qed.

(** Frame addresses and handles are in bijection.  [handle_from_address]
    accepts exactly the multiples of [FrameSize] below the UMEM size, answers the
    one valid handle with that address, and inverts [make_handle]. *)
Theorem handle_from_address_roundtrip :
  (forall i, 0 <= i < FrameCount ->
     handle_from_address (fh_address (make_handle i)) = mkFrameAllocation (make_handle i) FrameStatus_Ok) /\
  (forall address, 0 <= address ->
     let r := handle_from_address address in
     (fal_ok r = true <-> exists i, 0 <= i < FrameCount /\ address = i * FrameSize) /\
     (fal_ok r = true -> fh_address (fal_frame r) = address /\ validate_frame (fal_frame r) = FrameStatus_Ok)).
Proof.
  pose proof umem_size_bytes_eq as Hsize. pose proof handle_of_frame as Hmul.
  split.
  - intros i Hi. simpl. rewrite frame_offset by done. by apply Hmul.
  - intros address Ha r. subst r.
    assert (fal_ok (handle_from_address address) = true <-> exists i, 0 <= i < FrameCount /\ address = i * FrameSize) as Hiff.
    { split; [|by intros (i & Hi & ->); rewrite Hmul].
      unfold handle_from_address. rewrite Hsize.
      destruct (Z.eqb_spec (address mod FrameSize) 0); [|done]. simpl.
      destruct (Z.leb_spec (FrameCount * FrameSize) address); [done|]. intros _.
      pose proof (Z.div_mod address FrameSize ltac:(lia)). exists (address / FrameSize). nia. }
    split; [done|]. intros (i & Hi & ->)%Hiff. rewrite Hmul by done. simpl.
    split; [by apply frame_offset|by apply make_handle_valid].
Qed.

(** Why a batch must not name a frame twice.  [release_batch] validates
    all handles before it frees any, so a batch that names the same owned frame
    twice is accepted, the frame is pushed twice, and the next two allocations
    hand out the same frame to two owners. *)
Theorem release_batch_duplicate_aliases a i owner o1 o2 :
  fa_inv a -> 0 <= i < FrameCount -> owner <> FrameOwner_Free ->
  (fa_owners_ a).[i] = Some owner -> fa_free_count_ a + 2 <= FrameCount ->
  exists a' a1 a2,
    release_batch a [make_handle i; make_handle i] owner = Some (FrameStatus_Ok, a') /\
    allocate a' o1 = Some (mkFrameAllocation (make_handle i) FrameStatus_Ok, a1) /\
    allocate a1 o2 = Some (mkFrameAllocation (make_handle i) FrameStatus_Ok, a2).
Proof.
  intros Ha Hi Hne Ho Hroom. pose proof Ha as [Hs Hos Hc _ _].
  set (o0 := <[Z.to_nat i := FrameOwner_Free]> (fa_owners_ a)).
  set (n := Z.to_nat (fa_free_count_ a)).
  set (s2 := <[S n := i]> (<[n := i]> (fa_free_stack_ a))).
  assert (forall l : list FrameOwner, zlen l = FrameCount -> forall o, l.[i <- o] = Some (<[Z.to_nat i := o]> l)) as Hset
    by (intros; apply aset_in_range; lia).
  assert (zlen o0 = FrameCount) as Ho0 by (unfold o0, zlen in *; by rewrite length_insert).
  assert (zlen s2 = FrameCount) as Hs2 by (unfold s2, zlen in *; by rewrite !length_insert).
  exists (fa_set_pool a s2 (<[Z.to_nat i := FrameOwner_Free]> o0) (fa_free_count_ a + 1 + 1)).
  assert (forall k, (k = n \/ k = S n) -> s2 !! k = Some i) as Hget.
  { intros k Hk. unfold s2, zlen in *. destruct Hk as [->| ->].
    - rewrite list_lookup_insert_ne by lia. apply list_lookup_insert_eq. subst n; lia.
    - apply list_lookup_insert_eq. rewrite length_insert. subst n; lia. }
  do 2 eexists. split_and!.
  - unfold release_batch. simpl. rewrite make_handle_valid by done. simpl. rewrite Ho. simpl.
    rewrite bool_decide_eq_true_2 by done. simpl. rewrite wrap_small by (unfold fits, zlen; simpl; lia).
    change (zlen [make_handle i; make_handle i]) with 2.
    destruct (Z.ltb_spec FrameCount (fa_free_count_ a + 2)); [lia|].
    rewrite Hset by done. simpl. rewrite (aset_in_range (fa_free_stack_ a)) by lia. simpl.
    rewrite Hset by done. simpl. rewrite aset_in_range by (unfold zlen in *; rewrite length_insert; lia). simpl.
    unfold s2, n. by replace (Z.to_nat (fa_free_count_ a + 1)) with (S (Z.to_nat (fa_free_count_ a))) by lia.
  - unfold allocate. simpl. destruct (Z.eqb_spec (fa_free_count_ a + 1 + 1) 0); [lia|].
    unfold aget at 1. rewrite decide_True, Hget by (lia || (right; lia)). simpl.
    by rewrite Hset by (unfold zlen in *; by rewrite length_insert).
  - unfold allocate. simpl. destruct (Z.eqb_spec (fa_free_count_ a + 1 + 1 - 1) 0); [lia|].
    unfold aget at 1. rewrite decide_True, Hget by (lia || (left; lia)). simpl.
    by rewrite Hset by (unfold zlen in *; by rewrite !length_insert).
Qed.

(** Why no frame may be taken from [Free] by [transition].  For a free
    frame, [transition(frame, Free, next)] answers [Ok] and records the new owner
    without taking the frame off the free stack, so the frame is owned and can
    be allocated at the same time. *)
Theorem transition_from_free_aliases a i next :
  fa_inv a -> 0 <= i < FrameCount -> (fa_owners_ a).[i] = Some FrameOwner_Free ->
  next <> FrameOwner_Free ->
  exists a', transition a (make_handle i) FrameOwner_Free next = Some (FrameStatus_Ok, a')
    /\ (fa_owners_ a').[i] = Some next /\ i ∈ free_list a'.
Proof.
  intros Ha Hi Ho Hne. unfold transition. rewrite make_handle_valid by done. simpl.
  rewrite Ho. simpl. rewrite bool_decide_eq_false_2 by done.
  assert ((fa_owners_ a).[i <- next] = Some (<[Z.to_nat i := next]> (fa_owners_ a))) as Hset
    by (apply aset_in_range; rewrite (fi_owners _ Ha); lia).
  rewrite Hset. simpl. eexists. split_and!; [done|by eapply aget_aset_eq|].
  by apply (fi_free _ Ha) in Ho.
Qed.

End FrameAllocator.

(** ** Concrete runs, on four frames of 2048 bytes *)

Definition example_pool : FrameAllocator := FrameAllocator_new 4.

(** After [allocate(DataPlane)]: frame 0 is in use. *)
Definition example_pool_1 : FrameAllocator :=
  mkFrameAllocator [3; 2; 1; 0]
    [FrameOwner_DataPlane; FrameOwner_Free; FrameOwner_Free; FrameOwner_Free] 3 0 0 0.

Lemma example_pool_inv : fa_inv 4 example_pool.
Proof. by apply (FrameAllocator_new_inv 4 2048). Qed.

Lemma example_pool_1_inv : fa_inv 4 example_pool_1.
Proof.
  destruct (allocate_inv 4 2048 ltac:(done) example_pool FrameOwner_DataPlane example_pool_inv) as (r & a' & Hr & Ha');
    [done|]. vm_compute in Hr. by simplify_eq.
Qed.

Lemma allocator_ownership_invariant_witness :
  exists a, fa_run 4 2048 (FrameAllocator_new 4)
      [FaAllocate FrameOwner_FillRing; FaTransition (make_handle 2048 0) FrameOwner_FillRing FrameOwner_DataPlane;
       FaAllocateBatch [FrameHandle_default; FrameHandle_default] FrameOwner_TxRing;
       FaReleaseBatch [make_handle 2048 2; make_handle 2048 1] FrameOwner_TxRing] = Some a
    /\ fa_in_use 4 a = 1.
Proof.
  destruct (allocator_ownership_invariant 4 2048 ltac:(done) ltac:(done) ltac:(done)
    [FaAllocate FrameOwner_FillRing; FaTransition (make_handle 2048 0) FrameOwner_FillRing FrameOwner_DataPlane;
     FaAllocateBatch [FrameHandle_default; FrameHandle_default] FrameOwner_TxRing;
     FaReleaseBatch [make_handle 2048 2; make_handle 2048 1] FrameOwner_TxRing])
    as (a & Hrun & _ & _ & _ & Huse).
  { repeat constructor; simpl; try done; set_solver. }
  exists a. split; [exact Hrun|]. vm_compute in Hrun. rewrite Huse. by simplify_eq.
Defined.

Lemma allocate_exclusive_witness :
  exists r a', allocate 2048 example_pool FrameOwner_DataPlane = Some (r, a') /\ fa_inv 4 a'.
Proof.
  destruct (allocate_exclusive 4 2048 ltac:(done) ltac:(done) ltac:(done) example_pool FrameOwner_DataPlane)
    as (r & a' & Hr & Ha' & _); [apply example_pool_inv|done|]. by exists r, a'.
Defined.

Lemma transition_checked_witness :
  exists a', transition 4 2048 example_pool_1 (make_handle 2048 0) FrameOwner_DataPlane FrameOwner_TxRing
    = Some (FrameStatus_Ok, a') /\ (fa_owners_ a').[0] = Some FrameOwner_TxRing.
Proof.
  destruct (transition_checked 4 2048 ltac:(done) ltac:(done) ltac:(done) example_pool_1
    (make_handle 2048 0) FrameOwner_DataPlane FrameOwner_TxRing) as (_ & _ & _ & Hok);
    [apply example_pool_1_inv|done|].
  destruct Hok as (a' & Hr & _ & Hown & _); [reflexivity|reflexivity|reflexivity|done|]. by exists a'.
Defined.

Lemma release_batch_all_or_nothing_witness :
  exists st a', release_batch 4 2048 example_pool_1 [make_handle 2048 0] FrameOwner_DataPlane = Some (st, a')
    /\ (st = FrameStatus_Ok -> free_list a' = [3; 2; 1; 0]).
Proof.
  destruct (release_batch_all_or_nothing 4 2048 ltac:(done) ltac:(done) ltac:(done) example_pool_1
    [make_handle 2048 0] FrameOwner_DataPlane) as (st & a' & Hr & _ & _ & Hfl & _);
    [apply example_pool_1_inv|by repeat constructor|done|by apply NoDup_singleton|].
  exists st, a'. split; [done|exact Hfl].
Defined.

Lemma handle_from_address_roundtrip_witness :
  handle_from_address 4 2048 4096 = mkFrameAllocation (make_handle 2048 2) FrameStatus_Ok.
Proof.
  destruct (handle_from_address_roundtrip 4 2048 ltac:(done) ltac:(done) ltac:(done)) as [H _].
  exact (H 2 ltac:(done)).
Defined.

(** After a second [allocate(DataPlane)]: frames 0 and 1 are in use. *)
Definition example_pool_2 : FrameAllocator :=
  mkFrameAllocator [3; 2; 1; 0]
    [FrameOwner_DataPlane; FrameOwner_DataPlane; FrameOwner_Free; FrameOwner_Free] 2 0 0 0.

Lemma example_pool_2_inv : fa_inv 4 example_pool_2.
Proof.
  destruct (allocate_inv 4 2048 ltac:(done) example_pool_1 FrameOwner_DataPlane example_pool_1_inv) as (r & a' & Hr & Ha');
    [done|]. vm_compute in Hr. by simplify_eq.
Qed.

Lemma release_batch_duplicate_aliases_witness :
  exists a' a1 a2,
    release_batch 4 2048 example_pool_2 [make_handle 2048 0; make_handle 2048 0] FrameOwner_DataPlane
      = Some (FrameStatus_Ok, a') /\
    allocate 2048 a' FrameOwner_FillRing = Some (mkFrameAllocation (make_handle 2048 0) FrameStatus_Ok, a1) /\
    allocate 2048 a1 FrameOwner_TxRing = Some (mkFrameAllocation (make_handle 2048 0) FrameStatus_Ok, a2).
Proof.
  by apply (release_batch_duplicate_aliases 4 2048 ltac:(done) example_pool_2 0
    FrameOwner_DataPlane FrameOwner_FillRing FrameOwner_TxRing example_pool_2_inv).
Defined.

Lemma transition_from_free_aliases_witness :
  exists a', transition 4 2048 example_pool (make_handle 2048 2) FrameOwner_Free FrameOwner_DataPlane
      = Some (FrameStatus_Ok, a') /\ (fa_owners_ a').[2] = Some FrameOwner_DataPlane /\ 2 ∈ free_list a'.
Proof.
  by apply (transition_from_free_aliases 4 2048 example_pool 2
    FrameOwner_DataPlane example_pool_inv).
Defined.
