(* ===== verification/PacketParser.v ===== *)
(** * [include/chronosx/packet_parser.hpp]: the zero-copy L2-L4 parser

    Frames live in one byte memory (the UMEM); a [const Byte*] is [None] for
    [nullptr] and the offset of its first byte otherwise, and dereferencing
    outside of the memory is undefined behaviour. *)

From S2P Require Import Prelude Types.

Abbreviation Memory := (list Z) (only parsing).
Abbreviation Ptr := (option Z) (only parsing).

Definition load (mem : Memory) (p : Ptr) (i : Z) : option Byte :=
  base ← p; mem.[base + i].

Definition mem_ok (mem : Memory) : Prop := Forall (fits 8) mem.

Definition kEtherTypeIPv4 : Z := 0x0800.
Definition kEtherTypeARP : Z := 0x0806.
Definition kEtherTypeVLAN : Z := 0x8100.
Definition kEtherTypeIPv6 : Z := 0x86DD.

Definition kIPv4ProtocolICMP : Z := 1.
Definition kIPv4ProtocolTCP : Z := 6.
Definition kIPv4ProtocolUDP : Z := 17.

Definition kIPv4FragmentOffsetMask : Z := 0x1FFF.

Inductive ParseStatus :=
| ParseStatus_Ok
| ParseStatus_NullData
| ParseStatus_TooShortForEthernet
| ParseStatus_NonIPv4
| ParseStatus_TooShortForIPv4
| ParseStatus_InvalidIPv4Version
| ParseStatus_InvalidIPv4HeaderLength
| ParseStatus_TruncatedIPv4Header
| ParseStatus_IPv4TotalLengthTooSmall
| ParseStatus_IPv4TotalLengthExceedsFrame
| ParseStatus_IPv4FragmentWithoutL4
| ParseStatus_UnsupportedTransport
| ParseStatus_TooShortForTCP
| ParseStatus_InvalidTCPHeaderLength
| ParseStatus_TruncatedTCPHeader
| ParseStatus_TooShortForUDP
| ParseStatus_InvalidUDPLength
| ParseStatus_TruncatedUDPPayload.

#[export] Instance ParseStatus_eq_dec : EqDecision ParseStatus.
Proof. solve_decision. Defined.

Definition parse_status_name (status : ParseStatus) : string :=
  match status with
  | ParseStatus_Ok => "Ok"
  | ParseStatus_NullData => "NullData"
  | ParseStatus_TooShortForEthernet => "TooShortForEthernet"
  | ParseStatus_NonIPv4 => "NonIPv4"
  | ParseStatus_TooShortForIPv4 => "TooShortForIPv4"
  | ParseStatus_InvalidIPv4Version => "InvalidIPv4Version"
  | ParseStatus_InvalidIPv4HeaderLength => "InvalidIPv4HeaderLength"
  | ParseStatus_TruncatedIPv4Header => "TruncatedIPv4Header"
  | ParseStatus_IPv4TotalLengthTooSmall => "IPv4TotalLengthTooSmall"
  | ParseStatus_IPv4TotalLengthExceedsFrame => "IPv4TotalLengthExceedsFrame"
  | ParseStatus_IPv4FragmentWithoutL4 => "IPv4FragmentWithoutL4"
  | ParseStatus_UnsupportedTransport => "UnsupportedTransport"
  | ParseStatus_TooShortForTCP => "TooShortForTCP"
  | ParseStatus_InvalidTCPHeaderLength => "InvalidTCPHeaderLength"
  | ParseStatus_TruncatedTCPHeader => "TruncatedTCPHeader"
  | ParseStatus_TooShortForUDP => "TooShortForUDP"
  | ParseStatus_InvalidUDPLength => "InvalidUDPLength"
  | ParseStatus_TruncatedUDPPayload => "TruncatedUDPPayload"
  end.

Record PacketView := mkPacketView {
  pv_data : Ptr;
  pv_frame_length : Z;
  pv_status : ParseStatus;
  pv_ether_type : Z;
  pv_ipv4_protocol : Z;
  pv_ipv4_header_length : Z;
  pv_ipv4_total_length : Z;
  pv_src_ip : Z;
  pv_dst_ip : Z;
  pv_l3_offset : Z;
  pv_l4_offset : Z;
  pv_payload_offset : Z;
  pv_payload_length : Z;
  pv_tcp_header_length : Z;
  pv_src_port : Z;
  pv_dst_port : Z;
}.

(** [PacketView view{.data = data, .frame_length = length}]. *)
Definition PacketView_init (data : Ptr) (frame_length : Z) : PacketView :=
  mkPacketView data frame_length ParseStatus_TooShortForEthernet 0 0 0 0 0 0 0 0 0 0 0 0 0.

(** Assignments to the members, one or several at a time. *)
Definition pv_set_status (v : PacketView) (status : ParseStatus) : PacketView :=
  mkPacketView (pv_data v) (pv_frame_length v) status (pv_ether_type v) (pv_ipv4_protocol
    v) (pv_ipv4_header_length v) (pv_ipv4_total_length v) (pv_src_ip v) (pv_dst_ip v)
    (pv_l3_offset v) (pv_l4_offset v) (pv_payload_offset v) (pv_payload_length v)
    (pv_tcp_header_length v) (pv_src_port v) (pv_dst_port v).

Definition pv_set_ether_type (v : PacketView) (ether_type : Z) : PacketView :=
  mkPacketView (pv_data v) (pv_frame_length v) (pv_status v) ether_type (pv_ipv4_protocol
    v) (pv_ipv4_header_length v) (pv_ipv4_total_length v) (pv_src_ip v) (pv_dst_ip v)
    (pv_l3_offset v) (pv_l4_offset v) (pv_payload_offset v) (pv_payload_length v)
    (pv_tcp_header_length v) (pv_src_port v) (pv_dst_port v).

Definition pv_set_l3_offset (v : PacketView) (l3_offset : Z) : PacketView :=
  mkPacketView (pv_data v) (pv_frame_length v) (pv_status v) (pv_ether_type v)
    (pv_ipv4_protocol v) (pv_ipv4_header_length v) (pv_ipv4_total_length v) (pv_src_ip v)
    (pv_dst_ip v) l3_offset (pv_l4_offset v) (pv_payload_offset v) (pv_payload_length v)
    (pv_tcp_header_length v) (pv_src_port v) (pv_dst_port v).

Definition pv_set_ipv4_header_length (v : PacketView) (ipv4_header_length : Z) : PacketView :=
  mkPacketView (pv_data v) (pv_frame_length v) (pv_status v) (pv_ether_type v)
    (pv_ipv4_protocol v) ipv4_header_length (pv_ipv4_total_length v) (pv_src_ip v)
    (pv_dst_ip v) (pv_l3_offset v) (pv_l4_offset v) (pv_payload_offset v)
    (pv_payload_length v) (pv_tcp_header_length v) (pv_src_port v) (pv_dst_port v).

Definition pv_set_ipv4_total_length (v : PacketView) (ipv4_total_length : Z) : PacketView :=
  mkPacketView (pv_data v) (pv_frame_length v) (pv_status v) (pv_ether_type v)
    (pv_ipv4_protocol v) (pv_ipv4_header_length v) ipv4_total_length (pv_src_ip v)
    (pv_dst_ip v) (pv_l3_offset v) (pv_l4_offset v) (pv_payload_offset v)
    (pv_payload_length v) (pv_tcp_header_length v) (pv_src_port v) (pv_dst_port v).

Definition pv_set_l3_fields (v : PacketView) (ipv4_protocol : Z) (src_ip : Z) (dst_ip : Z) (l4_offset : Z) : PacketView :=
  mkPacketView (pv_data v) (pv_frame_length v) (pv_status v) (pv_ether_type v)
    ipv4_protocol (pv_ipv4_header_length v) (pv_ipv4_total_length v) src_ip dst_ip
    (pv_l3_offset v) l4_offset (pv_payload_offset v) (pv_payload_length v)
    (pv_tcp_header_length v) (pv_src_port v) (pv_dst_port v).

Definition pv_set_tcp_header_length (v : PacketView) (tcp_header_length : Z) : PacketView :=
  mkPacketView (pv_data v) (pv_frame_length v) (pv_status v) (pv_ether_type v)
    (pv_ipv4_protocol v) (pv_ipv4_header_length v) (pv_ipv4_total_length v) (pv_src_ip v)
    (pv_dst_ip v) (pv_l3_offset v) (pv_l4_offset v) (pv_payload_offset v)
    (pv_payload_length v) tcp_header_length (pv_src_port v) (pv_dst_port v).

Definition pv_set_l4_fields (v : PacketView) (src_port : Z) (dst_port : Z) (payload_offset : Z) (payload_length : Z) : PacketView :=
  mkPacketView (pv_data v) (pv_frame_length v) (pv_status v) (pv_ether_type v)
    (pv_ipv4_protocol v) (pv_ipv4_header_length v) (pv_ipv4_total_length v) (pv_src_ip v)
    (pv_dst_ip v) (pv_l3_offset v) (pv_l4_offset v) payload_offset payload_length
    (pv_tcp_header_length v) src_port dst_port.

Definition pv_ok (v : PacketView) : bool := pv_status v =?? ParseStatus_Ok.

Definition pv_is_ipv4 (v : PacketView) : bool := pv_ether_type v =? kEtherTypeIPv4.

Definition pv_is_tcp (v : PacketView) : bool := pv_ok v && (pv_ipv4_protocol v =? kIPv4ProtocolTCP).

Definition pv_is_udp (v : PacketView) : bool := pv_ok v && (pv_ipv4_protocol v =? kIPv4ProtocolUDP).

Definition pv_dst_mac (v : PacketView) : Ptr :=
  if negb (pv_data v =?? None) && (kEthernetHeaderBytes <=? pv_frame_length v) then pv_data v else None.

Definition pv_src_mac (v : PacketView) : Ptr :=
  if negb (pv_data v =?? None) && (kEthernetHeaderBytes <=? pv_frame_length v)
  then base ← pv_data v; Some (base + 6) else None.

Definition pv_payload_data (v : PacketView) : Ptr :=
  if pv_ok v && negb (pv_data v =?? None) && (pv_payload_offset v <=? pv_frame_length v)
  then base ← pv_data v; Some (base + pv_payload_offset v) else None.

Definition read_be16 (mem : Memory) (data : Ptr) (offset : Z) : option Z :=
  b0 ← load mem data offset;
  b1 ← load mem data (offset + 1);
  let high := u16 (Z.shiftl b0 8) in
  let low := u16 b1 in
  Some (u16 (Z.lor high low)).

Definition read_be32 (mem : Memory) (data : Ptr) (offset : Z) : option Z :=
  b0 ← load mem data offset;
  b1 ← load mem data (offset + 1);
  b2 ← load mem data (offset + 2);
  b3 ← load mem data (offset + 3);
  Some (Z.lor (Z.lor (Z.lor (u32 (Z.shiftl b0 24)) (u32 (Z.shiftl b1 16))) (u32 (Z.shiftl b2 8))) b3).

Definition ipv4_version (version_ihl : Byte) : Z := u8 (Z.shiftr version_ihl 4).

Definition ipv4_ihl_words (version_ihl : Byte) : Z := u8 (Z.land version_ihl 0x0F).

Definition tcp_data_offset_words (data_offset_reserved : Byte) : Z := u8 (Z.shiftr data_offset_reserved 4).

(** The TCP branch of [parse_packet]. *)
Definition parse_tcp (mem : Memory) (data : Ptr) (view : PacketView) (transport_length : Z) : option PacketView :=
  if transport_length <? kTCPBaseHeaderBytes then Some (pv_set_status view ParseStatus_TooShortForTCP)
  else
    data_offset ← load mem data (pv_l4_offset view + 12);
    let data_offset_words := tcp_data_offset_words data_offset in
    if data_offset_words <? 5 then Some (pv_set_status view ParseStatus_InvalidTCPHeaderLength)
    else
      let view := pv_set_tcp_header_length view (data_offset_words * 4) in
      if transport_length <? pv_tcp_header_length view
      then Some (pv_set_status view ParseStatus_TruncatedTCPHeader)
      else
        src_port ← read_be16 mem data (pv_l4_offset view);
        dst_port ← read_be16 mem data (pv_l4_offset view + 2);
        let view := pv_set_l4_fields view src_port dst_port
          (pv_l4_offset view + pv_tcp_header_length view)
          (transport_length - pv_tcp_header_length view) in
        Some (pv_set_status view ParseStatus_Ok).

(** Its UDP branch. *)
Definition parse_udp (mem : Memory) (data : Ptr) (view : PacketView) (transport_length : Z) : option PacketView :=
  if transport_length <? kUDPHeaderBytes then Some (pv_set_status view ParseStatus_TooShortForUDP)
  else
    udp_length ← read_be16 mem data (pv_l4_offset view + 4);
    if udp_length <? kUDPHeaderBytes then Some (pv_set_status view ParseStatus_InvalidUDPLength)
    else if transport_length <? udp_length then Some (pv_set_status view ParseStatus_TruncatedUDPPayload)
    else
      src_port ← read_be16 mem data (pv_l4_offset view);
      dst_port ← read_be16 mem data (pv_l4_offset view + 2);
      let view := pv_set_l4_fields view src_port dst_port
        (pv_l4_offset view + kUDPHeaderBytes) (udp_length - kUDPHeaderBytes) in
      Some (pv_set_status view ParseStatus_Ok).

(** From the fragment check to the end: the IPv4 header has been validated. *)
Definition parse_l4 (mem : Memory) (data : Ptr) (view : PacketView) : option PacketView :=
  flags_fragment ← read_be16 mem data (pv_l3_offset view + 6);
  let fragment_offset := u16 (Z.land flags_fragment kIPv4FragmentOffsetMask) in
  if negb (fragment_offset =? 0) then Some (pv_set_status view ParseStatus_IPv4FragmentWithoutL4)
  else
    ipv4_protocol ← load mem data (pv_l3_offset view + 9);
    src_ip ← read_be32 mem data (pv_l3_offset view + 12);
    dst_ip ← read_be32 mem data (pv_l3_offset view + 16);
    let view := pv_set_l3_fields view ipv4_protocol src_ip dst_ip
      (pv_l3_offset view + pv_ipv4_header_length view) in
    let transport_length := pv_ipv4_total_length view - pv_ipv4_header_length view in
    if pv_ipv4_protocol view =? kIPv4ProtocolTCP then parse_tcp mem data view transport_length
    else if pv_ipv4_protocol view =? kIPv4ProtocolUDP then parse_udp mem data view transport_length
    else Some (pv_set_status view ParseStatus_UnsupportedTransport).

(** The IPv4 header checks, after the Ethernet header. *)
Definition parse_ipv4 (mem : Memory) (data : Ptr) (length : Z) (view : PacketView) : option PacketView :=
  let view := pv_set_l3_offset view kEthernetHeaderBytes in
  if length <? pv_l3_offset view + kIPv4BaseHeaderBytes
  then Some (pv_set_status view ParseStatus_TooShortForIPv4)
  else
    version_ihl ← load mem data (pv_l3_offset view);
    let version := ipv4_version version_ihl in
    let ihl_words := ipv4_ihl_words version_ihl in
    if negb (version =? 4) then Some (pv_set_status view ParseStatus_InvalidIPv4Version)
    else if ihl_words <? 5 then Some (pv_set_status view ParseStatus_InvalidIPv4HeaderLength)
    else
      let view := pv_set_ipv4_header_length view (ihl_words * 4) in
      if length <? pv_l3_offset view + pv_ipv4_header_length view
      then Some (pv_set_status view ParseStatus_TruncatedIPv4Header)
      else
        total_length ← read_be16 mem data (pv_l3_offset view + 2);
        let view := pv_set_ipv4_total_length view total_length in
        if pv_ipv4_total_length view <? pv_ipv4_header_length view
        then Some (pv_set_status view ParseStatus_IPv4TotalLengthTooSmall)
        else if length <? pv_l3_offset view + pv_ipv4_total_length view
        then Some (pv_set_status view ParseStatus_IPv4TotalLengthExceedsFrame)
        else parse_l4 mem data view.

Definition parse_packet (mem : Memory) (data : Ptr) (length : Z) : option PacketView :=
  let view := PacketView_init data length in
  if data =?? None then
    Some (pv_set_status view
      (if length =? 0 then ParseStatus_TooShortForEthernet else ParseStatus_NullData))
  else if length <? kEthernetHeaderBytes then Some (pv_set_status view ParseStatus_TooShortForEthernet)
  else
    ether_type ← read_be16 mem data 12;
    let view := pv_set_ether_type view ether_type in
    if negb (pv_ether_type view =? kEtherTypeIPv4) then Some (pv_set_status view ParseStatus_NonIPv4)
    else parse_ipv4 mem data length view.

#[global] Arguments load : simpl never.
#[global] Arguments read_be16 : simpl never.
#[global] Arguments read_be32 : simpl never.

(** ** Reading inside of a frame *)

Section frame.
Context (mem : Memory) (base length : Z).
Hypothesis Hmem : mem_ok mem.
Hypothesis Hbase : 0 <= base.
Hypothesis Hframe : base + length <= zlen mem.

(** The frame's bytes and big-endian words, as numbers. *)
Definition byte_at (i : Z) : Z := default 0 (mem.[base + i]).
Definition be16_at (i : Z) : Z := 256 * byte_at i + byte_at (i + 1).
Definition be32_at (i : Z) : Z := 65536 * be16_at i + be16_at (i + 2).

Lemma byte_at_fits i : fits 8 (byte_at i).
Proof.
  unfold byte_at. destruct (mem.[base + i]) eqn:E; simpl; [|done].
  apply aget_Some in E as [_ E]. by eapply Forall_lookup in E.
Qed.

Lemma load_safe i : 0 <= i < length -> load mem (Some base) i = Some (byte_at i).
Proof.
  intros Hi. unfold load, byte_at. simpl.
  destruct (aget_in_range mem (base + i)) as [x ->]; [lia|done].
Qed.

Lemma read_be16_safe i : 0 <= i -> i + 1 < length -> read_be16 mem (Some base) i = Some (be16_at i).
Proof.
  intros Hi Hl. unfold read_be16. rewrite !load_safe by lia. simpl.
  pose proof (byte_at_fits i) as H0. pose proof (byte_at_fits (i + 1)) as H1. unfold fits in *.
  rewrite Z.shiftl_mul_pow2, (wrap_small 16 (byte_at i * 2 ^ 8)), (wrap_small 16 (byte_at (i + 1)))
    by (unfold fits; lia).
  rewrite <-Z.shiftl_mul_pow2, lor_shift_add, wrap_small by (unfold fits; lia).
  unfold be16_at. f_equal. lia.
Qed.

Lemma be16_at_fits i : fits 16 (be16_at i).
Proof.
  pose proof (byte_at_fits i). pose proof (byte_at_fits (i + 1)). unfold be16_at, fits in *. lia.
Qed.

Lemma read_be32_safe i : 0 <= i -> i + 3 < length -> read_be32 mem (Some base) i = Some (be32_at i).
Proof.
  intros Hi Hl. unfold read_be32. rewrite !load_safe by lia. simpl.
  rewrite lor_be32 by apply byte_at_fits. unfold be32_at, be16_at. unfold be_value. cbn [Datatypes.length].
  f_equal. replace (i + 2 + 1) with (i + 3) by lia. lia.
Qed.

Lemma be32_at_fits i : fits 32 (be32_at i).
Proof.
  pose proof (be16_at_fits i). pose proof (be16_at_fits (i + 2)). unfold be32_at, fits in *. lia.
Qed.

(** Nibbles and the fragment offset as quotients and remainders. *)
Lemma ipv4_version_div b : fits 8 b -> ipv4_version b = b / 16.
Proof.
  intros Hb. unfold ipv4_version, fits in *. rewrite Z.shiftr_div_pow2 by lia. apply wrap_small. unfold fits.
  change (2 ^ 4) with 16. split; [apply Z.div_pos; lia|]. apply Z.div_lt_upper_bound; lia.
Qed.

Lemma tcp_data_offset_words_div b : fits 8 b -> tcp_data_offset_words b = b / 16.
Proof. apply ipv4_version_div. Qed.

Lemma ipv4_ihl_words_mod b : ipv4_ihl_words b = b mod 16.
Proof.
  unfold ipv4_ihl_words. change 0x0F with (2 ^ 4 - 1). rewrite land_mask by lia. change (2 ^ 4) with 16.
  apply wrap_small. pose proof (Z.mod_pos_bound b 16 ltac:(lia)). unfold fits. lia.
Qed.

Lemma fragment_offset_mod x : u16 (Z.land x kIPv4FragmentOffsetMask) = x mod 8192.
Proof.
  unfold kIPv4FragmentOffsetMask. change 0x1FFF with (2 ^ 13 - 1). rewrite land_mask by lia. change (2 ^ 13) with 8192.
  apply wrap_small. pose proof (Z.mod_pos_bound x 8192 ltac:(lia)). unfold fits. lia.
Qed.

Lemma nibble_bounds b : fits 8 b -> 0 <= b / 16 < 16 /\ 0 <= b mod 16 < 16.
Proof.
  unfold fits. intros. split; [|apply Z.mod_pos_bound; lia].
  split; [apply Z.div_pos; lia|apply Z.div_lt_upper_bound; lia].
Qed.

(** ** The three stages *)

Definition tcp_length_at (l4 : Z) : Z := 4 * (byte_at (l4 + 12) / 16).

Lemma parse_tcp_spec view tl :
  0 <= pv_l4_offset view -> pv_l4_offset view + tl <= length ->
  let l4 := pv_l4_offset view in let hl := tcp_length_at l4 in
  exists v, parse_tcp mem (Some base) view tl = Some v
    /\ (pv_ok v = true <-> 20 <= hl <= tl)
    /\ (pv_ok v = true -> v = pv_set_status (pv_set_l4_fields (pv_set_tcp_header_length view hl)
          (be16_at l4) (be16_at (l4 + 2)) (l4 + hl) (tl - hl)) ParseStatus_Ok).
Proof.
  intros H0 Hl l4 hl. unfold parse_tcp, kTCPBaseHeaderBytes.
  destruct (Z.ltb_spec tl 20); [eexists; split_and!; [done|split; [done|lia]|done]|].
  rewrite load_safe by lia. simpl. rewrite tcp_data_offset_words_div by apply byte_at_fits.
  fold l4. replace (byte_at (l4 + 12) / 16 * 4) with hl by (unfold hl, tcp_length_at; lia).
  destruct (Z.ltb_spec (byte_at (l4 + 12) / 16) 5).
  { eexists; split_and!; [done|split; [done|unfold hl, tcp_length_at; lia]|done]. }
  assert (20 <= hl) by (unfold hl, tcp_length_at; lia).
  destruct (Z.ltb_spec tl hl); [eexists; split_and!; [done|split; [done|lia]|done]|].
  rewrite !read_be16_safe by lia. simpl.
  eexists. split_and!; [done|split; [lia|done]|done].
Qed.

Lemma parse_udp_spec view tl :
  0 <= pv_l4_offset view -> pv_l4_offset view + tl <= length ->
  let l4 := pv_l4_offset view in let ul := be16_at (l4 + 4) in
  exists v, parse_udp mem (Some base) view tl = Some v
    /\ (pv_ok v = true <-> 8 <= ul <= tl)
    /\ (pv_ok v = true -> v = pv_set_status (pv_set_l4_fields view
          (be16_at l4) (be16_at (l4 + 2)) (l4 + 8) (ul - 8)) ParseStatus_Ok).
Proof.
  intros H0 Hl l4 ul. unfold parse_udp, kUDPHeaderBytes.
  destruct (Z.ltb_spec tl 8); [eexists; split_and!; [done|split; [done|lia]|done]|].
  rewrite !read_be16_safe by lia. simpl. fold l4. fold ul.
  destruct (Z.ltb_spec ul 8); [eexists; split_and!; [done|split; [done|lia]|done]|].
  destruct (Z.ltb_spec tl ul); [eexists; split_and!; [done|split; [done|lia]|done]|].
  eexists. split_and!; [done|split; [lia|done]|done].
Qed.

(** ** What an accepted frame looks like *)

(** The IPv4 header length, the total length and the start of the L4 header. *)
Definition ip_header_length : Z := 4 * (byte_at 14 mod 16).
Definition ip_total_length : Z := be16_at 16.
Definition l4_start : Z := 14 + ip_header_length.
Definition transport_length : Z := ip_total_length - ip_header_length.

Definition valid_transport : Prop :=
  (byte_at 23 = kIPv4ProtocolTCP /\ 20 <= tcp_length_at l4_start <= transport_length) \/
  (byte_at 23 = kIPv4ProtocolUDP /\ 8 <= be16_at (l4_start + 4) <= transport_length).

(** An Ethernet II frame that carries an unfragmented (or first-fragment) IPv4
    packet with a complete TCP header or UDP datagram. *)
Definition well_formed_frame : Prop :=
  34 <= length /\ be16_at 12 = kEtherTypeIPv4 /\ byte_at 14 / 16 = 4 /\
  20 <= ip_header_length <= ip_total_length /\ 14 + ip_total_length <= length /\
  be16_at 20 mod 8192 = 0 /\ valid_transport.

Definition transport_header_length : Z :=
  if byte_at 23 =? kIPv4ProtocolTCP then tcp_length_at l4_start else 8.

Definition transport_payload_length : Z :=
  if byte_at 23 =? kIPv4ProtocolTCP then transport_length - tcp_length_at l4_start
  else be16_at (l4_start + 4) - 8.

(** The view of an accepted frame. *)
Definition frame_view : PacketView :=
  mkPacketView (Some base) length ParseStatus_Ok kEtherTypeIPv4 (byte_at 23)
    ip_header_length ip_total_length (be32_at 26) (be32_at 30) 14 l4_start
    (l4_start + transport_header_length) transport_payload_length
    (if byte_at 23 =? kIPv4ProtocolTCP then tcp_length_at l4_start else 0)
    (be16_at l4_start) (be16_at (l4_start + 2)).

(** The view when the IPv4 header has been accepted. *)
Definition ip_view : PacketView :=
  pv_set_ipv4_total_length (pv_set_ipv4_header_length (pv_set_l3_offset
    (pv_set_ether_type (PacketView_init (Some base) length) kEtherTypeIPv4) 14)
    ip_header_length) ip_total_length.

Lemma parse_l4_spec :
  20 <= ip_header_length <= ip_total_length -> 14 + ip_total_length <= length ->
  exists v, parse_l4 mem (Some base) ip_view = Some v
    /\ (pv_ok v = true <-> be16_at 20 mod 8192 = 0 /\ valid_transport)
    /\ (pv_ok v = true -> v = frame_view).
Proof.
  intros Hh Ht. unfold parse_l4. simpl.
  change (14 + 6) with 20. change (14 + 9) with 23. change (14 + 12) with 26. change (14 + 16) with 30.
  rewrite read_be16_safe by lia. simpl.
  rewrite fragment_offset_mod. destruct (Z.eqb_spec (be16_at 20 mod 8192) 0) as [Hf|Hf]; simpl.
  2: { eexists; split_and!; [done|split; [done|tauto]|done]. }
  rewrite load_safe, !read_be32_safe by lia. simpl.
  fold transport_length. unfold valid_transport, frame_view, transport_header_length, transport_payload_length.
  set (view := pv_set_l3_fields _ _ _ _ _).
  destruct (Z.eqb_spec (byte_at 23) kIPv4ProtocolTCP) as [Hp|Hp];
    [|destruct (Z.eqb_spec (byte_at 23) kIPv4ProtocolUDP) as [Hq|Hq]].
  - destruct (parse_tcp_spec view transport_length) as (v & -> & Hok & Hv);
      [simpl; lia|simpl; unfold transport_length; lia|].
    exists v. change (pv_l4_offset view) with l4_start in *.
    split_and!; [done|rewrite Hok|intros E; rewrite (Hv E)]; [|done].
    rewrite Hp. unfold kIPv4ProtocolTCP, kIPv4ProtocolUDP. intuition lia.
  - destruct (parse_udp_spec view transport_length) as (v & -> & Hok & Hv);
      [simpl; lia|simpl; unfold transport_length; lia|].
    exists v. change (pv_l4_offset view) with l4_start in *.
    split_and!; [done|rewrite Hok|intros E; rewrite (Hv E)]; [|done].
    intuition lia.
  - eexists; split_and!; [done|split; [done|intuition lia]|done].
Qed.

Lemma parse_ipv4_spec :
  14 <= length -> be16_at 12 = kEtherTypeIPv4 ->
  exists v, parse_ipv4 mem (Some base) length
      (pv_set_ether_type (PacketView_init (Some base) length) kEtherTypeIPv4) = Some v
    /\ (pv_ok v = true <-> well_formed_frame)
    /\ (pv_ok v = true -> v = frame_view).
Proof.
  intros Hlen He. unfold parse_ipv4, well_formed_frame, kIPv4BaseHeaderBytes. simpl.
  unfold kEthernetHeaderBytes. pose proof (nibble_bounds _ (byte_at_fits 14)) as [Hn Hm].
  destruct (Z.ltb_spec length (14 + 20)); [eexists; split_and!; [done|split; [done|lia]|done]|].
  rewrite load_safe by lia. simpl. rewrite ipv4_version_div by apply byte_at_fits.
  rewrite ipv4_ihl_words_mod.
  destruct (Z.eqb_spec (byte_at 14 / 16) 4); simpl; [|eexists; split_and!; [done|split; [done|tauto]|done]].
  destruct (Z.ltb_spec (byte_at 14 mod 16) 5);
    [eexists; split_and!; [done|split; [done|unfold ip_header_length; lia]|done]|].
  replace (byte_at 14 mod 16 * 4) with ip_header_length by (unfold ip_header_length; lia).
  destruct (Z.ltb_spec length (14 + ip_header_length));
    [eexists; split_and!; [done|split; [done|lia]|done]|].
  change (14 + 2) with 16. rewrite read_be16_safe by lia. simpl. fold ip_total_length.
  destruct (Z.ltb_spec ip_total_length ip_header_length);
    [eexists; split_and!; [done|split; [done|lia]|done]|].
  destruct (Z.ltb_spec length (14 + ip_total_length));
    [eexists; split_and!; [done|split; [done|lia]|done]|].
  assert (20 <= ip_header_length) by (unfold ip_header_length; lia).
  destruct parse_l4_spec as (v & Hv & Hok & Hview); [lia|lia|].
  exists v. split_and!; [exact Hv| |done]. rewrite Hok. intuition lia.
Qed.

Lemma parse_packet_spec :
  0 <= length ->
  exists v, parse_packet mem (Some base) length = Some v
    /\ (pv_ok v = true <-> well_formed_frame)
    /\ (pv_ok v = true -> v = frame_view).
Proof.
  intros Hlen. unfold parse_packet. rewrite bool_decide_eq_false_2 by done.
  unfold kEthernetHeaderBytes.
  destruct (Z.ltb_spec length 14);
    [eexists; split_and!; [done|unfold well_formed_frame; split; [done|lia]|done]|].
  rewrite read_be16_safe by lia. simpl.
  destruct (Z.eqb_spec (be16_at 12) kEtherTypeIPv4) as [He|He]; simpl.
  - rewrite He. by apply parse_ipv4_spec.
  - eexists; split_and!; [done|unfold well_formed_frame; split; [done|tauto]|done].
Qed.

(** The layers of an accepted frame nest. *)
Lemma frame_view_bounds :
  well_formed_frame ->
  34 <= pv_l4_offset frame_view /\ pv_l4_offset frame_view + 8 <= pv_payload_offset frame_view /\
  0 <= pv_payload_length frame_view /\
  pv_payload_offset frame_view + pv_payload_length frame_view <= 14 + pv_ipv4_total_length frame_view <= length.
Proof.
  intros (_ & _ & _ & Hh & Ht & _ & Htr). simpl.
  unfold valid_transport, transport_header_length, transport_payload_length, transport_length,
    l4_start, kIPv4ProtocolTCP, kIPv4ProtocolUDP in *.
  destruct (Z.eqb_spec (byte_at 23) 6); lia.
Qed.

(** C8: the parser is memory safe and total.  For every pointer to a frame of
    [length] readable bytes (the memory may end with the frame), and for
    [nullptr], [parse_packet] returns a view without reading outside of the
    frame's end; when it reports [Ok], the headers and the payload lie inside of
    the frame and of the IPv4 packet, and every field fits its type. *)
Theorem parse_packet_safe :
  0 <= length ->
  (exists v, parse_packet mem None length = Some v /\ pv_ok v = false) /\
  exists v, parse_packet mem (Some base) length = Some v /\
  (pv_ok v = true ->
     pv_data v = Some base /\ pv_frame_length v = length /\
     34 <= pv_l4_offset v /\ pv_l4_offset v + 8 <= pv_payload_offset v /\ 0 <= pv_payload_length v /\
     pv_payload_offset v + pv_payload_length v <= 14 + pv_ipv4_total_length v <= length /\
     fits 32 (pv_src_ip v) /\ fits 32 (pv_dst_ip v) /\ fits 16 (pv_src_port v) /\
     fits 16 (pv_dst_port v) /\ fits 8 (pv_ipv4_protocol v)).
Proof.
  intros Hlen. split.
  { eexists. split; [done|]. simpl. by destruct (length =? 0). }
  destruct (parse_packet_spec Hlen) as (v & Hv & Hok & Hview). exists v. split; [done|].
  intros E. pose proof (frame_view_bounds (proj1 Hok E)) as Hb. rewrite (Hview E).
  destruct Hb as (? & ? & ? & ?). simpl in *.
  split_and!; auto using be32_at_fits, be16_at_fits, byte_at_fits; lia.
Qed.

(** C25: the parser accepts exactly the well-formed frames.  [parse_packet]
    reports [Ok] if and only if the frame is an IPv4 frame with version 4, a
    header of at least five words, lengths that nest inside of the frame, a zero
    fragment offset, and a TCP header or UDP datagram that fits; and then the
    view holds precisely the big-endian fields of the frame. *)
Theorem parse_packet_accepts_iff :
  0 <= length ->
  exists v, parse_packet mem (Some base) length = Some v
    /\ (pv_ok v = true <-> well_formed_frame)
    /\ (pv_ok v = true -> v = frame_view).
Proof. apply parse_packet_spec. Qed.

End frame.

(** ** The parser looks at the headers only *)

Section headers.
Context (mem mem' : Memory) (base length : Z).
Hypothesis Hwf : well_formed_frame mem base length.
Hypothesis Hsame : forall i, 12 <= i < pv_payload_offset (frame_view mem base length) ->
  byte_at mem' base i = byte_at mem base i.

Lemma header_be16 i : 12 <= i -> i + 1 < pv_payload_offset (frame_view mem base length) ->
  be16_at mem' base i = be16_at mem base i.
Proof. intros. unfold be16_at. by rewrite !Hsame by lia. Qed.

Lemma header_be32 i : 12 <= i -> i + 3 < pv_payload_offset (frame_view mem base length) ->
  be32_at mem' base i = be32_at mem base i.
Proof. intros. unfold be32_at. by rewrite !header_be16 by lia. Qed.

Lemma header_l4_start : l4_start mem' base = l4_start mem base.
Proof.
  destruct (frame_view_bounds mem base length Hwf) as (? & ? & _ & _).
  unfold l4_start, ip_header_length. by rewrite Hsame by lia.
Qed.

Lemma header_tcp_length :
  byte_at mem base 23 = kIPv4ProtocolTCP ->
  tcp_length_at mem' base (l4_start mem' base) = tcp_length_at mem base (l4_start mem base).
Proof.
  intros Htcp. rewrite header_l4_start. unfold tcp_length_at.
  destruct (frame_view_bounds mem base length Hwf) as (? & ? & _ & _).
  destruct Hwf as (_ & _ & _ & _ & _ & _ & [[_ Ht]|[Hu _]]); [|by rewrite Hu in Htcp].
  rewrite Hsame; [done|]. simpl in *. unfold transport_header_length in *. rewrite Htcp in *. simpl. lia.
Qed.

Lemma header_agree :
  well_formed_frame mem' base length /\ frame_view mem' base length = frame_view mem base length.
Proof.
  pose proof (frame_view_bounds mem base length Hwf) as (H1 & H2 & _ & _).
  assert (ip_header_length mem' base = ip_header_length mem base) as Hh
    by (pose proof header_l4_start; unfold l4_start in *; lia).
  assert (transport_length mem' base = transport_length mem base) as Htl
    by (unfold transport_length, ip_total_length; rewrite Hh, header_be16 by lia; done).
  assert (byte_at mem base 23 = kIPv4ProtocolTCP \/
    be16_at mem' base (l4_start mem' base + 4) = be16_at mem base (l4_start mem base + 4)) as Hor.
  { destruct Hwf as (_ & _ & _ & _ & _ & _ & [[? _]|_]); [by left|right].
    rewrite header_l4_start. apply header_be16; simpl in *; lia. }
  assert (l4_start mem base = pv_l4_offset (frame_view mem base length)) as Hl4 by done.
  split.
  - destruct Hwf as (? & ? & ? & ? & ? & ? & Htr). unfold well_formed_frame, ip_total_length in *.
    rewrite Hh, !header_be16, !Hsame by lia. split_and!; try done; try lia. unfold valid_transport in *.
    rewrite Htl, Hsame by lia. destruct Htr as [[Hp Ht]|[Hp Ht]]; [left|right].
    + by rewrite header_tcp_length.
    + destruct Hor as [Hor| ->]; [|done]. by rewrite Hp in Hor.
  - unfold frame_view, transport_header_length, transport_payload_length, ip_total_length.
    rewrite Hh, Htl, !header_be32, Hsame, (header_be16 16) by lia.
    pose proof header_tcp_length as Htcp. rewrite header_l4_start in *.
    rewrite !header_be16 by lia.
    destruct (Z.eqb_spec (byte_at mem base 23) kIPv4ProtocolTCP) as [E|E]; [by rewrite Htcp|done].
Qed.

End headers.

(** An accepted frame is parsed the same after any change to its MAC addresses
    and to its payload. *)
Lemma parse_packet_headers_only mem mem' base length v :
  mem_ok mem -> mem_ok mem' -> 0 <= base -> 0 <= length -> base + length <= zlen mem -> zlen mem' = zlen mem ->
  parse_packet mem (Some base) length = Some v -> pv_ok v = true ->
  (forall i, 12 <= i < pv_payload_offset v -> byte_at mem' base i = byte_at mem base i) ->
  parse_packet mem' (Some base) length = Some v.
Proof.
  intros Hm Hm' Hb Hl Hf Hz Hp Hok Hsame.
  destruct (parse_packet_spec mem base length Hm Hb Hf Hl) as (v0 & Hv0 & Hwf & Hview).
  rewrite Hv0 in Hp. simplify_eq. rewrite (Hview Hok) in Hsame.
  destruct (header_agree mem mem' base length (proj1 Hwf Hok) Hsame) as [Hwf' Heq].
  destruct (parse_packet_spec mem' base length Hm' Hb ltac:(lia) Hl) as (v1 & Hv1 & Hok1 & Hview1).
  rewrite Hv1, (Hview1 (proj2 Hok1 Hwf')), Heq. by rewrite (Hview Hok).
Qed.

(** ** A concrete frame: UDP 10.0.0.1:1000 -> 10.0.0.2:53 with two payload bytes *)

Definition example_udp_frame : list Z :=
  [1; 2; 3; 4; 5; 6; 7; 8; 9; 10; 11; 12; 8; 0;
   0x45; 0; 0; 30; 0; 0; 0x40; 0; 64; 17; 0; 0; 10; 0; 0; 1; 10; 0; 0; 2;
   3; 232; 0; 53; 0; 10; 0; 0; 171; 205].

Lemma example_udp_frame_ok : mem_ok example_udp_frame.
Proof. by repeat constructor. Qed.

Lemma parse_packet_safe_witness :
  exists v, parse_packet example_udp_frame (Some 0) 44 = Some v /\ pv_ok v = true /\
    pv_payload_offset v + pv_payload_length v <= 44.
Proof.
  destruct (parse_packet_safe example_udp_frame 0 44 example_udp_frame_ok ltac:(done) ltac:(done) ltac:(done))
    as [_ (v & Hv & Hb)].
  assert (pv_ok v = true) as E by (vm_compute in Hv; by simplify_eq).
  exists v. split_and!; [done|done|]. destruct (Hb E) as (_ & _ & _ & _ & _ & H & _). lia.
Defined.

Lemma parse_packet_accepts_iff_witness :
  exists v, parse_packet example_udp_frame (Some 0) 44 = Some v /\ pv_dst_port v = 53 /\ pv_payload_length v = 2.
Proof.
  destruct (parse_packet_accepts_iff example_udp_frame 0 44 example_udp_frame_ok ltac:(done) ltac:(done) ltac:(done))
    as (v & Hv & Hok & Hview).
  exists v. assert (pv_ok v = true) as E by (vm_compute in Hv; by simplify_eq).
  rewrite (Hview E). rewrite <-(Hview E). split_and!; [done| |]; rewrite (Hview E); by vm_compute.
Defined.
