(* ===== verification/ChaosEngine.v ===== *)
(** * [include/chronosx/chaos_engine.hpp]: deterministic chaos decisions

    Rules, matching, the seeded FNV-1a hash with its final avalanche, and the
    decision for a packet, with and without the payload in the hash. *)

From S2P Require Import Prelude Types PacketParser.

Definition kProbabilityScale : Z := 10000.

Record ChaosRule := mkChaosRule {
  cr_seed : Z;
  cr_delay_ns : Z;
  cr_id : Z;
  cr_src_ip : Z;
  cr_dst_ip : Z;
  cr_src_port : Z;
  cr_dst_port : Z;
  cr_probability : Z;
  cr_protocol : Z;
  cr_action : PacketAction;
  cr_enabled : Z;
  cr_reserved : list Z;
}.

#[export] Instance ChaosRule_eq_dec : EqDecision ChaosRule.
Proof. solve_decision. Defined.

(** [ChaosRule{}]. *)
Definition ChaosRule_default : ChaosRule :=
  mkChaosRule 0 0 0 0 0 0 0 0 0 PacketAction_Pass 1 [0; 0; 0].

Record ChaosDecision := mkChaosDecision {
  cd_hash : Z;
  cd_delay_ns : Z;
  cd_rule_id : Z;
  cd_roll : Z;
  cd_action : PacketAction;
  cd_matched_rule : Z;
}.

Definition cd_matched (d : ChaosDecision) : bool := negb (cd_matched_rule d =? 0).
Definition should_forward (d : ChaosDecision) : bool := negb (cd_action d =?? PacketAction_Drop).
Definition should_drop (d : ChaosDecision) : bool := cd_action d =?? PacketAction_Drop.
Definition should_delay (d : ChaosDecision) : bool := cd_action d =?? PacketAction_Delay.
Definition should_corrupt (d : ChaosDecision) : bool := cd_action d =?? PacketAction_Corrupt.

Definition clamp_probability (probability : Z) : Z :=
  if kProbabilityScale <? probability then kProbabilityScale else probability.

Definition rule_is_enabled (rule : ChaosRule) : bool := negb (cr_enabled rule =? 0).

Definition action_forwards (action : PacketAction) : bool := negb (action =?? PacketAction_Drop).

(** A zero member of the rule is a wildcard. *)
Definition rule_matches_packet (rule : ChaosRule) (packet : PacketView) : bool :=
  if negb (rule_is_enabled rule) || negb (pv_ok packet) then false
  else if negb (cr_src_ip rule =? 0) && negb (cr_src_ip rule =? pv_src_ip packet) then false
  else if negb (cr_dst_ip rule =? 0) && negb (cr_dst_ip rule =? pv_dst_ip packet) then false
  else if negb (cr_src_port rule =? 0) && negb (cr_src_port rule =? pv_src_port packet) then false
  else if negb (cr_dst_port rule =? 0) && negb (cr_dst_port rule =? pv_dst_port packet) then false
  else if negb (cr_protocol rule =? 0) && negb (cr_protocol rule =? pv_ipv4_protocol packet) then false
  else true.

(** ** The hash *)

Definition kFnvOffsetBasis : Z := 14695981039346656037.
Definition kFnvPrime : Z := 1099511628211.

Definition fnv1a_byte (hash value : Z) : Z := u64 (Z.lxor hash value * kFnvPrime).

Definition fnv1a_u16 (hash value : Z) : Z :=
  let hash := fnv1a_byte hash (u8 (Z.land (Z.shiftr value 8) 0xFF)) in
  fnv1a_byte hash (u8 (Z.land value 0xFF)).

Definition fnv1a_u32 (hash value : Z) : Z :=
  let hash := fnv1a_byte hash (u8 (Z.land (Z.shiftr value 24) 0xFF)) in
  let hash := fnv1a_byte hash (u8 (Z.land (Z.shiftr value 16) 0xFF)) in
  let hash := fnv1a_byte hash (u8 (Z.land (Z.shiftr value 8) 0xFF)) in
  fnv1a_byte hash (u8 (Z.land value 0xFF)).

Definition fnv1a_u64 (hash value : Z) : Z :=
  let hash := fnv1a_u32 hash (u32 (Z.land (Z.shiftr value 32) 0xFFFFFFFF)) in
  fnv1a_u32 hash (u32 (Z.land value 0xFFFFFFFF)).

Definition avalanche64 (value : Z) : Z :=
  let value := Z.lxor value (Z.shiftr value 33) in
  let value := u64 (value * 0xff51afd7ed558ccd) in
  let value := Z.lxor value (Z.shiftr value 33) in
  let value := u64 (value * 0xc4ceb9fe1a85ec53) in
  Z.lxor value (Z.shiftr value 33).

(** The [n] payload bytes from [index] on. *)
Fixpoint hash_payload (mem : Memory) (payload : Ptr) (n : nat) (index hash : Z) : option Z :=
  match n with
  | O => Some hash
  | S n =>
      byte ← load mem payload index;
      hash_payload mem payload n (index + 1) (fnv1a_byte hash byte)
  end.

Definition stable_packet_hash (mem : Memory) (rule : ChaosRule) (packet : PacketView) : option Z :=
  let hash := kFnvOffsetBasis in
  let hash := fnv1a_u64 hash (cr_seed rule) in
  let hash := fnv1a_u32 hash (pv_src_ip packet) in
  let hash := fnv1a_u32 hash (pv_dst_ip packet) in
  let hash := fnv1a_u16 hash (pv_src_port packet) in
  let hash := fnv1a_u16 hash (pv_dst_port packet) in
  let hash := fnv1a_byte hash (pv_ipv4_protocol packet) in
  let hash := fnv1a_u64 hash (pv_payload_length packet) in
  let payload := pv_payload_data packet in
  hash ← (if negb (payload =?? None)
          then hash_payload mem payload (Z.to_nat (pv_payload_length packet)) 0 hash
          else Some hash);
  Some (avalanche64 hash).

Definition stable_flow_hash (rule : ChaosRule) (packet : PacketView) : Z :=
  let hash := kFnvOffsetBasis in
  let hash := fnv1a_u64 hash (cr_seed rule) in
  let hash := fnv1a_u32 hash (pv_src_ip packet) in
  let hash := fnv1a_u32 hash (pv_dst_ip packet) in
  let hash := fnv1a_u16 hash (pv_src_port packet) in
  let hash := fnv1a_u16 hash (pv_dst_port packet) in
  let hash := fnv1a_byte hash (pv_ipv4_protocol packet) in
  let hash := fnv1a_u64 hash (pv_payload_length packet) in
  avalanche64 hash.

(** ** Decisions *)

Definition pass_decision : ChaosDecision := mkChaosDecision 0 0 0 0 PacketAction_Pass 0.

Definition pass_from_rule (rule : ChaosRule) (hash roll : Z) : ChaosDecision :=
  mkChaosDecision hash 0 (cr_id rule) roll PacketAction_Pass 1.

Definition applied_decision (rule : ChaosRule) (hash roll : Z) : ChaosDecision :=
  mkChaosDecision hash (if cr_action rule =?? PacketAction_Delay then cr_delay_ns rule else 0)
    (cr_id rule) roll (cr_action rule) 1.

Definition decide_for_rule (mem : Memory) (rule : ChaosRule) (packet : PacketView) : option ChaosDecision :=
  let probability := clamp_probability (cr_probability rule) in
  if (cr_action rule =?? PacketAction_Pass) || (probability =? 0) then Some (pass_from_rule rule 0 0)
  else if probability =? kProbabilityScale then Some (applied_decision rule 0 0)
  else
    hash ← stable_packet_hash mem rule packet;
    let roll := u16 (hash mod kProbabilityScale) in
    if probability <=? roll then Some (pass_from_rule rule hash roll)
    else Some (applied_decision rule hash roll).

Definition decide_for_rule_fast (rule : ChaosRule) (packet : PacketView) : ChaosDecision :=
  let probability := clamp_probability (cr_probability rule) in
  if (cr_action rule =?? PacketAction_Pass) || (probability =? 0) then pass_from_rule rule 0 0
  else if probability =? kProbabilityScale then applied_decision rule 0 0
  else
    let hash := stable_flow_hash rule packet in
    let roll := u16 (hash mod kProbabilityScale) in
    if probability <=? roll then pass_from_rule rule hash roll
    else applied_decision rule hash roll.

Fixpoint decide_packet (mem : Memory) (packet : PacketView) (rules : list ChaosRule) : option ChaosDecision :=
  match rules with
  | [] => Some pass_decision
  | rule :: rules =>
      if rule_matches_packet rule packet then decide_for_rule mem rule packet
      else decide_packet mem packet rules
  end.

Fixpoint decide_packet_fast (packet : PacketView) (rules : list ChaosRule) : ChaosDecision :=
  match rules with
  | [] => pass_decision
  | rule :: rules =>
      if rule_matches_packet rule packet then decide_for_rule_fast rule packet
      else decide_packet_fast packet rules
  end.

(** ** The hash is FNV-1a over a fixed serialisation *)

Definition fnv1a_bytes (hash : Z) (bytes : list Z) : Z := foldl fnv1a_byte hash bytes.
#[global] Arguments fnv1a_bytes : simpl never.

(** What identifies the packet to a rule, in network byte order. *)
Definition flow_bytes (rule : ChaosRule) (packet : PacketView) : list Z :=
  be_bytes 8 (cr_seed rule) ++ be_bytes 4 (pv_src_ip packet) ++ be_bytes 4 (pv_dst_ip packet) ++
  be_bytes 2 (pv_src_port packet) ++ be_bytes 2 (pv_dst_port packet) ++
  [pv_ipv4_protocol packet] ++ be_bytes 8 (pv_payload_length packet).

Lemma fnv1a_bytes_app h l1 l2 : fnv1a_bytes h (l1 ++ l2) = fnv1a_bytes (fnv1a_bytes h l1) l2.
Proof. apply foldl_app. Qed.

Lemma byte_of_shift x k : 0 <= k -> u8 (Z.land (Z.shiftr x k) 0xFF) = u8 (x / 2 ^ k).
Proof.
  intros. change 0xFF with (Z.ones 8). rewrite land_ones_wrap, wrap_wrap_le, Z.shiftr_div_pow2 by lia. done.
Qed.

Lemma low_byte x : u8 (Z.land x 0xFF) = u8 (x / 2 ^ 0).
Proof. by rewrite <-byte_of_shift, Z.shiftr_0_r by lia. Qed.

Lemma fnv1a_u16_bytes h v : fnv1a_u16 h v = fnv1a_bytes h (be_bytes 2 v).
Proof. unfold fnv1a_u16. by rewrite byte_of_shift, low_byte by lia. Qed.

Lemma fnv1a_u32_bytes h v : fnv1a_u32 h v = fnv1a_bytes h (be_bytes 4 v).
Proof. unfold fnv1a_u32. by rewrite !byte_of_shift, low_byte by lia. Qed.

Lemma be_bytes_high_low v : be_bytes 8 v = be_bytes 4 (v / 2 ^ 32) ++ be_bytes 4 v.
Proof.
  simpl. rewrite !Z.div_div by lia. done.
Qed.

Lemma fnv1a_u64_bytes h v : fnv1a_u64 h v = fnv1a_bytes h (be_bytes 8 v).
Proof.
  unfold fnv1a_u64. change 0xFFFFFFFF with (Z.ones 32).
  rewrite !fnv1a_u32_bytes, !land_ones_wrap, !wrap_wrap_le, !be_bytes_wrap, Z.shiftr_div_pow2 by lia.
  by rewrite be_bytes_high_low, fnv1a_bytes_app.
Qed.

Lemma fnv1a_byte_bytes h b : fnv1a_byte h b = fnv1a_bytes h [b].
Proof. done. Qed.

#[local] Opaque fnv1a_bytes.

(** For any start value [h], so that no hash is computed on the way. *)
Lemma flow_prefix_hash h rule packet :
  fnv1a_u64 (fnv1a_byte (fnv1a_u16 (fnv1a_u16 (fnv1a_u32 (fnv1a_u32 (fnv1a_u64 h
    (cr_seed rule)) (pv_src_ip packet)) (pv_dst_ip packet)) (pv_src_port packet)) (pv_dst_port packet))
    (pv_ipv4_protocol packet)) (pv_payload_length packet)
  = fnv1a_bytes h (flow_bytes rule packet).
Proof.
  unfold flow_bytes. rewrite !fnv1a_bytes_app.
  rewrite !fnv1a_u64_bytes, !fnv1a_u32_bytes, !fnv1a_u16_bytes, fnv1a_byte_bytes. reflexivity.
Qed.

#[local] Transparent fnv1a_bytes.

Lemma stable_flow_hash_fold rule packet :
  stable_flow_hash rule packet = avalanche64 (fnv1a_bytes kFnvOffsetBasis (flow_bytes rule packet)).
Proof. unfold stable_flow_hash. rewrite flow_prefix_hash. reflexivity. Qed.

(** Nothing but the serialised fields enters the hash. *)
Lemma stable_flow_hash_ext r r' p p' :
  flow_bytes r p = flow_bytes r' p' -> stable_flow_hash r p = stable_flow_hash r' p'.
Proof. intros H. by rewrite !stable_flow_hash_fold, H. Qed.

Lemma hash_payload_fold mem p n i h :
  0 <= p + i -> p + i + Z.of_nat n <= zlen mem ->
  hash_payload mem (Some p) n i h = Some (fnv1a_bytes h (take n (drop (Z.to_nat (p + i)) mem))).
Proof.
  revert i h. induction n as [|n IH]; intros i h Hi Hn; simpl; [done|].
  unfold load. simpl. destruct (aget_in_range mem (p + i)) as [x Hx]; [lia|].
  rewrite Hx. simpl. rewrite IH by lia. apply aget_Some in Hx as [_ Hx].
  rewrite (drop_S _ _ _ Hx).
  replace (Z.to_nat (p + (i + 1))) with (S (Z.to_nat (p + i))) by lia. done.
Qed.

(** The bytes a view points to as its payload. *)
Definition payload_bytes (mem : Memory) (base : Z) (packet : PacketView) : list Z :=
  take (Z.to_nat (pv_payload_length packet)) (drop (Z.to_nat (base + pv_payload_offset packet)) mem).

(** The view's payload lies in the memory. *)
Definition payload_readable (mem : Memory) (base : Z) (packet : PacketView) : Prop :=
  pv_data packet = Some base /\ 0 <= base /\ 0 <= pv_payload_offset packet <= pv_frame_length packet /\
  0 <= pv_payload_length packet /\
  base + pv_payload_offset packet + pv_payload_length packet <= zlen mem.

Lemma stable_packet_hash_fold mem base rule packet :
  pv_ok packet = true -> payload_readable mem base packet ->
  stable_packet_hash mem rule packet
    = Some (avalanche64 (fnv1a_bytes kFnvOffsetBasis (flow_bytes rule packet ++ payload_bytes mem base packet))).
Proof.
  intros Hok (Hd & Hb & Ho & Hl & Hm). unfold stable_packet_hash. rewrite flow_prefix_hash.
  assert (pv_payload_data packet = Some (base + pv_payload_offset packet)) as ->.
  { unfold pv_payload_data. rewrite Hok, Hd. simpl.
    by destruct (Z.leb_spec (pv_payload_offset packet) (pv_frame_length packet)); [|lia]. }
  rewrite bool_decide_false by done. cbn [negb]. rewrite hash_payload_fold by lia.
  unfold payload_bytes. rewrite Z.add_0_r, fnv1a_bytes_app. reflexivity.
Qed.

(** ** The avalanche is a permutation *)

Definition xorshift33 (x : Z) : Z := Z.lxor x (Z.shiftr x 33).

(** The multiplicative inverses of the two odd constants modulo [2^64]. *)
Definition avalanche64_inv (value : Z) : Z :=
  let value := xorshift33 value in
  let value := u64 (value * 0x9cb4b2f8129337db) in
  let value := xorshift33 value in
  let value := u64 (value * 0x4f74430c22a54005) in
  xorshift33 value.

Lemma xorshift33_involutive x : fits 64 x -> xorshift33 (xorshift33 x) = x.
Proof.
  intros Hx. unfold xorshift33. apply Z.bits_inj'. intros i Hi.
  rewrite Z.shiftr_lxor, Z.shiftr_shiftr, !Z.lxor_spec by lia.
  rewrite (Z.shiftr_div_pow2 x (33 + 33)), Z.div_small, Z.bits_0 by (unfold fits in *; lia).
  by destruct (Z.testbit x i), (Z.testbit (Z.shiftr x 33) i).
Qed.

Lemma lxor_fits w a b : 0 <= w -> fits w a -> fits w b -> fits w (Z.lxor a b).
Proof.
  intros Hw Ha Hb. rewrite <-(wrap_small w a), <-(wrap_small w b) by done.
  assert (Z.lxor (wrap w a) (wrap w b) = wrap w (Z.lxor a b)) as ->; [|by apply wrap_fits].
  unfold wrap. apply Z.bits_inj'. intros i Hi. rewrite Z.lxor_spec.
  destruct (decide (i < w)).
  - by rewrite !Z.mod_pow2_bits_low, Z.lxor_spec by lia.
  - by rewrite !Z.mod_pow2_bits_high by lia.
Qed.

Lemma xorshift33_fits x : fits 64 x -> fits 64 (xorshift33 x).
Proof.
  intros Hx. apply lxor_fits; [lia|done|]. unfold fits in *. rewrite Z.shiftr_div_pow2 by lia.
  split; [apply Z.div_pos; lia|]. apply Z.div_lt_upper_bound; lia.
Qed.

Lemma u64_mul_inverse c d x : u64 (c * d) = 1 -> fits 64 x -> u64 (u64 (x * c) * d) = x.
Proof.
  intros Hcd Hx. unfold wrap in *. rewrite Zmult_mod_idemp_l, <-Z.mul_assoc, <-Zmult_mod_idemp_r, Hcd, Z.mul_1_r.
  by apply Z.mod_small.
Qed.

Lemma avalanche64_fits x : fits 64 (avalanche64 x).
Proof. by apply xorshift33_fits, wrap_fits. Qed.

Lemma avalanche64_inv_l x : fits 64 x -> avalanche64_inv (avalanche64 x) = x.
Proof.
  intros Hx. unfold avalanche64, avalanche64_inv. fold (xorshift33 x).
  set (a := xorshift33 x). set (b := u64 (a * _)). fold (xorshift33 b).
  set (c := u64 (xorshift33 b * _)). fold (xorshift33 c).
  assert (fits 64 a) by by apply xorshift33_fits.
  assert (fits 64 b) by by apply wrap_fits.
  assert (fits 64 c) by by apply wrap_fits.
  rewrite (xorshift33_involutive c) by done. unfold c at 1.
  rewrite u64_mul_inverse; [|done|by apply xorshift33_fits].
  rewrite (xorshift33_involutive b) by done. unfold b.
  rewrite u64_mul_inverse by done. by apply xorshift33_involutive.
Qed.

Lemma avalanche64_inv_r x : fits 64 x -> avalanche64 (avalanche64_inv x) = x.
Proof.
  intros Hx. unfold avalanche64, avalanche64_inv.
  set (a := xorshift33 x). set (b := u64 (a * _)). set (c := u64 (xorshift33 b * _)).
  assert (fits 64 a) by by apply xorshift33_fits.
  assert (fits 64 b) by by apply wrap_fits.
  assert (fits 64 c) by by apply wrap_fits.
  fold (xorshift33 (xorshift33 c)). rewrite (xorshift33_involutive c) by done. unfold c.
  rewrite u64_mul_inverse; [|done|by apply xorshift33_fits].
  fold (xorshift33 (xorshift33 b)). rewrite (xorshift33_involutive b) by done. unfold b.
  rewrite u64_mul_inverse by done. by apply xorshift33_involutive.
Qed.

(** ** What a decision depends on *)

(** The roll of the fast path. *)
Definition flow_roll (rule : ChaosRule) (packet : PacketView) : Z :=
  stable_flow_hash rule packet mod kProbabilityScale.
#[global] Arguments flow_roll : simpl never.

(** The action a matching rule takes: its own when the roll is under the
    clamped probability. *)
Definition rolled_action (rule : ChaosRule) (roll : Z) : PacketAction :=
  if roll <? Z.min (cr_probability rule) kProbabilityScale then cr_action rule else PacketAction_Pass.

Lemma clamp_probability_min p : clamp_probability p = Z.min p kProbabilityScale.
Proof. unfold clamp_probability. zcase; lia. Qed.

Lemma roll_bounds h : 0 <= h mod kProbabilityScale < kProbabilityScale.
Proof. by apply Z.mod_pos_bound. Qed.

Lemma roll_u16 h : u16 (h mod kProbabilityScale) = h mod kProbabilityScale.
Proof. apply wrap_small. pose proof (roll_bounds h). unfold fits, kProbabilityScale in *. lia. Qed.

(** The three branches of a decision, as one rule. *)
Lemma decide_for_rule_fast_spec rule packet :
  0 <= cr_probability rule ->
  let d := decide_for_rule_fast rule packet in
  cd_action d = rolled_action rule (flow_roll rule packet) /\
  cd_rule_id d = cr_id rule /\ cd_matched d = true /\
  cd_delay_ns d = if cd_action d =?? PacketAction_Delay then cr_delay_ns rule else 0.
Proof.
  intros Hp. unfold decide_for_rule_fast, rolled_action, flow_roll. rewrite clamp_probability_min, roll_u16.
  generalize (stable_flow_hash rule packet). intros h.
  pose proof (roll_bounds h) as Hr. set (r := h mod kProbabilityScale) in *.
  set (p := Z.min _ _). assert (0 <= p <= kProbabilityScale) by (unfold kProbabilityScale in *; lia).
  destruct (bool_decide_reflect (cr_action rule = PacketAction_Pass)) as [Ha|Ha]; simpl.
  { rewrite Ha. split_and!; [by destruct (_ <? _)|done..]. }
  repeat zcase; simpl; split_and!; done || lia.
Qed.

Lemma decide_packet_fast_app packet before rules :
  Forall (fun r => rule_matches_packet r packet = false) before ->
  decide_packet_fast packet (before ++ rules) = decide_packet_fast packet rules.
Proof. induction 1 as [|r before Hr _ IH]; simpl; [done|]. by rewrite Hr. Qed.

Lemma decide_packet_fast_none packet rules :
  Forall (fun r => rule_matches_packet r packet = false) rules ->
  decide_packet_fast packet rules = pass_decision.
Proof. intros H. rewrite <-(app_nil_r rules). by rewrite decide_packet_fast_app. Qed.

(** Either no rule matches, or there is a first one that does. *)
Lemma first_match packet rules :
  Forall (fun r => rule_matches_packet r packet = false) rules \/
  exists before rule after, rules = before ++ rule :: after /\
    Forall (fun r => rule_matches_packet r packet = false) before /\
    rule_matches_packet rule packet = true.
Proof.
  induction rules as [|r rules IH]; [by left|].
  destruct (rule_matches_packet r packet) eqn:E.
  { right. exists [], r, rules. by split_and!. }
  destruct IH as [IH|(b & r' & a & -> & Hb & Hr)]; [by left; constructor|].
  right. exists (r :: b), r', a. split_and!; [done|by constructor|done].
Qed.

(** ** Theorems *)

(** Both packet hashes are 64-bit FNV-1a over one fixed serialisation, then
    the avalanche: the rule's seed, the 5-tuple and the payload length, each in
    network byte order (the same on every host), and for [stable_packet_hash] the
    payload's bytes after them, all of them read inside of the payload. *)
Theorem stable_hashes_are_fnv1a mem base rule packet :
  pv_ok packet = true -> payload_readable mem base packet ->
  stable_flow_hash rule packet
    = avalanche64 (fnv1a_bytes kFnvOffsetBasis (flow_bytes rule packet)) /\
  stable_packet_hash mem rule packet
    = Some (avalanche64 (fnv1a_bytes kFnvOffsetBasis (flow_bytes rule packet ++ payload_bytes mem base packet))).
Proof.
  intros Hok Hr. split; [apply stable_flow_hash_fold|by apply stable_packet_hash_fold].
Qed.

(** The witness's rule and packet: the example frame of the parser. *)
Definition example_view : PacketView :=
  default (PacketView_init None 0) (parse_packet example_udp_frame (Some 0) 44).

Definition example_rule : ChaosRule :=
  mkChaosRule 7 5000000 1 0 0 0 53 5000 17 PacketAction_Delay 1 [0; 0; 0].

Lemma stable_hashes_are_fnv1a_witness :
  stable_packet_hash example_udp_frame example_rule example_view
  = Some (avalanche64 (fnv1a_bytes kFnvOffsetBasis
      ([0; 0; 0; 0; 0; 0; 0; 7] ++ [10; 0; 0; 1] ++ [10; 0; 0; 2] ++ [3; 232] ++ [0; 53] ++ [17]
       ++ [0; 0; 0; 0; 0; 0; 0; 2] ++ [171; 205]))).
Proof.
  eapply (stable_hashes_are_fnv1a example_udp_frame 0 example_rule example_view);
    vm_compute; repeat split; congruence.
Defined.

(** The final mix loses no information: [avalanche64] is a permutation of the
    64-bit words, with the explicit inverse [avalanche64_inv], so two packets that
    FNV-1a tells apart get different hashes. *)
Theorem avalanche64_permutation x :
  fits 64 x ->
  fits 64 (avalanche64 x) /\ avalanche64_inv (avalanche64 x) = x /\ avalanche64 (avalanche64_inv x) = x.
Proof.
  intros Hx. split_and!; [apply avalanche64_fits|by apply avalanche64_inv_l|by apply avalanche64_inv_r].
Qed.

Lemma avalanche64_permutation_witness :
  fits 64 kFnvOffsetBasis /\ avalanche64_inv (avalanche64 kFnvOffsetBasis) = kFnvOffsetBasis.
Proof.
  split; [done|]. by apply (avalanche64_permutation kFnvOffsetBasis).
Defined.

(** C24: the first matching rule decides.  Without a matching rule the packet
    passes; otherwise the first rule that matches, and no later one, gives the rule
    id, and its action is taken exactly when the packet's roll in [0, 10000) is
    under the rule's probability (clamped to 10000), with its delay if and only if
    it delays. *)
Theorem decide_packet_fast_first_match packet rules :
  Forall (fun r => fits 16 (cr_probability r)) rules ->
  let d := decide_packet_fast packet rules in
  (Forall (fun r => rule_matches_packet r packet = false) rules -> d = pass_decision) /\
  (forall before rule after, rules = before ++ rule :: after ->
     Forall (fun r => rule_matches_packet r packet = false) before ->
     rule_matches_packet rule packet = true ->
     cd_action d = rolled_action rule (flow_roll rule packet) /\
     cd_rule_id d = cr_id rule /\ cd_matched d = true /\
     cd_delay_ns d = if cd_action d =?? PacketAction_Delay then cr_delay_ns rule else 0).
Proof.
  intros Hp. split; [apply decide_packet_fast_none|]. intros before rule after -> Hb Hm.
  rewrite decide_packet_fast_app by done. simpl. rewrite Hm. apply decide_for_rule_fast_spec.
  apply Forall_app in Hp as [_ [Hr _]%Forall_cons]. apply Hr.
Qed.

Lemma decide_packet_fast_first_match_witness :
  cd_rule_id (decide_packet_fast example_view [example_rule; ChaosRule_default]) = 1.
Proof.
  pose proof (decide_packet_fast_first_match example_view [example_rule; ChaosRule_default]
                ltac:(by repeat constructor)) as [_ H].
  by apply (H [] example_rule [ChaosRule_default]).
Defined.

Definition with_probability (rule : ChaosRule) (p : Z) : ChaosRule :=
  mkChaosRule (cr_seed rule) (cr_delay_ns rule) (cr_id rule) (cr_src_ip rule) (cr_dst_ip rule)
    (cr_src_port rule) (cr_dst_port rule) p (cr_protocol rule) (cr_action rule) (cr_enabled rule)
    (cr_reserved rule).

Lemma flow_roll_bounds rule packet : 0 <= flow_roll rule packet < kProbabilityScale.
Proof. apply roll_bounds. Qed.

Lemma flow_roll_with_probability rule p packet :
  flow_roll (with_probability rule p) packet = flow_roll rule packet.
Proof. unfold flow_roll. by rewrite (stable_flow_hash_ext (with_probability rule p) rule packet packet). Qed.

(** The probability is a threshold on a fixed roll.  Raising a rule's
    probability only adds packets to those it affects (a packet affected at [p] is
    affected, the same way, at any [q >= p]); at 0 no packet is affected, and from
    10000 on every packet is. *)
Theorem probability_monotone rule packet p q :
  0 <= p <= q ->
  (cd_action (decide_for_rule_fast (with_probability rule p) packet) <> PacketAction_Pass ->
   cd_action (decide_for_rule_fast (with_probability rule q) packet) = cr_action rule) /\
  cd_action (decide_for_rule_fast (with_probability rule 0) packet) = PacketAction_Pass /\
  (kProbabilityScale <= q ->
   cd_action (decide_for_rule_fast (with_probability rule q) packet) = cr_action rule).
Proof.
  intros Hpq. pose proof (fun p' H => proj1 (decide_for_rule_fast_spec (with_probability rule p') packet H)) as Hd.
  rewrite (Hd p), (Hd q), (Hd 0) by (cbn; lia). unfold rolled_action. rewrite !flow_roll_with_probability.
  pose proof (flow_roll_bounds rule packet) as Hr. revert Hr. generalize (flow_roll rule packet).
  cbn [with_probability cr_probability cr_action]. intros r Hr. repeat split; repeat zcase; done || lia.
Qed.

Lemma probability_monotone_witness :
  cd_action (decide_for_rule_fast (with_probability example_rule 6000) example_view) = PacketAction_Delay /\
  cd_action (decide_for_rule_fast (with_probability example_rule 9000) example_view) = PacketAction_Delay.
Proof.
  split; [by vm_compute|].
  apply (proj1 (probability_monotone example_rule example_view 6000 9000 ltac:(lia))). by vm_compute.
Defined.

(** Two views of the same flow: the same parse result, 5-tuple and payload length. *)
Record same_flow (p q : PacketView) : Prop := {
  sf_ok : pv_ok p = pv_ok q;
  sf_src_ip : pv_src_ip p = pv_src_ip q;
  sf_dst_ip : pv_dst_ip p = pv_dst_ip q;
  sf_src_port : pv_src_port p = pv_src_port q;
  sf_dst_port : pv_dst_port p = pv_dst_port q;
  sf_protocol : pv_ipv4_protocol p = pv_ipv4_protocol q;
  sf_length : pv_payload_length p = pv_payload_length q;
}.

Lemma same_flow_bytes rule p q : same_flow p q -> flow_bytes rule p = flow_bytes rule q.
Proof. unfold flow_bytes. by intros [_ -> -> -> -> -> ->]. Qed.

Lemma same_flow_matches rule p q : same_flow p q -> rule_matches_packet rule p = rule_matches_packet rule q.
Proof. unfold rule_matches_packet. by intros [-> -> -> -> -> -> _]. Qed.

Lemma same_flow_decide_fast rules p q :
  same_flow p q -> decide_packet_fast p rules = decide_packet_fast q rules.
Proof.
  intros H. induction rules as [|r rules IH]; simpl; [done|]. rewrite (same_flow_matches r p q H), IH.
  destruct (rule_matches_packet r q); [|done]. unfold decide_for_rule_fast.
  by rewrite (stable_flow_hash_ext r r p q (same_flow_bytes r p q H)).
Qed.

Lemma same_flow_decide rules mem1 mem2 b1 b2 p q :
  same_flow p q -> pv_ok p = true -> payload_readable mem1 b1 p -> payload_readable mem2 b2 q ->
  payload_bytes mem1 b1 p = payload_bytes mem2 b2 q ->
  decide_packet mem1 p rules = decide_packet mem2 q rules.
Proof.
  intros H Hok Hp Hq Hb. induction rules as [|r rules IH]; simpl; [done|].
  rewrite (same_flow_matches r p q H), IH. destruct (rule_matches_packet r q); [|done].
  unfold decide_for_rule. rewrite (stable_packet_hash_fold mem1 b1 r p), (stable_packet_hash_fold mem2 b2 r q)
    by (done || by rewrite <-(sf_ok _ _ H)). by rewrite (same_flow_bytes r p q H), Hb.
Qed.

Lemma decide_packet_total rules mem base p :
  pv_ok p = true -> payload_readable mem base p -> is_Some (decide_packet mem p rules).
Proof.
  intros Hok Hp. induction rules as [|r rules IH]; simpl; [by eexists|].
  destruct (rule_matches_packet r p); [|done]. unfold decide_for_rule.
  rewrite (stable_packet_hash_fold mem base r p) by done.
  generalize (avalanche64 (fnv1a_bytes kFnvOffsetBasis (flow_bytes r p ++ payload_bytes mem base p))). intros h.
  cbn [mbind option_bind]. repeat case_match; by eexists.
Qed.

Lemma stable_packet_hash_no_payload mem r p :
  pv_payload_length p = 0 -> stable_packet_hash mem r p = Some (stable_flow_hash r p).
Proof.
  intros H. unfold stable_packet_hash, stable_flow_hash. rewrite !flow_prefix_hash, H.
  by destruct (negb _).
Qed.

(** Chaos is reproducible.  The fast decision is a function of the rules and of
    the flow's 5-tuple and payload length alone, and the full decision of those and
    of the payload's bytes, wherever in memory the two packets are: packets that
    agree on these are treated the same, down to the hash, roll and rule id. *)
Theorem decision_reproducible rules mem1 mem2 b1 b2 p q :
  same_flow p q -> pv_ok p = true -> payload_readable mem1 b1 p -> payload_readable mem2 b2 q ->
  decide_packet_fast p rules = decide_packet_fast q rules /\
  is_Some (decide_packet mem1 p rules) /\
  (payload_bytes mem1 b1 p = payload_bytes mem2 b2 q ->
   decide_packet mem1 p rules = decide_packet mem2 q rules).
Proof.
  intros H Hok Hp Hq. split_and!; [by apply same_flow_decide_fast|by eapply decide_packet_total|].
  by eapply same_flow_decide.
Qed.

(** The same packet at another address, from other Ethernet stations. *)
Definition moved_udp_frame : list Z := replicate 5 0 ++ replicate 12 9 ++ drop 12 example_udp_frame.
Definition moved_view : PacketView :=
  default (PacketView_init None 0) (parse_packet moved_udp_frame (Some 5) 44).

Lemma decision_reproducible_witness :
  decide_packet example_udp_frame example_view [example_rule]
  = decide_packet moved_udp_frame moved_view [example_rule].
Proof.
  apply (decision_reproducible [example_rule] example_udp_frame moved_udp_frame 0 5 example_view moved_view);
    vm_compute; repeat split; congruence.
Defined.

(** The example frame with a payload of three bytes. *)
Definition longer_udp_frame : list Z :=
  <[17%nat := 31]> (<[39%nat := 11]> example_udp_frame) ++ [239].
Definition longer_view : PacketView :=
  default (PacketView_init None 0) (parse_packet longer_udp_frame (Some 0) 45).

(** The documentation hashes the 5-tuple and the seed; the code also hashes the
    payload's length.  Two well-formed UDP packets of one flow, with two and three
    payload bytes, are treated differently by the same rule. *)
Theorem flow_fate_depends_on_length :
  parse_packet example_udp_frame (Some 0) 44 = Some example_view /\ pv_ok example_view = true /\
  parse_packet longer_udp_frame (Some 0) 45 = Some longer_view /\ pv_ok longer_view = true /\
  pv_src_ip longer_view = pv_src_ip example_view /\ pv_dst_ip longer_view = pv_dst_ip example_view /\
  pv_src_port longer_view = pv_src_port example_view /\ pv_dst_port longer_view = pv_dst_port example_view /\
  pv_ipv4_protocol longer_view = pv_ipv4_protocol example_view /\
  cd_action (decide_packet_fast example_view [example_rule]) = PacketAction_Pass /\
  cd_action (decide_packet_fast longer_view [example_rule]) = PacketAction_Delay.
Proof. by vm_compute. Qed.

(** The fast path agrees with the full one wherever the payload cannot matter:
    on packets without payload, and under rules that apply always or never (and then
    [decide_packet] reads no payload at all). *)
Theorem fast_decision_exact mem packet rules :
  pv_payload_length packet = 0 \/
  Forall (fun r => cr_action r = PacketAction_Pass \/ cr_probability r = 0 \/
                   kProbabilityScale <= cr_probability r) rules ->
  decide_packet mem packet rules = Some (decide_packet_fast packet rules).
Proof.
  intros H. induction rules as [|r rules IH]; simpl; [done|].
  rewrite IH by (destruct H as [H|[_ H]%Forall_cons]; tauto).
  destruct (rule_matches_packet r packet); [|done].
  unfold decide_for_rule, decide_for_rule_fast. rewrite clamp_probability_min.
  destruct H as [H|[H _]%Forall_cons].
  - rewrite stable_packet_hash_no_payload by done. generalize (stable_flow_hash r packet). intros h.
    cbn [mbind option_bind]. by repeat case_match.
  - destruct (bool_decide_reflect (cr_action r = PacketAction_Pass)) as [Ha|Ha]; [done|].
    destruct H as [H|[->|H]]; [done..|]. rewrite Z.min_r by done. done.
Qed.

Lemma fast_decision_exact_witness :
  decide_packet example_udp_frame example_view [with_probability example_rule 65535]
  = Some (decide_packet_fast example_view [with_probability example_rule 65535]).
Proof.
  apply (fast_decision_exact example_udp_frame example_view [with_probability example_rule 65535]).
  right. apply Forall_singleton. right. right. by vm_compute.
Defined.
