(* ===== verification/DataPlane.v ===== *)
(** * [include/chronosx/data_plane.hpp]: the batch pipeline

    One batch of receive descriptors is parsed, decided upon, and each frame is
    transmitted, recycled or handed to the delay queue.  The UMEM is part of a
    byte memory, [umem_base] a pointer into it; the output spans are arrays. *)

From S2P Require Import Prelude Types Ring TimingWheel PacketParser ChaosEngine.

Definition kDataPlaneBatchSize : Z := 64.
Definition kDefaultTimingWheelTickNs : Z := 1000000.

Record PacketDescriptor := mkPacketDescriptor {
  pd_frame_address : Z;
  pd_frame_length : Z;
  pd_options : Z;
}.

Record ProcessedFrame := mkProcessedFrame {
  pf_frame_address : Z;
  pf_frame_length : Z;
  pf_rule_id : Z;
  pf_action : PacketAction;
}.

#[export] Instance ProcessedFrame_inhabited : Inhabited ProcessedFrame :=
  populate (mkProcessedFrame 0 0 0 PacketAction_Pass).

Record DataPlaneBatchStats := mkDataPlaneBatchStats {
  bs_packets_seen : Z;
  bs_packets_dropped : Z;
  bs_packets_delayed : Z;
  bs_packets_corrupted : Z;
  bs_packets_malformed : Z;
  bs_tx_frames : Z;
  bs_recycle_frames : Z;
  bs_schedule_failures : Z;
  bs_output_overflows : Z;
  bs_invalid_descriptors : Z;
  bs_bytes_seen : Z;
}.

Definition DataPlaneBatchStats_default : DataPlaneBatchStats :=
  mkDataPlaneBatchStats 0 0 0 0 0 0 0 0 0 0 0.

(** [++stats.field] on each counter, and [stats.bytes_seen += n]. *)
Definition bs_inc_packets_seen (s : DataPlaneBatchStats) : DataPlaneBatchStats :=
  mkDataPlaneBatchStats (u64 (bs_packets_seen s + 1)) (bs_packets_dropped s) (bs_packets_delayed s)
    (bs_packets_corrupted s) (bs_packets_malformed s) (bs_tx_frames s) (bs_recycle_frames s)
    (bs_schedule_failures s) (bs_output_overflows s) (bs_invalid_descriptors s) (bs_bytes_seen s).
Definition bs_inc_packets_dropped (s : DataPlaneBatchStats) : DataPlaneBatchStats :=
  mkDataPlaneBatchStats (bs_packets_seen s) (u64 (bs_packets_dropped s + 1)) (bs_packets_delayed s)
    (bs_packets_corrupted s) (bs_packets_malformed s) (bs_tx_frames s) (bs_recycle_frames s)
    (bs_schedule_failures s) (bs_output_overflows s) (bs_invalid_descriptors s) (bs_bytes_seen s).
Definition bs_inc_packets_delayed (s : DataPlaneBatchStats) : DataPlaneBatchStats :=
  mkDataPlaneBatchStats (bs_packets_seen s) (bs_packets_dropped s) (u64 (bs_packets_delayed s + 1))
    (bs_packets_corrupted s) (bs_packets_malformed s) (bs_tx_frames s) (bs_recycle_frames s)
    (bs_schedule_failures s) (bs_output_overflows s) (bs_invalid_descriptors s) (bs_bytes_seen s).
Definition bs_inc_packets_corrupted (s : DataPlaneBatchStats) : DataPlaneBatchStats :=
  mkDataPlaneBatchStats (bs_packets_seen s) (bs_packets_dropped s) (bs_packets_delayed s)
    (u64 (bs_packets_corrupted s + 1)) (bs_packets_malformed s) (bs_tx_frames s)
    (bs_recycle_frames s) (bs_schedule_failures s) (bs_output_overflows s)
    (bs_invalid_descriptors s) (bs_bytes_seen s).
Definition bs_inc_packets_malformed (s : DataPlaneBatchStats) : DataPlaneBatchStats :=
  mkDataPlaneBatchStats (bs_packets_seen s) (bs_packets_dropped s) (bs_packets_delayed s)
    (bs_packets_corrupted s) (u64 (bs_packets_malformed s + 1)) (bs_tx_frames s)
    (bs_recycle_frames s) (bs_schedule_failures s) (bs_output_overflows s)
    (bs_invalid_descriptors s) (bs_bytes_seen s).
Definition bs_inc_tx_frames (s : DataPlaneBatchStats) : DataPlaneBatchStats :=
  mkDataPlaneBatchStats (bs_packets_seen s) (bs_packets_dropped s) (bs_packets_delayed s)
    (bs_packets_corrupted s) (bs_packets_malformed s) (u64 (bs_tx_frames s + 1))
    (bs_recycle_frames s) (bs_schedule_failures s) (bs_output_overflows s)
    (bs_invalid_descriptors s) (bs_bytes_seen s).
Definition bs_inc_recycle_frames (s : DataPlaneBatchStats) : DataPlaneBatchStats :=
  mkDataPlaneBatchStats (bs_packets_seen s) (bs_packets_dropped s) (bs_packets_delayed s)
    (bs_packets_corrupted s) (bs_packets_malformed s) (bs_tx_frames s)
    (u64 (bs_recycle_frames s + 1)) (bs_schedule_failures s) (bs_output_overflows s)
    (bs_invalid_descriptors s) (bs_bytes_seen s).
Definition bs_inc_schedule_failures (s : DataPlaneBatchStats) : DataPlaneBatchStats :=
  mkDataPlaneBatchStats (bs_packets_seen s) (bs_packets_dropped s) (bs_packets_delayed s)
    (bs_packets_corrupted s) (bs_packets_malformed s) (bs_tx_frames s) (bs_recycle_frames s)
    (u64 (bs_schedule_failures s + 1)) (bs_output_overflows s) (bs_invalid_descriptors s)
    (bs_bytes_seen s).
Definition bs_inc_output_overflows (s : DataPlaneBatchStats) : DataPlaneBatchStats :=
  mkDataPlaneBatchStats (bs_packets_seen s) (bs_packets_dropped s) (bs_packets_delayed s)
    (bs_packets_corrupted s) (bs_packets_malformed s) (bs_tx_frames s) (bs_recycle_frames s)
    (bs_schedule_failures s) (u64 (bs_output_overflows s + 1)) (bs_invalid_descriptors s)
    (bs_bytes_seen s).
Definition bs_inc_invalid_descriptors (s : DataPlaneBatchStats) : DataPlaneBatchStats :=
  mkDataPlaneBatchStats (bs_packets_seen s) (bs_packets_dropped s) (bs_packets_delayed s)
    (bs_packets_corrupted s) (bs_packets_malformed s) (bs_tx_frames s) (bs_recycle_frames s)
    (bs_schedule_failures s) (bs_output_overflows s) (u64 (bs_invalid_descriptors s + 1))
    (bs_bytes_seen s).
Definition bs_add_bytes_seen (s : DataPlaneBatchStats) (n : Z) : DataPlaneBatchStats :=
  mkDataPlaneBatchStats (bs_packets_seen s) (bs_packets_dropped s) (bs_packets_delayed s)
    (bs_packets_corrupted s) (bs_packets_malformed s) (bs_tx_frames s) (bs_recycle_frames s)
    (bs_schedule_failures s) (bs_output_overflows s) (bs_invalid_descriptors s)
    (u64 (bs_bytes_seen s + n)).

Record DataPlaneBatchResult := mkDataPlaneBatchResult {
  br_stats : DataPlaneBatchStats;
  br_tx_count : Z;
  br_recycle_count : Z;
}.

Definition br_set_stats (r : DataPlaneBatchResult) (f : DataPlaneBatchStats -> DataPlaneBatchStats)
    : DataPlaneBatchResult :=
  mkDataPlaneBatchResult (f (br_stats r)) (br_tx_count r) (br_recycle_count r).

Definition delay_ns_to_ticks (delay_ns tick_ns : Z) : Z :=
  if delay_ns =? 0 then 1
  else if tick_ns =? 0 then delay_ns
  else u64 (delay_ns + tick_ns - 1) / tick_ns.

(** A store through a pointer; a span is a pointer with its size. *)
Definition store (mem : Memory) (p : Ptr) (i : Z) (x : Byte) : option Memory :=
  match p with Some base => mem.[base + i <- x] | None => None end.

Definition span_get (mem : Memory) (frame : Ptr) (size i : Z) : option Byte :=
  if i <? size then load mem frame i else None.

Definition span_set (mem : Memory) (frame : Ptr) (size i : Z) (x : Byte) : option Memory :=
  if i <? size then store mem frame i x else None.

(** The loop of [swap_ethernet_macs] from [index] on, with [n] iterations left. *)
Fixpoint swap_macs_loop (n : nat) (mem : Memory) (frame : Ptr) (size index : Z) : option Memory :=
  match n with
  | O => Some mem
  | S n =>
      temporary ← span_get mem frame size index;
      other ← span_get mem frame size (index + 6);
      mem ← span_set mem frame size index other;
      mem ← span_set mem frame size (index + 6) temporary;
      swap_macs_loop n mem frame size (index + 1)
  end.

Definition swap_ethernet_macs (mem : Memory) (frame : Ptr) (size : Z) : option (bool * Memory) :=
  if size <? kEthernetHeaderBytes then Some (false, mem)
  else mem ← swap_macs_loop 6 mem frame size 0; Some (true, mem).

Definition corrupt_packet_payload (mem : Memory) (frame : Ptr) (packet : PacketView) (selector : Z)
    : option (bool * Memory) :=
  if (frame =?? None) || negb (pv_ok packet) || (pv_payload_length packet =? 0) ||
     (pv_frame_length packet <=? pv_payload_offset packet) then Some (false, mem)
  else
    let byte_offset := u64 (pv_payload_offset packet + selector mod pv_payload_length packet) in
    if pv_frame_length packet <=? byte_offset then Some (false, mem)
    else
      byte ← load mem frame byte_offset;
      mem ← store mem frame byte_offset (u8 (Z.lxor byte 1));
      Some (true, mem).

Definition descriptor_within_umem (descriptor : PacketDescriptor) (umem_size_bytes : Z) : bool :=
  if 2 ^ 64 - 1 <? pd_frame_address descriptor then false
  else
    let address := pd_frame_address descriptor in
    if umem_size_bytes <? address then false
    else pd_frame_length descriptor <=? u64 (umem_size_bytes - address).

Definition append_recycle (processed : ProcessedFrame) (recycle_output : list ProcessedFrame)
    (result : DataPlaneBatchResult) : option (bool * list ProcessedFrame * DataPlaneBatchResult) :=
  if zlen recycle_output <=? br_recycle_count result
  then Some (false, recycle_output, br_set_stats result bs_inc_output_overflows)
  else
    recycle_output ← recycle_output.[br_recycle_count result <- processed];
    Some (true, recycle_output,
      mkDataPlaneBatchResult (bs_inc_recycle_frames (br_stats result)) (br_tx_count result)
        (u64 (br_recycle_count result + 1))).

(** ** The delay queue, as the pipeline sees it

    The template parameter [TimingWheelT] needs [schedule] only.  [dq_holds w l]
    says that the queue [w] holds the frames [l], in some order. *)

Definition df_key (f : DelayedFrame) : Z * Z * Z := (df_frame_address f, df_frame_length f, df_rule_id f).

Class DelayQueue (W : Type) := {
  dq_schedule : W -> DelayedFrame -> Z -> option (ScheduleStatus * W);
  dq_holds : W -> list (Z * Z * Z) -> Prop;
  dq_schedule_law : forall w l f d, dq_holds w l -> 0 <= d ->
    exists status w', dq_schedule w f d = Some (status, w') /\
      dq_holds w' (if status =?? ScheduleStatus_Scheduled then df_key f :: l else l);
}.

Section DataPlane.
Context {W : Type} `{!DelayQueue W}.

(** What one batch changes. *)
Record BatchState := mkBatchState {
  ba_mem : Memory;
  ba_wheel : W;
  ba_tx_output : list ProcessedFrame;
  ba_recycle_output : list ProcessedFrame;
  ba_result : DataPlaneBatchResult;
}.

(** [(void)append_recycle(processed, recycle_output, result)], after the counters [f]. *)
Definition recycle_frame (st : BatchState) (processed : ProcessedFrame)
    (f : DataPlaneBatchStats -> DataPlaneBatchStats) : option BatchState :=
  '(_, recycle_output, result) ← append_recycle processed (ba_recycle_output st) (br_set_stats (ba_result st) f);
  Some (mkBatchState (ba_mem st) (ba_wheel st) (ba_tx_output st) recycle_output result).

(** The end of an iteration: corrupt, swap, transmit. *)
Definition forward_frame (st : BatchState) (frame : Ptr) (frame_length : Z) (packet : PacketView)
    (decision : ChaosDecision) (processed : ProcessedFrame) : option BatchState :=
  '(corrupted, mem) ← (if should_corrupt decision
                       then corrupt_packet_payload (ba_mem st) frame packet (cd_hash decision)
                       else Some (false, ba_mem st));
  let result := if corrupted : bool then br_set_stats (ba_result st) bs_inc_packets_corrupted else ba_result st in
  '(_, mem) ← (if negb (frame =?? None) then swap_ethernet_macs mem frame frame_length
               else Some (false, mem));
  if br_tx_count result <? zlen (ba_tx_output st) then
    tx_output ← (ba_tx_output st).[br_tx_count result <- processed];
    Some (mkBatchState mem (ba_wheel st) tx_output (ba_recycle_output st)
      (mkDataPlaneBatchResult (bs_inc_tx_frames (br_stats result)) (u64 (br_tx_count result + 1))
         (br_recycle_count result)))
  else
    recycle_frame (mkBatchState mem (ba_wheel st) (ba_tx_output st) (ba_recycle_output st) result)
      processed (fun s => bs_inc_packets_dropped (bs_inc_output_overflows s)).

(** One iteration of the loop over [rx_descriptors]. *)
Definition process_descriptor (umem_base : Ptr) (umem_size_bytes : Z) (rules : list ChaosRule) (tick_ns : Z)
    (st : BatchState) (descriptor : PacketDescriptor) : option BatchState :=
  let result := br_set_stats (ba_result st) (fun s =>
    bs_add_bytes_seen (bs_inc_packets_seen s) (pd_frame_length descriptor)) in
  let st := mkBatchState (ba_mem st) (ba_wheel st) (ba_tx_output st) (ba_recycle_output st) result in
  let descriptor_valid := negb (umem_base =?? None) && descriptor_within_umem descriptor umem_size_bytes in
  let frame := if descriptor_valid then base ← umem_base; Some (base + pd_frame_address descriptor) else None in
  packet ← parse_packet (ba_mem st) frame (pd_frame_length descriptor);
  let decision := if pv_ok packet then decide_packet_fast packet rules else pass_decision in
  let processed := mkProcessedFrame (pd_frame_address descriptor) (pd_frame_length descriptor)
                     (cd_rule_id decision) (cd_action decision) in
  if negb descriptor_valid || negb (pv_ok packet) then
    recycle_frame st processed (fun s =>
      let s := bs_inc_packets_malformed s in
      let s := if negb descriptor_valid then bs_inc_invalid_descriptors s else s in
      bs_inc_packets_dropped s)
  else if should_drop decision then recycle_frame st processed bs_inc_packets_dropped
  else if should_delay decision then
    let delayed := mkDelayedFrame (pd_frame_address descriptor) (pd_frame_length descriptor)
                     (cd_rule_id decision) 0 in
    '(status, wheel) ← dq_schedule (ba_wheel st) delayed (delay_ns_to_ticks (cd_delay_ns decision) tick_ns);
    let st := mkBatchState (ba_mem st) wheel (ba_tx_output st) (ba_recycle_output st) (ba_result st) in
    if status =?? ScheduleStatus_Scheduled then
      Some (mkBatchState (ba_mem st) (ba_wheel st) (ba_tx_output st) (ba_recycle_output st)
        (br_set_stats (ba_result st) bs_inc_packets_delayed))
    else recycle_frame st processed (fun s => bs_inc_packets_dropped (bs_inc_schedule_failures s))
  else forward_frame st frame (pd_frame_length descriptor) packet decision processed.

Fixpoint process_descriptors (umem_base : Ptr) (umem_size_bytes : Z) (rules : list ChaosRule) (tick_ns : Z)
    (st : BatchState) (rx_descriptors : list PacketDescriptor) : option BatchState :=
  match rx_descriptors with
  | [] => Some st
  | descriptor :: rx_descriptors =>
      st ← process_descriptor umem_base umem_size_bytes rules tick_ns st descriptor;
      process_descriptors umem_base umem_size_bytes rules tick_ns st rx_descriptors
  end.

(** The final state holds the result in [ba_result], and what the call wrote. *)
Definition process_packet_batch (mem : Memory) (umem_base : Ptr) (umem_size_bytes : Z)
    (rx_descriptors : list PacketDescriptor) (rules : list ChaosRule) (timing_wheel : W)
    (tx_output recycle_output : list ProcessedFrame) (tick_ns : Z) : option BatchState :=
  process_descriptors umem_base umem_size_bytes rules tick_ns
    (mkBatchState mem timing_wheel tx_output recycle_output
       (mkDataPlaneBatchResult DataPlaneBatchStats_default 0 0)) rx_descriptors.

(** The overload without a size. *)
Definition process_packet_batch_unbounded (mem : Memory) (umem_base : Ptr)
    (rx_descriptors : list PacketDescriptor) (rules : list ChaosRule) (timing_wheel : W)
    (tx_output recycle_output : list ProcessedFrame) (tick_ns : Z) : option BatchState :=
  process_packet_batch mem umem_base (2 ^ 64 - 1) rx_descriptors rules timing_wheel
    tx_output recycle_output tick_ns.

End DataPlane.

(** ** Swapping the MAC addresses *)

(** Where the byte at [i] of a swapped frame comes from. *)
Definition swapped_index (i : Z) : Z :=
  if decide (0 <= i < 6) then i + 6 else if decide (6 <= i < 12) then i - 6 else i.

Lemma swapped_index_involutive i : swapped_index (swapped_index i) = i.
Proof. unfold swapped_index. repeat case_decide; lia. Qed.

Lemma span_get_in mem base size i x :
  i < size -> mem.[base + i] = Some x -> span_get mem (Some base) size i = Some x.
Proof. intros Hi Hx. unfold span_get. by destruct (Z.ltb_spec i size); [|lia]. Qed.

Lemma span_set_in mem base size i x :
  i < size -> 0 <= base + i < zlen mem ->
  exists mem', span_set mem (Some base) size i x = Some mem' /\ zlen mem' = zlen mem /\
    mem'.[base + i] = Some x /\ forall j, j <> i -> mem'.[base + j] = mem.[base + j].
Proof.
  intros Hi Hr. unfold span_set. destruct (Z.ltb_spec i size); [|lia]. simpl.
  destruct (mem.[base + i <- x]) as [mem'|] eqn:E; [|by rewrite aset_in_range in E by lia].
  exists mem'. split_and!; [done|by eapply aset_zlen|by eapply aget_aset_eq|].
  intros j Hj. eapply aget_aset_ne; [done|lia].
Qed.

Lemma swap_macs_loop_spec n mem base size index :
  0 <= base -> 0 <= index -> index + Z.of_nat n = 6 -> 12 <= size -> base + size <= zlen mem ->
  exists mem', swap_macs_loop n mem (Some base) size index = Some mem' /\ zlen mem' = zlen mem /\
    forall i, mem'.[base + i] = mem.[base + (if decide (index <= i < 6) then i + 6
                                             else if decide (index + 6 <= i < 12) then i - 6 else i)].
Proof.
  revert mem index. induction n as [|n IH]; intros mem index Hb Hi Hn Hs Hm; simpl.
  { exists mem. split_and!; [done..|]. intros i. by rewrite !decide_False by lia. }
  destruct (aget_in_range mem (base + index)) as [x Hx]; [lia|].
  destruct (aget_in_range mem (base + (index + 6))) as [y Hy]; [lia|].
  rewrite (span_get_in mem base size index x), (span_get_in mem base size (index + 6) y) by (done || lia). simpl.
  destruct (span_set_in mem base size index y) as (m1 & -> & Hz1 & Hi1 & Ho1); [lia..|]. simpl.
  destruct (span_set_in m1 base size (index + 6) x) as (m2 & -> & Hz2 & Hi2 & Ho2); [lia..|]. simpl.
  destruct (IH m2 (index + 1)) as (m3 & -> & Hz3 & H3); [lia..|].
  exists m3. split_and!; [done|congruence|]. intros i. rewrite H3.
  destruct (decide (i = index)) as [->|?]; [|destruct (decide (i = index + 6)) as [->|?]].
  - repeat case_decide; try lia. by rewrite Ho2, Hi1 by lia.
  - repeat case_decide; try lia. rewrite Hi2. by replace (index + 6 - 6) with index by lia.
  - repeat case_decide; try lia; by rewrite Ho2, Ho1 by lia.
Qed.

Lemma swap_ethernet_macs_spec mem base size :
  0 <= base -> kEthernetHeaderBytes <= size -> base + size <= zlen mem ->
  exists mem', swap_ethernet_macs mem (Some base) size = Some (true, mem') /\ zlen mem' = zlen mem /\
    forall i, mem'.[base + i] = mem.[base + swapped_index i].
Proof.
  unfold kEthernetHeaderBytes. intros Hb Hs Hm. unfold swap_ethernet_macs, kEthernetHeaderBytes.
  destruct (Z.ltb_spec size 14); [lia|].
  destruct (swap_macs_loop_spec 6 mem base size 0) as (mem' & -> & Hz & Hi); [lia..|]. by exists mem'.
Qed.

Lemma swap_short mem base size :
  size < kEthernetHeaderBytes -> swap_ethernet_macs mem base size = Some (false, mem).
Proof. intros. unfold swap_ethernet_macs. by destruct (Z.ltb_spec size kEthernetHeaderBytes); [|lia]. Qed.

(** ** Frames in memory *)

(** [view] is what the parser made of the [length] bytes at [base]. *)
Record parsed (mem : Memory) (base length : Z) (view : PacketView) : Prop := {
  pa_mem : mem_ok mem;
  pa_base : 0 <= base;
  pa_length : fits 32 length;
  pa_frame : base + length <= zlen mem;
  pa_parse : parse_packet mem (Some base) length = Some view;
  pa_ok : pv_ok view = true;
}.

Lemma parsed_bounds mem base length view :
  parsed mem base length view ->
  pv_data view = Some base /\ pv_frame_length view = length /\ 42 <= pv_payload_offset view /\
  0 <= pv_payload_length view /\ pv_payload_offset view + pv_payload_length view <= length.
Proof.
  intros [Hm Hb Hl Hf Hp Hok].
  destruct (parse_packet_spec mem base length Hm Hb Hf (proj1 Hl)) as (v & Hv & Hwf & Hview).
  rewrite Hv in Hp. simplify_eq. pose proof (frame_view_bounds _ _ _ (proj1 Hwf Hok)) as (? & ? & ? & ?).
  rewrite (Hview Hok). split_and!; [done|done|lia..].
Qed.

Lemma flip_bit_fits b : fits 8 b -> fits 8 (Z.lxor b 1).
Proof. intros. by apply lxor_fits. Qed.

Lemma flip_bit_involutive b : Z.lxor (Z.lxor b 1) 1 = b.
Proof. by rewrite Z.lxor_assoc, Z.lxor_nilpotent, Z.lxor_0_r. Qed.

(** The byte that a selector picks. *)
Definition corrupted_offset (view : PacketView) (selector : Z) : Z :=
  pv_payload_offset view + selector mod pv_payload_length view.

Lemma corrupted_offset_bounds view selector :
  0 < pv_payload_length view ->
  pv_payload_offset view <= corrupted_offset view selector < pv_payload_offset view + pv_payload_length view.
Proof. intros H. unfold corrupted_offset. pose proof (Z.mod_pos_bound selector _ H). lia. Qed.

Lemma corrupt_packet_payload_spec mem base length view selector :
  parsed mem base length view -> 0 < pv_payload_length view ->
  exists b mem', mem.[base + corrupted_offset view selector] = Some b /\
    corrupt_packet_payload mem (Some base) view selector = Some (true, mem') /\
    mem.[base + corrupted_offset view selector <- Z.lxor b 1] = Some mem'.
Proof.
  intros Hp Hl. pose proof (parsed_bounds _ _ _ _ Hp) as (_ & Hfl & Ho & _ & He).
  pose proof (corrupted_offset_bounds view selector Hl) as Hc. destruct Hp as [Hm Hb Hlen Hf _ Hok].
  unfold corrupt_packet_payload. rewrite Hok, Hfl.
  destruct (Z.eqb_spec (pv_payload_length view) 0); [lia|].
  destruct (Z.leb_spec length (pv_payload_offset view)); [lia|]. simpl.
  fold (corrupted_offset view selector).
  rewrite (wrap_small 64) by (unfold fits in *; lia).
  destruct (Z.leb_spec length (corrupted_offset view selector)); [lia|].
  destruct (aget_in_range mem (base + corrupted_offset view selector)) as [b Hx]; [lia|].
  assert (fits 8 b) by (by eapply Forall_aget in Hx).
  unfold load. simpl. rewrite Hx. simpl. rewrite (wrap_small 8) by by apply flip_bit_fits.
  rewrite aset_in_range by lia. simpl. eexists b, _. split_and!; [done|done|]. apply aset_in_range. lia.
Qed.

Lemma corrupt_no_payload mem frame view selector :
  pv_payload_length view = 0 -> corrupt_packet_payload mem frame view selector = Some (false, mem).
Proof. intros H. unfold corrupt_packet_payload. rewrite H. simpl. by rewrite orb_true_r. Qed.

(** Either there is no payload, or one byte of it changes. *)
Lemma corrupt_cases mem base length view selector :
  parsed mem base length view ->
  corrupt_packet_payload mem (Some base) view selector = Some (false, mem) \/
  exists b mem' offset, corrupt_packet_payload mem (Some base) view selector = Some (true, mem') /\
    pv_payload_offset view <= offset < pv_payload_offset view + pv_payload_length view /\
    mem.[base + offset] = Some b /\ mem.[base + offset <- Z.lxor b 1] = Some mem'.
Proof.
  intros Hp. pose proof (parsed_bounds _ _ _ _ Hp) as (_ & _ & _ & Hl & _).
  destruct (decide (pv_payload_length view = 0)) as [H0|H0]; [left; by apply corrupt_no_payload|right].
  destruct (corrupt_packet_payload_spec mem base length view selector Hp) as (b & m & Hb & Hc & Hset); [lia|].
  exists b, m, (corrupted_offset view selector). split_and!; try done; apply corrupted_offset_bounds; lia.
Qed.

Lemma byte_at_ext mem mem' base i : mem'.[base + i] = mem.[base + i] -> byte_at mem' base i = byte_at mem base i.
Proof. unfold byte_at. by intros ->. Qed.

(** A frame stays parsed as it was under changes to its MAC addresses and payload. *)
Lemma parsed_frame_change mem mem' base length view :
  parsed mem base length view -> mem_ok mem' -> zlen mem' = zlen mem ->
  (forall i, 12 <= i < pv_payload_offset view -> mem'.[base + i] = mem.[base + i]) ->
  parsed mem' base length view.
Proof.
  intros [Hm0 Hb Hl Hf Hp Hok] Hm Hz Hs.
  constructor; [assumption|assumption|assumption|lia| |assumption].
  apply (parse_packet_headers_only mem mem' base length view); try assumption; [apply Hl|].
  intros i Hi. by apply byte_at_ext, Hs.
Qed.

Lemma mem_ok_aset mem mem' i x : mem_ok mem -> fits 8 x -> mem.[i <- x] = Some mem' -> mem_ok mem'.
Proof. intros Hm Hx [_ ->]%aset_Some. by apply Forall_insert. Qed.

Lemma corrupt_keeps_parse mem base length view selector mem' corrupted :
  parsed mem base length view ->
  corrupt_packet_payload mem (Some base) view selector = Some (corrupted, mem') ->
  parsed mem' base length view /\ zlen mem' = zlen mem.
Proof.
  intros Hp Hc.
  destruct (corrupt_cases mem base length view selector Hp) as [Hn|(b & m & offset & Hc' & Hoff & Hb & Hset)].
  { rewrite Hn in Hc. by simplify_eq. }
  rewrite Hc' in Hc. simplify_eq. pose proof (aset_zlen _ _ _ _ Hset). split; [|done].
  eapply parsed_frame_change; [done| |done|].
  - eapply mem_ok_aset; [apply Hp| |done]. apply flip_bit_fits.
    by eapply (proj1 (Forall_aget _ _) (pa_mem _ _ _ _ Hp)).
  - intros i Hi. eapply aget_aset_ne; [done|lia].
Qed.

Lemma swap_keeps_parse mem base length view mem' swapped :
  parsed mem base length view ->
  swap_ethernet_macs mem (Some base) length = Some (swapped, mem') ->
  parsed mem' base length view /\ zlen mem' = zlen mem.
Proof.
  intros Hp Hs. pose proof (parsed_bounds _ _ _ _ Hp) as (_ & _ & Ho & Hl & He).
  destruct (swap_ethernet_macs_spec mem base length) as (m & Hs' & Hz & Hi);
    [apply Hp|unfold kEthernetHeaderBytes; lia|apply Hp|].
  rewrite Hs' in Hs. simplify_eq. split; [|done].
  eapply parsed_frame_change; [done| |done|].
  - apply Forall_aget. intros i x Hx. replace i with (base + (i - base)) in Hx by lia. rewrite Hi in Hx.
    by eapply (proj1 (Forall_aget _ _) (pa_mem _ _ _ _ Hp)).
  - intros i H. rewrite Hi. unfold swapped_index. by rewrite !decide_False by lia.
Qed.

(** Corruption flips one payload bit and nothing else.  On an accepted frame
    with a payload, [corrupt_packet_payload] succeeds, inverts the lowest bit of the
    payload byte the selector picks, leaves every other byte of the memory, so the
    frame parses to the same view (headers intact), and a second run with the same
    selector restores the memory; without a payload it reports failure. *)
Theorem corrupt_flips_one_payload_bit mem base length view selector :
  parsed mem base length view ->
  (pv_payload_length view = 0 ->
     corrupt_packet_payload mem (Some base) view selector = Some (false, mem)) /\
  (pv_payload_length view <> 0 ->
     exists b mem' offset, corrupt_packet_payload mem (Some base) view selector = Some (true, mem') /\
       pv_payload_offset view <= offset < pv_payload_offset view + pv_payload_length view /\
       mem.[base + offset] = Some b /\ mem'.[base + offset] = Some (Z.lxor b 1) /\
       (forall i, i <> base + offset -> mem'.[i] = mem.[i]) /\
       parse_packet mem' (Some base) length = Some view /\
       corrupt_packet_payload mem' (Some base) view selector = Some (true, mem)).
Proof.
  intros Hp. pose proof (parsed_bounds _ _ _ _ Hp) as (_ & _ & _ & Hl & _).
  split; [apply corrupt_no_payload|]. intros Hne.
  destruct (corrupt_packet_payload_spec mem base length view selector Hp) as (b & m & Hb & Hc & Hset); [lia|].
  destruct (corrupt_keeps_parse _ _ _ _ _ _ _ Hp Hc) as [Hp' _].
  destruct (corrupt_packet_payload_spec m base length view selector Hp') as (b' & m' & Hb' & Hc' & Hset'); [lia|].
  exists b, m, (corrupted_offset view selector). rewrite (aget_aset_eq _ _ _ _ Hset) in *.
  split_and!; [done|apply corrupted_offset_bounds; lia..|done|done| |apply Hp'|].
  - intros i Hi. by eapply aget_aset_ne.
  - rewrite Hc'. do 2 f_equal. apply aget_ext. intros i.
    destruct (decide (i = base + corrupted_offset view selector)) as [->|Hi].
    + rewrite (aget_aset_eq _ _ _ _ Hset'), Hb. simplify_eq. by rewrite flip_bit_involutive.
    + by rewrite (aget_aset_ne _ _ _ i _ Hset'), (aget_aset_ne _ _ _ i _ Hset).
Qed.

Lemma example_view_parsed : parsed example_udp_frame 0 44 example_view.
Proof. constructor; vm_compute; first [congruence|done|repeat constructor; congruence]. Qed.

Lemma corrupt_flips_one_payload_bit_witness :
  exists mem', corrupt_packet_payload example_udp_frame (Some 0) example_view 1 = Some (true, mem') /\
    corrupt_packet_payload mem' (Some 0) example_view 1 = Some (true, example_udp_frame).
Proof.
  destruct (proj2 (corrupt_flips_one_payload_bit example_udp_frame 0 44 example_view 1 example_view_parsed))
    as (b & mem' & offset & H1 & _ & _ & _ & _ & _ & H2); [by vm_compute|]. by exists mem'.
Defined.

(** A forwarded frame is reflected to its sender.  On a frame of at least an
    Ethernet header, [swap_ethernet_macs] exchanges the two addresses byte by byte,
    changes nothing else in the memory, is its own inverse, and leaves the parse of
    the frame as it was; a shorter frame is refused unchanged. *)
Theorem swap_ethernet_macs_reflects mem base size :
  0 <= base -> 0 <= size -> base + size <= zlen mem ->
  (size < kEthernetHeaderBytes -> swap_ethernet_macs mem (Some base) size = Some (false, mem)) /\
  (kEthernetHeaderBytes <= size ->
   exists mem', swap_ethernet_macs mem (Some base) size = Some (true, mem') /\
    (forall i, 0 <= i < 6 -> mem'.[base + i] = mem.[base + 6 + i] /\ mem'.[base + 6 + i] = mem.[base + i]) /\
    (forall i, ~ base <= i < base + 12 -> mem'.[i] = mem.[i]) /\
    swap_ethernet_macs mem' (Some base) size = Some (true, mem) /\
    (forall view, parsed mem base size view -> parsed mem' base size view)).
Proof.
  intros Hb Hs Hm. split; [apply swap_short|]. intros Hge.
  destruct (swap_ethernet_macs_spec mem base size Hb Hge Hm) as (m & Hsw & Hz & Hi).
  exists m. split_and!; [done| | | |].
  - intros i H. rewrite <-Z.add_assoc, !Hi. unfold swapped_index. repeat case_decide; try lia.
    split; f_equal; lia.
  - intros i H. replace i with (base + (i - base)) by lia. rewrite Hi. unfold swapped_index.
    by rewrite !decide_False by lia.
  - destruct (swap_ethernet_macs_spec m base size Hb Hge ltac:(lia)) as (m' & -> & _ & Hi').
    do 2 f_equal. apply aget_ext. intros i. replace i with (base + (i - base)) by lia.
    by rewrite Hi', Hi, swapped_index_involutive.
  - intros view Hp. by eapply swap_keeps_parse.
Qed.

Lemma swap_ethernet_macs_reflects_witness :
  exists mem', swap_ethernet_macs example_udp_frame (Some 0) 44 = Some (true, mem') /\
    swap_ethernet_macs mem' (Some 0) 44 = Some (true, example_udp_frame).
Proof.
  destruct (proj2 (swap_ethernet_macs_reflects example_udp_frame 0 44 ltac:(done) ltac:(done) ltac:(done)))
    as (mem' & H1 & _ & _ & H2 & _); [done|]. by exists mem'.
Defined.

(** ** Delays in ticks *)

(** C40: a delay becomes the least number of ticks that covers it.  For a positive
    tick length and as long as [delay_ns + tick_ns - 1] does not overflow,
    [delay_ns_to_ticks] is [max 1 (ceil (delay_ns / tick_ns))]: enough ticks, and one
    tick less would be too short; and at [2^64 - 1] ns the sum overflows and the
    result is 0 ticks. *)
Theorem delay_ns_to_ticks_covers delay_ns tick_ns :
  0 <= delay_ns -> 0 < tick_ns -> delay_ns + tick_ns - 1 < 2 ^ 64 ->
  let ticks := delay_ns_to_ticks delay_ns tick_ns in
  1 <= ticks /\ delay_ns <= ticks * tick_ns /\ (1 < ticks -> (ticks - 1) * tick_ns < delay_ns) /\
  delay_ns_to_ticks (2 ^ 64 - 1) kDefaultTimingWheelTickNs = 0.
Proof.
  intros Hd Ht Ho ticks. assert (1 <= ticks /\ delay_ns <= ticks * tick_ns /\
    (1 < ticks -> (ticks - 1) * tick_ns < delay_ns)) as (? & ? & ?); [|by split_and!].
  subst ticks. unfold delay_ns_to_ticks. destruct (Z.eqb_spec delay_ns 0); [lia|].
  destruct (Z.eqb_spec tick_ns 0); [lia|]. rewrite wrap_small by (unfold fits; lia).
  set (q := (delay_ns + tick_ns - 1) / tick_ns).
  assert (delay_ns + tick_ns - 1 = tick_ns * q + (delay_ns + tick_ns - 1) mod tick_ns) by (apply Z.div_mod; lia).
  pose proof (Z.mod_pos_bound (delay_ns + tick_ns - 1) tick_ns Ht). nia.
Qed.

Lemma delay_ns_to_ticks_covers_witness : 2500000 <= delay_ns_to_ticks 2500000 1000000 * 1000000.
Proof. apply (delay_ns_to_ticks_covers 2500000 1000000); lia. Defined.

(** ** Descriptors and the UMEM *)

Definition descriptor_ok (d : PacketDescriptor) : Prop :=
  fits 64 (pd_frame_address d) /\ fits 32 (pd_frame_length d).

(** The subtraction of [descriptor_within_umem] does not wrap. *)
Lemma descriptor_within_umem_iff d size :
  descriptor_ok d -> fits 64 size ->
  descriptor_within_umem d size = true <-> pd_frame_address d + pd_frame_length d <= size.
Proof.
  intros [Ha Hl] Hs. unfold descriptor_within_umem, fits in *.
  destruct (Z.ltb_spec (2 ^ 64 - 1) (pd_frame_address d)); [lia|].
  destruct (Z.ltb_spec size (pd_frame_address d)); [split; [done|lia]|].
  rewrite wrap_small by (unfold fits; lia). rewrite Z.leb_le. lia.
Qed.

(** ** Where each frame of a batch ends up *)

Inductive Fate := Transmitted | Recycled | Delayed | Lost.

#[export] Instance Fate_eq_dec : EqDecision Fate.
Proof. solve_decision. Defined.

Definition with_fate (k : Fate) (entries : list (ProcessedFrame * Fate)) : list ProcessedFrame :=
  (filter (fun e => e.2 = k) entries).*1.

Lemma with_fate_app k e1 e2 : with_fate k (e1 ++ e2) = with_fate k e1 ++ with_fate k e2.
Proof. unfold with_fate. by rewrite filter_app, fmap_app. Qed.

Lemma with_fate_cons k k' e pf :
  with_fate k ((pf, k') :: e) = if decide (k' = k) then pf :: with_fate k e else with_fate k e.
Proof. unfold with_fate. rewrite filter_cons. simpl. by case_decide. Qed.

Lemma with_fate_eq k e pf : with_fate k (e ++ [(pf, k)]) = with_fate k e ++ [pf].
Proof. rewrite with_fate_app. unfold with_fate at 2. by rewrite filter_cons_True, filter_nil. Qed.

Lemma with_fate_ne k k' e pf : k' <> k -> with_fate k (e ++ [(pf, k')]) = with_fate k e.
Proof. intros. rewrite with_fate_app. unfold with_fate at 2. by rewrite filter_cons_False, filter_nil, app_nil_r. Qed.

Lemma with_fate_le k e : zlen (with_fate k e) <= zlen e.
Proof. unfold with_fate, zlen. rewrite length_fmap. pose proof (length_filter (fun e => e.2 = k) e). lia. Qed.

Create Rewrite HintDb fate.
#[export] Hint Rewrite with_fate_eq : fate.
#[export] Hint Rewrite with_fate_ne using done : fate.

(** A span of which the first [count] elements are [l]. *)
Definition filled (output : list ProcessedFrame) (count : Z) (l : list ProcessedFrame) : Prop :=
  0 <= count <= zlen output /\ take (Z.to_nat count) output = l.

Lemma filled_zlen output count l : filled output count l -> zlen l = count.
Proof. intros [? <-]. unfold zlen in *. rewrite length_take. lia. Qed.

Lemma filled_push output count l pf :
  filled output count l -> count < zlen output -> zlen output < 2 ^ 64 ->
  exists output', output.[count <- pf] = Some output' /\ zlen output' = zlen output /\
    filled output' (u64 (count + 1)) (l ++ [pf]).
Proof.
  intros [Hc Ht] Hlt Hbig. exists (<[Z.to_nat count := pf]> output).
  assert (zlen (<[Z.to_nat count := pf]> output) = zlen output) as Hz by (unfold zlen; by rewrite length_insert).
  split_and!; [apply aset_in_range; lia|done|].
  rewrite wrap_small by (unfold fits; lia). split; [lia|].
  replace (Z.to_nat (count + 1)) with (S (Z.to_nat count)) by lia.
  rewrite (take_S_r _ _ pf) by (apply list_lookup_insert_eq; unfold zlen in *; lia).
  by rewrite take_insert_ge, Ht by lia.
Qed.

Definition pf_key (f : ProcessedFrame) : Z * Z * Z := (pf_frame_address f, pf_frame_length f, pf_rule_id f).

(** The counters after the frames [entries], of which [seen] were started. *)
Record stats_inv (seen : Z) (entries : list (ProcessedFrame * Fate)) (s : DataPlaneBatchStats) : Prop := {
  si_seen : bs_packets_seen s = seen;
  si_tx : bs_tx_frames s = zlen (with_fate Transmitted entries);
  si_recycle : bs_recycle_frames s = zlen (with_fate Recycled entries);
  si_delayed : bs_packets_delayed s = zlen (with_fate Delayed entries);
  si_dropped : bs_packets_dropped s = zlen (with_fate Recycled entries) + zlen (with_fate Lost entries);
  si_overflows : zlen (with_fate Lost entries) <= bs_output_overflows s <= 2 * zlen entries;
}.

(** The counters a drop changes before the frame is recycled; at most one more
    overflow is counted. *)
Record drop_bump (f : DataPlaneBatchStats -> DataPlaneBatchStats) : Prop := {
  db_seen : forall s, bs_packets_seen (f s) = bs_packets_seen s;
  db_tx : forall s, bs_tx_frames (f s) = bs_tx_frames s;
  db_recycle : forall s, bs_recycle_frames (f s) = bs_recycle_frames s;
  db_delayed : forall s, bs_packets_delayed (f s) = bs_packets_delayed s;
  db_dropped : forall s, bs_packets_dropped (f s) = u64 (bs_packets_dropped s + 1);
  db_overflows : forall s, bs_output_overflows (f s) = bs_output_overflows s \/
                           bs_output_overflows (f s) = u64 (bs_output_overflows s + 1);
}.

Ltac drop_bump_tac := constructor; intros []; simpl; repeat case_match; auto.

(** A frame is lost only when the frames recycled before it have filled the recycle span. *)
Definition lost_when_full (recycle_size : Z) (entries : list (ProcessedFrame * Fate)) : Prop :=
  forall before pf after, entries = before ++ (pf, Lost) :: after -> zlen (with_fate Recycled before) = recycle_size.

Lemma lost_when_full_snoc size entries pf k :
  lost_when_full size entries -> (k = Lost -> zlen (with_fate Recycled entries) = size) -> lost_when_full size (entries ++ [(pf, k)]).
Proof.
  intros Hl Hk before pf' after E. destruct after as [|e after] using rev_ind.
  - apply app_inj_tail in E as [<- [= -> ->]]. by apply Hk.
  - rewrite app_comm_cons, app_assoc in E. apply app_inj_tail in E as [-> _]. by eapply Hl.
Qed.

(** ** What the batch should do with a frame, given the decision on it

    [tx_room] and [recycle_room] are the elements left in the two spans.  A frame without
    a decision and a dropped one are recycled; a delayed one is scheduled, once, with its
    delay in ticks, and recycled only if the queue refuses it; any other is transmitted,
    or recycled if the transmit span is full.  A frame that should be recycled is lost if
    the recycle span is full. *)

Section fates.
Context {W : Type} `{!DelayQueue W} (tick_ns : Z).

Definition recycled_fate (recycle_room : Z) : Fate := if 0 <? recycle_room then Recycled else Lost.

Definition fate_step (d : PacketDescriptor) (decision : option ChaosDecision) (tx_room recycle_room : Z) (wheel : W)
    : option (Fate * W) :=
  match decision with
  | None => Some (recycled_fate recycle_room, wheel)
  | Some decision =>
      if should_drop decision then Some (recycled_fate recycle_room, wheel)
      else if should_delay decision then
        '(status, wheel) ← dq_schedule wheel
           (mkDelayedFrame (pd_frame_address d) (pd_frame_length d) (cd_rule_id decision) 0)
           (delay_ns_to_ticks (cd_delay_ns decision) tick_ns);
        Some (if status =?? ScheduleStatus_Scheduled then Delayed else recycled_fate recycle_room, wheel)
      else Some (if 0 <? tx_room then Transmitted else recycled_fate recycle_room, wheel)
  end.

(** What is reported of a frame. *)
Definition report (d : PacketDescriptor) (decision : option ChaosDecision) : ProcessedFrame :=
  let final := default pass_decision decision in
  mkProcessedFrame (pd_frame_address d) (pd_frame_length d) (cd_rule_id final) (cd_action final).

(** The fates of a batch, frame by frame. *)
Fixpoint batch_fates (frames : list (PacketDescriptor * option ChaosDecision)) (tx_room recycle_room : Z) (wheel : W)
    : option (list (ProcessedFrame * Fate) * W) :=
  match frames with
  | [] => Some ([], wheel)
  | (d, decision) :: frames =>
      '(k, wheel) ← fate_step d decision tx_room recycle_room wheel;
      '(entries, wheel) ← batch_fates frames (if decide (k = Transmitted) then tx_room - 1 else tx_room)
         (if decide (k = Recycled) then recycle_room - 1 else recycle_room) wheel;
      Some ((report d decision, k) :: entries, wheel)
  end.

End fates.

Section batch.
Context {W : Type} `{!DelayQueue W}.
Context (tx_size recycle_size : Z) (held : list (Z * Z * Z)).
Hypothesis tx_fits : tx_size < 2 ^ 64.
Hypothesis recycle_fits : recycle_size < 2 ^ 64.

(** After the frames [entries]: the spans hold the transmitted and the recycled
    frames, the queue holds the delayed ones besides those it [held], the counters
    count them, and a frame is lost only when the recycle span is full. *)
Record batch_inv (seen : Z) (entries : list (ProcessedFrame * Fate)) (st : BatchState (W := W)) : Prop := {
  bi_tx_size : zlen (ba_tx_output st) = tx_size;
  bi_tx : filled (ba_tx_output st) (br_tx_count (ba_result st)) (with_fate Transmitted entries);
  bi_recycle_size : zlen (ba_recycle_output st) = recycle_size;
  bi_recycle : filled (ba_recycle_output st) (br_recycle_count (ba_result st)) (with_fate Recycled entries);
  bi_lost : lost_when_full recycle_size entries;
  bi_wheel : dq_holds (ba_wheel st) (reverse (pf_key <$> with_fate Delayed entries) ++ held);
  bi_stats : stats_inv seen entries (br_stats (ba_result st));
}.

(** Counting one more frame. *)
Ltac count_entries entries :=
  pose proof (with_fate_le Transmitted entries); pose proof (with_fate_le Recycled entries);
  pose proof (with_fate_le Delayed entries); pose proof (with_fate_le Lost entries);
  repeat match goal with |- context [with_fate ?k entries] =>
    lazymatch goal with
    | H : 0 <= zlen (with_fate k entries) |- _ => fail
    | _ => pose proof (zlen_nonneg (with_fate k entries))
    end end;
  autorewrite with fate zlen; rewrite ?wrap_small by (unfold fits; lia); try lia.

Lemma stats_inv_recycled seen entries pf f s :
  stats_inv seen entries s -> drop_bump f -> zlen entries < 2 ^ 62 ->
  stats_inv seen (entries ++ [(pf, Recycled)]) (bs_inc_recycle_frames (f s)).
Proof.
  intros [Hs Ht Hr Hd Hp Ho] [Bs Bt Br Bd Bp Bo] Hlen. pose proof (zlen_nonneg (with_fate Lost entries)).
  pose proof (zlen_nonneg (with_fate Recycled entries)).
  split; simpl; rewrite ?Bs, ?Bt, ?Br, ?Bd, ?Bp, ?Hs, ?Ht, ?Hr, ?Hd, ?Hp; count_entries entries; try done.
  destruct (Bo s) as [-> | ->]; rewrite ?wrap_small by (unfold fits; lia); lia.
Qed.

Lemma stats_inv_lost seen entries pf f s :
  stats_inv seen entries s -> drop_bump f -> zlen entries < 2 ^ 62 ->
  stats_inv seen (entries ++ [(pf, Lost)]) (bs_inc_output_overflows (f s)).
Proof.
  intros [Hs Ht Hr Hd Hp Ho] [Bs Bt Br Bd Bp Bo] Hlen. pose proof (zlen_nonneg (with_fate Lost entries)).
  pose proof (zlen_nonneg (with_fate Recycled entries)).
  split; simpl; rewrite ?Bs, ?Bt, ?Br, ?Bd, ?Bp, ?Hs, ?Ht, ?Hr, ?Hd, ?Hp; count_entries entries; try done.
  destruct (Bo s) as [-> | ->]; rewrite ?(wrap_small 64 (bs_output_overflows s + 1)), ?wrap_small
    by (unfold fits; lia); lia.
Qed.

Lemma recycle_frame_inv seen entries st pf f :
  batch_inv seen entries st -> drop_bump f -> zlen entries < 2 ^ 62 ->
  let k := recycled_fate (recycle_size - zlen (with_fate Recycled entries)) in
  exists st', recycle_frame st pf f = Some st' /\ batch_inv seen (entries ++ [(pf, k)]) st' /\
    ba_mem st' = ba_mem st /\ ba_wheel st' = ba_wheel st.
Proof.
  intros [Hts Ht Hrs Hr Hl Hw Hst] Hf Hlen. unfold recycle_frame, append_recycle. simpl.
  pose proof (filled_zlen _ _ _ Hr) as Hc. destruct Hr as [Hr1 Hr2] eqn:E; clear E. unfold recycled_fate.
  destruct (Z.leb_spec (zlen (ba_recycle_output st)) (br_recycle_count (ba_result st))) as [Hfull|Hroom]; simpl.
  - destruct (Z.ltb_spec 0 (recycle_size - zlen (with_fate Recycled entries))); [lia|]. eexists. split_and!; [done| |done|done].
    split; simpl; autorewrite with fate; try done; [apply lost_when_full_snoc; [done|lia]|by apply stats_inv_lost].
  - destruct (Z.ltb_spec 0 (recycle_size - zlen (with_fate Recycled entries))); [|lia].
    destruct (filled_push (ba_recycle_output st) (br_recycle_count (ba_result st)) (with_fate Recycled entries) pf)
      as (output & -> & Hz & Hfill); [done|done|lia|]. simpl.
    eexists. split_and!; [done| |done|done].
    split; simpl; autorewrite with fate; try done; [lia|by apply lost_when_full_snoc|by apply stats_inv_recycled].
Qed.

Lemma transmit_inv seen entries st pf mem corrupted :
  batch_inv seen entries st -> zlen entries < 2 ^ 62 ->
  zlen (with_fate Transmitted entries) < tx_size ->
  let result := if corrupted : bool then br_set_stats (ba_result st) bs_inc_packets_corrupted else ba_result st in
  exists output, (ba_tx_output st).[br_tx_count result <- pf] = Some output /\
    batch_inv seen (entries ++ [(pf, Transmitted)])
      (mkBatchState mem (ba_wheel st) output (ba_recycle_output st)
         (mkDataPlaneBatchResult (bs_inc_tx_frames (br_stats result)) (u64 (br_tx_count result + 1))
            (br_recycle_count result))).
Proof.
  intros [Hts Ht Hrs Hr Hl Hw Hst] Hlen Hroom result. pose proof (filled_zlen _ _ _ Ht) as Hc.
  destruct (filled_push (ba_tx_output st) (br_tx_count (ba_result st)) (with_fate Transmitted entries) pf)
    as (output & Hset & Hz & Hfill); [done|lia|lia|].
  exists output. subst result. split; [by destruct corrupted|].
  destruct Hst as [Hs Htx Hrc Hd Hp Ho].
  split; simpl; autorewrite with fate; try done; try (by apply lost_when_full_snoc); [lia|by destruct corrupted; simpl..|].
  split; destruct corrupted; simpl; rewrite ?Hs, ?Htx, ?Hrc, ?Hd, ?Hp; count_entries entries; done.
Qed.

Lemma delay_inv seen entries st wheel f pf :
  batch_inv seen entries st -> zlen entries < 2 ^ 62 -> df_key f = pf_key pf ->
  dq_holds wheel (df_key f :: reverse (pf_key <$> with_fate Delayed entries) ++ held) ->
  batch_inv seen (entries ++ [(pf, Delayed)])
    (mkBatchState (ba_mem st) wheel (ba_tx_output st) (ba_recycle_output st)
       (br_set_stats (ba_result st) bs_inc_packets_delayed)).
Proof.
  intros [Hts Ht Hrs Hr Hl Hw Hst] Hlen Hkey Hheld. destruct Hst as [Hs Htx Hrc Hd Hp Ho].
  split; simpl; autorewrite with fate; try done; try (by apply lost_when_full_snoc).
  - rewrite fmap_app, reverse_app. simpl. by rewrite <-Hkey.
  - split; simpl; rewrite ?Hs, ?Htx, ?Hrc, ?Hd, ?Hp; count_entries entries; done.
Qed.

(** A state that differs in its memory and in counters the invariant ignores. *)
Lemma batch_inv_change seen entries st mem wheel result :
  batch_inv seen entries st -> dq_holds wheel (reverse (pf_key <$> with_fate Delayed entries) ++ held) ->
  br_tx_count result = br_tx_count (ba_result st) -> br_recycle_count result = br_recycle_count (ba_result st) ->
  forall seen', stats_inv seen' entries (br_stats result) ->
  batch_inv seen' entries (mkBatchState mem wheel (ba_tx_output st) (ba_recycle_output st) result).
Proof. intros [] ? Ht Hr seen' Hs. split; simpl; rewrite ?Ht, ?Hr; done. Qed.

(** A memory in which only the bytes of the frame at [base], [length] changed. *)
Definition frame_changed (base length : Z) (mem mem' : Memory) : Prop :=
  zlen mem' = zlen mem /\ mem_ok mem' /\ forall i, ~ base <= i < base + length -> mem'.[i] = mem.[i].

Lemma frame_changed_refl base length mem : mem_ok mem -> frame_changed base length mem mem.
Proof. by split. Qed.

Lemma corrupt_frame_changed mem base length view selector mem' corrupted :
  parsed mem base length view ->
  corrupt_packet_payload mem (Some base) view selector = Some (corrupted, mem') ->
  frame_changed base length mem mem'.
Proof.
  intros Hp Hc. destruct (corrupt_keeps_parse _ _ _ _ _ _ _ Hp Hc) as [Hp' Hz].
  split_and!; [done|apply Hp'|]. pose proof (parsed_bounds _ _ _ _ Hp) as (_ & _ & Ho & Hl & He).
  destruct (corrupt_cases mem base length view selector Hp) as [Hn|(b & m & offset & Hc' & Hoff & _ & Hset)].
  - rewrite Hn in Hc. by simplify_eq.
  - rewrite Hc' in Hc. simplify_eq. intros i Hi. eapply aget_aset_ne; [done|lia].
Qed.

Lemma swap_frame_changed mem base length view mem' swapped :
  parsed mem base length view ->
  swap_ethernet_macs mem (Some base) length = Some (swapped, mem') ->
  frame_changed base length mem mem'.
Proof.
  intros Hp Hs. destruct (swap_keeps_parse _ _ _ _ _ _ Hp Hs) as [Hp' Hz].
  split_and!; [done|apply Hp'|]. pose proof (parsed_bounds _ _ _ _ Hp) as (_ & _ & Ho & Hl & He).
  destruct (swap_ethernet_macs_spec mem base length) as (m & Hs' & _ & Hi);
    [apply Hp|unfold kEthernetHeaderBytes; lia|apply Hp|].
  rewrite Hs' in Hs. simplify_eq. intros i Hout. replace i with (base + (i - base)) by lia.
  rewrite Hi. unfold swapped_index. by rewrite !decide_False by lia.
Qed.

Lemma frame_changed_trans base length m1 m2 m3 :
  frame_changed base length m1 m2 -> frame_changed base length m2 m3 -> frame_changed base length m1 m3.
Proof. intros (H1 & _ & H2) (H3 & H4 & H5). split_and!; [congruence|done|]. intros i Hi. by rewrite H5, H2. Qed.

(** Corrupting and swapping an accepted frame succeeds, inside of the frame. *)
(** The bytes of a forwarded frame: the MAC addresses change places, and a corrupting
    decision flips the lowest bit of the payload byte its hash picks. *)
Definition forwarded_byte (view : PacketView) (decision : ChaosDecision) (mem : Memory) (base i : Z) : option Byte :=
  let j := swapped_index i in
  b ← mem.[base + j];
  Some (if should_corrupt decision && negb (pv_payload_length view =? 0) && (j =? corrupted_offset view (cd_hash decision))
        then Z.lxor b 1 else b).

Lemma corrupt_bytes mem base length view decision :
  parsed mem base length view ->
  exists corrupted mem1,
    (if should_corrupt decision then corrupt_packet_payload mem (Some base) view (cd_hash decision)
     else Some (false, mem)) = Some (corrupted, mem1) /\
    forall j, mem1.[base + j] = b ← mem.[base + j];
      Some (if should_corrupt decision && negb (pv_payload_length view =? 0) && (j =? corrupted_offset view (cd_hash decision))
            then Z.lxor b 1 else b).
Proof.
  intros Hp. destruct (should_corrupt decision); cbn [andb]; [|exists false, mem; split; [done|intros j; by destruct (mem.[base + j])]].
  pose proof (parsed_bounds _ _ _ _ Hp) as (_ & _ & _ & Hl & _). destruct (Z.eqb_spec (pv_payload_length view) 0) as [H0|H0]; cbn [negb andb].
  - exists false, mem. rewrite (corrupt_no_payload _ _ _ _ H0). split; [done|]. intros j. by destruct (mem.[base + j]).
  - destruct (corrupt_packet_payload_spec mem base length view (cd_hash decision) Hp) as (b & m & Hb & Hc & Hset); [lia|].
    exists true, m. split; [done|]. intros j. destruct (Z.eqb_spec j (corrupted_offset view (cd_hash decision))) as [->|Hne].
    + rewrite (aget_aset_eq _ _ _ _ Hset), Hb. done.
    + rewrite (aget_aset_ne _ _ _ (base + j) _ Hset) by lia. by destruct (mem.[base + j]).
Qed.

Lemma forward_memory mem base length view decision :
  parsed mem base length view ->
  exists corrupted mem1 swapped mem2,
    (if should_corrupt decision then corrupt_packet_payload mem (Some base) view (cd_hash decision)
     else Some (false, mem)) = Some (corrupted, mem1) /\
    swap_ethernet_macs mem1 (Some base) length = Some (swapped, mem2) /\
    frame_changed base length mem mem2 /\ forall i, mem2.[base + i] = forwarded_byte view decision mem base i.
Proof.
  intros Hp. assert (exists corrupted mem1, (if should_corrupt decision
      then corrupt_packet_payload mem (Some base) view (cd_hash decision) else Some (false, mem))
      = Some (corrupted, mem1) /\ parsed mem1 base length view /\ frame_changed base length mem mem1)
    as (c & m1 & Hc & Hp1 & Hf1).
  { destruct (should_corrupt decision).
    - destruct (corrupt_cases mem base length view (cd_hash decision) Hp) as [Hc|(b & m & o & Hc & _)];
        eexists _, _; (split; [done|]);
        (split; [by eapply corrupt_keeps_parse|by eapply corrupt_frame_changed]).
    - exists false, mem. split_and!; [done|done|by apply frame_changed_refl, Hp]. }
  pose proof (parsed_bounds _ _ _ _ Hp) as (_ & _ & Ho & Hl & He).
  destruct (swap_ethernet_macs_spec m1 base length) as (m2 & Hs & _ & Hi);
    [apply Hp1|unfold kEthernetHeaderBytes; lia|apply Hp1|].
  exists c, m1, true, m2. split_and!; [done|done| |].
  - eapply frame_changed_trans; [done|]. by eapply swap_frame_changed.
  - destruct (corrupt_bytes _ _ _ _ decision Hp) as (c' & m1' & Hc' & Hb). rewrite Hc in Hc'. apply (inj Some), pair_equal_spec in Hc' as [_ <-].
    intros i. rewrite Hi. apply Hb.
Qed.

Lemma forward_frame_inv seen entries st base length view decision pf :
  batch_inv seen entries st -> zlen entries < 2 ^ 62 -> parsed (ba_mem st) base length view ->
  let k := if 0 <? tx_size - zlen (with_fate Transmitted entries) then Transmitted
           else recycled_fate (recycle_size - zlen (with_fate Recycled entries)) in
  exists st', forward_frame st (Some base) length view decision pf = Some st' /\
    batch_inv seen (entries ++ [(pf, k)]) st' /\ ba_wheel st' = ba_wheel st /\
    frame_changed base length (ba_mem st) (ba_mem st') /\
    forall i, (ba_mem st').[base + i] = forwarded_byte view decision (ba_mem st) base i.
Proof.
  intros Hinv Hlen Hp.
  destruct (forward_memory _ _ _ _ decision Hp) as (c & m1 & sw & m2 & Hc & Hs & Hf & Hb).
  unfold forward_frame. rewrite Hc. cbn [mbind option_bind]. rewrite bool_decide_false by done. cbn [negb].
  rewrite Hs. cbn [mbind option_bind]. pose proof (filled_zlen _ _ _ (bi_tx _ _ _ Hinv)) as Hcount.
  pose proof (bi_tx_size _ _ _ Hinv).
  set (result := if c then _ else _).
  assert (br_tx_count result = br_tx_count (ba_result st)) as Htc by (by destruct c).
  destruct (Z.ltb_spec (br_tx_count result) (zlen (ba_tx_output st))) as [Hroom|Hfull];
    (destruct (Z.ltb_spec 0 (tx_size - zlen (with_fate Transmitted entries))); [try lia|try lia]).
  - destruct (transmit_inv seen entries st pf m2 c Hinv Hlen ltac:(lia)) as (output & Hset & Hinv').
    fold result in Hset, Hinv'. rewrite Hset. cbn [mbind option_bind]. by eexists.
  - edestruct (recycle_frame_inv seen entries
      (mkBatchState m2 (ba_wheel st) (ba_tx_output st) (ba_recycle_output st) result) pf
      (fun s => bs_inc_packets_dropped (bs_inc_output_overflows s))) as (st' & Hr & Hinv' & Hm & Hw).
    + apply (batch_inv_change seen); [done|apply Hinv|done|by destruct c|].
      destruct (bi_stats _ _ _ Hinv). by destruct c.
    + drop_bump_tac.
    + done.
    + exists st'. rewrite Hm, Hw. split_and!; done.
Qed.

Context (umem_base : Ptr) (umem_size : Z) (rules : list ChaosRule) (tick_ns : Z).
Hypothesis size_fits : fits 64 umem_size.
Hypothesis rules_ok : Forall (fun r => 0 <= cr_delay_ns r) rules.
Hypothesis tick_ok : 0 <= tick_ns.

(** The UMEM lies in the memory. *)
Definition umem_ok (mem : Memory) : Prop :=
  mem_ok mem /\ forall base, umem_base = Some base -> 0 <= base /\ base + umem_size <= zlen mem.

(** The byte [i] belongs to the descriptor's frame, which lies in the UMEM. *)
Definition in_frame (d : PacketDescriptor) (i : Z) : Prop :=
  exists base, umem_base = Some base /\ pd_frame_address d + pd_frame_length d <= umem_size /\
    base + pd_frame_address d <= i < base + pd_frame_address d + pd_frame_length d.

Definition mem_step (d : PacketDescriptor) (mem mem' : Memory) : Prop :=
  zlen mem' = zlen mem /\ mem_ok mem' /\ forall i, ~ in_frame d i -> mem'.[i] = mem.[i].

(** The frame of [d] as the parser sees it, if it lies in the UMEM and is accepted. *)
Definition received_view (mem : Memory) (d : PacketDescriptor) : option PacketView :=
  base ← umem_base;
  if bool_decide (pd_frame_address d + pd_frame_length d <= umem_size) then
    view ← parse_packet mem (Some (base + pd_frame_address d)) (pd_frame_length d);
    if pv_ok view then Some view else None
  else None.

(** The decision on a descriptor in memory: none for a descriptor outside of the
    UMEM and for a frame the parser rejects. *)
Definition received_decision (mem : Memory) (d : PacketDescriptor) : option ChaosDecision :=
  view ← received_view mem d; Some (decide_packet_fast view rules).

(** The byte [i] of the frame of [d] after the batch: that of the frame as received, unless
    the frame is to be forwarded. *)
Definition frame_byte_after (mem : Memory) (d : PacketDescriptor) (base i : Z) : option Byte :=
  match received_view mem d with
  | Some view =>
      let decision := decide_packet_fast view rules in
      if should_drop decision || should_delay decision then mem.[base + i] else forwarded_byte view decision mem base i
  | None => mem.[base + i]
  end.

Lemma delay_ns_to_ticks_nonneg delay : 0 <= delay -> 0 <= delay_ns_to_ticks delay tick_ns.
Proof.
  intros Hd. unfold delay_ns_to_ticks. repeat zcase; try lia. apply Z.div_pos; [|lia]. by apply wrap_fits.
Qed.

Lemma decision_delay_nonneg view : 0 <= cd_delay_ns (decide_packet_fast view rules).
Proof.
  destruct (first_match view rules) as [H|(before & rule & after & E & Hb & Hm)].
  { by rewrite decide_packet_fast_none. }
  rewrite E in *. rewrite decide_packet_fast_app by done. simpl. rewrite Hm.
  apply Forall_app in rules_ok as [_ [Hr _]%Forall_cons].
  unfold decide_for_rule_fast. repeat case_match; simpl; repeat case_match; done || lia.
Qed.

Lemma stats_inv_seen seen entries s n :
  stats_inv seen entries s -> 0 <= seen < 2 ^ 62 ->
  stats_inv (seen + 1) entries (bs_add_bytes_seen (bs_inc_packets_seen s) n).
Proof.
  intros [Hs Htx Hrc Hd Hp Ho] Hlen. split; simpl; try done. rewrite Hs. apply wrap_small. unfold fits. lia.
Qed.

(** The frame of an accepted descriptor. *)
Lemma parsed_intro mem base d view :
  umem_ok mem -> descriptor_ok d -> umem_base = Some base -> pd_frame_address d + pd_frame_length d <= umem_size ->
  parse_packet mem (Some (base + pd_frame_address d)) (pd_frame_length d) = Some view -> pv_ok view = true ->
  parsed mem (base + pd_frame_address d) (pd_frame_length d) view.
Proof.
  intros [Hm Hb] [Ha Hl] E Hs Hv Hok. destruct (Hb base E) as [? ?]. unfold fits in *.
  constructor; unfold fits; done || lia.
Qed.

Lemma parse_packet_total mem base d :
  umem_ok mem -> descriptor_ok d -> umem_base = Some base -> pd_frame_address d + pd_frame_length d <= umem_size ->
  exists view, parse_packet mem (Some (base + pd_frame_address d)) (pd_frame_length d) = Some view.
Proof.
  intros [Hm Hb] [Ha Hl] E Hs. destruct (Hb base E) as [? ?]. unfold fits in *.
  destruct (parse_packet_spec mem (base + pd_frame_address d) (pd_frame_length d)) as (v & Hv & _);
    [done|lia..|]. by exists v.
Qed.

(** [++packets_seen; bytes_seen += frame_length]. *)
Definition seen_state (st : BatchState (W := W)) (d : PacketDescriptor) : BatchState :=
  mkBatchState (ba_mem st) (ba_wheel st) (ba_tx_output st) (ba_recycle_output st)
    (br_set_stats (ba_result st) (fun s => bs_add_bytes_seen (bs_inc_packets_seen s) (pd_frame_length d))).

Lemma seen_state_inv seen entries st d :
  batch_inv seen entries st -> 0 <= seen < 2 ^ 62 -> batch_inv (seen + 1) entries (seen_state st d).
Proof.
  intros Hinv Hs. apply (batch_inv_change seen); [done|apply Hinv|done|done|].
  by apply stats_inv_seen; [apply Hinv|].
Qed.

Lemma mem_step_refl d mem : mem_ok mem -> mem_step d mem mem.
Proof. by split. Qed.

Lemma mem_step_frame d base mem mem' :
  umem_base = Some base -> pd_frame_address d + pd_frame_length d <= umem_size ->
  frame_changed (base + pd_frame_address d) (pd_frame_length d) mem mem' -> mem_step d mem mem'.
Proof.
  intros E Hs (Hz & Hm & Hi). split_and!; [done|done|]. intros i Hout. apply Hi. intros Hin. apply Hout.
  by exists base.
Qed.

(** What one iteration establishes. *)
Definition descriptor_done (seen : Z) (entries : list (ProcessedFrame * Fate)) (st : BatchState (W := W))
    (d : PacketDescriptor) (run : option (BatchState (W := W))) : Prop :=
  let decision := received_decision (ba_mem st) d in
  exists st' k, run = Some st' /\ batch_inv (seen + 1) (entries ++ [(report d decision, k)]) st' /\
    fate_step tick_ns d decision (tx_size - zlen (with_fate Transmitted entries))
      (recycle_size - zlen (with_fate Recycled entries)) (ba_wheel st) = Some (k, ba_wheel st') /\
    mem_step d (ba_mem st) (ba_mem st') /\
    forall base i, umem_base = Some base ->
      (ba_mem st').[base + pd_frame_address d + i] = frame_byte_after (ba_mem st) d (base + pd_frame_address d) i.

Lemma recycle_done seen entries st st1 d pf f :
  batch_inv (seen + 1) entries st1 -> ba_mem st1 = ba_mem st -> mem_ok (ba_mem st) -> zlen entries < 2 ^ 62 ->
  drop_bump f -> pf = report d (received_decision (ba_mem st) d) ->
  fate_step tick_ns d (received_decision (ba_mem st) d) (tx_size - zlen (with_fate Transmitted entries))
    (recycle_size - zlen (with_fate Recycled entries)) (ba_wheel st)
  = Some (recycled_fate (recycle_size - zlen (with_fate Recycled entries)), ba_wheel st1) ->
  (forall base i, frame_byte_after (ba_mem st) d base i = (ba_mem st).[base + i]) ->
  descriptor_done seen entries st d (recycle_frame st1 pf f).
Proof.
  intros Hinv Hm1 Hm Hlen Hf -> Hstep Hbytes.
  destruct (recycle_frame_inv _ _ _ (report d (received_decision (ba_mem st) d)) f Hinv Hf Hlen) as (st' & Hr & Hinv' & Hm' & Hw').
  eexists st', _. rewrite Hm', Hm1, Hw'. split_and!; [done|done|done|by apply mem_step_refl|]. intros base i _. by rewrite Hbytes.
Qed.

(** A frame that is not forwarded keeps its bytes. *)
Lemma frame_byte_after_none mem d base i : received_decision mem d = None -> frame_byte_after mem d base i = mem.[base + i].
Proof. unfold received_decision, frame_byte_after. by destruct (received_view mem d). Qed.

Lemma frame_byte_after_kept mem d decision base i :
  received_decision mem d = Some decision -> should_drop decision || should_delay decision = true ->
  frame_byte_after mem d base i = mem.[base + i].
Proof.
  unfold received_decision, frame_byte_after. destruct (received_view mem d) as [view|]; [|done]. cbn. by intros [= <-] ->.
Qed.

Lemma delay_done seen entries st d decision :
  umem_ok (ba_mem st) -> batch_inv (seen + 1) entries (seen_state st d) -> zlen entries < 2 ^ 62 ->
  received_decision (ba_mem st) d = Some decision -> should_drop decision = false -> should_delay decision = true ->
  0 <= cd_delay_ns decision ->
  let processed := mkProcessedFrame (pd_frame_address d) (pd_frame_length d) (cd_rule_id decision) (cd_action decision) in
  let delayed := mkDelayedFrame (pd_frame_address d) (pd_frame_length d) (cd_rule_id decision) 0 in
  descriptor_done seen entries st d
   ('(status, wheel) ← dq_schedule (ba_wheel st) delayed (delay_ns_to_ticks (cd_delay_ns decision) tick_ns);
    let st := mkBatchState (ba_mem st) wheel (ba_tx_output st) (ba_recycle_output st) (ba_result (seen_state st d)) in
    if status =?? ScheduleStatus_Scheduled then
      Some (mkBatchState (ba_mem st) (ba_wheel st) (ba_tx_output st) (ba_recycle_output st)
        (br_set_stats (ba_result st) bs_inc_packets_delayed))
    else recycle_frame st processed (fun s => bs_inc_packets_dropped (bs_inc_schedule_failures s))).
Proof.
  intros Hu Hinv Hlen Hdec Hdrop Hdl Hdelay processed delayed.
  destruct (dq_schedule_law (ba_wheel st) _ delayed (delay_ns_to_ticks (cd_delay_ns decision) tick_ns)
    (bi_wheel _ _ _ Hinv) ltac:(by apply delay_ns_to_ticks_nonneg)) as (status & wheel & Hs & Hw).
  assert (forall base i, frame_byte_after (ba_mem st) d base i = (ba_mem st).[base + i]) as Hbytes.
  { intros base i. apply (frame_byte_after_kept _ _ decision); [done|]. by rewrite Hdl, orb_true_r. }
  assert (fate_step tick_ns d (Some decision) (tx_size - zlen (with_fate Transmitted entries))
    (recycle_size - zlen (with_fate Recycled entries)) (ba_wheel st)
    = Some (if status =?? ScheduleStatus_Scheduled then Delayed else recycled_fate (recycle_size - zlen (with_fate Recycled entries)), wheel))
    as Hstep by (cbn; rewrite Hdrop, Hdl; fold delayed; by rewrite Hs).
  rewrite Hs. cbn [mbind option_bind]. cbv zeta. case_bool_decide as Hst.
  - eexists _, Delayed. rewrite Hdec. split_and!; [done| |done|by apply mem_step_refl, Hu|intros base i _; by rewrite Hbytes].
    by apply (delay_inv _ _ (seen_state st d) wheel delayed processed).
  - eapply recycle_done; [|done|apply Hu|done|drop_bump_tac|by rewrite Hdec|by rewrite Hdec|done].
    by apply (batch_inv_change (seen + 1) entries (seen_state st d)); [..|apply Hinv].
Qed.

Lemma forward_done seen entries st d base view :
  umem_ok (ba_mem st) -> descriptor_ok d -> batch_inv (seen + 1) entries (seen_state st d) -> zlen entries < 2 ^ 62 ->
  umem_base = Some base -> pd_frame_address d + pd_frame_length d <= umem_size ->
  parse_packet (ba_mem st) (Some (base + pd_frame_address d)) (pd_frame_length d) = Some view -> pv_ok view = true ->
  let decision := decide_packet_fast view rules in
  should_drop decision = false -> should_delay decision = false ->
  received_view (ba_mem st) d = Some view ->
  descriptor_done seen entries st d
    (forward_frame (seen_state st d) (Some (base + pd_frame_address d)) (pd_frame_length d) view decision
       (mkProcessedFrame (pd_frame_address d) (pd_frame_length d) (cd_rule_id decision) (cd_action decision))).
Proof.
  intros Hu Hd Hinv Hlen E Hs Hv Hok decision Hdrop Hdelay Hview.
  pose proof (parsed_intro _ _ _ _ Hu Hd E Hs Hv Hok) as Hp.
  assert (received_decision (ba_mem st) d = Some decision) as Hdec by (unfold received_decision; by rewrite Hview).
  destruct (forward_frame_inv _ _ (seen_state st d) _ _ _ decision (report d (Some decision)) Hinv Hlen Hp)
    as (st' & Hf & Hinv' & Hw & Hm & Hb).
  eexists st', _. rewrite Hdec, Hw. split_and!; [done|done| |by eapply mem_step_frame|].
  - cbn. by rewrite Hdrop, Hdelay.
  - intros base' i E'. rewrite E in E'. injection E' as <-. unfold frame_byte_after. rewrite Hview. fold decision.
    rewrite Hdrop, Hdelay. apply Hb.
Qed.

(** [descriptor_valid], as a case analysis. *)
Lemma descriptor_valid_cases d :
  descriptor_ok d ->
  let valid := negb (umem_base =?? None) && descriptor_within_umem d umem_size in
  (valid = true /\ exists base, umem_base = Some base /\ pd_frame_address d + pd_frame_length d <= umem_size) \/
  (valid = false /\ forall mem, received_decision mem d = None).
Proof.
  intros Hd valid. pose proof (descriptor_within_umem_iff d umem_size Hd size_fits) as Hin.
  subst valid. unfold received_decision, received_view. destruct umem_base as [base|] eqn:E; [|by right].
  rewrite (bool_decide_false (Some base = None)) by done.
  destruct (descriptor_within_umem d umem_size).
  - left. split; [done|]. exists base. split; [done|]. by apply Hin.
  - right. split; [done|]. intros mem. cbn. rewrite bool_decide_false; [done|]. intros H%Hin. done.
Qed.

Lemma received_view_valid mem d base view :
  umem_base = Some base -> pd_frame_address d + pd_frame_length d <= umem_size ->
  parse_packet mem (Some (base + pd_frame_address d)) (pd_frame_length d) = Some view ->
  received_view mem d = if pv_ok view then Some view else None.
Proof.
  intros E Hs Hv. unfold received_view. rewrite E. cbn [mbind option_bind]. by rewrite bool_decide_true, Hv.
Qed.

Lemma received_view_none mem d : (forall mem, received_decision mem d = None) -> received_view mem d = None.
Proof. intros H. specialize (H mem). unfold received_decision in H. by destruct (received_view mem d). Qed.

Lemma process_descriptor_step seen entries st d :
  umem_ok (ba_mem st) -> descriptor_ok d -> batch_inv seen entries st ->
  0 <= seen < 2 ^ 62 -> zlen entries < 2 ^ 62 ->
  descriptor_done seen entries st d (process_descriptor umem_base umem_size rules tick_ns st d).
Proof.
  intros Hu Hd Hinv Hseen Hlen. pose proof (seen_state_inv _ _ _ d Hinv Hseen) as Hinv1.
  unfold process_descriptor. fold (seen_state st d). change (ba_mem (seen_state st d)) with (ba_mem st).
  destruct (descriptor_valid_cases d Hd) as [(-> & base & E & Hs)|[-> Hdec]].
  - rewrite E. cbn [mbind option_bind].
    destruct (parse_packet_total _ _ _ Hu Hd E Hs) as [view Hv]. rewrite Hv. cbn [mbind option_bind negb orb].
    pose proof (received_view_valid _ _ _ _ E Hs Hv) as Hview.
    destruct (pv_ok view) eqn:Hok; cbn [negb].
    + assert (received_decision (ba_mem st) d = Some (decide_packet_fast view rules)) as Hdec by (unfold received_decision; by rewrite Hview).
      destruct (should_drop (decide_packet_fast view rules)) eqn:Hdrop.
      { eapply recycle_done; [done|done|apply Hu|done|drop_bump_tac|by rewrite Hdec|rewrite Hdec; cbn; by rewrite Hdrop|].
        intros b i. apply (frame_byte_after_kept _ _ (decide_packet_fast view rules)); [done|by rewrite Hdrop]. }
      destruct (should_delay (decide_packet_fast view rules)) eqn:Hdl.
      { apply (delay_done seen entries st d (decide_packet_fast view rules) Hu Hinv1 Hlen Hdec Hdrop Hdl).
        apply decision_delay_nonneg. }
      by apply forward_done.
    + assert (received_decision (ba_mem st) d = None) as Hdec by (unfold received_decision; by rewrite Hview).
      eapply recycle_done; [done|done|apply Hu|done|drop_bump_tac|by rewrite Hdec|by rewrite Hdec|].
      intros b i. by apply frame_byte_after_none.
  - destruct (parse_packet (ba_mem st) None (pd_frame_length d)) as [view|] eqn:Hv; [|done].
    assert (pv_ok view = false) as Hok by (revert Hv; unfold parse_packet; simpl; case_match; by intros [= <-]).
    cbn [mbind option_bind negb orb]. rewrite Hok.
    eapply recycle_done; [done|done|apply Hu|done|drop_bump_tac|by rewrite Hdec|by rewrite Hdec|].
    intros b i. by apply frame_byte_after_none.
Qed.

(** What the parser sees depends on the frame's bytes only. *)
Lemma received_view_ext mem mem' d :
  umem_ok mem -> umem_ok mem' -> descriptor_ok d ->
  (forall i, in_frame d i -> mem'.[i] = mem.[i]) ->
  received_view mem' d = received_view mem d.
Proof.
  intros Hu Hu' Hd Hi. destruct (descriptor_valid_cases d Hd) as [(_ & base & E & Hs)|[_ Hdec]]; [|by rewrite !received_view_none].
  destruct Hd as [Ha Hl]. destruct Hu as [Hm Hb], Hu' as [Hm' Hb'].
  destruct (Hb base E) as [? ?], (Hb' base E) as [_ ?]. unfold fits in *.
  set (fb := base + pd_frame_address d).
  destruct (parse_packet_spec mem fb (pd_frame_length d)) as (v & Hv & Hok & Hview); [done|lia..|].
  destruct (parse_packet_spec mem' fb (pd_frame_length d)) as (v' & Hv' & Hok' & Hview'); [done|lia..|].
  rewrite (received_view_valid _ _ _ _ E Hs Hv), (received_view_valid _ _ _ _ E Hs Hv').
  assert (forall i, 0 <= i < pd_frame_length d -> byte_at mem' fb i = byte_at mem fb i) as Hbytes.
  { intros i Hr. apply byte_at_ext, Hi. exists base. split_and!; [done|done|lia..]. }
  assert (forall m1 m2, (forall i, 0 <= i < pd_frame_length d -> byte_at m2 fb i = byte_at m1 fb i) ->
    well_formed_frame m1 fb (pd_frame_length d) ->
    well_formed_frame m2 fb (pd_frame_length d) /\
    frame_view m2 fb (pd_frame_length d) = frame_view m1 fb (pd_frame_length d)) as Hagree.
  { intros m1 m2 Hsame Hwf. apply header_agree; [done|]. intros i Hr.
    pose proof (frame_view_bounds _ _ _ Hwf) as (_ & _ & ? & ?). apply Hsame. lia. }
  destruct (pv_ok v) eqn:Hv1.
  - destruct (Hagree mem mem' Hbytes) as [Hwf Heq]; [by apply Hok|].
    rewrite (proj2 Hok' Hwf), (Hview eq_refl), <-Heq, (Hview' (proj2 Hok' Hwf)). done.
  - destruct (pv_ok v') eqn:Hv1'; [|done].
    destruct (Hagree mem' mem) as [Hwf _]; [by intros i ?; rewrite Hbytes|by apply Hok'|].
    apply Hok in Hwf. done.
Qed.

Lemma received_decision_ext mem mem' d :
  umem_ok mem -> umem_ok mem' -> descriptor_ok d ->
  (forall i, in_frame d i -> mem'.[i] = mem.[i]) ->
  received_decision mem' d = received_decision mem d.
Proof. intros. unfold received_decision. by rewrite (received_view_ext mem mem'). Qed.

(** What becomes of a byte of the frame depends on the frame's bytes only. *)
Lemma frame_byte_after_ext mem mem' d base i :
  umem_ok mem -> umem_ok mem' -> descriptor_ok d ->
  (forall i, in_frame d i -> mem'.[i] = mem.[i]) ->
  umem_base = Some base -> in_frame d (base + pd_frame_address d + i) ->
  frame_byte_after mem' d (base + pd_frame_address d) i = frame_byte_after mem d (base + pd_frame_address d) i.
Proof.
  intros Hu Hu' Hd Hsame E Hin. unfold frame_byte_after. rewrite (received_view_ext mem mem') by done.
  destruct (received_view mem d) as [view|] eqn:Hview; [|by apply Hsame].
  case_match; [by apply Hsame|]. unfold forwarded_byte. rewrite Hsame; [done|].
  destruct Hin as (base' & E' & Hs & Hr). rewrite E in E'. injection E' as <-.
  assert (kEthernetHeaderBytes <= pd_frame_length d) as Hlen.
  { destruct (parse_packet_total _ _ _ Hu Hd E Hs) as [v Hv]. rewrite (received_view_valid _ _ _ _ E Hs Hv) in Hview.
    destruct (pv_ok v) eqn:Hok; [|done]. pose proof (parsed_bounds _ _ _ _ (parsed_intro _ _ _ _ Hu Hd E Hs Hv Hok)).
    unfold kEthernetHeaderBytes. lia. }
  exists base. unfold kEthernetHeaderBytes in Hlen. unfold swapped_index. split_and!; [done|done|repeat case_decide; lia..].
Qed.

Definition frames_disjoint (d d' : PacketDescriptor) : Prop :=
  forall i, in_frame d i -> in_frame d' i -> False.

(** An entry is the descriptor's frame, with a fate that its action allows. *)
Definition entry_ok (d : PacketDescriptor) (e : ProcessedFrame * Fate) : Prop :=
  pf_frame_address e.1 = pd_frame_address d /\ pf_frame_length e.1 = pd_frame_length d /\
  match e.2 with
  | Transmitted => pf_action e.1 <> PacketAction_Drop /\ pf_action e.1 <> PacketAction_Delay
  | Delayed => pf_action e.1 = PacketAction_Delay
  | _ => True
  end.

Lemma fate_step_entry d decision tx_room recycle_room (wheel wheel' : W) k :
  fate_step tick_ns d decision tx_room recycle_room wheel = Some (k, wheel') -> entry_ok d (report d decision, k).
Proof.
  intros Hk. split_and!; [done|done|]. revert Hk. cbn [fst snd]. unfold fate_step, recycled_fate, should_drop, should_delay.
  assert (forall (a : Fate) (w : W), Some (a, w) = Some (k, wheel') -> a = k) as Hinj by (intros a w [=]; done).
  destruct decision as [decision|]; [|intros <-%Hinj; by case_match].
  cbn [report default pf_action]. repeat case_bool_decide; [intros <-%Hinj; by case_match| |intros <-%Hinj; by repeat case_match].
  intros ([status w] & _ & <-%Hinj)%bind_Some. by repeat case_match.
Qed.

(** The room left after one more frame. *)
Lemma room_after size fate (entries : list (ProcessedFrame * Fate)) pf k :
  size - zlen (with_fate fate (entries ++ [(pf, k)]))
  = if decide (k = fate) then size - zlen (with_fate fate entries) - 1 else size - zlen (with_fate fate entries).
Proof. case_decide; [subst; rewrite with_fate_eq; autorewrite with zlen; lia|by rewrite with_fate_ne]. Qed.

Lemma umem_ok_step d mem mem' : umem_ok mem -> mem_step d mem mem' -> umem_ok mem'.
Proof. intros [Hm Hb] (Hz & Hm' & _). split; [done|]. by rewrite Hz. Qed.

Lemma process_descriptors_inv ds seen entries st :
  umem_ok (ba_mem st) -> Forall descriptor_ok ds -> batch_inv seen entries st ->
  0 <= seen -> seen + zlen ds < 2 ^ 62 -> zlen entries <= seen ->
  exists st' es, process_descriptors umem_base umem_size rules tick_ns st ds = Some st' /\
    batch_inv (seen + zlen ds) (entries ++ es) st' /\ Forall2 entry_ok ds es /\
    zlen (ba_mem st') = zlen (ba_mem st) /\ mem_ok (ba_mem st') /\
    (forall i, (forall d, d ∈ ds -> ~ in_frame d i) -> (ba_mem st').[i] = (ba_mem st).[i]) /\
    (ForallOrdPairs frames_disjoint ds ->
     forall mem0, umem_ok mem0 -> (forall d i, d ∈ ds -> in_frame d i -> (ba_mem st).[i] = mem0.[i]) ->
     batch_fates tick_ns ((fun d => (d, received_decision mem0 d)) <$> ds)
       (tx_size - zlen (with_fate Transmitted entries)) (recycle_size - zlen (with_fate Recycled entries)) (ba_wheel st)
     = Some (es, ba_wheel st') /\
     forall d base i, d ∈ ds -> umem_base = Some base -> in_frame d (base + pd_frame_address d + i) ->
       (ba_mem st').[base + pd_frame_address d + i] = frame_byte_after mem0 d (base + pd_frame_address d) i).
Proof.
  revert seen entries st. induction ds as [|d ds IH]; intros seen entries st Hu Hok Hinv Hs Hbig Hes; cbn [process_descriptors].
  { exists st, []. rewrite app_nil_r, zlen_nil, Z.add_0_r. split_and!; [done|done|constructor|done|apply Hu|done|].
    intros _ mem0 _ _. split; [done|]. by intros d base i Hd%not_elem_of_nil. }
  rewrite zlen_cons in *. pose proof (zlen_nonneg ds). apply Forall_cons in Hok as [Hd Hds].
  destruct (process_descriptor_step seen entries st d Hu Hd Hinv) as (st1 & k & -> & Hinv1 & Hfate & Hstep & Hbytes); [lia|lia|].
  set (pf := report d (received_decision (ba_mem st) d)) in *.
  cbn [mbind option_bind]. pose proof (umem_ok_step _ _ _ Hu Hstep) as Hu1. destruct Hstep as (Hz & Hm & Hi).
  destruct (IH (seen + 1) (entries ++ [(pf, k)]) st1 Hu1 Hds Hinv1) as (st2 & es & Hrun & Hinv2 & H2 & Hz2 & Hm2 & Hi2 & Hdis);
    [lia|lia|autorewrite with zlen; lia|].
  exists st2, ((pf, k) :: es). rewrite <-app_assoc in Hinv2.
  replace (seen + 1 + zlen ds) with (seen + (1 + zlen ds)) in * by lia. split_and!; try done.
  - constructor; [by eapply fate_step_entry|done].
  - congruence.
  - intros i Hout. rewrite Hi2, Hi; [done|apply Hout; left|]. intros d' Hd'. apply Hout. by right.
  - intros Hpairs mem0 Hu0 Hagree. inversion Hpairs as [|? ? Hhead Htail]; subst.
    assert (forall i, in_frame d i -> (ba_mem st).[i] = mem0.[i]) as Hsame by (intros i; apply Hagree; left).
    assert (forall d' i, d' ∈ ds -> in_frame d' i -> ~ in_frame d i) as Hapart.
    { intros d' i Hd' Hin' Hin. by apply (proj1 (Forall_forall _ _) Hhead d' Hd' i). }
    destruct (Hdis Htail mem0 Hu0) as [Hfates Hframes].
    { intros d' i Hd' Hin. rewrite Hi by (by eapply Hapart). eapply Hagree; [by right|done]. }
    split.
    + rewrite fmap_cons. cbn [batch_fates]. rewrite <-(received_decision_ext mem0 (ba_mem st)), Hfate by done.
      cbn [mbind option_bind]. rewrite <-(room_after tx_size Transmitted entries pf k), <-(room_after recycle_size Recycled entries pf k).
      by rewrite Hfates.
    + intros d' base i [->|Hd']%elem_of_cons E Hin; [|by apply Hframes].
      rewrite Hi2 by (intros d'' Hd'' Hin''; by eapply Hapart). rewrite Hbytes by done. by apply frame_byte_after_ext.
Qed.

End batch.

(** ** The timing wheel is such a queue *)

Fixpoint cal_frames (D : Calendar) (t : Z) (n : nat) : list DelayedFrame :=
  match n with
  | O => []
  | S n => D t ++ cal_frames D (t + 1) n
  end.

Lemma cal_frames_add_out D u f t n :
  ~ t <= u < t + Z.of_nat n -> cal_frames (cal_add D u f) t n = cal_frames D t n.
Proof.
  revert t. induction n as [|n IH]; intros t Hu; simpl; [done|].
  rewrite IH by lia. unfold cal_add at 1. by rewrite decide_False by lia.
Qed.

Lemma cal_frames_add D u f t n :
  t <= u < t + Z.of_nat n -> cal_frames (cal_add D u f) t n ≡ₚ f :: cal_frames D t n.
Proof.
  revert t. induction n as [|n IH]; intros t Hu; simpl; [lia|].
  unfold cal_add at 1. case_decide as E.
  - subst. rewrite cal_frames_add_out by lia. rewrite <-app_assoc. simpl. by rewrite Permutation_middle.
  - rewrite IH by lia. by rewrite Permutation_middle.
Qed.

Section wheel_queue.
Context (SlotCount MaxFramesPerSlot : Z).
Hypothesis SlotCount_fits : fits 64 SlotCount.
Hypothesis SlotCount_pow2 : is_power_of_two SlotCount = true.
Hypothesis MaxFrames_pos : 0 < MaxFramesPerSlot.
Hypothesis wheel_memory : SlotCount * MaxFramesPerSlot < 2 ^ 64.

Definition wheel_holds (w : TimingWheel) (l : list (Z * Z * Z)) : Prop :=
  exists now D, wheel_repr SlotCount MaxFramesPerSlot w now D /\
    l ≡ₚ df_key <$> cal_frames D (now + 1) (Z.to_nat SlotCount).

Lemma wheel_schedule_law w l f d :
  wheel_holds w l -> 0 <= d ->
  exists status w', schedule SlotCount MaxFramesPerSlot w f d = Some (status, w') /\
    wheel_holds w' (if status =?? ScheduleStatus_Scheduled then df_key f :: l else l).
Proof.
  intros (now & D & Hr & Hl) Hd. destruct (decide (SlotCount < d)) as [Hbig|Hsmall].
  { rewrite schedule_too_large by done. eexists _, _. split; [done|]. simpl.
    exists now, D. split; [by apply schedule_failed_repr|done]. }
  pose proof (schedule_in_window SlotCount MaxFramesPerSlot SlotCount_fits SlotCount_pow2 MaxFrames_pos
    wheel_memory w now D f d Hr ltac:(lia)) as Hs. cbv zeta in Hs. case_bool_decide.
  - destruct Hs as (w' & -> & Hr'). eexists _, w'. split; [done|]. simpl.
    eexists _, _. split; [done|]. unfold effective_delay in *.
    pose proof (SlotCount_bounds SlotCount MaxFramesPerSlot SlotCount_fits SlotCount_pow2 wheel_memory).
    rewrite cal_frames_add by (unfold fits in *; lia). simpl. by rewrite Hl.
  - rewrite Hs. eexists _, _. split; [done|]. simpl.
    exists now, D. split; [by apply schedule_failed_repr|done].
Qed.

Definition TimingWheel_delay_queue : DelayQueue TimingWheel := {|
  dq_schedule := schedule SlotCount MaxFramesPerSlot;
  dq_holds := wheel_holds;
  dq_schedule_law := wheel_schedule_law;
|}.

Lemma TimingWheel_default_holds : wheel_holds (TimingWheel_default SlotCount MaxFramesPerSlot) [].
Proof.
  exists 0, cal_empty. split; [by apply TimingWheel_default_repr|].
  generalize (Z.to_nat SlotCount). intros n. generalize (0 + 1). induction n as [|n IH]; intros t; simpl; auto.
Qed.

End wheel_queue.

(** The wheel of the examples: four slots of two frames. *)
Definition small_wheel_queue : DelayQueue TimingWheel :=
  TimingWheel_delay_queue 4 2 ltac:(done) ltac:(done) ltac:(done) ltac:(done).

(** ** Theorems on a batch *)

(** What the caller of [process_packet_batch] provides: sizes and lengths of their
    types, a UMEM inside of the memory, and spans that exist (16 and 24 bytes per
    element in a 64-bit address space). *)
Record batch_args_ok (umem_base : Ptr) (umem_size : Z) (rules : list ChaosRule) (tick_ns : Z)
    (mem : Memory) (ds : list PacketDescriptor) (tx recycle : list ProcessedFrame) : Prop := {
  bao_size : fits 64 umem_size;
  bao_rules : Forall (fun r => 0 <= cr_delay_ns r) rules;
  bao_tick : 0 <= tick_ns;
  bao_umem : umem_ok umem_base umem_size mem;
  bao_descriptors : Forall descriptor_ok ds;
  bao_count : zlen ds < 2 ^ 60;
  bao_tx : zlen tx < 2 ^ 64;
  bao_recycle : zlen recycle < 2 ^ 64;
}.

Lemma fates_total (entries : list (ProcessedFrame * Fate)) :
  zlen entries = zlen (with_fate Transmitted entries) + zlen (with_fate Recycled entries) +
                 zlen (with_fate Delayed entries) + zlen (with_fate Lost entries).
Proof.
  induction entries as [|[pf k] entries IH]; [done|].
  rewrite !with_fate_cons, zlen_cons. destruct k; simpl; rewrite ?zlen_cons; lia.
Qed.

Section batch_theorems.
Context {W : Type} `{!DelayQueue W}.

(** A recycle span with room for the batch loses no frame. *)
Lemma batch_no_loss tx_size recycle_size held seen entries (st : BatchState (W := W)) :
  batch_inv tx_size recycle_size held seen entries st -> zlen entries <= recycle_size ->
  with_fate Lost entries = [].
Proof.
  intros Hinv Hroom. destruct (with_fate Lost entries) as [|pf l] eqn:E; [done|].
  assert (pf ∈ with_fate Lost entries) as Hin by (rewrite E; left).
  apply list_elem_of_fmap in Hin as ([pf' k] & _ & [Hk Hin]%list_elem_of_filter). cbn in Hk. subst k.
  apply list_elem_of_split in Hin as (before & after & ->).
  pose proof (bi_lost _ _ _ _ _ _ Hinv before pf' after eq_refl). pose proof (with_fate_le Recycled before).
  rewrite zlen_app, zlen_cons in Hroom. pose proof (zlen_nonneg after). lia.
Qed.

Lemma batch_run mem umem_base umem_size ds rules (wheel : W) tx recycle tick_ns held :
  batch_args_ok umem_base umem_size rules tick_ns mem ds tx recycle -> dq_holds wheel held ->
  exists st entries,
    process_packet_batch mem umem_base umem_size ds rules wheel tx recycle tick_ns = Some st /\
    batch_inv (zlen tx) (zlen recycle) held (zlen ds) entries st /\ Forall2 entry_ok ds entries /\
    zlen (ba_mem st) = zlen mem /\ mem_ok (ba_mem st) /\
    (forall i, (forall d, d ∈ ds -> ~ in_frame umem_base umem_size d i) -> (ba_mem st).[i] = mem.[i]) /\
    (ForallOrdPairs (frames_disjoint umem_base umem_size) ds ->
     batch_fates tick_ns ((fun d => (d, received_decision umem_base umem_size rules mem d)) <$> ds) (zlen tx) (zlen recycle) wheel
     = Some (entries, ba_wheel st) /\
     forall d base i, d ∈ ds -> umem_base = Some base -> in_frame umem_base umem_size d (base + pd_frame_address d + i) ->
       (ba_mem st).[base + pd_frame_address d + i]
       = frame_byte_after umem_base umem_size rules mem d (base + pd_frame_address d) i).
Proof.
  intros [] Hw.
  destruct (process_descriptors_inv (zlen tx) (zlen recycle) held bao_tx0 bao_recycle0 umem_base umem_size rules
    tick_ns bao_size0 bao_rules0 bao_tick0 ds 0 []
    (mkBatchState mem wheel tx recycle (mkDataPlaneBatchResult DataPlaneBatchStats_default 0 0)))
    as (st & es & Hrun & Hinv & H2 & Hz & Hm & Hi & Hdis); try done; [|lia|].
  { pose proof (zlen_nonneg tx). pose proof (zlen_nonneg recycle). repeat split; try done. by intros [|? ?] ? ?. }
  exists st, es. split_and!; try done. intros Hd. destruct (Hdis Hd mem bao_umem0) as [Hf Hb]; [done|].
  rewrite !Z.sub_0_r in Hf. done.
Qed.

(** C2: a batch partitions its frames.  The call runs without undefined behaviour
    and gives every received descriptor exactly one fate, in order: the transmit span
    holds exactly the transmitted frames, the recycle span the recycled ones, the
    delay queue what it held and the delayed ones, and the counters add up
    ([seen = tx + delayed + dropped], none wraps).  A frame is lost only when the frames
    recycled before it have filled the recycle span, which [output_overflows] reports, so
    none is when that span has room for the batch. *)
Theorem process_packet_batch_partition mem umem_base umem_size ds rules (wheel : W) tx recycle tick_ns held :
  batch_args_ok umem_base umem_size rules tick_ns mem ds tx recycle -> dq_holds wheel held ->
  exists st entries,
    process_packet_batch mem umem_base umem_size ds rules wheel tx recycle tick_ns = Some st /\
    Forall2 entry_ok ds entries /\
    take (Z.to_nat (br_tx_count (ba_result st))) (ba_tx_output st) = with_fate Transmitted entries /\
    take (Z.to_nat (br_recycle_count (ba_result st))) (ba_recycle_output st) = with_fate Recycled entries /\
    dq_holds (ba_wheel st) (reverse (pf_key <$> with_fate Delayed entries) ++ held) /\
    (let s := br_stats (ba_result st) in
     bs_packets_seen s = zlen ds /\
     bs_packets_seen s = bs_tx_frames s + bs_packets_delayed s + bs_packets_dropped s /\
     bs_tx_frames s = br_tx_count (ba_result st) /\ bs_recycle_frames s = br_recycle_count (ba_result st) /\
     bs_packets_delayed s = zlen (with_fate Delayed entries) /\
     bs_packets_dropped s = bs_recycle_frames s + zlen (with_fate Lost entries) /\
     (bs_output_overflows s = 0 -> with_fate Lost entries = [])) /\
    (forall before pf after, entries = before ++ (pf, Lost) :: after -> zlen (with_fate Recycled before) = zlen recycle) /\
    (zlen ds <= zlen recycle -> with_fate Lost entries = []).
Proof.
  intros Hargs Hw. destruct (batch_run _ _ _ _ _ wheel _ _ _ _ Hargs Hw) as (st & es & Hrun & Hinv & H2 & _).
  exists st, es. pose proof Hinv as [Hts Ht Hrs Hr Hl Hwh [Hs Htx Hrc Hd Hp Ho]].
  pose proof (fates_total es) as Htot. pose proof (filled_zlen _ _ _ Ht). pose proof (filled_zlen _ _ _ Hr).
  assert (zlen es = zlen ds) by (unfold zlen; by rewrite (Forall2_length _ _ _ H2)).
  pose proof (zlen_nonneg (with_fate Transmitted es)). pose proof (zlen_nonneg (with_fate Delayed es)).
  split_and!; try done; try apply Ht; try apply Hr.
  - intros s. split_and!; try (subst s; lia). intros Hno. apply length_zero_iff_nil. unfold zlen in *. subst s. lia.
  - intros Hroom. eapply batch_no_loss; [exact Hinv|lia].
Qed.


(** C14: a batch writes inside of its frames only.  Whatever the descriptors, also
    those that point outside of the UMEM (they are refused by arithmetic that does not
    wrap), no byte outside of the frames that lie in the UMEM changes, and with a null
    base nothing changes at all. *)
Theorem process_packet_batch_memory mem umem_base umem_size ds rules (wheel : W) tx recycle tick_ns held :
  batch_args_ok umem_base umem_size rules tick_ns mem ds tx recycle -> dq_holds wheel held ->
  exists st,
    process_packet_batch mem umem_base umem_size ds rules wheel tx recycle tick_ns = Some st /\
    zlen (ba_mem st) = zlen mem /\ mem_ok (ba_mem st) /\
    (forall i, (forall d, d ∈ ds -> ~ in_frame umem_base umem_size d i) -> (ba_mem st).[i] = mem.[i]) /\
    (forall base i, umem_base = Some base -> ~ base <= i < base + umem_size -> (ba_mem st).[i] = mem.[i]) /\
    (umem_base = None -> ba_mem st = mem).
Proof.
  intros Hargs Hw.
  destruct (batch_run _ _ _ _ _ wheel _ _ _ _ Hargs Hw) as (st & es & Hrun & _ & _ & Hz & Hm & Hi & _).
  exists st. split_and!; [done..| |].
  - intros base i E Hout. apply Hi. intros d Hd (base' & E' & Hs & Hr).
    pose proof (proj1 (Forall_forall _ _) (bao_descriptors _ _ _ _ _ _ _ _ Hargs) d Hd) as [? ?].
    unfold fits in *. simplify_eq. lia.
  - intros E. apply aget_ext. intros i. apply Hi. intros d _ (base & E' & _). congruence.
Qed.

End batch_theorems.

(** ** A concrete batch

    A UMEM of 128 bytes at address 2: the example frame at 0, a frame that no parser
    accepts at 64, and a descriptor past the end. *)

Definition example_umem : list Z := [0; 0] ++ example_udp_frame ++ replicate 84 0.
Definition example_descriptors : list PacketDescriptor :=
  [mkPacketDescriptor 0 44 0; mkPacketDescriptor 64 60 0; mkPacketDescriptor 100 60 0].
Definition example_outputs : list ProcessedFrame := replicate 4 inhabitant.

Lemma example_batch_ok :
  batch_args_ok (Some 2) 128 [example_rule] 1000000 example_umem example_descriptors example_outputs example_outputs.
Proof.
  split; try done; try by repeat constructor. split; [|by intros base [= <-]].
  unfold example_umem, mem_ok. rewrite !Forall_app. split_and!; [by repeat constructor|apply example_udp_frame_ok|].
  by apply Forall_replicate.
Qed.

Lemma example_frames_disjoint : ForallOrdPairs (frames_disjoint (Some 2) 128) example_descriptors.
Proof.
  repeat constructor; intros i (b & [= <-] & H1 & H2) (b' & [= <-] & H3 & H4); simpl in *; lia.
Qed.

Lemma process_packet_batch_partition_witness :
  exists st entries,
    process_packet_batch (DelayQueue0 := small_wheel_queue) example_umem (Some 2) 128 example_descriptors
      [example_rule] (TimingWheel_default 4 2) example_outputs example_outputs 1000000 = Some st /\
    Forall2 entry_ok example_descriptors entries /\ bs_packets_seen (br_stats (ba_result st)) = 3.
Proof.
  destruct (process_packet_batch_partition (DelayQueue0 := small_wheel_queue) example_umem (Some 2) 128
    example_descriptors [example_rule] (TimingWheel_default 4 2) example_outputs example_outputs 1000000 []
    example_batch_ok) as (st & es & Hrun & He & _ & _ & _ & (Hs & _) & _ & _);
    [by apply TimingWheel_default_holds|].
  exists st, es. split; [exact Hrun|split; [exact He|exact Hs]].
Defined.


Lemma process_packet_batch_memory_witness :
  exists st,
    process_packet_batch (DelayQueue0 := small_wheel_queue) example_umem (Some 2) 128 example_descriptors
      [example_rule] (TimingWheel_default 4 2) example_outputs example_outputs 1000000 = Some st /\
    (ba_mem st).[1] = Some 0.
Proof.
  destruct (process_packet_batch_memory (DelayQueue0 := small_wheel_queue) example_umem (Some 2) 128
    example_descriptors [example_rule] (TimingWheel_default 4 2) example_outputs example_outputs 1000000 []
    example_batch_ok) as (st & Hrun & _ & _ & _ & H & _);
    [by apply TimingWheel_default_holds|].
  exists st. split; [exact Hrun|]. exact (H 2 1 eq_refl ltac:(lia)).
Defined.
