(* ===== verification/Protocol.v ===== *)
(** * [include/chronosx/protocol.hpp], first part: messages

    The wire format of control messages: big-endian fields, the CRC-32, encoding
    and decoding.  A span of bytes is the list of its bytes; writing through a span
    returns the new contents; an access outside of a span is undefined behaviour. *)

From S2P Require Import Prelude Types PacketParser ChaosEngine.

Definition kProtocolMagic : Z := 0x4358.
Definition kProtocolVersion : Z := 1.
Definition kProtocolHeaderBytes : Z := 24.
Definition kMaxControlPayloadBytes : Z := 64 * 1024.
Definition kDefaultMaxRules : Z := 128.

(** An opcode comes off the wire by a [static_cast] of a byte, so the values that
    name no command occur as well. *)
Inductive Opcode :=
| Opcode_Ping
| Opcode_Pong
| Opcode_GetStats
| Opcode_StatsResponse
| Opcode_AddRule
| Opcode_RemoveRule
| Opcode_ClearRules
| Opcode_ListRules
| Opcode_RulesResponse
| Opcode_Error
| Opcode_raw (value : Z).

#[export] Instance Opcode_eq_dec : EqDecision Opcode.
Proof. solve_decision. Defined.

Definition opcode_byte (opcode : Opcode) : Byte :=
  match opcode with
  | Opcode_Ping => 0x01
  | Opcode_Pong => 0x02
  | Opcode_GetStats => 0x10
  | Opcode_StatsResponse => 0x11
  | Opcode_AddRule => 0x20
  | Opcode_RemoveRule => 0x21
  | Opcode_ClearRules => 0x22
  | Opcode_ListRules => 0x23
  | Opcode_RulesResponse => 0x24
  | Opcode_Error => 0xFF
  | Opcode_raw value => value
  end.

Definition opcode_of_byte (value : Byte) : Opcode :=
  if value =? 0x01 then Opcode_Ping
  else if value =? 0x02 then Opcode_Pong
  else if value =? 0x10 then Opcode_GetStats
  else if value =? 0x11 then Opcode_StatsResponse
  else if value =? 0x20 then Opcode_AddRule
  else if value =? 0x21 then Opcode_RemoveRule
  else if value =? 0x22 then Opcode_ClearRules
  else if value =? 0x23 then Opcode_ListRules
  else if value =? 0x24 then Opcode_RulesResponse
  else if value =? 0xFF then Opcode_Error
  else Opcode_raw value.

Inductive ProtocolStatus :=
| ProtocolStatus_Ok
| ProtocolStatus_BufferTooSmall
| ProtocolStatus_PayloadTooLarge
| ProtocolStatus_InvalidMagic
| ProtocolStatus_InvalidVersion
| ProtocolStatus_TruncatedPayload
| ProtocolStatus_CrcMismatch
| ProtocolStatus_UnknownOpcode
| ProtocolStatus_InvalidPayload
| ProtocolStatus_RuleTableFull
| ProtocolStatus_RuleIndexOutOfRange.

#[export] Instance ProtocolStatus_eq_dec : EqDecision ProtocolStatus.
Proof. solve_decision. Defined.

Definition protocol_status_name (status : ProtocolStatus) : string :=
  match status with
  | ProtocolStatus_Ok => "Ok"
  | ProtocolStatus_BufferTooSmall => "BufferTooSmall"
  | ProtocolStatus_PayloadTooLarge => "PayloadTooLarge"
  | ProtocolStatus_InvalidMagic => "InvalidMagic"
  | ProtocolStatus_InvalidVersion => "InvalidVersion"
  | ProtocolStatus_TruncatedPayload => "TruncatedPayload"
  | ProtocolStatus_CrcMismatch => "CrcMismatch"
  | ProtocolStatus_UnknownOpcode => "UnknownOpcode"
  | ProtocolStatus_InvalidPayload => "InvalidPayload"
  | ProtocolStatus_RuleTableFull => "RuleTableFull"
  | ProtocolStatus_RuleIndexOutOfRange => "RuleIndexOutOfRange"
  end.

Record MessageHeader := mkMessageHeader {
  mh_magic : Z;
  mh_version : Z;
  mh_opcode : Opcode;
  mh_sequence : Z;
  mh_payload_length : Z;
  mh_crc32 : Z;
  mh_timestamp_ns : Z;
}.

Definition MessageHeader_default : MessageHeader :=
  mkMessageHeader kProtocolMagic kProtocolVersion Opcode_Ping 0 0 0 0.

Record DecodedMessage := mkDecodedMessage {
  dm_header : MessageHeader;
  dm_payload : list Byte;
}.

Definition DecodedMessage_default : DecodedMessage := mkDecodedMessage MessageHeader_default [].

Record EncodeResult := mkEncodeResult {
  er_status : ProtocolStatus;
  er_bytes_written : Z;
}.

Record DecodeResult := mkDecodeResult {
  dr_status : ProtocolStatus;
  dr_message : DecodedMessage;
}.

(** ** Big-endian fields *)

Definition read_u16_be (bytes : list Byte) (offset : Z) : option Z :=
  b0 ← bytes.[offset];
  b1 ← bytes.[offset + 1];
  Some (u16 (Z.lor (Z.shiftl b0 8) b1)).

Definition read_u32_be (bytes : list Byte) (offset : Z) : option Z :=
  b0 ← bytes.[offset];
  b1 ← bytes.[offset + 1];
  b2 ← bytes.[offset + 2];
  b3 ← bytes.[offset + 3];
  Some (Z.lor (Z.lor (Z.lor (u32 (Z.shiftl b0 24)) (u32 (Z.shiftl b1 16))) (u32 (Z.shiftl b2 8))) b3).

Definition read_u64_be (bytes : list Byte) (offset : Z) : option Z :=
  high ← read_u32_be bytes offset;
  low ← read_u32_be bytes (offset + 4);
  Some (Z.lor (u64 (Z.shiftl high 32)) low).

Definition write_u16_be (bytes : list Byte) (offset value : Z) : option (list Byte) :=
  bytes ← bytes.[offset <- u8 (Z.land (Z.shiftr value 8) 0xFF)];
  bytes.[offset + 1 <- u8 (Z.land value 0xFF)].

Definition write_u32_be (bytes : list Byte) (offset value : Z) : option (list Byte) :=
  bytes ← bytes.[offset <- u8 (Z.land (Z.shiftr value 24) 0xFF)];
  bytes ← bytes.[offset + 1 <- u8 (Z.land (Z.shiftr value 16) 0xFF)];
  bytes ← bytes.[offset + 2 <- u8 (Z.land (Z.shiftr value 8) 0xFF)];
  bytes.[offset + 3 <- u8 (Z.land value 0xFF)].

Definition write_u64_be (bytes : list Byte) (offset value : Z) : option (list Byte) :=
  bytes ← write_u32_be bytes offset (u32 (Z.land (Z.shiftr value 32) 0xFFFFFFFF));
  write_u32_be bytes (offset + 4) (u32 (Z.land value 0xFFFFFFFF)).

(** ** CRC-32 *)

Definition kCrc32Polynomial : Z := 0xEDB88320.

Fixpoint crc32_table_bits (n : nat) (crc : Z) : Z :=
  match n with
  | O => crc
  | S n =>
      crc32_table_bits n
        (if negb (Z.land crc 1 =? 0) then Z.lxor (Z.shiftr crc 1) kCrc32Polynomial else Z.shiftr crc 1)
  end.

Definition generate_crc32_table : list Z :=
  map (fun index => crc32_table_bits 8 (Z.of_nat index)) (seq 0 256).

Definition kCrc32Table : list Z := Eval vm_compute in generate_crc32_table.

Fixpoint crc32_update (crc : Z) (bytes : list Byte) : option Z :=
  match bytes with
  | [] => Some crc
  | byte :: bytes =>
      let index := u8 (Z.land (Z.lxor crc byte) 0xFF) in
      entry ← kCrc32Table.[index];
      crc32_update (Z.lxor (Z.shiftr crc 8) entry) bytes
  end.

Definition crc32 (bytes : list Byte) : option Z :=
  crc ← crc32_update 0xFFFFFFFF bytes;
  Some (Z.lxor crc 0xFFFFFFFF).

(** ** Messages *)

Definition write_header_without_crc (header : MessageHeader) (output : list Byte) : option (list Byte) :=
  output ← write_u16_be output 0 (mh_magic header);
  output ← output.[2 <- mh_version header];
  output ← output.[3 <- opcode_byte (mh_opcode header)];
  output ← write_u32_be output 4 (mh_sequence header);
  output ← write_u32_be output 8 (mh_payload_length header);
  output ← write_u32_be output 12 0;
  write_u64_be output 16 (mh_timestamp_ns header).

(** [span.first(count)] and what follows it. *)
Definition span_first (bytes : list Byte) (count : Z) : option (list Byte) :=
  if count <=? zlen bytes then Some (take (Z.to_nat count) bytes) else None.

Definition span_rest (bytes : list Byte) (count : Z) : list Byte := drop (Z.to_nat count) bytes.

(** [std::memcpy(bytes.data() + offset, source.data(), source.size())]. *)
Definition memcpy_at (bytes : list Byte) (offset : Z) (source : list Byte) : option (list Byte) :=
  if bool_decide (0 <= offset /\ offset + zlen source <= zlen bytes)
  then Some (take (Z.to_nat offset) bytes ++ source ++ drop (Z.to_nat (offset + zlen source)) bytes)
  else None.

(** [std::span{bytes.data() + offset, count}]. *)
Definition subspan (bytes : list Byte) (offset count : Z) : option (list Byte) :=
  if bool_decide (0 <= offset /\ 0 <= count /\ offset + count <= zlen bytes)
  then Some (take (Z.to_nat count) (drop (Z.to_nat offset) bytes))
  else None.

Definition encode_message (header : MessageHeader) (payload output : list Byte)
    : option (EncodeResult * list Byte) :=
  if kMaxControlPayloadBytes <? zlen payload then Some (mkEncodeResult ProtocolStatus_PayloadTooLarge 0, output)
  else
    let total_size := kProtocolHeaderBytes + zlen payload in
    if zlen output <? total_size then Some (mkEncodeResult ProtocolStatus_BufferTooSmall 0, output)
    else
      let normalized := mkMessageHeader kProtocolMagic kProtocolVersion (mh_opcode header) (mh_sequence header)
                          (u32 (zlen payload)) 0 (mh_timestamp_ns header) in
      message ← span_first output total_size;
      header_span ← span_first message kProtocolHeaderBytes;
      header_span ← write_header_without_crc normalized header_span;
      let message := header_span ++ span_rest message kProtocolHeaderBytes in
      message ← (if negb (zlen payload =? 0) then memcpy_at message kProtocolHeaderBytes payload
                 else Some message);
      computed_crc ← crc32 message;
      message ← write_u32_be message 12 computed_crc;
      Some (mkEncodeResult ProtocolStatus_Ok total_size, message ++ span_rest output total_size).

Definition decode_failed (status : ProtocolStatus) : DecodeResult :=
  mkDecodeResult status DecodedMessage_default.

(** The CRC over the message with a zeroed CRC field. *)
Definition decode_crc (header : MessageHeader) (input : list Byte) : option Z :=
  header_for_crc ← subspan input 0 kProtocolHeaderBytes;
  header_for_crc ← write_u32_be header_for_crc 12 0;
  computed_crc ← crc32_update 0xFFFFFFFF header_for_crc;
  computed_crc ← (if 0 <? mh_payload_length header then
                    payload_bytes ← subspan input kProtocolHeaderBytes (mh_payload_length header);
                    crc32_update computed_crc payload_bytes
                  else Some computed_crc);
  Some (Z.lxor computed_crc 0xFFFFFFFF).

Definition read_header (input : list Byte) : option MessageHeader :=
  magic ← read_u16_be input 0;
  version ← input.[2];
  opcode ← input.[3];
  sequence ← read_u32_be input 4;
  payload_length ← read_u32_be input 8;
  crc ← read_u32_be input 12;
  timestamp_ns ← read_u64_be input 16;
  Some (mkMessageHeader magic version (opcode_of_byte opcode) sequence payload_length crc timestamp_ns).

Definition decode_message (input : list Byte) : option DecodeResult :=
  if zlen input <? kProtocolHeaderBytes then Some (decode_failed ProtocolStatus_BufferTooSmall)
  else
    header ← read_header input;
    if negb (mh_magic header =? kProtocolMagic) then Some (decode_failed ProtocolStatus_InvalidMagic)
    else if negb (mh_version header =? kProtocolVersion) then Some (decode_failed ProtocolStatus_InvalidVersion)
    else if kMaxControlPayloadBytes <? mh_payload_length header
    then Some (decode_failed ProtocolStatus_PayloadTooLarge)
    else
      let total_size := kProtocolHeaderBytes + mh_payload_length header in
      if zlen input <? total_size then Some (decode_failed ProtocolStatus_TruncatedPayload)
      else
        computed_crc ← decode_crc header input;
        if negb (computed_crc =? mh_crc32 header) then Some (decode_failed ProtocolStatus_CrcMismatch)
        else
          payload ← subspan input kProtocolHeaderBytes (mh_payload_length header);
          Some (mkDecodeResult ProtocolStatus_Ok (mkDecodedMessage header payload)).

(** ** The table-driven CRC is the bit-serial one *)

(** The shift register of the CRC-32, fed with one message bit. *)
Definition crc_shift (crc : Z) (bit : bool) : Z :=
  Z.lxor (Z.shiftr crc 1) (if xorb (Z.testbit crc 0) bit then kCrc32Polynomial else 0).

(** The bits of a byte, least significant first. *)
Fixpoint low_bits (n : nat) (x : Z) : list bool :=
  match n with
  | O => []
  | S n => Z.testbit x 0 :: low_bits n (Z.shiftr x 1)
  end.

Definition crc_serial (crc : Z) (bytes : list Byte) : Z := foldl crc_shift crc (mjoin (low_bits 8 <$> bytes)).

Definition crc_step (crc : Z) : Z := crc_shift crc false.

Lemma crc32_table_bits_S n crc : crc32_table_bits (S n) crc = crc32_table_bits n (crc_step crc).
Proof.
  simpl. f_equal. unfold crc_step, crc_shift. rewrite xorb_false_r.
  change 1 with (Z.ones 1) at 1. rewrite land_ones_wrap by lia. unfold wrap. change (2 ^ 1) with 2.
  rewrite <-Z.bit0_mod. destruct (Z.testbit crc 0); simpl; [done|by rewrite Z.lxor_0_r].
Qed.

#[global] Arguments crc32_table_bits : simpl never.

(** One step on [crc ^ x] is a step of the register on [crc] with the low bit of [x]. *)
Lemma crc_step_lxor crc x :
  crc_step (Z.lxor crc x) = Z.lxor (crc_shift crc (Z.testbit x 0)) (Z.shiftr x 1).
Proof.
  unfold crc_step, crc_shift. rewrite xorb_false_r, Z.lxor_spec, Z.shiftr_lxor.
  rewrite !Z.lxor_assoc. f_equal. apply Z.lxor_comm.
Qed.

Lemma crc_bits_lxor n crc x :
  crc32_table_bits n (Z.lxor crc x) = Z.lxor (foldl crc_shift crc (low_bits n x)) (Z.shiftr x (Z.of_nat n)).
Proof.
  revert crc x. induction n as [|n IH]; intros crc x; [by rewrite Z.shiftr_0_r; cbn|].
  rewrite crc32_table_bits_S, crc_step_lxor, IH, Z.shiftr_shiftr by lia. simpl. do 2 f_equal. lia.
Qed.

Lemma shiftr_fits w x : 0 <= w -> fits w x -> Z.shiftr x w = 0.
Proof. intros Hw Hx. rewrite Z.shiftr_div_pow2 by done. by apply Z.div_small. Qed.

(** Feeding a byte to the register is eight plain steps on [crc ^ byte]. *)
Lemma crc_bits_byte crc byte :
  fits 8 byte -> crc32_table_bits 8 (Z.lxor crc byte) = foldl crc_shift crc (low_bits 8 byte).
Proof.
  intros Hb. rewrite crc_bits_lxor. change (Z.of_nat 8) with 8. by rewrite shiftr_fits, Z.lxor_0_r.
Qed.

Lemma crc_bits_shiftl n y : crc32_table_bits n (Z.shiftl y (Z.of_nat n)) = y.
Proof.
  induction n as [|n IH]; [by rewrite Z.shiftl_0_r|].
  rewrite crc32_table_bits_S. unfold crc_step, crc_shift.
  rewrite Z.shiftl_spec_low, Z.lxor_0_r, Z.shiftr_shiftl_l by lia.
  by replace (Z.of_nat (S n) - 1) with (Z.of_nat n) by lia.
Qed.

Lemma crc_step_linear a b : crc_step (Z.lxor a b) = Z.lxor (crc_step a) (crc_step b).
Proof.
  unfold crc_step, crc_shift. rewrite !xorb_false_r, Z.lxor_spec, Z.shiftr_lxor.
  apply Z.bits_inj'. intros i Hi. rewrite !Z.lxor_spec.
  destruct (Z.testbit a 0), (Z.testbit b 0); simpl; rewrite ?Z.bits_0;
    by destruct (Z.testbit (Z.shiftr a 1) i), (Z.testbit (Z.shiftr b 1) i), (Z.testbit kCrc32Polynomial i).
Qed.

Lemma crc_bits_linear n a b :
  crc32_table_bits n (Z.lxor a b) = Z.lxor (crc32_table_bits n a) (crc32_table_bits n b).
Proof.
  revert a b. induction n as [|n IH]; intros a b; [done|].
  by rewrite !crc32_table_bits_S, crc_step_linear, IH.
Qed.

Lemma split_low_byte x : x = Z.lxor (Z.shiftl (Z.shiftr x 8) 8) (u8 x).
Proof.
  apply Z.bits_inj'. intros i Hi. rewrite Z.lxor_spec. unfold wrap. destruct (decide (i < 8)).
  - by rewrite Z.shiftl_spec_low, Z.mod_pow2_bits_low by lia.
  - rewrite Z.mod_pow2_bits_high, Z.shiftl_spec, Z.shiftr_spec, xorb_false_r by lia. f_equal. lia.
Qed.

(** The recurrence behind the table. *)
Lemma crc_bits_table x : crc32_table_bits 8 x = Z.lxor (Z.shiftr x 8) (crc32_table_bits 8 (u8 x)).
Proof.
  rewrite (split_low_byte x) at 1. rewrite crc_bits_linear. f_equal. apply (crc_bits_shiftl 8).
Qed.

Lemma kCrc32Table_entry index : 0 <= index < 256 -> kCrc32Table.[index] = Some (crc32_table_bits 8 index).
Proof.
  intros Hi. apply aget_Some. split; [lia|]. change kCrc32Table with generate_crc32_table.
  unfold generate_crc32_table. rewrite list_lookup_fmap, lookup_seq_lt by lia.
  cbn [fmap option_fmap option_map]. by rewrite Nat.add_0_l, Z2Nat.id by lia.
Qed.

#[local] Opaque kCrc32Table.

Lemma crc32_update_step crc byte bytes :
  fits 8 byte ->
  crc32_update crc (byte :: bytes) = crc32_update (crc32_table_bits 8 (Z.lxor crc byte)) bytes.
Proof.
  intros Hb. cbn [crc32_update]. change 0xFF with (Z.ones 8). rewrite land_ones_wrap, wrap_wrap_le by lia.
  rewrite kCrc32Table_entry by (by apply wrap_fits). cbn [mbind option_bind]. f_equal.
  by rewrite (crc_bits_table (Z.lxor crc byte)), Z.shiftr_lxor, (shiftr_fits 8 byte), Z.lxor_0_r.
Qed.

Lemma crc32_update_serial crc bytes :
  Forall (fits 8) bytes -> crc32_update crc bytes = Some (crc_serial crc bytes).
Proof.
  intros Hb. revert crc. induction Hb as [|byte bytes Hb _ IH]; intros crc; [done|].
  rewrite crc32_update_step, crc_bits_byte, IH by done. unfold crc_serial.
  rewrite fmap_cons. cbn [mjoin list_join]. by rewrite foldl_app.
Qed.

Lemma crc32_serial bytes :
  Forall (fits 8) bytes -> crc32 bytes = Some (Z.lxor (crc_serial 0xFFFFFFFF bytes) 0xFFFFFFFF).
Proof. intros Hb. unfold crc32. by rewrite crc32_update_serial. Qed.

Lemma crc_serial_cons crc byte bytes :
  fits 8 byte -> crc_serial crc (byte :: bytes) = crc_serial (crc32_table_bits 8 (Z.lxor crc byte)) bytes.
Proof.
  intros Hb. unfold crc_serial. rewrite fmap_cons. cbn [mjoin list_join]. by rewrite foldl_app, crc_bits_byte.
Qed.

Lemma crc_serial_nil crc : crc_serial crc [] = crc.
Proof. done. Qed.

Lemma crc_serial_app crc l1 l2 : crc_serial crc (l1 ++ l2) = crc_serial (crc_serial crc l1) l2.
Proof. unfold crc_serial. by rewrite fmap_app, join_app, foldl_app. Qed.

(** ** The CRC tells messages apart that differ in one byte *)

Lemma shiftr_1_fits x : fits 32 x -> fits 31 (Z.shiftr x 1).
Proof.
  unfold fits. intros Hx. rewrite Z.shiftr_div_pow2 by lia. change (2 ^ 1) with 2.
  split; [apply Z.div_pos; lia|]. apply Z.div_lt_upper_bound; lia.
Qed.

Lemma crc_step_fits crc : fits 32 crc -> fits 32 (crc_step crc).
Proof.
  intros Hc. unfold crc_step, crc_shift. apply lxor_fits; [lia| |by destruct (xorb _ _)].
  eapply fits_le; [|by apply shiftr_1_fits]. lia.
Qed.

Lemma crc_bits_fits n crc : fits 32 crc -> fits 32 (crc32_table_bits n crc).
Proof.
  revert crc. induction n as [|n IH]; intros crc Hc; [done|].
  rewrite crc32_table_bits_S. by apply IH, crc_step_fits.
Qed.

Lemma fits_bit w x i : fits w x -> 0 <= w <= i -> Z.testbit x i = false.
Proof. intros Hx Hi. rewrite <-(wrap_small w x) by done. unfold wrap. apply Z.mod_pow2_bits_high; lia. Qed.

(** The polynomial has its top bit set, so the register's low bit can be read off. *)
Lemma crc_step_top crc : fits 32 crc -> Z.testbit (crc_step crc) 31 = Z.testbit crc 0.
Proof.
  intros Hc. unfold crc_step, crc_shift. rewrite xorb_false_r, Z.lxor_spec, (fits_bit 31) by (lia || by apply shiftr_1_fits).
  by destruct (Z.testbit crc 0).
Qed.

Lemma crc_step_inj a b : fits 32 a -> fits 32 b -> crc_step a = crc_step b -> a = b.
Proof.
  intros Ha Hb Heq. assert (Z.testbit a 0 = Z.testbit b 0) as H0 by (by rewrite <-!crc_step_top, Heq).
  unfold crc_step, crc_shift in Heq. rewrite H0 in Heq.
  assert (Z.shiftr a 1 = Z.shiftr b 1) as Hs.
  { rewrite <-(Z.lxor_0_r (Z.shiftr a 1)), <-(Z.lxor_0_r (Z.shiftr b 1)).
    rewrite <-(Z.lxor_nilpotent (if xorb (Z.testbit b 0) false then kCrc32Polynomial else 0)).
    by rewrite <-!Z.lxor_assoc, Heq. }
  apply Z.bits_inj'. intros i Hi. destruct (decide (i = 0)) as [->|Hne]; [done|].
  replace i with (i - 1 + 1) by lia. rewrite <-!Z.shiftr_spec by lia. by rewrite Hs.
Qed.

Lemma crc_bits_inj n a b :
  fits 32 a -> fits 32 b -> crc32_table_bits n a = crc32_table_bits n b -> a = b.
Proof.
  revert a b. induction n as [|n IH]; intros a b Ha Hb Heq; [done|].
  rewrite !crc32_table_bits_S in Heq. apply crc_step_inj; [done..|]. apply IH; auto using crc_step_fits.
Qed.

Lemma crc_byte_fits crc byte : fits 32 crc -> fits 8 byte -> fits 32 (crc32_table_bits 8 (Z.lxor crc byte)).
Proof. intros Hc Hb. apply crc_bits_fits, lxor_fits; [lia|done|]. eapply fits_le; [|done]. lia. Qed.

Lemma crc_serial_fits crc bytes : fits 32 crc -> Forall (fits 8) bytes -> fits 32 (crc_serial crc bytes).
Proof.
  intros Hc Hb. revert crc Hc. induction Hb as [|b bytes Hb _ IH]; intros crc Hc; [done|].
  rewrite crc_serial_cons by done. by apply IH, crc_byte_fits.
Qed.

Lemma crc_byte_inj crc crc' b b' :
  fits 32 crc -> fits 32 crc' -> fits 8 b -> fits 8 b' ->
  crc32_table_bits 8 (Z.lxor crc b) = crc32_table_bits 8 (Z.lxor crc' b') -> Z.lxor crc b = Z.lxor crc' b'.
Proof.
  intros Hc Hc' Hb Hb'. apply crc_bits_inj; apply lxor_fits; try done; by apply (fits_le 8).
Qed.

Lemma lxor_cancel_l a b c : Z.lxor a b = Z.lxor a c -> b = c.
Proof.
  intros H. rewrite <-(Z.lxor_0_l b), <-(Z.lxor_0_l c), <-(Z.lxor_nilpotent a), !Z.lxor_assoc. by rewrite H.
Qed.

Lemma crc_serial_inj crc crc' bytes :
  Forall (fits 8) bytes -> fits 32 crc -> fits 32 crc' -> crc_serial crc bytes = crc_serial crc' bytes -> crc = crc'.
Proof.
  intros Hb. revert crc crc'. induction Hb as [|b bytes Hb _ IH]; intros crc crc' Hc Hc'; [done|].
  rewrite !crc_serial_cons by done. intros Heq. apply IH in Heq; [|by apply crc_byte_fits..].
  apply crc_byte_inj in Heq; [|done..]. rewrite (Z.lxor_comm crc), (Z.lxor_comm crc') in Heq. by eapply lxor_cancel_l.
Qed.

(** Two byte strings that differ in exactly one place have different CRCs. *)
Lemma crc_serial_one_byte crc l1 b b' l2 :
  fits 32 crc -> Forall (fits 8) l1 -> Forall (fits 8) l2 -> fits 8 b -> fits 8 b' ->
  crc_serial crc (l1 ++ b :: l2) = crc_serial crc (l1 ++ b' :: l2) -> b = b'.
Proof.
  intros Hc H1 H2 Hb Hb'. rewrite !crc_serial_app. pose proof (crc_serial_fits _ _ Hc H1) as Hf.
  rewrite !crc_serial_cons by done. intros Heq. apply crc_serial_inj in Heq; [|done|by apply crc_byte_fits..].
  apply crc_byte_inj in Heq; [|done..]. by eapply lxor_cancel_l.
Qed.

(** ** Fields in context

    A message is a concatenation of fields; reading and writing a field leaves the
    rest alone. *)

Ltac split_field mid H :=
  destruct mid as [|? [|? [|? [|? [|? ?]]]]]; try discriminate H; clear H.

Lemma read_u16_field pre mid post offset :
  offset = zlen pre -> length mid = 2%nat -> Forall (fits 8) mid ->
  read_u16_be (pre ++ mid ++ post) offset = Some (be_value mid).
Proof.
  intros -> Hl Hf. destruct mid as [|b0 [|b1 [|]]]; try discriminate Hl. decompose_Forall.
  rewrite <-(lor_be16 b0 b1) by done. unfold read_u16_be.
  rewrite <-(Z.add_0_r (zlen pre)) at 1. by rewrite !aget_app_r by lia.
Qed.

Lemma read_u16_first mid post :
  length mid = 2%nat -> Forall (fits 8) mid -> read_u16_be (mid ++ post) 0 = Some (be_value mid).
Proof. by apply (read_u16_field []). Qed.

Lemma read_u32_field pre mid post offset :
  offset = zlen pre -> length mid = 4%nat -> Forall (fits 8) mid ->
  read_u32_be (pre ++ mid ++ post) offset = Some (be_value mid).
Proof.
  intros -> Hl Hf. destruct mid as [|b0 [|b1 [|b2 [|b3 [|]]]]]; try discriminate Hl. decompose_Forall.
  rewrite <-(lor_be32 b0 b1 b2 b3) by done. unfold read_u32_be.
  rewrite <-(Z.add_0_r (zlen pre)) at 1. by rewrite !aget_app_r by lia.
Qed.

Lemma read_u64_field pre mid post offset :
  offset = zlen pre -> length mid = 8%nat -> Forall (fits 8) mid ->
  read_u64_be (pre ++ mid ++ post) offset = Some (be_value mid).
Proof.
  intros -> Hl Hf. unfold read_u64_be.
  pose proof (take_drop 4 mid) as E. rewrite <-E in Hf |- *. apply Forall_app in Hf as [H1 H2].
  assert (length (take 4 mid) = 4%nat) as L1 by (rewrite length_take; lia).
  assert (length (drop 4 mid) = 4%nat) as L2 by (rewrite length_drop; lia).
  rewrite <-app_assoc. rewrite (read_u32_field pre (take 4 mid) _ (zlen pre)) by done. cbn [mbind option_bind].
  rewrite (app_assoc pre), (read_u32_field (pre ++ take 4 mid) (drop 4 mid))
    by (done || (unfold zlen; rewrite length_app; lia)).
  cbn [mbind option_bind]. f_equal.
  pose proof (be_value_fits _ H1) as F1. pose proof (be_value_fits _ H2) as F2. rewrite L1 in F1. rewrite L2 in F2.
  unfold fits in *. rewrite (wrap_small 64) by (unfold fits; rewrite Z.shiftl_mul_pow2 by lia; lia).
  rewrite lor_shift_add by (unfold fits; lia).
  revert L1 L2. generalize (take 4 mid) (drop 4 mid). intros l1 l2 L1 L2. split_field l1 L1. split_field l2 L2.
  unfold be_value. cbn [app length]. lia.
Qed.

Lemma aset_0 (x0 : Z) b y : (x0 :: b).[0 <- y] = Some (y :: b).
Proof. by apply (aset_middle []). Qed.

Lemma aset_1 (x0 x1 : Z) b y : (x0 :: x1 :: b).[1 <- y] = Some (x0 :: y :: b).
Proof. by apply (aset_middle [x0]). Qed.

Lemma aset_2 (x0 x1 x2 : Z) b y : (x0 :: x1 :: x2 :: b).[2 <- y] = Some (x0 :: x1 :: y :: b).
Proof. by apply (aset_middle [x0; x1]). Qed.

Lemma aset_3 (x0 x1 x2 x3 : Z) b y : (x0 :: x1 :: x2 :: x3 :: b).[3 <- y] = Some (x0 :: x1 :: x2 :: y :: b).
Proof. by apply (aset_middle [x0; x1; x2]). Qed.

Lemma write_u16_field pre mid post offset v :
  offset = zlen pre -> length mid = 2%nat ->
  write_u16_be (pre ++ mid ++ post) offset v = Some (pre ++ be_bytes 2 v ++ post).
Proof.
  intros -> Hl. split_field mid Hl. cbn [app]. unfold write_u16_be. rewrite byte_of_shift, low_byte by lia.
  rewrite <-(Z.add_0_r (zlen pre)) at 1. rewrite aset_app_r, aset_0 by done.
  cbn [mbind option_bind fmap option_fmap option_map app].
  rewrite aset_app_r, aset_1 by done. done.
Qed.

Lemma write_u16_first mid post v :
  length mid = 2%nat -> write_u16_be (mid ++ post) 0 v = Some (be_bytes 2 v ++ post).
Proof. by apply (write_u16_field []). Qed.

Lemma write_u32_field pre mid post offset v :
  offset = zlen pre -> length mid = 4%nat ->
  write_u32_be (pre ++ mid ++ post) offset v = Some (pre ++ be_bytes 4 v ++ post).
Proof.
  intros -> Hl. split_field mid Hl. cbn [app]. unfold write_u32_be. rewrite !byte_of_shift, low_byte by lia.
  rewrite <-(Z.add_0_r (zlen pre)) at 1. rewrite aset_app_r, aset_0 by done.
  cbn [mbind option_bind fmap option_fmap option_map app].
  rewrite aset_app_r, aset_1 by done. cbn [mbind option_bind fmap option_fmap option_map app].
  rewrite aset_app_r, aset_2 by done. cbn [mbind option_bind fmap option_fmap option_map app].
  rewrite aset_app_r, aset_3 by done. done.
Qed.

Lemma write_u64_field pre mid post offset v :
  offset = zlen pre -> length mid = 8%nat ->
  write_u64_be (pre ++ mid ++ post) offset v = Some (pre ++ be_bytes 8 v ++ post).
Proof.
  intros -> Hl. unfold write_u64_be. change 0xFFFFFFFF with (Z.ones 32).
  rewrite !land_ones_wrap, !wrap_wrap_le, Z.shiftr_div_pow2 by lia.
  rewrite <-(take_drop 4 mid), <-app_assoc.
  rewrite (write_u32_field pre) by (done || (rewrite length_take; lia)). cbn [mbind option_bind].
  rewrite app_assoc, write_u32_field
    by (rewrite ?length_drop; autorewrite with zlen; try lia; unfold zlen; rewrite be_bytes_length; lia).
  by rewrite !be_bytes_wrap, be_bytes_high_low, <-!app_assoc by lia.
Qed.

(** ** The bytes of a message *)

(** The header with the CRC field [crc], as it is on the wire. *)
Definition header_bytes (h : MessageHeader) (crc : Z) : list Byte :=
  be_bytes 2 (mh_magic h) ++ [mh_version h] ++ [opcode_byte (mh_opcode h)] ++ be_bytes 4 (mh_sequence h) ++
  be_bytes 4 (mh_payload_length h) ++ be_bytes 4 crc ++ be_bytes 8 (mh_timestamp_ns h).

Definition Opcode_wf (o : Opcode) : Prop := fits 8 (opcode_byte o) /\ opcode_of_byte (opcode_byte o) = o.

Record header_ok (h : MessageHeader) : Prop := {
  ho_magic : fits 16 (mh_magic h);
  ho_version : fits 8 (mh_version h);
  ho_opcode : Opcode_wf (mh_opcode h);
  ho_sequence : fits 32 (mh_sequence h);
  ho_length : fits 32 (mh_payload_length h);
  ho_crc : fits 32 (mh_crc32 h);
  ho_timestamp : fits 64 (mh_timestamp_ns h);
}.

Lemma opcode_byte_of_byte b : opcode_byte (opcode_of_byte b) = b.
Proof.
  unfold opcode_of_byte. repeat case_match; simpl; try done;
    by match goal with H : (_ =? _) = true |- _ => apply Z.eqb_eq in H as -> end.
Qed.

Lemma opcode_of_byte_wf b : fits 8 b -> Opcode_wf (opcode_of_byte b).
Proof. intros Hb. unfold Opcode_wf. by rewrite opcode_byte_of_byte. Qed.

Lemma header_bytes_length h crc : length (header_bytes h crc) = 24%nat.
Proof. unfold header_bytes. rewrite !length_app, !be_bytes_length. done. Qed.

Lemma header_bytes_fits h crc :
  fits 8 (mh_version h) -> fits 8 (opcode_byte (mh_opcode h)) -> Forall (fits 8) (header_bytes h crc).
Proof.
  intros. unfold header_bytes. rewrite !Forall_app. split_and!; auto using be_bytes_fits.
Qed.

Lemma split_at {A} (n : nat) (l : list A) :
  (n <= length l)%nat -> exists a b, l = a ++ b /\ length a = n.
Proof. intros Hn. exists (take n l), (drop n l). split; [by rewrite take_drop|]. rewrite length_take. lia. Qed.

(** Any 24 bytes are a header's fields. *)
Lemma split_header (l : list Byte) :
  (24 <= length l)%nat ->
  exists m v o s p c t rest, l = m ++ [v] ++ [o] ++ s ++ p ++ c ++ t ++ rest /\
    length m = 2%nat /\ length s = 4%nat /\ length p = 4%nat /\ length c = 4%nat /\ length t = 8%nat.
Proof.
  intros Hl. destruct (split_at 2 l) as (m & l1 & -> & Hm); [lia|]. rewrite length_app in Hl.
  destruct l1 as [|v [|o l2]]; simpl in Hl; [lia..|].
  destruct (split_at 4 l2) as (s & l3 & -> & Hs); [lia|]. rewrite length_app in Hl.
  destruct (split_at 4 l3) as (p & l4 & -> & Hp); [lia|]. rewrite length_app in Hl.
  destruct (split_at 4 l4) as (c & l5 & -> & Hc); [lia|]. rewrite length_app in Hl.
  destruct (split_at 8 l5) as (t & rest & -> & Ht); [lia|].
  by exists m, v, o, s, p, c, t, rest.
Qed.

Lemma zlen_length {A} (l : list A) n : length l = n -> zlen l = Z.of_nat n.
Proof. unfold zlen. lia. Qed.

Lemma write_header_spec h output :
  length output = 24%nat -> write_header_without_crc h output = Some (header_bytes h 0).
Proof.
  intros Hl. destruct (split_header output) as (m & v & o & s & p & c & t & rest & -> & Hm & Hs & Hp & Hc & Ht); [lia|].
  rewrite !length_app in Hl. simpl in Hl. assert (rest = []) as -> by (apply length_zero_iff_nil; lia).
  unfold write_header_without_crc. rewrite app_nil_r. clear Hl.
  rewrite write_u16_first by done. cbn [mbind option_bind].
  set (M := be_bytes 2 _). assert (zlen M = 2) as HM by done. cbn [app]. rewrite aset_middle by done. cbn [mbind option_bind].
  set (V := mh_version h). replace (M ++ V :: o :: s ++ p ++ c ++ t) with ((M ++ [V]) ++ o :: s ++ p ++ c ++ t)
    by by rewrite <-app_assoc.
  rewrite aset_middle by done. cbn [mbind option_bind]. set (O := opcode_byte _).
  set (pre := M ++ [V] ++ [O]).
  replace ((M ++ [V]) ++ O :: s ++ p ++ c ++ t) with (pre ++ s ++ p ++ c ++ t) by by unfold pre; rewrite <-!app_assoc.
  rewrite write_u32_field by done. cbn [mbind option_bind].
  rewrite (app_assoc pre), write_u32_field by done. cbn [mbind option_bind].
  rewrite (app_assoc (pre ++ _)), write_u32_field by done. cbn [mbind option_bind].
  rewrite (app_assoc ((pre ++ _) ++ _)), <-(app_nil_r t), write_u64_field by done.
  rewrite app_nil_r. unfold pre. by rewrite <-!app_assoc.
Qed.

Lemma be_bytes_field n l : length l = n -> Forall (fits 8) l -> be_bytes n (be_value l) = l.
Proof. intros <-. apply be_bytes_be_value. Qed.

Lemma read_header_fields m v o s p c t rest :
  length m = 2%nat -> length s = 4%nat -> length p = 4%nat -> length c = 4%nat -> length t = 8%nat ->
  Forall (fits 8) (m ++ [v] ++ [o] ++ s ++ p ++ c ++ t) ->
  read_header (m ++ [v] ++ [o] ++ s ++ p ++ c ++ t ++ rest)
  = Some (mkMessageHeader (be_value m) v (opcode_of_byte o) (be_value s) (be_value p) (be_value c) (be_value t)).
Proof.
  intros Hm Hs Hp Hc Ht Hf. rewrite !Forall_app in Hf. destruct Hf as (Fm & _ & _ & Fs & Fp & Fc & Ft).
  apply zlen_length in Hm as Zm. unfold read_header. rewrite read_u16_first by done.
  pose proof (zlen_length _ _ Hs) as Zs. pose proof (zlen_length _ _ Hp) as Zp. pose proof (zlen_length _ _ Hc) as Zc.
  set (l := m ++ _). cbn [mbind option_bind].
  replace (l.[2]) with (Some v) by (unfold l; replace 2 with (zlen m + 0) by lia; by rewrite aget_app_r).
  replace (l.[3]) with (Some o) by (unfold l; replace 3 with (zlen m + 1) by lia; by rewrite aget_app_r).
  cbn [mbind option_bind].
  set (pre := m ++ [v] ++ [o]). assert (zlen pre = 4) as Hpre by (unfold pre; autorewrite with zlen; lia).
  replace l with (pre ++ s ++ p ++ c ++ t ++ rest) by (unfold pre, l; by rewrite <-!app_assoc).
  rewrite (read_u32_field pre s _ 4) by (done || lia). cbn [mbind option_bind].
  rewrite (app_assoc pre), (read_u32_field (pre ++ s) p _ 8) by (done || (autorewrite with zlen; lia)). cbn [mbind option_bind].
  rewrite (app_assoc (pre ++ s)), (read_u32_field ((pre ++ s) ++ p) c _ 12) by (done || (autorewrite with zlen; lia)). cbn [mbind option_bind].
  rewrite (app_assoc ((pre ++ s) ++ p)), read_u64_field by (done || (autorewrite with zlen; lia)). done.
Qed.

Definition with_crc (h : MessageHeader) (crc : Z) : MessageHeader :=
  mkMessageHeader (mh_magic h) (mh_version h) (mh_opcode h) (mh_sequence h) (mh_payload_length h) crc
    (mh_timestamp_ns h).

Lemma header_bytes_with_crc h crc crc' : header_bytes (with_crc h crc') crc = header_bytes h crc.
Proof. done. Qed.

(** What was written as a header is read back as it. *)
Lemma read_header_bytes h crc rest :
  header_ok h -> fits 32 crc -> read_header (header_bytes h crc ++ rest) = Some (with_crc h crc).
Proof.
  intros [Hm Hv [Ho Ho'] Hs Hl _ Ht] Hc. unfold header_bytes. rewrite <-!app_assoc.
  rewrite read_header_fields by (done || (rewrite !Forall_app; split_and!; auto using be_bytes_fits)).
  rewrite !be_value_be_bytes, !wrap_small by done. by rewrite Ho'.
Qed.

(** Any 24 bytes are the header they are read as. *)
Lemma header_of_bytes l :
  (24 <= length l)%nat -> Forall (fits 8) l ->
  exists h rest, l = header_bytes h (mh_crc32 h) ++ rest /\ header_ok h /\ read_header l = Some h.
Proof.
  intros Hl Hf. destruct (split_header l Hl) as (m & v & o & s & p & c & t & rest & -> & Hm & Hs & Hp & Hc & Ht).
  rewrite !Forall_app in Hf. destruct Hf as (Fm & Fv & Fo & Fs & Fp & Fc & Ft & _).
  assert (Forall (fits 8) (m ++ [v] ++ [o] ++ s ++ p ++ c ++ t)) as Hf' by (rewrite !Forall_app; by split_and!).
  rewrite Forall_singleton in Fv, Fo.
  eexists _, rest. split; [|split; [|by apply read_header_fields]].
  - unfold header_bytes. simpl mh_crc32. simpl mh_magic. simpl mh_version. simpl mh_opcode. simpl mh_sequence.
    simpl mh_payload_length. simpl mh_timestamp_ns. rewrite opcode_byte_of_byte, <-!app_assoc.
    by rewrite !be_bytes_field.
  - pose proof (be_value_fits m Fm) as Vm. pose proof (be_value_fits s Fs) as Vs. pose proof (be_value_fits p Fp) as Vp.
    pose proof (be_value_fits c Fc) as Vc. pose proof (be_value_fits t Ft) as Vt.
    rewrite ?Hm, ?Hs, ?Hp, ?Hc, ?Ht in *. split; simpl; try done. by apply opcode_of_byte_wf.
Qed.

(** ** Encoding and decoding, on every branch *)

(** The CRC of a message: over its bytes with a zero CRC field. *)
Definition message_crc (h : MessageHeader) (payload : list Byte) : Z :=
  Z.lxor (crc_serial 0xFFFFFFFF (header_bytes h 0 ++ payload)) 0xFFFFFFFF.

(** The header [encode_message] sends for [header]. *)
Definition sent_header (header : MessageHeader) (payload : list Byte) : MessageHeader :=
  let h := mkMessageHeader kProtocolMagic kProtocolVersion (mh_opcode header) (mh_sequence header)
             (zlen payload) 0 (mh_timestamp_ns header) in
  with_crc h (message_crc h payload).

Definition message_bytes (h : MessageHeader) (payload : list Byte) : list Byte :=
  header_bytes h (mh_crc32 h) ++ payload.

Lemma message_crc_with_crc h crc payload : message_crc (with_crc h crc) payload = message_crc h payload.
Proof. done. Qed.

Lemma header_bytes_prefix h : exists pre post,
  length pre = 12%nat /\ forall crc, header_bytes h crc = pre ++ be_bytes 4 crc ++ post.
Proof.
  exists (be_bytes 2 (mh_magic h) ++ [mh_version h] ++ [opcode_byte (mh_opcode h)] ++ be_bytes 4 (mh_sequence h) ++
          be_bytes 4 (mh_payload_length h)), (be_bytes 8 (mh_timestamp_ns h)).
  unfold header_bytes. split; [done|]. intros. by rewrite <-!app_assoc.
Qed.

(** Setting the CRC field of a message. *)
Lemma write_crc h crc crc' body :
  write_u32_be (header_bytes h crc ++ body) 12 crc' = Some (header_bytes h crc' ++ body).
Proof.
  destruct (header_bytes_prefix h) as (pre & post & Hl & Hcrc). rewrite !Hcrc, <-!app_assoc.
  apply write_u32_field; [|apply be_bytes_length]. by rewrite (zlen_length _ _ Hl).
Qed.

Lemma message_crc_fits h payload :
  header_ok h -> Forall (fits 8) payload -> fits 32 (message_crc h payload).
Proof.
  intros Hh Hp. apply lxor_fits; [lia| |done]. apply crc_serial_fits; [done|].
  apply Forall_app. split; [apply header_bytes_fits; apply Hh|done].
Qed.

Lemma take_app_zlen {A} (l k : list A) n : zlen l = n -> take (Z.to_nat n) (l ++ k) = l.
Proof. intros <-. unfold zlen. rewrite Nat2Z.id. apply take_app_length. Qed.

Lemma drop_app_zlen {A} (l k : list A) n : zlen l = n -> drop (Z.to_nat n) (l ++ k) = k.
Proof. intros <-. unfold zlen. rewrite Nat2Z.id. apply drop_app_length. Qed.

Lemma encode_message_spec header payload output :
  header_ok header -> Forall (fits 8) payload ->
  zlen payload <= kMaxControlPayloadBytes -> kProtocolHeaderBytes + zlen payload <= zlen output ->
  encode_message header payload output
  = Some (mkEncodeResult ProtocolStatus_Ok (kProtocolHeaderBytes + zlen payload),
      message_bytes (sent_header header payload) payload ++
      drop (Z.to_nat (kProtocolHeaderBytes + zlen payload)) output).
Proof.
  unfold kMaxControlPayloadBytes, kProtocolHeaderBytes. intros Hh Hp Hmax Hout.
  unfold encode_message, kMaxControlPayloadBytes, kProtocolHeaderBytes. pose proof (zlen_nonneg payload) as Hnn.
  destruct (Z.ltb_spec (64 * 1024) (zlen payload)); [lia|].
  destruct (Z.ltb_spec (zlen output) (24 + zlen payload)); [lia|].
  rewrite (wrap_small 32) by (unfold fits; lia). set (n := mkMessageHeader _ _ _ _ _ _ _).
  unfold span_first, span_rest. destruct (Z.leb_spec (24 + zlen payload) (zlen output)); [|lia].
  cbn [mbind option_bind]. set (message := take _ output).
  assert (zlen message = 24 + zlen payload) as Hml.
  { unfold message, zlen in *. rewrite length_take. lia. }
  destruct (Z.leb_spec 24 (zlen message)); [|lia]. cbn [mbind option_bind].
  rewrite write_header_spec by (rewrite length_take; unfold zlen in *; lia). cbn [mbind option_bind].
  assert ((if negb (zlen payload =? 0)
           then memcpy_at (header_bytes n 0 ++ drop (Z.to_nat 24) message) 24 payload
           else Some (header_bytes n 0 ++ drop (Z.to_nat 24) message)) = Some (header_bytes n 0 ++ payload)) as ->.
  { pose proof (zlen_length _ _ (header_bytes_length n 0)) as Hz.
    assert (zlen (drop (Z.to_nat 24) message) = zlen payload) as Hd
      by (unfold zlen in *; rewrite length_drop; lia).
    destruct (Z.eqb_spec (zlen payload) 0) as [E|E]; simpl negb.
    - assert (payload = [] /\ drop (Z.to_nat 24) message = []) as [-> ->]; [|done].
      split; apply length_zero_iff_nil; unfold zlen in *; lia.
    - unfold memcpy_at. rewrite bool_decide_true by (rewrite zlen_app; lia).
      rewrite take_app_zlen by done. rewrite drop_ge, app_nil_r; [done|].
      rewrite length_app, header_bytes_length. unfold zlen in *. lia. }
  cbn [mbind option_bind].
  assert (Forall (fits 8) (header_bytes n 0 ++ payload)) as Hf.
  { apply Forall_app. split; [apply header_bytes_fits; [done|apply Hh]|done]. }
  rewrite crc32_serial by done. cbn [mbind option_bind]. rewrite write_crc. cbn [mbind option_bind].
  unfold message_bytes, sent_header. fold n. by rewrite <-app_assoc.
Qed.

Lemma encode_message_refused header payload output :
  kMaxControlPayloadBytes < zlen payload \/ zlen output < kProtocolHeaderBytes + zlen payload ->
  encode_message header payload output
  = Some (mkEncodeResult (if kMaxControlPayloadBytes <? zlen payload then ProtocolStatus_PayloadTooLarge
                          else ProtocolStatus_BufferTooSmall) 0, output).
Proof.
  intros H. unfold encode_message. destruct (Z.ltb_spec kMaxControlPayloadBytes (zlen payload)); [done|].
  by destruct (Z.ltb_spec (zlen output) (kProtocolHeaderBytes + zlen payload)); [|lia].
Qed.

Lemma subspan_body h crc body count :
  0 <= count <= zlen body ->
  subspan (header_bytes h crc ++ body) kProtocolHeaderBytes count = Some (take (Z.to_nat count) body).
Proof.
  intros Hc. pose proof (zlen_length _ _ (header_bytes_length h crc)) as Hz. unfold subspan, kProtocolHeaderBytes.
  rewrite bool_decide_true by (rewrite zlen_app; lia). by rewrite drop_app_zlen.
Qed.

Lemma subspan_header h crc body :
  subspan (header_bytes h crc ++ body) 0 kProtocolHeaderBytes = Some (header_bytes h crc).
Proof.
  pose proof (zlen_length _ _ (header_bytes_length h crc)) as Hz. unfold subspan, kProtocolHeaderBytes.
  rewrite bool_decide_true by (rewrite zlen_app; pose proof (zlen_nonneg body); lia).
  change (Z.to_nat 0) with 0%nat. by rewrite drop_0, take_app_zlen.
Qed.

Lemma decode_crc_spec h body :
  header_ok h -> Forall (fits 8) body -> mh_payload_length h <= zlen body ->
  decode_crc h (header_bytes h (mh_crc32 h) ++ body)
  = Some (message_crc h (take (Z.to_nat (mh_payload_length h)) body)).
Proof.
  intros Hh Hb Hl. destruct (ho_length h Hh) as [Hl0 _].
  unfold decode_crc. rewrite subspan_header. cbn [mbind option_bind].
  pose proof (write_crc h (mh_crc32 h) 0 []) as Hw. rewrite !app_nil_r in Hw. rewrite Hw.
  cbn [mbind option_bind].
  assert (Forall (fits 8) (header_bytes h 0)) as Hf by (apply header_bytes_fits; apply Hh).
  rewrite crc32_update_serial by done. cbn [mbind option_bind].
  unfold message_crc. rewrite crc_serial_app.
  destruct (Z.ltb_spec 0 (mh_payload_length h)) as [Hpos|Hzero].
  - rewrite subspan_body by lia. cbn [mbind option_bind]. rewrite crc32_update_serial by by apply Forall_take.
    reflexivity.
  - replace (mh_payload_length h) with 0 by lia. change (take (Z.to_nat 0) body) with (@nil Byte).
    rewrite crc_serial_nil. reflexivity.
Qed.

(** What [decode_message] answers on a header [h] and the bytes [body] after it. *)
Definition decode_answer (h : MessageHeader) (body : list Byte) : DecodeResult :=
  let payload := take (Z.to_nat (mh_payload_length h)) body in
  if negb (mh_magic h =? kProtocolMagic) then decode_failed ProtocolStatus_InvalidMagic
  else if negb (mh_version h =? kProtocolVersion) then decode_failed ProtocolStatus_InvalidVersion
  else if kMaxControlPayloadBytes <? mh_payload_length h then decode_failed ProtocolStatus_PayloadTooLarge
  else if zlen body <? mh_payload_length h then decode_failed ProtocolStatus_TruncatedPayload
  else if negb (message_crc h payload =? mh_crc32 h) then decode_failed ProtocolStatus_CrcMismatch
  else mkDecodeResult ProtocolStatus_Ok (mkDecodedMessage h payload).

Lemma with_crc_same h : with_crc h (mh_crc32 h) = h.
Proof. by destruct h. Qed.

Lemma decode_message_spec h body :
  header_ok h -> Forall (fits 8) body ->
  decode_message (header_bytes h (mh_crc32 h) ++ body) = Some (decode_answer h body).
Proof.
  intros Hh Hb. pose proof (zlen_length _ _ (header_bytes_length h (mh_crc32 h))) as Hz.
  unfold decode_message, decode_answer, kProtocolHeaderBytes. rewrite zlen_app, Hz. change (Z.of_nat 24) with 24.
  pose proof (zlen_nonneg body). destruct (Z.ltb_spec (24 + zlen body) 24); [lia|].
  rewrite read_header_bytes by (done || apply Hh). rewrite with_crc_same. cbn [mbind option_bind].
  destruct (negb (mh_magic h =? kProtocolMagic)); [done|].
  destruct (negb (mh_version h =? kProtocolVersion)); [done|].
  destruct (kMaxControlPayloadBytes <? mh_payload_length h); [done|].
  destruct (Z.ltb_spec (24 + zlen body) (24 + mh_payload_length h)), (Z.ltb_spec (zlen body) (mh_payload_length h));
    try lia; [done|].
  rewrite decode_crc_spec by done. cbn [mbind option_bind].
  destruct (negb (_ =? _)); [done|]. change 24 with kProtocolHeaderBytes.
  rewrite subspan_body by (pose proof (ho_length h Hh) as [? _]; lia). done.
Qed.

Lemma decode_message_short input :
  zlen input < kProtocolHeaderBytes -> decode_message input = Some (decode_failed ProtocolStatus_BufferTooSmall).
Proof. intros H. unfold decode_message. by destruct (Z.ltb_spec (zlen input) kProtocolHeaderBytes); [|lia]. Qed.

Lemma decode_answer_ok h body :
  dr_status (decode_answer h body) = ProtocolStatus_Ok <->
  mh_magic h = kProtocolMagic /\ mh_version h = kProtocolVersion /\
  mh_payload_length h <= kMaxControlPayloadBytes /\ mh_payload_length h <= zlen body /\
  message_crc h (take (Z.to_nat (mh_payload_length h)) body) = mh_crc32 h.
Proof.
  unfold decode_answer.
  destruct (Z.eqb_spec (mh_magic h) kProtocolMagic); simpl; [|intuition done].
  destruct (Z.eqb_spec (mh_version h) kProtocolVersion); simpl; [|intuition done].
  destruct (Z.ltb_spec kMaxControlPayloadBytes (mh_payload_length h)); simpl; [intuition (done || lia)|].
  destruct (Z.ltb_spec (zlen body) (mh_payload_length h)); simpl; [intuition (done || lia)|].
  destruct (Z.eqb_spec (message_crc h (take (Z.to_nat (mh_payload_length h)) body)) (mh_crc32 h)); simpl;
    intuition (done || lia).
Qed.

Lemma decode_answer_message h body :
  dr_status (decode_answer h body) = ProtocolStatus_Ok ->
  dr_message (decode_answer h body) = mkDecodedMessage h (take (Z.to_nat (mh_payload_length h)) body).
Proof. unfold decode_answer. repeat case_match; done. Qed.

(** ** Round trips *)

Lemma sent_header_ok header payload :
  header_ok header -> Forall (fits 8) payload -> zlen payload <= kMaxControlPayloadBytes ->
  header_ok (sent_header header payload).
Proof.
  unfold kMaxControlPayloadBytes. intros Hh Hp Hl. pose proof (zlen_nonneg payload).
  assert (header_ok (mkMessageHeader kProtocolMagic kProtocolVersion (mh_opcode header) (mh_sequence header)
    (zlen payload) 0 (mh_timestamp_ns header))) as Hn.
  { destruct Hh. split; simpl; try done; unfold fits; lia. }
  pose proof (message_crc_fits _ payload Hn Hp). destruct Hn. by split.
Qed.

Lemma decode_sent header payload rest :
  header_ok header -> Forall (fits 8) payload -> Forall (fits 8) rest -> zlen payload <= kMaxControlPayloadBytes ->
  decode_message (message_bytes (sent_header header payload) payload ++ rest)
  = Some (mkDecodeResult ProtocolStatus_Ok (mkDecodedMessage (sent_header header payload) payload)).
Proof.
  intros Hh Hp Hr Hl. pose proof (sent_header_ok _ _ Hh Hp Hl) as Hs. unfold message_bytes. rewrite <-app_assoc.
  rewrite decode_message_spec by (done || by apply Forall_app). f_equal.
  set (h := sent_header header payload) in *.
  assert (take (Z.to_nat (mh_payload_length h)) (payload ++ rest) = payload) as Htake by by apply take_app_zlen.
  assert (dr_status (decode_answer h (payload ++ rest)) = ProtocolStatus_Ok) as Hok.
  { apply decode_answer_ok. rewrite Htake. split_and!; [done|done|done| |done].
    rewrite zlen_app. change (mh_payload_length h) with (zlen payload). pose proof (zlen_nonneg rest). lia. }
  pose proof (decode_answer_message _ _ Hok) as Hm. rewrite Htake in Hm.
  destruct (decode_answer h (payload ++ rest)). simpl in *. by rewrite Hok, Hm.
Qed.

(** An accepted input is the encoding of the message it was accepted as. *)
Lemma decode_accepted input r :
  Forall (fits 8) input -> decode_message input = Some r -> dr_status r = ProtocolStatus_Ok ->
  let m := dr_message r in
  header_ok (dm_header m) /\ sent_header (dm_header m) (dm_payload m) = dm_header m /\
  Forall (fits 8) (dm_payload m) /\ zlen (dm_payload m) = mh_payload_length (dm_header m) /\
  zlen (dm_payload m) <= kMaxControlPayloadBytes /\
  input = message_bytes (dm_header m) (dm_payload m) ++
          drop (Z.to_nat (kProtocolHeaderBytes + zlen (dm_payload m))) input.
Proof.
  intros Hf Hd Hok m. destruct (decide (zlen input < kProtocolHeaderBytes)) as [Hshort|Hlong].
  { rewrite decode_message_short in Hd by done. by simplify_eq. }
  unfold kProtocolHeaderBytes in Hlong.
  destruct (header_of_bytes input) as (h & body & E & Hh & _); [unfold zlen in *; lia|done|].
  rewrite E in Hf. apply Forall_app in Hf as [_ Hb]. rewrite E, decode_message_spec in Hd by done.
  injection Hd as <-. pose proof (decode_answer_message _ _ Hok) as Hm. subst m. rewrite Hm.
  apply decode_answer_ok in Hok as (H1 & H2 & H3 & H4 & H5). cbn [dm_header dm_payload].
  pose proof (ho_length h Hh) as [Hl0 _].
  assert (zlen (take (Z.to_nat (mh_payload_length h)) body) = mh_payload_length h) as Hz
    by (unfold zlen in *; rewrite length_take; lia).
  split_and!; [done| |by apply Forall_take|done|lia|].
  - unfold sent_header. rewrite Hz.
    assert (mkMessageHeader kProtocolMagic kProtocolVersion (mh_opcode h) (mh_sequence h) (mh_payload_length h) 0
      (mh_timestamp_ns h) = with_crc h 0) as -> by (unfold with_crc; by rewrite H1, H2).
    rewrite message_crc_with_crc, H5. by destruct h.
  - rewrite Hz. unfold message_bytes. rewrite E, <-app_assoc. f_equal.
    unfold kProtocolHeaderBytes. rewrite <-(take_drop (Z.to_nat (mh_payload_length h)) body) at 1. f_equal.
    replace (Z.to_nat (24 + mh_payload_length h)) with (24 + Z.to_nat (mh_payload_length h))%nat by lia.
    rewrite <-(header_bytes_length h (mh_crc32 h)) at 1. by rewrite drop_app_add.
Qed.

Lemma decode_total input : Forall (fits 8) input -> exists r, decode_message input = Some r.
Proof.
  intros Hf. destruct (decide (zlen input < kProtocolHeaderBytes)) as [Hs|Hl]; [by rewrite decode_message_short; eauto|].
  unfold kProtocolHeaderBytes in Hl.
  destruct (header_of_bytes input) as (h & body & E & Hh & _); [unfold zlen in *; lia|done|].
  rewrite E in Hf |- *. apply Forall_app in Hf as [_ Hb]. rewrite decode_message_spec by done. eauto.
Qed.

(** ** One corrupted byte *)

(** A message with its CRC field zeroed, and the field. *)
Definition crc_zeroed (l : list Byte) : list Byte := take 12 l ++ replicate 4 0 ++ drop 16 l.
Definition crc_field (l : list Byte) : list Byte := take 4 (drop 12 l).
Definition length_field (l : list Byte) : list Byte := take 4 (drop 8 l).

Lemma message_fields h payload :
  crc_zeroed (message_bytes h payload) = header_bytes h 0 ++ payload /\
  crc_field (message_bytes h payload) = be_bytes 4 (mh_crc32 h) /\
  length_field (message_bytes h payload) = be_bytes 4 (mh_payload_length h).
Proof. unfold crc_zeroed, crc_field, length_field, message_bytes, header_bytes. done. Qed.

Lemma lookup_crc_zeroed l i :
  (16 <= length l)%nat -> crc_zeroed l !! i = if decide (12 <= i < 16)%nat then Some 0 else l !! i.
Proof.
  intros Hl. unfold crc_zeroed. assert (length (take 12 l) = 12%nat) as H12 by (rewrite length_take; lia).
  destruct (decide (i < 12)%nat).
  - rewrite lookup_app_l, lookup_take_lt, decide_False by lia. done.
  - rewrite lookup_app_r, H12 by lia. case_decide.
    + rewrite lookup_app_l by (rewrite length_replicate; lia). apply lookup_replicate. lia.
    + rewrite lookup_app_r, length_replicate, lookup_drop by (rewrite length_replicate; lia). f_equal. lia.
Qed.

Lemma crc_zeroed_length l : (16 <= length l)%nat -> length (crc_zeroed l) = length l.
Proof. intros. unfold crc_zeroed. rewrite !length_app, length_take, length_replicate, length_drop. lia. Qed.

(** Changing a byte outside of the field commutes with zeroing it. *)
Lemma crc_zeroed_insert l i b :
  (16 <= length l)%nat -> ~ (12 <= i < 16)%nat -> crc_zeroed (<[i := b]> l) = <[i := b]> (crc_zeroed l).
Proof.
  intros Hl Hi. apply list_eq. intros j. rewrite lookup_crc_zeroed by (rewrite length_insert; lia).
  destruct (decide (i = j)) as [<-|Hne].
  - rewrite decide_False by lia. destruct (decide (i < length l)%nat).
    + by rewrite !list_lookup_insert_eq by (rewrite ?crc_zeroed_length; lia).
    + rewrite !lookup_ge_None_2; [done|rewrite length_insert, ?crc_zeroed_length; lia..].
  - rewrite !list_lookup_insert_ne, lookup_crc_zeroed by done. done.
Qed.

Lemma crc_serial_insert crc l i a b :
  fits 32 crc -> Forall (fits 8) l -> fits 8 b -> l !! i = Some a ->
  crc_serial crc (<[i := b]> l) = crc_serial crc l -> b = a.
Proof.
  intros Hc Hl Hb Ha. pose proof (take_drop_middle _ _ _ Ha) as E.
  assert (i < length l)%nat by by eapply lookup_lt_Some.
  rewrite <-E at 2. rewrite insert_take_drop by done.
  apply crc_serial_one_byte; auto using Forall_take, Forall_drop. by eapply Forall_lookup in Ha.
Qed.

Lemma be_value_inj l k :
  length l = length k -> Forall (fits 8) l -> Forall (fits 8) k -> be_value l = be_value k -> l = k.
Proof. intros Hlen Hl Hk E. by rewrite <-(be_bytes_be_value l), <-(be_bytes_be_value k), Hlen, E. Qed.

(** On an input that is accepted with no byte to spare, the CRC field is the CRC. *)
Lemma accepted_crc input r :
  Forall (fits 8) input -> decode_message input = Some r -> dr_status r = ProtocolStatus_Ok ->
  be_value (length_field input) = zlen input - kProtocolHeaderBytes ->
  be_value (crc_field input) = Z.lxor (crc_serial 0xFFFFFFFF (crc_zeroed input)) 0xFFFFFFFF.
Proof.
  intros Hf Hd Hok Hlen. destruct (decode_accepted _ _ Hf Hd Hok) as (Hh & Hs & Hp & Hz & Hmax & E).
  set (h := dm_header (dr_message r)) in *. set (payload := dm_payload (dr_message r)) in *.
  set (rest := drop _ input) in E.
  assert (length_field input = be_bytes 4 (mh_payload_length h)) as Hlf.
  { rewrite E. unfold length_field, message_bytes, header_bytes. done. }
  assert (rest = []) as Hrest.
  { apply length_zero_iff_nil. rewrite Hlf, be_value_be_bytes, wrap_small in Hlen by apply Hh.
    rewrite E, zlen_app in Hlen. unfold message_bytes in Hlen. rewrite zlen_app in Hlen.
    rewrite (zlen_length _ _ (header_bytes_length h (mh_crc32 h))) in Hlen.
    unfold kProtocolHeaderBytes, zlen in *. lia. }
  rewrite Hrest, app_nil_r in E. rewrite E. destruct (message_fields h payload) as (-> & -> & _).
  rewrite be_value_be_bytes, wrap_small by apply Hh. rewrite <-Hs. reflexivity.
Qed.

(** ** Theorems *)

(** C29: the table-driven [crc32] is the bit-serial CRC-32.  For every byte string the
    table is only indexed inside of its 256 entries, and the result is the one of the
    shift register with polynomial 0xEDB88320 fed bit by bit, least significant bit
    first, with all-ones initial and final masks; it fits 32 bits. *)
Theorem crc32_is_bit_serial bytes :
  Forall (fits 8) bytes ->
  crc32 bytes = Some (Z.lxor (foldl crc_shift 0xFFFFFFFF (mjoin (low_bits 8 <$> bytes))) 0xFFFFFFFF) /\
  fits 32 (Z.lxor (foldl crc_shift 0xFFFFFFFF (mjoin (low_bits 8 <$> bytes))) 0xFFFFFFFF).
Proof.
  intros Hb. split; [by apply crc32_serial|]. apply lxor_fits; [lia| |done]. by apply crc_serial_fits.
Qed.

(** The check value of CRC-32: the digits "123456789" give 0xCBF43926. *)
Lemma crc32_is_bit_serial_witness :
  crc32 [49; 50; 51; 52; 53; 54; 55; 56; 57] = Some 0xCBF43926 /\
  Z.lxor (foldl crc_shift 0xFFFFFFFF (mjoin (low_bits 8 <$> [49; 50; 51; 52; 53; 54; 55; 56; 57]))) 0xFFFFFFFF
    = 0xCBF43926.
Proof.
  destruct (crc32_is_bit_serial [49; 50; 51; 52; 53; 54; 55; 56; 57]) as [H _]; [by repeat constructor|].
  split; [|by vm_compute]. rewrite H. by vm_compute.
Defined.

(** C12: what is encoded is decoded.  For every header and payload of at most 64 KiB
    and every output span with room, [encode_message] succeeds, writes exactly the
    first [24 + payload] bytes, and [decode_message] on what it wrote, also with the
    rest of the span behind it, returns the payload and the header (with magic,
    version, length and CRC filled in); otherwise it reports which limit was exceeded
    and writes nothing. *)
Theorem encode_decode_roundtrip header payload output :
  header_ok header -> Forall (fits 8) payload -> Forall (fits 8) output ->
  let total := kProtocolHeaderBytes + zlen payload in
  (zlen payload <= kMaxControlPayloadBytes -> total <= zlen output ->
   exists output', encode_message header payload output = Some (mkEncodeResult ProtocolStatus_Ok total, output') /\
     zlen output' = zlen output /\ drop (Z.to_nat total) output' = drop (Z.to_nat total) output /\
     let expected := mkDecodeResult ProtocolStatus_Ok (mkDecodedMessage (sent_header header payload) payload) in
     decode_message (take (Z.to_nat total) output') = Some expected /\ decode_message output' = Some expected) /\
  (kMaxControlPayloadBytes < zlen payload \/ zlen output < total ->
   exists status, status <> ProtocolStatus_Ok /\
     encode_message header payload output = Some (mkEncodeResult status 0, output)).
Proof.
  intros Hh Hp Ho total. split.
  - intros Hmax Hroom. rewrite encode_message_spec by done. eexists. split; [done|].
    fold total. set (msg := message_bytes _ _). pose proof (zlen_nonneg payload) as Hnn.
    assert (zlen msg = total) as Hz.
    { subst msg total. unfold message_bytes. by rewrite zlen_app, (zlen_length _ 24) by apply header_bytes_length. }
    rewrite take_app_zlen, drop_app_zlen by done. split; [|split; [done|split]].
    + rewrite zlen_app. unfold zlen in *. rewrite length_drop. subst total. unfold kProtocolHeaderBytes in *. lia.
    + rewrite <-(app_nil_r msg). by apply decode_sent.
    + apply decode_sent; [done|done|by apply Forall_drop|done].
  - intros Hbad. rewrite encode_message_refused by done. eexists. split; [|done]. by destruct (_ <? _).
Qed.

Definition example_header : MessageHeader := mkMessageHeader 0 0 Opcode_GetStats 7 0 0 123456789.

Lemma example_header_ok : header_ok example_header.
Proof. by split. Qed.

Lemma encode_decode_roundtrip_witness :
  exists output', encode_message example_header [1; 2; 3] (replicate 30 0)
      = Some (mkEncodeResult ProtocolStatus_Ok 27, output') /\
    decode_message (take 27 output') = Some (mkDecodeResult ProtocolStatus_Ok
      (mkDecodedMessage (sent_header example_header [1; 2; 3]) [1; 2; 3])).
Proof.
  destruct (proj1 (encode_decode_roundtrip example_header [1; 2; 3] (replicate 30 0) example_header_ok
    ltac:(by repeat constructor) ltac:(by repeat constructor)) ltac:(done) ltac:(done))
    as (output' & H1 & _ & _ & H2 & _).
  exists output'. split; [exact H1|exact H2].
Defined.

(** C26: decoding is total and accepts encodings only.  On every byte string
    [decode_message] returns without reading outside of it; when it accepts, the
    string starts with exactly what [encode_message] writes for the decoded header and
    payload, so no two different messages share an encoding and none is accepted that
    could not have been sent. *)
Theorem decode_accepts_encodings input :
  Forall (fits 8) input ->
  exists r, decode_message input = Some r /\
  (dr_status r = ProtocolStatus_Ok ->
   let h := dm_header (dr_message r) in let payload := dm_payload (dr_message r) in
   let total := kProtocolHeaderBytes + zlen payload in
   header_ok h /\ mh_payload_length h = zlen payload /\ total <= zlen input /\
   encode_message h payload (take (Z.to_nat total) input)
     = Some (mkEncodeResult ProtocolStatus_Ok total, take (Z.to_nat total) input)).
Proof.
  intros Hf. destruct (decode_total input Hf) as [r Hr].
  exists r. split; [done|]. intros Hok h payload total.
  destruct (decode_accepted _ _ Hf Hr Hok) as (Hh & Hs & Hp & Hz & Hmax & E). fold h payload total in Hh, Hs, Hp, Hz, Hmax, E.
  set (rest := drop _ input) in E.
  assert (zlen (message_bytes h payload) = total) as Ht.
  { unfold total, message_bytes. by rewrite zlen_app, (zlen_length _ 24) by apply header_bytes_length. }
  assert (take (Z.to_nat total) input = message_bytes h payload) as Htake by (rewrite E; by apply take_app_zlen).
  split_and!; [done|done| |].
  - rewrite E, zlen_app. pose proof (zlen_nonneg rest). lia.
  - rewrite Htake, encode_message_spec, Hs by (done || (fold total; lia)). fold total.
    rewrite drop_ge, app_nil_r; [done|]. unfold zlen in Ht. lia.
Qed.

Lemma decode_accepts_encodings_witness :
  exists r, decode_message (message_bytes (sent_header example_header [9]) [9]) = Some r /\
    mh_payload_length (dm_header (dr_message r)) = 1.
Proof.
  destruct (decode_accepts_encodings (message_bytes (sent_header example_header [9]) [9])) as (r & Hr & Hok).
  { by vm_compute; repeat constructor. }
  exists r. split; [exact Hr|]. destruct Hok as (_ & -> & _);
    [vm_compute in Hr; by injection Hr as <-|vm_compute in Hr; by injection Hr as <-].
Defined.

Lemma length_field_insert l i b :
  ~ (8 <= i < 12)%nat -> length_field (<[i := b]> l) = length_field l.
Proof.
  intros Hi. unfold length_field. apply list_eq. intros j. destruct (decide (j < 4)%nat).
  - rewrite !lookup_take_lt, !lookup_drop by lia. by rewrite list_lookup_insert_ne by lia.
  - by rewrite !lookup_take_ge by lia.
Qed.

Lemma crc_field_insert l i b :
  ~ (12 <= i < 16)%nat -> crc_field (<[i := b]> l) = crc_field l.
Proof.
  intros Hi. unfold crc_field. apply list_eq. intros j. destruct (decide (j < 4)%nat).
  - rewrite !lookup_take_lt, !lookup_drop by lia. by rewrite list_lookup_insert_ne by lia.
  - by rewrite !lookup_take_ge by lia.
Qed.

Lemma crc_zeroed_insert_field l i b :
  (16 <= length l)%nat -> (12 <= i < 16)%nat -> crc_zeroed (<[i := b]> l) = crc_zeroed l.
Proof.
  intros Hl Hi. apply list_eq. intros j. rewrite !lookup_crc_zeroed by (rewrite ?length_insert; lia).
  case_decide; [done|]. by rewrite list_lookup_insert_ne by lia.
Qed.

Lemma crc_field_changed l i a b :
  (16 <= length l)%nat -> (12 <= i < 16)%nat -> l !! i = Some a ->
  crc_field (<[i := b]> l) = crc_field l -> b = a.
Proof.
  intros Hl Hi Ha E. assert (crc_field (<[i := b]> l) !! (i - 12)%nat = crc_field l !! (i - 12)%nat) as H by by rewrite E.
  unfold crc_field in H. rewrite !lookup_take_lt, !lookup_drop in H by lia.
  replace (12 + (i - 12))%nat with i in H by lia. rewrite list_lookup_insert_eq, Ha in H by lia. congruence.
Qed.

(** C27: the CRC catches every single-byte error.  If one byte of an encoded message is
    replaced by another value, anywhere but in the payload-length field, then
    [decode_message] does not accept the result: errors in the CRC field, the rest of the
    header and the payload are all detected. *)
Theorem decode_detects_byte_error header payload i a b :
  header_ok header -> Forall (fits 8) payload -> zlen payload <= kMaxControlPayloadBytes ->
  let message := message_bytes (sent_header header payload) payload in
  message !! i = Some a -> fits 8 b -> b <> a -> ~ (8 <= i < 12)%nat ->
  exists r, decode_message (<[i := b]> message) = Some r /\ dr_status r <> ProtocolStatus_Ok.
Proof.
  intros Hh Hp Hmax message Ha Hb Hne Hi. set (h := sent_header header payload) in *.
  pose proof (sent_header_ok _ _ Hh Hp Hmax) as Hhs. fold h in Hhs.
  assert (Forall (fits 8) message) as Hf.
  { apply Forall_app. split; [apply header_bytes_fits; apply Hhs|done]. }
  assert (length message = (24 + length payload)%nat) as Hlen
    by (unfold message, message_bytes; by rewrite length_app, header_bytes_length).
  assert (Forall (fits 8) (<[i := b]> message)) as Hf' by by apply Forall_insert.
  destruct (decode_total _ Hf') as [r Hr]. exists r. split; [done|]. intros Hok.
  destruct (message_fields h payload) as (Fz & Fc & Fl). fold message in Fz, Fc, Fl.
  assert (be_value (length_field (<[i := b]> message)) = zlen (<[i := b]> message) - kProtocolHeaderBytes) as Hl'.
  { rewrite length_field_insert, Fl, be_value_be_bytes, wrap_small by (done || apply Hhs).
    change (mh_payload_length h) with (zlen payload).
    unfold zlen, kProtocolHeaderBytes. rewrite length_insert. lia. }
  pose proof (accepted_crc _ _ Hf' Hr Hok Hl') as Hcrc.
  assert (be_value (crc_field message) = Z.lxor (crc_serial 0xFFFFFFFF (crc_zeroed message)) 0xFFFFFFFF) as Hcrc0.
  { rewrite Fc, Fz, be_value_be_bytes, wrap_small by apply Hhs. reflexivity. }
  destruct (decide (12 <= i < 16)%nat) as [Hin|Hout].
  - rewrite crc_zeroed_insert_field, <-Hcrc0 in Hcrc by lia. apply Hne.
    eapply crc_field_changed; [|done|done|]; [lia|].
    apply be_value_inj; [|by apply Forall_take, Forall_drop..|done].
    unfold crc_field. by rewrite !length_take, !length_drop, length_insert.
  - rewrite crc_field_insert, crc_zeroed_insert, Hcrc0 in Hcrc by (done || lia). apply Hne.
    rewrite !(Z.lxor_comm _ 0xFFFFFFFF) in Hcrc. apply lxor_cancel_l in Hcrc. symmetry in Hcrc.
    eapply crc_serial_insert; [| | | |apply Hcrc]; [done| |done|].
    + rewrite Fz. apply Forall_app. split; [apply header_bytes_fits; apply Hhs|done].
    + by rewrite lookup_crc_zeroed, decide_False by (done || lia).
Qed.

Lemma decode_detects_byte_error_witness :
  exists r, decode_message (<[24%nat := 8]> (message_bytes (sent_header example_header [9]) [9])) = Some r /\
    dr_status r <> ProtocolStatus_Ok.
Proof.
  apply (decode_detects_byte_error example_header [9] 24 9 8 example_header_ok);
    [by repeat constructor|done|done|done|done|lia].
Defined.
