(* ===== verification/ControlCore.v ===== *)
(** * [include/chronosx/protocol.hpp], second part: rule table and command handlers

    [RuleTable] as the array and the count it keeps, and [ControlCore], which answers
    requests.  The handlers copy [ChaosRule] and [StatUpdate] objects to and from the
    wire with [memcpy]: their object representation is that of a little-endian host
    with natural alignment (the build's x86-64), where [ChaosRule] has no padding and
    [StatUpdate] four bytes at its end, whose contents the language leaves open; they
    are the parameter [padding]. *)

From S2P Require Import Prelude Types PacketParser ChaosEngine Protocol.

(** ** Object representations *)

Definition le_bytes (n : nat) (x : Z) : list Byte := reverse (be_bytes n x).
Definition le_value (l : list Byte) : Z := be_value (reverse l).

Definition field_at (l : list Byte) (offset n : nat) : list Byte := take n (drop offset l).

Definition bytes_of_rule (r : ChaosRule) : list Byte :=
  le_bytes 8 (cr_seed r) ++ le_bytes 8 (cr_delay_ns r) ++ le_bytes 4 (cr_id r) ++ le_bytes 4 (cr_src_ip r) ++
  le_bytes 4 (cr_dst_ip r) ++ le_bytes 2 (cr_src_port r) ++ le_bytes 2 (cr_dst_port r) ++
  le_bytes 2 (cr_probability r) ++ [cr_protocol r] ++ [to_wire_value (cr_action r)] ++ [cr_enabled r] ++ cr_reserved r.

Definition rule_of_bytes (l : list Byte) : ChaosRule :=
  mkChaosRule (le_value (field_at l 0 8)) (le_value (field_at l 8 8)) (le_value (field_at l 16 4))
    (le_value (field_at l 20 4)) (le_value (field_at l 24 4)) (le_value (field_at l 28 2))
    (le_value (field_at l 30 2)) (le_value (field_at l 32 2)) (le_value (field_at l 34 1))
    (packet_action_of_byte (le_value (field_at l 35 1))) (le_value (field_at l 36 1)) (field_at l 37 3).

(** [sizeof(ChaosRule)], as the source asserts. *)
Definition sizeof_ChaosRule : Z := 40.

Definition bytes_of_stats (padding : list Byte) (s : StatUpdate) : list Byte :=
  le_bytes 8 (su_timestamp_cycles s) ++ le_bytes 8 (su_packets_seen s) ++ le_bytes 8 (su_packets_dropped s) ++
  le_bytes 8 (su_bytes_seen s) ++ le_bytes 8 (su_average_latency_ns s) ++ [to_wire_value (su_last_action s)] ++
  [su_reserved0 s] ++ le_bytes 2 (su_reserved1 s) ++ padding.

(** The bytes of a string literal. *)
Definition string_bytes (s : string) : list Byte :=
  map (fun c => Z.of_nat (Ascii.nat_of_ascii c)) (String.list_ascii_of_string s).

(** ** [RuleTable] *)

Record RuleTable := mkRuleTable {
  rt_rules_ : list ChaosRule;
  rt_count_ : Z;
}.

Record ControlResponse := mkControlResponse {
  rsp_status : ProtocolStatus;
  rsp_opcode : Opcode;
  rsp_bytes_written : Z;
}.

Record ControlCore := mkControlCore {
  cc_rule_table_ : RuleTable;
  cc_latest_stats_ : StatUpdate;
  cc_have_stats_ : bool;
}.

Section ControlCore.
Context (MaxRules : Z) (padding : list Byte).

Definition RuleTable_default : RuleTable :=
  mkRuleTable (replicate (Z.to_nat MaxRules) ChaosRule_default) 0.

Definition rt_add (t : RuleTable) (rule : ChaosRule) : option (ProtocolStatus * RuleTable) :=
  if MaxRules <=? rt_count_ t then Some (ProtocolStatus_RuleTableFull, t)
  else
    rules ← (rt_rules_ t).[rt_count_ t <- rule];
    Some (ProtocolStatus_Ok, mkRuleTable rules (u64 (rt_count_ t + 1))).

(** The loop of [remove_at] from [current] on, with [n] iterations left. *)
Fixpoint rt_shift_loop (n : nat) (rules : list ChaosRule) (current : Z) : option (list ChaosRule) :=
  match n with
  | O => Some rules
  | S n =>
      rule ← rules.[current];
      rules ← rules.[current - 1 <- rule];
      rt_shift_loop n rules (current + 1)
  end.

Definition rt_remove_at (t : RuleTable) (index : Z) : option (ProtocolStatus * RuleTable) :=
  if rt_count_ t <=? index then Some (ProtocolStatus_RuleIndexOutOfRange, t)
  else
    rules ← rt_shift_loop (Z.to_nat (rt_count_ t - (index + 1))) (rt_rules_ t) (index + 1);
    let count := u64 (rt_count_ t - 1) in
    rules ← rules.[count <- ChaosRule_default];
    Some (ProtocolStatus_Ok, mkRuleTable rules count).

Fixpoint rt_clear_loop (n : nat) (rules : list ChaosRule) (index : Z) : option (list ChaosRule) :=
  match n with
  | O => Some rules
  | S n => rules ← rules.[index <- ChaosRule_default]; rt_clear_loop n rules (index + 1)
  end.

Definition rt_clear (t : RuleTable) : option RuleTable :=
  rules ← rt_clear_loop (Z.to_nat (rt_count_ t)) (rt_rules_ t) 0;
  Some (mkRuleTable rules 0).

(** The span [{rules_.data(), count_}]. *)
Definition rt_rules (t : RuleTable) : list ChaosRule := take (Z.to_nat (rt_count_ t)) (rt_rules_ t).

Definition rt_size (t : RuleTable) : Z := rt_count_ t.

(** ** [ControlCore]

    A handler returns the response record, the response span's new contents and, if it
    changes it, the core. *)

Definition ControlCore_default : ControlCore := mkControlCore RuleTable_default StatUpdate_default false.

Definition reply_header (opcode : Opcode) (sequence : Z) : MessageHeader :=
  mkMessageHeader kProtocolMagic kProtocolVersion opcode sequence 0 0 0.

Definition encode_empty (opcode : Opcode) (sequence : Z) (response : list Byte)
    : option (ControlResponse * list Byte) :=
  '(encoded, response) ← encode_message (reply_header opcode sequence) [] response;
  Some (mkControlResponse (er_status encoded) opcode (er_bytes_written encoded), response).

Definition encode_payload (opcode : Opcode) (sequence : Z) (payload response : list Byte)
    : option (ControlResponse * list Byte) :=
  '(encoded, response) ← encode_message (reply_header opcode sequence) payload response;
  Some (mkControlResponse (er_status encoded) opcode (er_bytes_written encoded), response).

Definition encode_error (status : ProtocolStatus) (sequence : Z) (response : list Byte)
    : option (ControlResponse * list Byte) :=
  let payload := string_bytes (protocol_status_name status) in
  '(encoded, response) ← encode_message (reply_header Opcode_Error sequence) payload response;
  Some (mkControlResponse status Opcode_Error (er_bytes_written encoded), response).

Definition handle_get_stats (core : ControlCore) (sequence : Z) (response : list Byte)
    : option (ControlResponse * list Byte) :=
  let stats := if cc_have_stats_ core then cc_latest_stats_ core else StatUpdate_default in
  encode_payload Opcode_StatsResponse sequence (bytes_of_stats padding stats) response.

Definition cc_set_table (core : ControlCore) (table : RuleTable) : ControlCore :=
  mkControlCore table (cc_latest_stats_ core) (cc_have_stats_ core).

Definition handle_add_rule (core : ControlCore) (message : DecodedMessage) (response : list Byte)
    : option (ControlResponse * list Byte * ControlCore) :=
  let sequence := mh_sequence (dm_header message) in
  if negb (zlen (dm_payload message) =? sizeof_ChaosRule) then
    '(r, response) ← encode_error ProtocolStatus_InvalidPayload sequence response;
    Some (r, response, core)
  else
    let rule := rule_of_bytes (dm_payload message) in
    '(status, table) ← rt_add (cc_rule_table_ core) rule;
    let core := cc_set_table core table in
    if negb (status =?? ProtocolStatus_Ok) then
      '(r, response) ← encode_error status sequence response;
      Some (r, response, core)
    else
      '(r, response) ← encode_empty Opcode_Pong sequence response;
      Some (r, response, core).

Definition handle_remove_rule (core : ControlCore) (message : DecodedMessage) (response : list Byte)
    : option (ControlResponse * list Byte * ControlCore) :=
  let sequence := mh_sequence (dm_header message) in
  if negb (zlen (dm_payload message) =? 4) then
    '(r, response) ← encode_error ProtocolStatus_InvalidPayload sequence response;
    Some (r, response, core)
  else
    index ← read_u32_be (dm_payload message) 0;
    '(status, table) ← rt_remove_at (cc_rule_table_ core) index;
    let core := cc_set_table core table in
    if negb (status =?? ProtocolStatus_Ok) then
      '(r, response) ← encode_error status sequence response;
      Some (r, response, core)
    else
      '(r, response) ← encode_empty Opcode_Pong sequence response;
      Some (r, response, core).

Definition handle_list_rules (core : ControlCore) (sequence : Z) (response : list Byte)
    : option (ControlResponse * list Byte) :=
  let payload := mjoin (bytes_of_rule <$> rt_rules (cc_rule_table_ core)) in
  encode_payload Opcode_RulesResponse sequence payload response.

(** A handler that leaves the core as it is. *)
Definition keeping (core : ControlCore) (m : option (ControlResponse * list Byte))
    : option (ControlResponse * list Byte * ControlCore) :=
  '(r, response) ← m; Some (r, response, core).

Definition handle (core : ControlCore) (request response : list Byte)
    : option (ControlResponse * list Byte * ControlCore) :=
  decoded ← decode_message request;
  if negb (dr_status decoded =?? ProtocolStatus_Ok) then keeping core (encode_error (dr_status decoded) 0 response)
  else
    let message := dr_message decoded in
    let sequence := mh_sequence (dm_header message) in
    match mh_opcode (dm_header message) with
    | Opcode_Ping => keeping core (encode_empty Opcode_Pong sequence response)
    | Opcode_GetStats => keeping core (handle_get_stats core sequence response)
    | Opcode_AddRule => handle_add_rule core message response
    | Opcode_RemoveRule => handle_remove_rule core message response
    | Opcode_ClearRules =>
        table ← rt_clear (cc_rule_table_ core);
        keeping (cc_set_table core table) (encode_empty Opcode_Pong sequence response)
    | Opcode_ListRules => keeping core (handle_list_rules core sequence response)
    | _ => keeping core (encode_error ProtocolStatus_UnknownOpcode sequence response)
    end.

Definition publish_stats (core : ControlCore) (update : StatUpdate) : ControlCore :=
  mkControlCore (cc_rule_table_ core) update true.

Definition cc_rules (core : ControlCore) : list ChaosRule := rt_rules (cc_rule_table_ core).

Definition cc_rule_count (core : ControlCore) : Z := rt_size (cc_rule_table_ core).

End ControlCore.

(** ** Object representations are faithful *)

Lemma le_bytes_length n x : length (le_bytes n x) = n.
Proof. unfold le_bytes. by rewrite length_reverse, be_bytes_length. Qed.

Lemma le_bytes_fits n x : Forall (fits 8) (le_bytes n x).
Proof. unfold le_bytes. apply Forall_reverse, be_bytes_fits. Qed.

Lemma le_value_le_bytes n x : le_value (le_bytes n x) = wrap (8 * Z.of_nat n) x.
Proof. unfold le_value, le_bytes. by rewrite reverse_involutive, be_value_be_bytes. Qed.

Lemma le_bytes_le_value n l : length l = n -> Forall (fits 8) l -> le_bytes n (le_value l) = l.
Proof.
  intros Hn Hl. unfold le_value, le_bytes. rewrite (be_bytes_field n (reverse l)).
  - apply reverse_involutive.
  - by rewrite length_reverse.
  - by apply Forall_reverse.
Qed.

Lemma le_value_fits l : Forall (fits 8) l -> fits (8 * Z.of_nat (length l)) (le_value l).
Proof. intros Hl. unfold le_value. rewrite <-length_reverse. apply be_value_fits. by apply Forall_reverse. Qed.

Record rule_ok (r : ChaosRule) : Prop := {
  ro_seed : fits 64 (cr_seed r);
  ro_delay : fits 64 (cr_delay_ns r);
  ro_id : fits 32 (cr_id r);
  ro_src_ip : fits 32 (cr_src_ip r);
  ro_dst_ip : fits 32 (cr_dst_ip r);
  ro_src_port : fits 16 (cr_src_port r);
  ro_dst_port : fits 16 (cr_dst_port r);
  ro_probability : fits 16 (cr_probability r);
  ro_protocol : fits 8 (cr_protocol r);
  ro_action : PacketAction_wf (cr_action r);
  ro_enabled : fits 8 (cr_enabled r);
  ro_reserved : length (cr_reserved r) = 3%nat /\ Forall (fits 8) (cr_reserved r);
}.

Lemma to_wire_value_fits a : PacketAction_wf a -> fits 8 (to_wire_value a).
Proof. destruct a; simpl; unfold fits; lia. Qed.

Lemma bytes_of_rule_fits r : rule_ok r -> Forall (fits 8) (bytes_of_rule r).
Proof.
  intros []. unfold bytes_of_rule. rewrite !Forall_app.
  split_and!; auto using le_bytes_fits; try (constructor; [|done]); auto using to_wire_value_fits; tauto.
Qed.

Lemma bytes_of_rule_length r : length (cr_reserved r) = 3%nat -> length (bytes_of_rule r) = 40%nat.
Proof. intros H. unfold bytes_of_rule. rewrite !length_app, !le_bytes_length, H. done. Qed.

(** The bytes of a [ListRules] reply: 40 per rule. *)
Lemma rules_bytes_length rules :
  Forall rule_ok rules -> length (mjoin (bytes_of_rule <$> rules)) = (40 * length rules)%nat.
Proof.
  induction 1 as [|r rules Hr _ IH]; [done|].
  change (mjoin (bytes_of_rule <$> (r :: rules))) with (bytes_of_rule r ++ mjoin (bytes_of_rule <$> rules)).
  rewrite length_app, bytes_of_rule_length, IH by apply (ro_reserved _ Hr). cbn [length]. lia.
Qed.

Lemma le_value_singleton b : fits 8 b -> le_value [b] = b.
Proof. intros _. unfold le_value, be_value. simpl. lia. Qed.

Lemma rule_of_bytes_of_rule r : rule_ok r -> rule_of_bytes (bytes_of_rule r) = r.
Proof.
  intros Hr. pose proof (ro_reserved r Hr) as [Hres _]. unfold rule_of_bytes.
  change (field_at (bytes_of_rule r) 0 8) with (le_bytes 8 (cr_seed r)).
  change (field_at (bytes_of_rule r) 8 8) with (le_bytes 8 (cr_delay_ns r)).
  change (field_at (bytes_of_rule r) 16 4) with (le_bytes 4 (cr_id r)).
  change (field_at (bytes_of_rule r) 20 4) with (le_bytes 4 (cr_src_ip r)).
  change (field_at (bytes_of_rule r) 24 4) with (le_bytes 4 (cr_dst_ip r)).
  change (field_at (bytes_of_rule r) 28 2) with (le_bytes 2 (cr_src_port r)).
  change (field_at (bytes_of_rule r) 30 2) with (le_bytes 2 (cr_dst_port r)).
  change (field_at (bytes_of_rule r) 32 2) with (le_bytes 2 (cr_probability r)).
  change (field_at (bytes_of_rule r) 34 1) with [cr_protocol r].
  change (field_at (bytes_of_rule r) 35 1) with [to_wire_value (cr_action r)].
  change (field_at (bytes_of_rule r) 36 1) with [cr_enabled r].
  change (field_at (bytes_of_rule r) 37 3) with (take 3 (cr_reserved r)).
  destruct Hr. rewrite !le_value_le_bytes, !wrap_small, !le_value_singleton, take_ge, packet_action_of_to_wire
    by (done || lia || by apply to_wire_value_fits). by destruct r.
Qed.

Lemma rule_of_bytes_ok l : length l = 40%nat -> Forall (fits 8) l -> rule_ok (rule_of_bytes l).
Proof.
  intros Hl Hf.
  assert (forall o n, (o + n <= 40)%nat -> fits (8 * Z.of_nat n) (le_value (field_at l o n))) as Hv.
  { intros o n Ho. rewrite <-(length_take_le (drop o l) n) at 1 by (rewrite length_drop; lia).
    apply le_value_fits. by apply Forall_take, Forall_drop. }
  split; simpl; try (apply (Hv _ 8%nat); lia); try (apply (Hv _ 4%nat); lia); try (apply (Hv _ 2%nat); lia);
    try (apply (Hv _ 1%nat); lia).
  - apply packet_action_of_byte_wf. apply (Hv _ 1%nat). lia.
  - split; [|by apply Forall_take, Forall_drop]. unfold field_at. rewrite length_take, length_drop. lia.
Qed.

Lemma field_at_app l o n m : field_at l o n ++ field_at l (o + n) m = field_at l o (n + m).
Proof. unfold field_at. rewrite <-drop_drop. apply take_take_drop. Qed.

Lemma field_at_singleton l o : length l = 40%nat -> (o < 40)%nat -> Forall (fits 8) l ->
  [le_value (field_at l o 1)] = field_at l o 1.
Proof.
  intros Hl Ho Hf. assert (length (field_at l o 1) = 1%nat) as H1
    by (unfold field_at; rewrite length_take, length_drop; lia).
  assert (Forall (fits 8) (field_at l o 1)) as Hf1 by by apply Forall_take, Forall_drop.
  destruct (field_at l o 1) as [|b [|]]; try discriminate H1. rewrite Forall_singleton in Hf1.
  by rewrite le_value_singleton.
Qed.

Lemma bytes_of_rule_of_bytes l :
  length l = 40%nat -> Forall (fits 8) l -> bytes_of_rule (rule_of_bytes l) = l.
Proof.
  intros Hl Hf. unfold bytes_of_rule, rule_of_bytes.
  cbn [cr_seed cr_delay_ns cr_id cr_src_ip cr_dst_ip cr_src_port cr_dst_port cr_probability cr_protocol cr_action
       cr_enabled cr_reserved].
  rewrite packet_action_to_of_wire, !field_at_singleton by (done || lia).
  rewrite !le_bytes_le_value by (try (by apply Forall_take, Forall_drop);
    unfold field_at; rewrite length_take, length_drop; lia).
  rewrite !field_at_app. unfold field_at. rewrite drop_0. apply take_ge. lia.
Qed.

(** ** The rule table is a bounded list *)

Section table.
Context (MaxRules : Z).
Hypothesis MaxRules_pos : 0 < MaxRules.
Hypothesis MaxRules_fits : MaxRules < 2 ^ 64.

(** The table holds [l], and every entry past it is the default rule. *)
Definition rt_repr (t : RuleTable) (l : list ChaosRule) : Prop :=
  zlen l <= MaxRules /\ rt_count_ t = zlen l /\
  rt_rules_ t = l ++ replicate (Z.to_nat (MaxRules - zlen l)) ChaosRule_default.

Lemma RuleTable_default_repr : rt_repr (RuleTable_default MaxRules) [].
Proof. split; [rewrite zlen_nil; lia|]. split; [done|]. simpl. do 2 f_equal. rewrite zlen_nil. lia. Qed.

Lemma rt_repr_rules t l : rt_repr t l -> rt_rules t = l.
Proof. intros (_ & Hc & Hr). unfold rt_rules. rewrite Hc, Hr. by apply take_app_zlen. Qed.

Lemma rt_add_spec t l rule :
  rt_repr t l ->
  if bool_decide (zlen l < MaxRules)
  then exists t', rt_add MaxRules t rule = Some (ProtocolStatus_Ok, t') /\ rt_repr t' (l ++ [rule])
  else rt_add MaxRules t rule = Some (ProtocolStatus_RuleTableFull, t).
Proof.
  intros (Hle & Hc & Hr). pose proof (zlen_nonneg l). unfold rt_add. rewrite Hc.
  case_bool_decide as Hlt; destruct (Z.leb_spec MaxRules (zlen l)); try lia; [|done].
  rewrite Hr. replace (Z.to_nat (MaxRules - zlen l)) with (S (Z.to_nat (MaxRules - (zlen l + 1)))) by lia.
  cbn [replicate]. rewrite aset_middle by done. cbn [mbind option_bind]. eexists. split; [done|].
  rewrite wrap_small by (unfold fits; lia). unfold rt_repr. cbn [rt_rules_ rt_count_].
  rewrite zlen_app, zlen_cons, zlen_nil, <-app_assoc, Z.add_0_r. split_and!; [lia|done|done].
Qed.

Lemma rt_shift_loop_spec l1 y l2 tail :
  exists z, rt_shift_loop (length l2) (l1 ++ y :: l2 ++ tail) (zlen l1 + 1) = Some (l1 ++ l2 ++ z :: tail).
Proof.
  revert l1 y. induction l2 as [|b l2 IH]; intros l1 y; [by exists y|]. cbn [length rt_shift_loop].
  rewrite aget_app_r by lia. change ((y :: (b :: l2) ++ tail).[1]) with (Some b). cbn [mbind option_bind].
  rewrite Z.add_simpl_r, aset_middle by done. cbn [mbind option_bind].
  destruct (IH (l1 ++ [b]) b) as [z Hz]. exists z. rewrite zlen_app, zlen_cons, zlen_nil, Z.add_0_r in Hz.
  rewrite <-!app_assoc in Hz. exact Hz.
Qed.

Lemma rt_remove_at_spec t l index :
  rt_repr t l -> 0 <= index ->
  if bool_decide (index < zlen l)
  then exists t', rt_remove_at t index = Some (ProtocolStatus_Ok, t') /\ rt_repr t' (delete (Z.to_nat index) l)
  else rt_remove_at t index = Some (ProtocolStatus_RuleIndexOutOfRange, t).
Proof.
  intros (Hle & Hc & Hr) Hi. unfold rt_remove_at. rewrite Hc.
  case_bool_decide as Hlt; destruct (Z.leb_spec (zlen l) index); try lia; [|done].
  destruct (lookup_lt_is_Some_2 l (Z.to_nat index)) as [y Hy]; [unfold zlen in *; lia|].
  pose proof (take_drop_middle _ _ _ Hy) as E. pose proof (lookup_lt_Some _ _ _ Hy).
  set (l1 := take (Z.to_nat index) l) in *. set (l2 := drop (S (Z.to_nat index)) l) in *.
  assert (zlen l1 = index) as H1 by (unfold l1, zlen; rewrite length_take; lia).
  assert (zlen l = index + 1 + zlen l2) as Hl by (rewrite <-E, zlen_app, zlen_cons; lia).
  set (tail := replicate (Z.to_nat (MaxRules - zlen l)) ChaosRule_default) in Hr.
  assert (rt_rules_ t = l1 ++ y :: l2 ++ tail) as Hr' by (rewrite Hr, <-E; by rewrite <-app_assoc).
  rewrite Hr'. replace (Z.to_nat (zlen l - (index + 1))) with (length l2) by (unfold zlen in *; lia).
  destruct (rt_shift_loop_spec l1 y l2 tail) as [z Hz]. rewrite H1 in Hz. rewrite Hz. cbn [mbind option_bind].
  pose proof (zlen_nonneg l2). rewrite (wrap_small 64) by (unfold fits; lia).
  rewrite (app_assoc l1), aset_middle by (rewrite zlen_app; lia). cbn [mbind option_bind]. eexists. split; [done|].
  rewrite delete_take_drop. fold l1 l2. unfold rt_repr. cbn [rt_rules_ rt_count_]. rewrite zlen_app.
  split_and!; [lia|lia|]. f_equal. unfold tail.
  replace (Z.to_nat (MaxRules - (zlen l1 + zlen l2))) with (S (Z.to_nat (MaxRules - zlen l))) by lia. done.
Qed.

Lemma rt_clear_loop_spec pre l tail :
  rt_clear_loop (length l) (pre ++ l ++ tail) (zlen pre)
  = Some (pre ++ replicate (length l) ChaosRule_default ++ tail).
Proof.
  revert pre. induction l as [|x l IH]; intros pre; [done|]. cbn [length rt_clear_loop app].
  rewrite aset_middle by done. cbn [mbind option_bind].
  specialize (IH (pre ++ [ChaosRule_default])). rewrite zlen_app, zlen_cons, zlen_nil, Z.add_0_r in IH.
  rewrite <-!app_assoc in IH. exact IH.
Qed.

Lemma rt_clear_spec t l : rt_repr t l -> exists t', rt_clear t = Some t' /\ rt_repr t' [].
Proof.
  intros (Hle & Hc & Hr). unfold rt_clear. rewrite Hc, Hr.
  replace (Z.to_nat (zlen l)) with (length l) by (unfold zlen; lia).
  pose proof (rt_clear_loop_spec [] l (replicate (Z.to_nat (MaxRules - zlen l)) ChaosRule_default)) as Hloop.
  cbn [app] in Hloop. rewrite zlen_nil in Hloop. rewrite Hloop. cbn [mbind option_bind]. eexists. split; [done|].
  split; [rewrite zlen_nil; lia|]. split; [done|]. cbn [rt_rules_]. rewrite <-replicate_add, zlen_nil. cbn [app].
  f_equal. unfold zlen in *. lia.
Qed.

(** ** Runs of the table *)

Inductive TableOp := OpAdd (rule : ChaosRule) | OpRemoveAt (index : Z) | OpClear.

Definition table_apply (t : RuleTable) (o : TableOp) : option (ProtocolStatus * RuleTable) :=
  match o with
  | OpAdd rule => rt_add MaxRules t rule
  | OpRemoveAt index => rt_remove_at t index
  | OpClear => t ← rt_clear t; Some (ProtocolStatus_Ok, t)
  end.

Fixpoint table_run (t : RuleTable) (ops : list TableOp) : option (list ProtocolStatus * RuleTable) :=
  match ops with
  | [] => Some ([], t)
  | o :: ops =>
      '(s, t) ← table_apply t o;
      '(ss, t) ← table_run t ops;
      Some (s :: ss, t)
  end.

(** The specification: a list of at most [MaxRules] rules. *)
Definition rules_apply (l : list ChaosRule) (o : TableOp) : ProtocolStatus * list ChaosRule :=
  match o with
  | OpAdd rule => if bool_decide (zlen l < MaxRules) then (ProtocolStatus_Ok, l ++ [rule])
                  else (ProtocolStatus_RuleTableFull, l)
  | OpRemoveAt index => if bool_decide (index < zlen l) then (ProtocolStatus_Ok, delete (Z.to_nat index) l)
                        else (ProtocolStatus_RuleIndexOutOfRange, l)
  | OpClear => (ProtocolStatus_Ok, [])
  end.

Fixpoint rules_run (l : list ChaosRule) (ops : list TableOp) : list ProtocolStatus * list ChaosRule :=
  match ops with
  | [] => ([], l)
  | o :: ops =>
      let '(s, l) := rules_apply l o in
      let '(ss, l) := rules_run l ops in
      (s :: ss, l)
  end.

Definition table_op_ok (o : TableOp) : Prop := match o with OpRemoveAt index => 0 <= index | _ => True end.

Lemma table_apply_refines t l o :
  rt_repr t l -> table_op_ok o ->
  exists t', table_apply t o = Some ((rules_apply l o).1, t') /\ rt_repr t' (rules_apply l o).2.
Proof.
  intros Hr Ho. destruct o as [rule|index|]; simpl in *.
  - pose proof (rt_add_spec t l rule Hr) as H. case_bool_decide; [done|]. rewrite H. eauto.
  - pose proof (rt_remove_at_spec t l index Hr Ho) as H. case_bool_decide; [done|]. rewrite H. eauto.
  - destruct (rt_clear_spec t l Hr) as (t' & -> & Hr'). simpl. eauto.
Qed.

Lemma table_run_refines t l ops :
  rt_repr t l -> Forall table_op_ok ops ->
  exists t', table_run t ops = Some ((rules_run l ops).1, t') /\ rt_repr t' (rules_run l ops).2.
Proof.
  revert t l. induction ops as [|o ops IH]; intros t l Hr Hok; simpl; [eauto|].
  apply Forall_cons in Hok as [Ho Hok]. destruct (table_apply_refines t l o Hr Ho) as (t1 & -> & H1). simpl.
  destruct (rules_apply l o) as [s l1]. simpl in *. destruct (IH t1 l1 H1 Hok) as (t2 & -> & H2). simpl.
  destruct (rules_run l1 ops). eauto.
Qed.

(** C35: the rule table is a bounded list.  Every sequence of [add], [remove_at] and
    [clear] calls on a fresh [RuleTable] stays inside of its array, answers what the
    operations on a list of at most [MaxRules] rules answer ([remove_at] keeps the order
    of the others), leaves [rules()] equal to that list, and resets every entry past it
    to the default rule. *)
Theorem rule_table_refines_list ops :
  Forall table_op_ok ops ->
  exists t', table_run (RuleTable_default MaxRules) ops = Some ((rules_run [] ops).1, t') /\
    rt_rules t' = (rules_run [] ops).2 /\ rt_size t' = zlen (rules_run [] ops).2 /\
    zlen (rules_run [] ops).2 <= MaxRules /\
    drop (Z.to_nat (rt_size t')) (rt_rules_ t')
      = replicate (Z.to_nat (MaxRules - rt_size t')) ChaosRule_default.
Proof.
  intros Hok. destruct (table_run_refines _ [] ops RuleTable_default_repr Hok) as (t' & Hrun & Hr).
  exists t'. pose proof (rt_repr_rules _ _ Hr). destruct Hr as (Hle & Hc & Hr).
  split_and!; [done|done|done|done|]. unfold rt_size. rewrite Hc, Hr. by apply drop_app_zlen.
Qed.

End table.

Lemma rule_table_refines_list_witness :
  exists t', table_run 2 (RuleTable_default 2)
      [OpAdd example_rule; OpAdd ChaosRule_default; OpAdd example_rule; OpRemoveAt 0; OpRemoveAt 7]
    = Some ([ProtocolStatus_Ok; ProtocolStatus_Ok; ProtocolStatus_RuleTableFull; ProtocolStatus_Ok;
             ProtocolStatus_RuleIndexOutOfRange], t') /\ rt_rules t' = [ChaosRule_default].
Proof.
  destruct (rule_table_refines_list 2 ltac:(done) ltac:(done)
    [OpAdd example_rule; OpAdd ChaosRule_default; OpAdd example_rule; OpRemoveAt 0; OpRemoveAt 7])
    as (t' & Hrun & Hrules & _); [by repeat constructor|].
  exists t'. split; [exact Hrun|exact Hrules].
Defined.

(** ** What a request does *)

Lemma string_bytes_fits s : Forall (fits 8) (string_bytes s).
Proof.
  unfold string_bytes. apply Forall_fmap, Forall_forall. intros c _. unfold fits. simpl.
  pose proof (Ascii.nat_ascii_bounded c). lia.
Qed.

(** The reply [opcode], [sequence], [payload] is in the response span, or nothing is
    and the status says why. *)
Definition delivered (status : ProtocolStatus) (opcode : Opcode) (sequence : Z) (payload : list Byte)
    (response : list Byte) (rsp : ControlResponse) (response' : list Byte) : Prop :=
  let total := kProtocolHeaderBytes + zlen payload in
  rsp_opcode rsp = opcode /\ (zlen response' = zlen response /\ Forall (fits 8) response') /\
  if bool_decide (zlen payload <= kMaxControlPayloadBytes /\ total <= zlen response) then
    rsp_status rsp = status /\ rsp_bytes_written rsp = total /\
    exists h, decode_message (take (Z.to_nat total) response')
                = Some (mkDecodeResult ProtocolStatus_Ok (mkDecodedMessage h payload)) /\
      mh_opcode h = opcode /\ mh_sequence h = sequence
  else
    response' = response /\ rsp_bytes_written rsp = 0 /\ rsp_status rsp <> ProtocolStatus_Ok /\
    (status <> ProtocolStatus_Ok -> rsp_status rsp = status).

Lemma reply_header_ok opcode sequence : Opcode_wf opcode -> fits 32 sequence -> header_ok (reply_header opcode sequence).
Proof. intros Ho Hs. by split. Qed.

Lemma encode_reply opcode sequence payload response :
  Opcode_wf opcode -> fits 32 sequence -> Forall (fits 8) payload -> Forall (fits 8) response ->
  exists encoded response', encode_message (reply_header opcode sequence) payload response = Some (encoded, response') /\
    forall status, delivered status opcode sequence payload response
      (mkControlResponse (if status =?? ProtocolStatus_Ok then er_status encoded else status) opcode
         (er_bytes_written encoded)) response'.
Proof.
  intros Ho Hs Hp Hr. pose proof (reply_header_ok _ _ Ho Hs) as Hh. pose proof (zlen_nonneg payload) as Hnn.
  unfold delivered. case_bool_decide as Hfit.
  - destruct Hfit as [Hmax Hroom]. rewrite encode_message_spec by done. do 2 eexists. split; [done|]. intros status.
    set (msg := message_bytes _ _).
    assert (zlen msg = kProtocolHeaderBytes + zlen payload) as Hz.
    { subst msg. unfold message_bytes. by rewrite zlen_app, (zlen_length _ 24) by apply header_bytes_length. }
    rewrite take_app_zlen by done. split; [done|]. split.
    { split.
      - rewrite zlen_app. unfold zlen in *. rewrite length_drop. unfold kProtocolHeaderBytes in *. lia.
      - apply Forall_app. split; [|by apply Forall_drop]. apply Forall_app. split; [|done].
        apply header_bytes_fits; apply (sent_header_ok _ _ Hh Hp Hmax). }
    split; [cbn; by case_bool_decide|]. split; [done|].
    eexists. split; [rewrite <-(app_nil_r msg); by apply decode_sent|done].
  - rewrite encode_message_refused by lia. do 2 eexists. split; [done|]. intros status. cbn [er_status er_bytes_written].
    split_and!; [done..| |]; cbn; case_bool_decide; try done. by destruct (_ <? _).
Qed.

Lemma encode_payload_delivered opcode sequence payload response :
  Opcode_wf opcode -> fits 32 sequence -> Forall (fits 8) payload -> Forall (fits 8) response ->
  exists rsp response', encode_payload opcode sequence payload response = Some (rsp, response') /\
    delivered ProtocolStatus_Ok opcode sequence payload response rsp response'.
Proof.
  intros Ho Hs Hp Hr. destruct (encode_reply _ _ _ _ Ho Hs Hp Hr) as (e & r & He & Hd).
  unfold encode_payload. rewrite He. cbn [mbind option_bind]. do 2 eexists. split; [done|]. apply (Hd ProtocolStatus_Ok).
Qed.

Lemma encode_error_delivered status sequence response :
  status <> ProtocolStatus_Ok -> fits 32 sequence -> Forall (fits 8) response ->
  exists rsp response', encode_error status sequence response = Some (rsp, response') /\
    delivered status Opcode_Error sequence (string_bytes (protocol_status_name status)) response rsp response'.
Proof.
  intros Hne Hs Hr.
  destruct (encode_reply Opcode_Error sequence (string_bytes (protocol_status_name status)) response)
    as (e & r & He & Hd); [done|done|apply string_bytes_fits|done|].
  unfold encode_error. rewrite He. cbn [mbind option_bind]. do 2 eexists. split; [done|].
  specialize (Hd status). by rewrite bool_decide_false in Hd.
Qed.

(** The abstract reply to a request. *)
Record Reply := mkReply {
  rp_status : ProtocolStatus;
  rp_opcode : Opcode;
  rp_sequence : Z;
  rp_payload : list Byte;
}.

Definition error_reply (status : ProtocolStatus) (sequence : Z) : Reply :=
  mkReply status Opcode_Error sequence (string_bytes (protocol_status_name status)).

Section core.
Context (MaxRules : Z) (padding : list Byte).
Hypothesis MaxRules_pos : 0 < MaxRules.
Hypothesis MaxRules_fits : MaxRules < 2 ^ 64.
Hypothesis padding_bytes : Forall (fits 8) padding.

(** The specification of [ControlCore::handle], on a list of rules. *)
Definition core_reply (rules : list ChaosRule) (stats : StatUpdate) (decoded : DecodeResult)
    : Reply * list ChaosRule :=
  let payload := dm_payload (dr_message decoded) in
  let sequence := mh_sequence (dm_header (dr_message decoded)) in
  let done := mkReply ProtocolStatus_Ok Opcode_Pong sequence [] in
  if bool_decide (dr_status decoded <> ProtocolStatus_Ok) then (error_reply (dr_status decoded) 0, rules)
  else match mh_opcode (dm_header (dr_message decoded)) with
  | Opcode_Ping => (done, rules)
  | Opcode_GetStats =>
      (mkReply ProtocolStatus_Ok Opcode_StatsResponse sequence (bytes_of_stats padding stats), rules)
  | Opcode_AddRule =>
      if bool_decide (zlen payload <> sizeof_ChaosRule) then (error_reply ProtocolStatus_InvalidPayload sequence, rules)
      else if bool_decide (zlen rules < MaxRules) then (done, rules ++ [rule_of_bytes payload])
      else (error_reply ProtocolStatus_RuleTableFull sequence, rules)
  | Opcode_RemoveRule =>
      if bool_decide (zlen payload <> 4) then (error_reply ProtocolStatus_InvalidPayload sequence, rules)
      else if bool_decide (be_value payload < zlen rules) then (done, delete (Z.to_nat (be_value payload)) rules)
      else (error_reply ProtocolStatus_RuleIndexOutOfRange sequence, rules)
  | Opcode_ClearRules => (done, [])
  | Opcode_ListRules =>
      (mkReply ProtocolStatus_Ok Opcode_RulesResponse sequence (mjoin (bytes_of_rule <$> rules)), rules)
  | _ => (error_reply ProtocolStatus_UnknownOpcode sequence, rules)
  end.

Record stats_ok (s : StatUpdate) : Prop := {
  so_action : PacketAction_wf (su_last_action s);
  so_reserved0 : fits 8 (su_reserved0 s);
}.

(** The core holds [rules] and answers [GetStats] with [stats]. *)
Record core_repr (core : ControlCore) (rules : list ChaosRule) (stats : StatUpdate) : Prop := {
  cr_table : rt_repr MaxRules (cc_rule_table_ core) rules;
  cr_rules_ok : Forall rule_ok rules;
  cr_stats : stats = if cc_have_stats_ core then cc_latest_stats_ core else StatUpdate_default;
  cr_stats_ok : stats_ok stats;
}.

Lemma ControlCore_default_repr : core_repr (ControlCore_default MaxRules) [] StatUpdate_default.
Proof. split; [by apply RuleTable_default_repr|done|done|done]. Qed.

Lemma bytes_of_stats_fits s : stats_ok s -> Forall (fits 8) (bytes_of_stats padding s).
Proof.
  intros []. unfold bytes_of_stats. rewrite !Forall_app.
  split_and!; auto using le_bytes_fits; (constructor; [|done]); auto using to_wire_value_fits.
Qed.

Lemma rules_bytes_fits rules : Forall rule_ok rules -> Forall (fits 8) (mjoin (bytes_of_rule <$> rules)).
Proof.
  intros H. apply Forall_join, Forall_fmap. eapply Forall_impl; [done|]. intros r. apply bytes_of_rule_fits.
Qed.

(** The outcome of a handler. *)
Definition handled (stats : StatUpdate) (response : list Byte) (reply : Reply * list ChaosRule)
    (run : option (ControlResponse * list Byte * ControlCore)) : Prop :=
  exists rsp response' core', run = Some (rsp, response', core') /\ core_repr core' reply.2 stats /\
    delivered (rp_status reply.1) (rp_opcode reply.1) (rp_sequence reply.1) (rp_payload reply.1) response rsp response'.

Lemma keeping_payload core rules stats opcode sequence payload response :
  core_repr core rules stats ->
  Opcode_wf opcode -> fits 32 sequence -> Forall (fits 8) payload -> Forall (fits 8) response ->
  handled stats response (mkReply ProtocolStatus_Ok opcode sequence payload, rules)
    (keeping core (encode_payload opcode sequence payload response)).
Proof.
  intros Hc Ho Hs Hp Hr. destruct (encode_payload_delivered _ _ _ _ Ho Hs Hp Hr) as (rsp & r & He & Hd).
  unfold keeping. rewrite He. exists rsp, r, core. by split_and!.
Qed.

Lemma keeping_error core rules stats status sequence response :
  core_repr core rules stats -> status <> ProtocolStatus_Ok -> fits 32 sequence -> Forall (fits 8) response ->
  handled stats response (error_reply status sequence, rules) (keeping core (encode_error status sequence response)).
Proof.
  intros Hc Hne Hs Hr. destruct (encode_error_delivered _ _ _ Hne Hs Hr) as (rsp & r & He & Hd).
  unfold keeping. rewrite He. exists rsp, r, core. by split_and!.
Qed.

Lemma core_repr_set_table core rules stats table rules' :
  core_repr core rules stats -> rt_repr MaxRules table rules' -> Forall rule_ok rules' ->
  core_repr (cc_set_table core table) rules' stats.
Proof. intros [] Ht Hr. by split. Qed.

(** [encode_empty] is [encode_payload] without a payload. *)
Lemma keeping_pong core rules stats sequence response :
  core_repr core rules stats -> fits 32 sequence -> Forall (fits 8) response ->
  handled stats response (mkReply ProtocolStatus_Ok Opcode_Pong sequence [], rules)
    (keeping core (encode_empty Opcode_Pong sequence response)).
Proof. intros Hc Hs Hr. apply (keeping_payload core rules stats Opcode_Pong sequence [] response); done. Qed.

Lemma handle_add_rule_spec core rules stats message response :
  core_repr core rules stats -> fits 32 (mh_sequence (dm_header message)) ->
  Forall (fits 8) (dm_payload message) -> Forall (fits 8) response ->
  mh_opcode (dm_header message) = Opcode_AddRule ->
  handled stats response (core_reply rules stats (mkDecodeResult ProtocolStatus_Ok message))
    (handle_add_rule MaxRules core message response).
Proof.
  intros Hc Hs Hp Hr Ho. unfold core_reply, handle_add_rule. cbn [dr_status dr_message].
  rewrite bool_decide_false, Ho by tauto.
  destruct (Z.eqb_spec (zlen (dm_payload message)) sizeof_ChaosRule) as [E|E]; cbn [negb].
  - rewrite bool_decide_false by tauto.
    pose proof (rt_add_spec MaxRules MaxRules_fits _ _ (rule_of_bytes (dm_payload message)) (cr_table _ _ _ Hc)) as Hadd.
    case_bool_decide.
    + destruct Hadd as (t' & -> & Ht). apply keeping_pong; [|done|done].
      apply (core_repr_set_table _ rules); [done|done|]. apply Forall_app. split; [apply Hc|].
      apply Forall_singleton, rule_of_bytes_ok; [|done]. unfold zlen, sizeof_ChaosRule in E. lia.
    + rewrite Hadd. cbn [mbind option_bind]. rewrite bool_decide_false by done. cbn [negb].
      apply keeping_error; [|done..]. apply (core_repr_set_table _ rules); [done|apply Hc|apply Hc].
  - rewrite bool_decide_true by done. by apply keeping_error.
Qed.

Lemma read_u32_payload l : zlen l = 4 -> Forall (fits 8) l -> read_u32_be l 0 = Some (be_value l).
Proof.
  intros Hl Hf. pose proof (read_u32_field [] l [] 0) as H. rewrite app_nil_r in H. apply H; [done| |done].
  unfold zlen in Hl. lia.
Qed.

Lemma handle_remove_rule_spec core rules stats message response :
  core_repr core rules stats -> fits 32 (mh_sequence (dm_header message)) ->
  Forall (fits 8) (dm_payload message) -> Forall (fits 8) response ->
  mh_opcode (dm_header message) = Opcode_RemoveRule ->
  handled stats response (core_reply rules stats (mkDecodeResult ProtocolStatus_Ok message))
    (handle_remove_rule core message response).
Proof.
  intros Hc Hs Hp Hr Ho. unfold core_reply, handle_remove_rule. cbn [dr_status dr_message].
  rewrite bool_decide_false, Ho by tauto.
  destruct (Z.eqb_spec (zlen (dm_payload message)) 4) as [E|E]; cbn [negb].
  - rewrite bool_decide_false by tauto. rewrite read_u32_payload by done. cbn [mbind option_bind].
    pose proof (be_value_fits _ Hp) as [Hnn _].
    pose proof (rt_remove_at_spec MaxRules MaxRules_fits _ _ _ (cr_table _ _ _ Hc) Hnn) as Hrem.
    case_bool_decide.
    + destruct Hrem as (t' & -> & Ht). apply keeping_pong; [|done|done].
      apply (core_repr_set_table _ rules); [done|done|]. apply Forall_delete, Hc.
    + rewrite Hrem. cbn [mbind option_bind]. rewrite bool_decide_false by done. cbn [negb].
      apply keeping_error; [|done..]. apply (core_repr_set_table _ rules); [done|apply Hc|apply Hc].
  - rewrite bool_decide_true by done. by apply keeping_error.
Qed.

Lemma handle_ok_spec core rules stats message response :
  core_repr core rules stats -> fits 32 (mh_sequence (dm_header message)) ->
  Forall (fits 8) (dm_payload message) -> Forall (fits 8) response ->
  handled stats response (core_reply rules stats (mkDecodeResult ProtocolStatus_Ok message))
    (let sequence := mh_sequence (dm_header message) in
     match mh_opcode (dm_header message) with
     | Opcode_Ping => keeping core (encode_empty Opcode_Pong sequence response)
     | Opcode_GetStats => keeping core (handle_get_stats padding core sequence response)
     | Opcode_AddRule => handle_add_rule MaxRules core message response
     | Opcode_RemoveRule => handle_remove_rule core message response
     | Opcode_ClearRules =>
         table ← rt_clear (cc_rule_table_ core);
         keeping (cc_set_table core table) (encode_empty Opcode_Pong sequence response)
     | Opcode_ListRules => keeping core (handle_list_rules core sequence response)
     | _ => keeping core (encode_error ProtocolStatus_UnknownOpcode sequence response)
     end).
Proof.
  intros Hc Hs Hp Hr. destruct (mh_opcode (dm_header message)) eqn:Ho;
    try (by apply handle_add_rule_spec); try (by apply handle_remove_rule_spec);
    unfold core_reply; cbn [dr_status dr_message]; rewrite bool_decide_false, Ho by tauto; cbv zeta;
    try (by apply keeping_error).
  - by apply keeping_pong.
  - unfold handle_get_stats. rewrite <-(cr_stats _ _ _ Hc).
    apply keeping_payload; [done|done|done|apply bytes_of_stats_fits, Hc|done].
  - destruct (rt_clear_spec MaxRules MaxRules_pos _ _ (cr_table _ _ _ Hc)) as (t' & -> & Ht). cbn [mbind option_bind].
    apply keeping_pong; [|done|done]. by apply (core_repr_set_table _ rules).
  - unfold handle_list_rules. rewrite (rt_repr_rules MaxRules _ _ (cr_table _ _ _ Hc)).
    apply keeping_payload; [done|done|done|apply rules_bytes_fits, Hc|done].
Qed.

Lemma handle_handled core rules stats request response :
  core_repr core rules stats -> Forall (fits 8) request -> Forall (fits 8) response ->
  exists decoded, decode_message request = Some decoded /\
    handled stats response (core_reply rules stats decoded) (handle MaxRules padding core request response).
Proof.
  intros Hc Hreq Hrsp. destruct (decode_total _ Hreq) as [decoded Hd]. exists decoded. split; [done|].
  unfold handle. rewrite Hd. cbn [mbind option_bind].
  destruct (bool_decide_reflect (dr_status decoded = ProtocolStatus_Ok)) as [Hok|Hne]; cbn [negb].
  - destruct (decode_accepted _ _ Hreq Hd Hok) as (Hh & _ & Hp & _).
    destruct decoded as [status message]. cbn [dr_status dr_message] in *. subst status.
    apply handle_ok_spec; [done|apply Hh|done|done].
  - unfold core_reply. rewrite bool_decide_true by done. by apply keeping_error.
Qed.

(** C9: every request is answered, and does what it says.  On any bytes as request and
    any response span, [handle] runs inside of both spans, and the table and the reply
    are those of the specification [core_reply] on the list of rules: an undecodable
    request, an unknown opcode, a payload of the wrong size, a full table and a bad index
    are answered with the matching error and leave the rules as they were; [AddRule]
    appends the rule its 40 payload bytes represent, [RemoveRule] deletes the one rule,
    [ClearRules] empties the table; the reply carries the request's sequence number if
    the request decodes and 0 if it does not, and is a message that decodes, unless the
    span is too small for it: then nothing is written and the status is not [Ok]. *)
Theorem control_core_handles core rules stats request response :
  core_repr core rules stats -> Forall (fits 8) request -> Forall (fits 8) response ->
  exists decoded rsp response' core',
    decode_message request = Some decoded /\
    handle MaxRules padding core request response = Some (rsp, response', core') /\
    let '(reply, rules') := core_reply rules stats decoded in
    core_repr core' rules' stats /\ cc_rules core' = rules' /\ cc_rule_count core' = zlen rules' /\
    delivered (rp_status reply) (rp_opcode reply) (rp_sequence reply) (rp_payload reply) response rsp response'.
Proof.
  intros Hc Hreq Hrsp. destruct (handle_handled _ _ _ _ _ Hc Hreq Hrsp) as (decoded & Hd & H).
  destruct H as (rsp & response' & core' & Hrun & Hc' & Hdel). exists decoded, rsp, response', core'.
  destruct (core_reply rules stats decoded) as [reply rules']. cbn [fst snd] in *. split_and!; try done.
  - apply (rt_repr_rules MaxRules), Hc'.
  - apply (cr_table _ _ _ Hc').
Qed.

End core.

(** Rules survive the wire.  The 40 bytes of a rule and the rule they represent
    determine each other: storing the bytes of [AddRule] and sending them back with
    [ListRules] reproduces them exactly, also for action bytes that name no action, and
    every [ChaosRule] object is what its bytes represent. *)
Theorem rule_bytes_roundtrip :
  (forall l, zlen l = sizeof_ChaosRule -> Forall (fits 8) l ->
     rule_ok (rule_of_bytes l) /\ bytes_of_rule (rule_of_bytes l) = l) /\
  (forall r, rule_ok r -> zlen (bytes_of_rule r) = sizeof_ChaosRule /\ rule_of_bytes (bytes_of_rule r) = r).
Proof.
  split.
  - intros l Hl Hf. assert (length l = 40%nat) by (unfold zlen, sizeof_ChaosRule in Hl; lia).
    split; [by apply rule_of_bytes_ok|by apply bytes_of_rule_of_bytes].
  - intros r Hr. split; [|by apply rule_of_bytes_of_rule].
    apply (zlen_length _ 40), bytes_of_rule_length, Hr.
Qed.

Lemma rule_bytes_roundtrip_witness :
  bytes_of_rule (rule_of_bytes (replicate 40 5)) = replicate 40 5 /\
  rule_of_bytes (bytes_of_rule example_rule) = example_rule.
Proof.
  split.
  - apply (proj1 rule_bytes_roundtrip (replicate 40 5)); [done|by repeat constructor].
  - apply (proj2 rule_bytes_roundtrip example_rule). split; try done. split; [done|by repeat constructor].
Defined.

(** An [AddRule] request with the example rule. *)
Definition example_add_request : list Byte :=
  message_bytes (sent_header (reply_header Opcode_AddRule 7) (bytes_of_rule example_rule)) (bytes_of_rule example_rule).

Lemma control_core_handles_witness :
  exists rsp response' core',
    handle 2 [0; 0; 0; 0] (ControlCore_default 2) example_add_request (replicate 64 0) = Some (rsp, response', core') /\
    cc_rules core' = [example_rule] /\ rsp_status rsp = ProtocolStatus_Ok.
Proof.
  destruct (control_core_handles 2 [0; 0; 0; 0] ltac:(done) ltac:(done) ltac:(by repeat constructor)
    (ControlCore_default 2) [] StatUpdate_default example_add_request (replicate 64 0))
    as (decoded & rsp & response' & core' & Hd & Hrun & Hspec);
    [by apply ControlCore_default_repr|by vm_compute; repeat constructor|by repeat constructor|].
  exists rsp, response', core'. split; [exact Hrun|]. vm_compute in Hd. injection Hd as <-.
  destruct Hspec as (_ & Hrules & _ & Hdel). split; [exact Hrules|]. apply Hdel.
Defined.
