(* ===== verification/SocketManager.v ===== *)
(** * [include/chronosx/socket_manager.hpp]: the simulated AF_XDP socket

    The configuration records, the free-running ring of [SimulatedRing] and the four
    rings of [SimulatedXskSocket].  A span that is read is the list of its elements; a
    span that is written to is passed with its contents and returned with the new ones. *)

From S2P Require Import Prelude Types Ring FrameAllocator.

Definition kDefaultUmemFrameSize : Z := 4096.
Definition kDefaultUmemFrameCount : Z := 4096.
Definition kDefaultFillRingSize : Z := 2048.
Definition kDefaultCompletionRingSize : Z := 2048.
Definition kDefaultRxRingSize : Z := 2048.
Definition kDefaultTxRingSize : Z := 2048.
Definition kDefaultQueueId : Z := 0.
Definition kDefaultXdpFlags : Z := 0.

Record UmemConfig := mkUmemConfig {
  uc_frame_size : Z;
  uc_frame_count : Z;
  uc_fill_ring_size : Z;
  uc_completion_ring_size : Z;
}.

Definition UmemConfig_default : UmemConfig :=
  mkUmemConfig kDefaultUmemFrameSize kDefaultUmemFrameCount kDefaultFillRingSize kDefaultCompletionRingSize.

Definition uc_total_bytes (c : UmemConfig) : Z := u64 (uc_frame_size c * uc_frame_count c).

Definition uc_valid (c : UmemConfig) : bool :=
  is_power_of_two (uc_frame_size c) && (kMinXdpFrameSizeBytes <=? uc_frame_size c) && (0 <? uc_frame_count c) &&
  is_power_of_two (uc_fill_ring_size c) && is_power_of_two (uc_completion_ring_size c).

Record SocketConfig := mkSocketConfig {
  sc_queue_id : Z;
  sc_xdp_flags : Z;
  sc_rx_ring_size : Z;
  sc_tx_ring_size : Z;
  sc_interface_index : Z;
  sc_bind_flags : Z;
}.

Definition SocketConfig_default : SocketConfig :=
  mkSocketConfig kDefaultQueueId kDefaultXdpFlags kDefaultRxRingSize kDefaultTxRingSize 0 0.

Definition sc_valid (c : SocketConfig) : bool :=
  is_power_of_two (sc_rx_ring_size c) && is_power_of_two (sc_tx_ring_size c).

Inductive SocketStatus :=
| SocketStatus_Ok
| SocketStatus_InvalidConfig
| SocketStatus_UmemAllocationFailed
| SocketStatus_UmemCreateFailed
| SocketStatus_SocketCreateFailed
| SocketStatus_BindFailed
| SocketStatus_NotInitialized
| SocketStatus_AlreadyInitialized
| SocketStatus_KickFailed
| SocketStatus_RingFull
| SocketStatus_RingEmpty.

#[export] Instance SocketStatus_eq_dec : EqDecision SocketStatus.
Proof. solve_decision. Defined.

Definition socket_status_name (status : SocketStatus) : string :=
  match status with
  | SocketStatus_Ok => "Ok"
  | SocketStatus_InvalidConfig => "InvalidConfig"
  | SocketStatus_UmemAllocationFailed => "UmemAllocationFailed"
  | SocketStatus_UmemCreateFailed => "UmemCreateFailed"
  | SocketStatus_SocketCreateFailed => "SocketCreateFailed"
  | SocketStatus_BindFailed => "BindFailed"
  | SocketStatus_NotInitialized => "NotInitialized"
  | SocketStatus_AlreadyInitialized => "AlreadyInitialized"
  | SocketStatus_KickFailed => "KickFailed"
  | SocketStatus_RingFull => "RingFull"
  | SocketStatus_RingEmpty => "RingEmpty"
  end.

Record RxDescriptor := mkRxDescriptor {
  rx_address : Z;
  rx_length : Z;
  rx_options : Z;
}.

Record TxDescriptor := mkTxDescriptor {
  tx_address : Z;
  tx_length : Z;
  tx_options : Z;
}.

#[export] Instance RxDescriptor_inhabited : Inhabited RxDescriptor := populate (mkRxDescriptor 0 0 0).
#[export] Instance TxDescriptor_inhabited : Inhabited TxDescriptor := populate (mkTxDescriptor 0 0 0).

(** [RxBatchResult], [TxBatchResult], [FillResult] and [CompletionResult]: a count and
    a status each. *)
Record RingResult := mkRingResult {
  rr_count : Z;
  rr_status : SocketStatus;
}.

(** ** [SimulatedRing] *)

Record SimulatedRing (T : Type) := mkSimulatedRing {
  sr_buffer_ : list T;
  sr_producer_ : Z;
  sr_consumer_ : Z;
}.
Arguments mkSimulatedRing {T}.
Arguments sr_buffer_ {T}.
Arguments sr_producer_ {T}.
Arguments sr_consumer_ {T}.

Section SimulatedRing.
Context {T : Type} `{!Inhabited T} (Capacity : Z).

Definition sr_kMask : Z := u64 (Capacity - 1).

Definition SimulatedRing_default : SimulatedRing T :=
  mkSimulatedRing (replicate (Z.to_nat Capacity) inhabitant) 0 0.

Definition available_consume (r : SimulatedRing T) : Z := u64 (sr_producer_ r - sr_consumer_ r).

Definition available_produce (r : SimulatedRing T) : Z := u64 (Capacity - u64 (sr_producer_ r - sr_consumer_ r)).

Definition sr_empty (r : SimulatedRing T) : bool := sr_producer_ r =? sr_consumer_ r.

Definition sr_full (r : SimulatedRing T) : bool := available_produce r =? 0.

(** The loop of [produce] on the items that are left. *)
Fixpoint produce_loop (r : SimulatedRing T) (items : list T) (produced : Z) : option (Z * SimulatedRing T) :=
  match items with
  | [] => Some (produced, r)
  | item :: items =>
      if 0 <? available_produce r then
        buffer ← (sr_buffer_ r).[Z.land (sr_producer_ r) sr_kMask <- item];
        produce_loop (mkSimulatedRing buffer (u64 (sr_producer_ r + 1)) (sr_consumer_ r)) items (u64 (produced + 1))
      else Some (produced, r)
  end.

Definition produce (r : SimulatedRing T) (items : list T) : option (Z * SimulatedRing T) :=
  produce_loop r items 0.

(** The loop of [consume], with [n] cells of the output span left. *)
Fixpoint consume_loop (n : nat) (r : SimulatedRing T) (output : list T) (consumed : Z)
    : option (Z * list T * SimulatedRing T) :=
  match n with
  | O => Some (consumed, output, r)
  | S n =>
      if 0 <? available_consume r then
        item ← (sr_buffer_ r).[Z.land (sr_consumer_ r) sr_kMask];
        output ← output.[consumed <- item];
        consume_loop n (mkSimulatedRing (sr_buffer_ r) (sr_producer_ r) (u64 (sr_consumer_ r + 1))) output
          (u64 (consumed + 1))
      else Some (consumed, output, r)
  end.

Definition consume (r : SimulatedRing T) (output : list T) : option (Z * list T * SimulatedRing T) :=
  consume_loop (length output) r output 0.

End SimulatedRing.

(** ** [SimulatedXskSocket] *)

Record SimulatedXskSocket := mkSimulatedXskSocket {
  sx_fill_ring_ : SimulatedRing Z;
  sx_completion_ring_ : SimulatedRing Z;
  sx_rx_ring_ : SimulatedRing RxDescriptor;
  sx_tx_ring_ : SimulatedRing TxDescriptor;
  sx_tx_kick_count_ : Z;
}.

Section SimulatedXskSocket.
Context (FillSize CompSize RxSize TxSize : Z).

Definition SimulatedXskSocket_default : SimulatedXskSocket :=
  mkSimulatedXskSocket (SimulatedRing_default FillSize) (SimulatedRing_default CompSize)
    (SimulatedRing_default RxSize) (SimulatedRing_default TxSize) 0.

Definition sx_set_fill (s : SimulatedXskSocket) (r : SimulatedRing Z) : SimulatedXskSocket :=
  mkSimulatedXskSocket r (sx_completion_ring_ s) (sx_rx_ring_ s) (sx_tx_ring_ s) (sx_tx_kick_count_ s).
Definition sx_set_completion (s : SimulatedXskSocket) (r : SimulatedRing Z) : SimulatedXskSocket :=
  mkSimulatedXskSocket (sx_fill_ring_ s) r (sx_rx_ring_ s) (sx_tx_ring_ s) (sx_tx_kick_count_ s).
Definition sx_set_rx (s : SimulatedXskSocket) (r : SimulatedRing RxDescriptor) : SimulatedXskSocket :=
  mkSimulatedXskSocket (sx_fill_ring_ s) (sx_completion_ring_ s) r (sx_tx_ring_ s) (sx_tx_kick_count_ s).
Definition sx_set_tx (s : SimulatedXskSocket) (r : SimulatedRing TxDescriptor) : SimulatedXskSocket :=
  mkSimulatedXskSocket (sx_fill_ring_ s) (sx_completion_ring_ s) (sx_rx_ring_ s) r (sx_tx_kick_count_ s).

Definition refill (s : SimulatedXskSocket) (addresses : list Z) : option (RingResult * SimulatedXskSocket) :=
  '(count, ring) ← produce FillSize (sx_fill_ring_ s) addresses;
  let status := if count =? zlen addresses then SocketStatus_Ok else SocketStatus_RingFull in
  Some (mkRingResult count status, sx_set_fill s ring).

Definition drain_completions (s : SimulatedXskSocket) (output : list Z)
    : option (RingResult * list Z * SimulatedXskSocket) :=
  '(count, output, ring) ← consume CompSize (sx_completion_ring_ s) output;
  let status := if count =? zlen output then SocketStatus_Ok else SocketStatus_RingEmpty in
  Some (mkRingResult count status, output, sx_set_completion s ring).

Definition consume_rx (s : SimulatedXskSocket) (output : list RxDescriptor)
    : option (RingResult * list RxDescriptor * SimulatedXskSocket) :=
  '(count, output, ring) ← consume RxSize (sx_rx_ring_ s) output;
  let status := if count =? zlen output then SocketStatus_Ok else SocketStatus_RingEmpty in
  Some (mkRingResult count status, output, sx_set_rx s ring).

Definition submit_tx (s : SimulatedXskSocket) (descriptors : list TxDescriptor)
    : option (RingResult * SimulatedXskSocket) :=
  '(count, ring) ← produce TxSize (sx_tx_ring_ s) descriptors;
  let status := if count =? zlen descriptors then SocketStatus_Ok else SocketStatus_RingFull in
  Some (mkRingResult count status, sx_set_tx s ring).

Definition kick_tx (s : SimulatedXskSocket) : SocketStatus * SimulatedXskSocket :=
  (SocketStatus_Ok,
   mkSimulatedXskSocket (sx_fill_ring_ s) (sx_completion_ring_ s) (sx_rx_ring_ s) (sx_tx_ring_ s)
     (u64 (sx_tx_kick_count_ s + 1))).

Definition inject_rx (s : SimulatedXskSocket) (descriptors : list RxDescriptor) : option (Z * SimulatedXskSocket) :=
  '(count, ring) ← produce RxSize (sx_rx_ring_ s) descriptors; Some (count, sx_set_rx s ring).

Definition complete_tx (s : SimulatedXskSocket) (addresses : list Z) : option (Z * SimulatedXskSocket) :=
  '(count, ring) ← produce CompSize (sx_completion_ring_ s) addresses; Some (count, sx_set_completion s ring).

Definition consume_fill (s : SimulatedXskSocket) (output : list Z) : option (Z * list Z * SimulatedXskSocket) :=
  '(count, output, ring) ← consume FillSize (sx_fill_ring_ s) output; Some (count, output, sx_set_fill s ring).

Definition tx_kick_count (s : SimulatedXskSocket) : Z := sx_tx_kick_count_ s.
Definition fill_ring_pending (s : SimulatedXskSocket) : Z := available_consume (sx_fill_ring_ s).
Definition completion_ring_pending (s : SimulatedXskSocket) : Z := available_consume (sx_completion_ring_ s).
Definition rx_ring_pending (s : SimulatedXskSocket) : Z := available_consume (sx_rx_ring_ s).
Definition tx_ring_pending (s : SimulatedXskSocket) : Z := available_consume (sx_tx_ring_ s).

End SimulatedXskSocket.

(** ** A ring is a bounded queue *)

Section ring_refinement.
Context {T : Type} `{!Inhabited T} (Capacity : Z).
Hypothesis Capacity_pow2 : is_power_of_two Capacity = true.
Hypothesis Capacity_fits : fits 64 Capacity.

(** The ring holds [l], oldest first; [h] is the consumer index without wrap-around. *)
Definition sr_repr (r : SimulatedRing T) (l : list T) : Prop :=
  exists h, sr_consumer_ r = u64 h /\ sr_producer_ r = u64 (h + zlen l) /\ ring_repr Capacity (sr_buffer_ r) h l.

Lemma ring_capacity_exp : exists k, 0 <= k < 64 /\ Capacity = 2 ^ k.
Proof. by apply is_power_of_two_inv. Qed.

Lemma ring_capacity_pos : 0 < Capacity.
Proof. destruct ring_capacity_exp as (k & Hk & ->). apply pow2_pos. lia. Qed.

Lemma sr_mask_index i : Z.land (u64 i) (sr_kMask Capacity) = i mod Capacity.
Proof.
  pose proof ring_capacity_pos. unfold sr_kMask. rewrite (wrap_small 64 (Capacity - 1)) by (unfold fits in *; lia).
  destruct ring_capacity_exp as (k & Hk & ->). apply mask_index. lia.
Qed.

Lemma SimulatedRing_default_repr : sr_repr (SimulatedRing_default Capacity) [].
Proof.
  exists 0. split_and!; [done|done|]. apply ring_repr_nil. simpl. rewrite zlen_replicate. pose proof ring_capacity_pos. lia.
Qed.

Lemma available_consume_spec r l : sr_repr r l -> available_consume r = zlen l.
Proof.
  intros (h & Hc & Hp & Hb & Hle & _). unfold available_consume. rewrite Hc, Hp, wrap_sub by lia.
  replace (h + zlen l - h) with (zlen l) by lia. apply wrap_small. pose proof (zlen_nonneg l). unfold fits in *. lia.
Qed.

Lemma available_produce_spec r l : sr_repr r l -> available_produce Capacity r = Capacity - zlen l.
Proof.
  intros Hr. unfold available_produce. fold (available_consume r). rewrite (available_consume_spec r l Hr).
  destruct Hr as (h & _ & _ & _ & Hle & _). apply wrap_small. pose proof (zlen_nonneg l). unfold fits in *. lia.
Qed.

Lemma sr_repr_le r l : sr_repr r l -> zlen l <= Capacity.
Proof. by intros (h & _ & _ & _ & Hle & _). Qed.

Lemma produce_loop_spec items r l produced :
  sr_repr r l -> 0 <= produced -> produced + zlen items < 2 ^ 64 ->
  let k := Z.to_nat (Z.min (zlen items) (Capacity - zlen l)) in
  exists r', produce_loop Capacity r items produced = Some (produced + Z.of_nat k, r') /\ sr_repr r' (l ++ take k items).
Proof.
  revert r l produced. induction items as [|item items IH]; intros r l produced Hr H0 Hbig k; simpl.
  { exists r. subst k. rewrite take_nil, app_nil_r. split; [|done]. do 2 f_equal.
    pose proof (sr_repr_le r l Hr). rewrite zlen_nil. lia. }
  rewrite (available_produce_spec r l Hr). pose proof (sr_repr_le r l Hr) as Hle. rewrite zlen_cons in *.
  pose proof (zlen_nonneg items). destruct (Z.ltb_spec 0 (Capacity - zlen l)) as [Hroom|Hfull].
  - destruct Hr as (h & Hc & Hp & Hb). rewrite Hp, sr_mask_index.
    destruct (ring_repr_push _ _ _ _ item ring_capacity_pos Hb ltac:(lia)) as (buf & -> & Hb').
    cbn [mbind option_bind]. rewrite (wrap_small 64 (produced + 1)) by (unfold fits; lia).
    destruct (IH (mkSimulatedRing buf (u64 (u64 (h + zlen l) + 1)) (sr_consumer_ r)) (l ++ [item]) (produced + 1))
      as (r' & -> & Hr'); [|lia|lia|].
    + exists h. split_and!; [done| |done]. cbn [sr_producer_]. rewrite wrap_add_l, zlen_app, zlen_cons, zlen_nil by lia.
      f_equal. lia.
    + exists r'. rewrite zlen_app, zlen_cons, zlen_nil in *.
      assert (k = S (Z.to_nat (Z.min (zlen items) (Capacity - (zlen l + (1 + 0)))))) as Hk by (subst k; rewrite zlen_cons; lia). rewrite Hk.
      split; [do 2 f_equal; lia|]. cbn [take]. by rewrite <-app_assoc in Hr'.
  - exists r. assert (k = 0%nat) as -> by (subst k; rewrite zlen_cons; lia). rewrite take_0, app_nil_r. split; [|done]. do 2 f_equal. lia.
Qed.

Lemma consume_loop_spec n r l output consumed :
  sr_repr r l -> 0 <= consumed -> consumed + Z.of_nat n <= zlen output -> zlen output < 2 ^ 64 ->
  let k := Nat.min n (length l) in
  exists r', consume_loop Capacity n r output consumed
      = Some (consumed + Z.of_nat k,
          take (Z.to_nat consumed) output ++ take k l ++ drop (Z.to_nat consumed + k) output, r') /\
    sr_repr r' (drop k l).
Proof.
  revert r l output consumed. induction n as [|n IH]; intros r l output consumed Hr H0 Hn Hbig k; cbn [consume_loop].
  { exists r. subst k. simpl. rewrite Nat.add_0_r, take_drop, Z.add_0_r. done. }
  rewrite (available_consume_spec r l Hr). destruct l as [|x l].
  { exists r. subst k. simpl. rewrite Nat.add_0_r, take_drop, Z.add_0_r. done. }
  rewrite zlen_cons. pose proof (zlen_nonneg l). destruct (Z.ltb_spec 0 (1 + zlen l)); [|lia].
  destruct Hr as (h & Hc & Hp & Hb). rewrite Hc, sr_mask_index.
  destruct (ring_repr_pop _ _ _ _ _ Hb) as [-> Hb']. cbn [mbind option_bind].
  rewrite aset_in_range by lia. cbn [mbind option_bind]. rewrite (wrap_small 64 (consumed + 1)) by (unfold fits; lia).
  destruct (IH (mkSimulatedRing (sr_buffer_ r) (sr_producer_ r) (u64 (u64 h + 1))) l
    (<[Z.to_nat consumed := x]> output) (consumed + 1)) as (r' & -> & Hr').
  - exists (h + 1). cbn. split_and!; [by rewrite wrap_add_l| |done]. rewrite Hp, zlen_cons. f_equal. lia.
  - lia.
  - unfold zlen in *. rewrite length_insert. lia.
  - unfold zlen in *. by rewrite length_insert.
  - exists r'. subst k. cbn [length Nat.min take drop]. split; [|done].
    assert (Z.to_nat consumed < length output)%nat by (unfold zlen in *; lia).
    replace (Z.to_nat (consumed + 1)) with (S (Z.to_nat consumed)) by lia.
    rewrite (take_S_r _ _ x), take_insert_ge, <-app_assoc by (lia || by apply list_lookup_insert_eq).
    rewrite drop_insert_lt by lia.
    replace (Z.to_nat consumed + S (Nat.min n (length l)))%nat with (S (Z.to_nat consumed) + Nat.min n (length l))%nat by lia.
    replace (consumed + Z.of_nat (S (Nat.min n (length l)))) with (consumed + 1 + Z.of_nat (Nat.min n (length l))) by lia.
    done.
Qed.

Lemma produce_spec r l items :
  sr_repr r l -> zlen items < 2 ^ 64 ->
  let k := Z.min (zlen items) (Capacity - zlen l) in
  exists r', produce Capacity r items = Some (k, r') /\ sr_repr r' (l ++ take (Z.to_nat k) items).
Proof.
  intros Hr Hbig k. destruct (produce_loop_spec items r l 0 Hr) as (r' & Hp & Hr'); [lia|lia|].
  exists r'. unfold produce. rewrite Hp. split; [|done]. do 2 f_equal. pose proof (sr_repr_le r l Hr).
  pose proof (zlen_nonneg items). lia.
Qed.

Lemma consume_spec r l output :
  sr_repr r l -> zlen output < 2 ^ 64 ->
  let k := Nat.min (length output) (length l) in
  exists r', consume Capacity r output = Some (Z.of_nat k, take k l ++ drop k output, r') /\ sr_repr r' (drop k l).
Proof.
  intros Hr Hbig k. apply (consume_loop_spec (length output) r l output 0 Hr); [lia|unfold zlen; lia|done].
Qed.

(** The ring determines the queue it holds. *)
Lemma sr_repr_inj r l1 l2 : sr_repr r l1 -> sr_repr r l2 -> l1 = l2.
Proof.
  intros H1 H2. pose proof (available_consume_spec r l1 H1) as E1. pose proof (available_consume_spec r l2 H2) as E2.
  destruct H1 as (h1 & Hc1 & _ & Hr1), H2 as (h2 & Hc2 & _ & Hr2). destruct ring_capacity_exp as (k & Hk & HC).
  eapply ring_repr_inj; [exact Hr1| |unfold zlen in *; lia]. eapply ring_repr_index; [|exact Hr2].
  rewrite HC, <-(mod_u64 k h1), <-(mod_u64 k h2) by lia. by rewrite <-Hc1, <-Hc2.
Qed.

End ring_refinement.

(** ** The socket is four bounded queues *)

Record Queues := mkQueues {
  q_fill : list Z;
  q_completion : list Z;
  q_rx : list RxDescriptor;
  q_tx : list TxDescriptor;
  q_kicks : Z;
}.

(** The calls of either side of the socket; a consuming call comes with its output span. *)
Inductive SocketOp :=
| OpRefill (addresses : list Z)
| OpDrainCompletions (output : list Z)
| OpConsumeRx (output : list RxDescriptor)
| OpSubmitTx (descriptors : list TxDescriptor)
| OpKickTx
| OpInjectRx (descriptors : list RxDescriptor)
| OpCompleteTx (addresses : list Z)
| OpConsumeFill (output : list Z).

Inductive SocketReply :=
| DidProduce (count : Z) (status : option SocketStatus)
| DidConsume (count : Z) (status : option SocketStatus) (output : list Z)
| DidConsumeRx (result : RingResult) (output : list RxDescriptor)
| DidKick (status : SocketStatus).

(** Appending as much as fits, and filling a span from the front. *)
Definition queue_push {T} (capacity : Z) (l items : list T) : Z * list T :=
  let k := Z.min (zlen items) (capacity - zlen l) in (k, l ++ take (Z.to_nat k) items).

Definition queue_pop {T} (l output : list T) : Z * list T * list T :=
  let k := Nat.min (length output) (length l) in (Z.of_nat k, take k l ++ drop k output, drop k l).

Definition full_status (count n : Z) : SocketStatus := if count =? n then SocketStatus_Ok else SocketStatus_RingFull.
Definition empty_status (count n : Z) : SocketStatus := if count =? n then SocketStatus_Ok else SocketStatus_RingEmpty.

Definition socket_op_ok (o : SocketOp) : Prop :=
  match o with
  | OpRefill l | OpDrainCompletions l | OpCompleteTx l | OpConsumeFill l => zlen l < 2 ^ 64
  | OpConsumeRx l | OpInjectRx l => zlen l < 2 ^ 64
  | OpSubmitTx l => zlen l < 2 ^ 64
  | OpKickTx => True
  end.

Section socket.
Context (FillSize CompSize RxSize TxSize : Z).

Definition socket_apply (s : SimulatedXskSocket) (o : SocketOp) : option (SocketReply * SimulatedXskSocket) :=
  match o with
  | OpRefill l => '(r, s) ← refill FillSize s l; Some (DidProduce (rr_count r) (Some (rr_status r)), s)
  | OpDrainCompletions out =>
      '(r, out, s) ← drain_completions CompSize s out; Some (DidConsume (rr_count r) (Some (rr_status r)) out, s)
  | OpConsumeRx out => '(r, out, s) ← consume_rx RxSize s out; Some (DidConsumeRx r out, s)
  | OpSubmitTx l => '(r, s) ← submit_tx TxSize s l; Some (DidProduce (rr_count r) (Some (rr_status r)), s)
  | OpKickTx => let '(status, s) := kick_tx s in Some (DidKick status, s)
  | OpInjectRx l => '(count, s) ← inject_rx RxSize s l; Some (DidProduce count None, s)
  | OpCompleteTx l => '(count, s) ← complete_tx CompSize s l; Some (DidProduce count None, s)
  | OpConsumeFill out => '(count, out, s) ← consume_fill FillSize s out; Some (DidConsume count None out, s)
  end.

Definition queues_apply (q : Queues) (o : SocketOp) : SocketReply * Queues :=
  match o with
  | OpRefill l =>
      let '(k, fill) := queue_push FillSize (q_fill q) l in
      (DidProduce k (Some (full_status k (zlen l))), mkQueues fill (q_completion q) (q_rx q) (q_tx q) (q_kicks q))
  | OpDrainCompletions out =>
      let '(k, out, completion) := queue_pop (q_completion q) out in
      (DidConsume k (Some (empty_status k (zlen out))) out,
       mkQueues (q_fill q) completion (q_rx q) (q_tx q) (q_kicks q))
  | OpConsumeRx out =>
      let '(k, out, rx) := queue_pop (q_rx q) out in
      (DidConsumeRx (mkRingResult k (empty_status k (zlen out))) out,
       mkQueues (q_fill q) (q_completion q) rx (q_tx q) (q_kicks q))
  | OpSubmitTx l =>
      let '(k, tx) := queue_push TxSize (q_tx q) l in
      (DidProduce k (Some (full_status k (zlen l))), mkQueues (q_fill q) (q_completion q) (q_rx q) tx (q_kicks q))
  | OpKickTx =>
      (DidKick SocketStatus_Ok, mkQueues (q_fill q) (q_completion q) (q_rx q) (q_tx q) (u64 (q_kicks q + 1)))
  | OpInjectRx l =>
      let '(k, rx) := queue_push RxSize (q_rx q) l in
      (DidProduce k None, mkQueues (q_fill q) (q_completion q) rx (q_tx q) (q_kicks q))
  | OpCompleteTx l =>
      let '(k, completion) := queue_push CompSize (q_completion q) l in
      (DidProduce k None, mkQueues (q_fill q) completion (q_rx q) (q_tx q) (q_kicks q))
  | OpConsumeFill out =>
      let '(k, out, fill) := queue_pop (q_fill q) out in
      (DidConsume k None out, mkQueues fill (q_completion q) (q_rx q) (q_tx q) (q_kicks q))
  end.

Fixpoint socket_run (s : SimulatedXskSocket) (ops : list SocketOp) : option (list SocketReply * SimulatedXskSocket) :=
  match ops with
  | [] => Some ([], s)
  | o :: ops => '(r, s) ← socket_apply s o; '(rs, s) ← socket_run s ops; Some (r :: rs, s)
  end.

Fixpoint queues_run (q : Queues) (ops : list SocketOp) : list SocketReply * Queues :=
  match ops with
  | [] => ([], q)
  | o :: ops => let '(r, q) := queues_apply q o in let '(rs, q) := queues_run q ops in (r :: rs, q)
  end.

Record sx_repr (s : SimulatedXskSocket) (q : Queues) : Prop := {
  sx_fill : sr_repr FillSize (sx_fill_ring_ s) (q_fill q);
  sx_completion : sr_repr CompSize (sx_completion_ring_ s) (q_completion q);
  sx_rx : sr_repr RxSize (sx_rx_ring_ s) (q_rx q);
  sx_tx : sr_repr TxSize (sx_tx_ring_ s) (q_tx q);
  sx_kicks : sx_tx_kick_count_ s = q_kicks q;
}.

(** The [requires] clause. *)
Hypothesis Fill_pow2 : is_power_of_two FillSize = true.
Hypothesis Comp_pow2 : is_power_of_two CompSize = true.
Hypothesis Rx_pow2 : is_power_of_two RxSize = true.
Hypothesis Tx_pow2 : is_power_of_two TxSize = true.
Hypothesis Fill_fits : fits 64 FillSize.
Hypothesis Comp_fits : fits 64 CompSize.
Hypothesis Rx_fits : fits 64 RxSize.
Hypothesis Tx_fits : fits 64 TxSize.

Ltac ring_step spec :=
  let r := fresh "ring" in let H := fresh "Hrun" in let Hr := fresh "Hring" in
  destruct spec as (r & H & Hr); [done..|]; rewrite H; cbn [mbind option_bind]; eexists; split; [reflexivity|].

Lemma socket_apply_refines s q o :
  sx_repr s q -> socket_op_ok o ->
  exists s', socket_apply s o = Some ((queues_apply q o).1, s') /\ sx_repr s' (queues_apply q o).2.
Proof.
  intros [Hf Hc Hx Ht Hk] Ho. destruct o; cbn [socket_op_ok] in Ho; cbn [socket_apply queues_apply].
  - unfold refill. ring_step (produce_spec FillSize Fill_pow2 Fill_fits _ _ addresses Hf Ho). by split.
  - unfold drain_completions. ring_step (consume_spec CompSize Comp_pow2 Comp_fits _ _ output Hc Ho). by split.
  - unfold consume_rx. ring_step (consume_spec RxSize Rx_pow2 Rx_fits _ _ output Hx Ho). by split.
  - unfold submit_tx. ring_step (produce_spec TxSize Tx_pow2 Tx_fits _ _ descriptors Ht Ho). by split.
  - eexists. split; [done|]. split; try done. cbn. by rewrite Hk.
  - unfold inject_rx. ring_step (produce_spec RxSize Rx_pow2 Rx_fits _ _ descriptors Hx Ho). by split.
  - unfold complete_tx. ring_step (produce_spec CompSize Comp_pow2 Comp_fits _ _ addresses Hc Ho). by split.
  - unfold consume_fill. ring_step (consume_spec FillSize Fill_pow2 Fill_fits _ _ output Hf Ho). by split.
Qed.

Lemma socket_run_refines s q ops :
  sx_repr s q -> Forall socket_op_ok ops ->
  exists s', socket_run s ops = Some ((queues_run q ops).1, s') /\ sx_repr s' (queues_run q ops).2.
Proof.
  revert s q. induction ops as [|o ops IH]; intros s q Hr Hok; simpl; [eauto|].
  apply Forall_cons in Hok as [Ho Hok]. destruct (socket_apply_refines s q o Hr Ho) as (s1 & -> & H1). simpl.
  destruct (queues_apply q o) as [r q1]. simpl in *. destruct (IH s1 q1 H1 Hok) as (s2 & -> & H2). simpl.
  destruct (queues_run q1 ops). eauto.
Qed.

Lemma sx_repr_inj s q1 q2 : sx_repr s q1 -> sx_repr s q2 -> q1 = q2.
Proof.
  intros [Hf Hc Hx Ht Hk] [Hf' Hc' Hx' Ht' Hk']. destruct q1, q2. simpl in *. f_equal; [..|congruence];
    [eapply (sr_repr_inj FillSize)|eapply (sr_repr_inj CompSize)|eapply (sr_repr_inj RxSize)|eapply (sr_repr_inj TxSize)]; done.
Qed.

Lemma SimulatedXskSocket_default_repr :
  sx_repr (SimulatedXskSocket_default FillSize CompSize RxSize TxSize) (mkQueues [] [] [] [] 0).
Proof. by split; try apply SimulatedRing_default_repr. Qed.

(** C36: the simulated socket is four bounded FIFO queues.  Every sequence of calls of
    the program's side ([refill], [drain_completions], [consume_rx], [submit_tx],
    [kick_tx]) and of the kernel's side stays inside of the rings' arrays, also when the
    free-running indices wrap, and answers what four bounded queues answer: a producing
    call takes as many items as fit and reports [RingFull] when not all do, a consuming
    call fills the span's front with the oldest items and leaves the rest of the span as
    it was, and the pending counters are the queues' lengths. *)
Theorem socket_refines_queues ops :
  Forall socket_op_ok ops ->
  let q := (queues_run (mkQueues [] [] [] [] 0) ops).2 in
  exists s', socket_run (SimulatedXskSocket_default FillSize CompSize RxSize TxSize) ops
      = Some ((queues_run (mkQueues [] [] [] [] 0) ops).1, s') /\
    fill_ring_pending s' = zlen (q_fill q) /\ completion_ring_pending s' = zlen (q_completion q) /\
    rx_ring_pending s' = zlen (q_rx q) /\ tx_ring_pending s' = zlen (q_tx q) /\ tx_kick_count s' = q_kicks q.
Proof.
  intros Hok q. destruct (socket_run_refines _ _ ops SimulatedXskSocket_default_repr Hok) as (s' & Hrun & [Hf Hc Hx Ht Hk]).
  exists s'. split; [done|].
  split_and!; [apply (available_consume_spec FillSize Fill_fits)|apply (available_consume_spec CompSize Comp_fits)
    |apply (available_consume_spec RxSize Rx_fits)|apply (available_consume_spec TxSize Tx_fits)|]; done.
Qed.

End socket.

Lemma socket_refines_queues_witness :
  exists s', socket_run 2 2 2 2 (SimulatedXskSocket_default 2 2 2 2)
      [OpRefill [0; 4096; 8192]; OpConsumeFill [7]; OpRefill [12288]; OpConsumeFill [7; 7; 7]]
    = Some ([DidProduce 2 (Some SocketStatus_RingFull); DidConsume 1 None [0]; DidProduce 1 (Some SocketStatus_Ok);
             DidConsume 2 None [4096; 12288; 7]], s') /\ fill_ring_pending s' = 0.
Proof.
  destruct (socket_refines_queues 2 2 2 2 ltac:(done) ltac:(done) ltac:(done) ltac:(done) ltac:(done) ltac:(done)
    ltac:(done) ltac:(done)
    [OpRefill [0; 4096; 8192]; OpConsumeFill [7]; OpRefill [12288]; OpConsumeFill [7; 7; 7]])
    as (s' & Hrun & Hfill & _); [by repeat constructor|].
  exists s'. split; [exact Hrun|exact Hfill].
Defined.
