(* ===== verification/Layout.v ===== *)
(** * The memory layout of the structs

    The source asserts the size and the alignment of its structs, copies two of them to
    the wire byte by byte, and declares overlays for the packet headers.  This file
    computes layouts the way the platform's C++ ABI does for standard-layout types
    (members in order, each at the next multiple of its alignment, the size rounded up to
    the alignment), checks the assertions, and relates the bytes of the objects to those
    that the control core and the parser work with. *)

From S2P Require Import Prelude Types TimingWheel FrameAllocator PacketParser ChaosEngine DataPlane Protocol ControlCore SocketManager.
Local Open Scope string_scope.
Local Open Scope list_scope.
Local Open Scope Z_scope.

(** ** Layouts *)

(** An unsigned integer of some bytes (an [enum class] has its underlying type), an array,
    or a struct with named members. *)
Inductive CType :=
| CInt (bytes : Z)
| CArray (t : CType) (n : Z)
| CStruct (members : list (string * CType)).

Definition round_up (x a : Z) : Z := (x + a - 1) / a * a.

Fixpoint alignof (t : CType) : Z :=
  match t with
  | CInt bytes => bytes
  | CArray t _ => alignof t
  | CStruct members => foldr (fun '(_, t) a => Z.max (alignof t) a) 1 members
  end.

Fixpoint sizeof (t : CType) : Z :=
  match t with
  | CInt bytes => bytes
  | CArray t n => n * sizeof t
  | CStruct members =>
      round_up (foldl (fun offset '(_, t) => round_up offset (alignof t) + sizeof t) 0 members) (alignof (CStruct members))
  end.

(** The members with their offsets, from [offset] on. *)
Fixpoint placed (offset : Z) (members : list (string * CType)) : list (string * Z * CType) :=
  match members with
  | [] => []
  | (name, t) :: members => let o := round_up offset (alignof t) in (name, o, t) :: placed (o + sizeof t) members
  end.

Definition member (t : CType) (name : string) : option (Z * CType) :=
  match t with
  | CStruct members => (fun m => (m.2.1.2, m.2.2)) <$> list_find (fun m => m.1.1 = name) (placed 0 members)
  | _ => None
  end.

(** ** Object representations *)

Inductive CValue :=
| VInt (x : Z)
| VAggregate (values : list CValue).

(** The bytes [first .. first + n) of the padding [pad]. *)
Definition pad_bytes (pad : Z -> Byte) (first n : Z) : list Byte := pad <$> seqZ first n.

(** The bytes of an object at [base], whose padding bytes are arbitrary. *)
Fixpoint object_bytes (pad : Z -> Byte) (base : Z) (t : CType) (v : CValue) : list Byte :=
  match v with
  | VInt x => match t with CInt bytes => le_bytes (Z.to_nat bytes) x | _ => [] end
  | VAggregate values =>
      match t with
      | CInt _ => []
      | CArray t _ =>
          (fix elements (offset : Z) (values : list CValue) : list Byte :=
             match values with
             | [] => []
             | v :: values => object_bytes pad (base + offset) t v ++ elements (offset + sizeof t) values
             end) 0 values
      | CStruct struct =>
          (fix fields (offset : Z) (members : list (string * CType)) (values : list CValue) : list Byte :=
             match members, values with
             | (_, t) :: members, v :: values =>
                 let o := round_up offset (alignof t) in
                 pad_bytes pad (base + offset) (o - offset) ++ object_bytes pad (base + o) t v ++
                 fields (o + sizeof t) members values
             | _, _ => pad_bytes pad (base + offset) (sizeof (CStruct struct) - offset)
             end) 0 struct values
      end
  end.

(** ** The structs of the source *)

Definition CBytes (n : Z) : CType := CArray (CInt 1) n.

Definition StatUpdate_layout : CType := CStruct
  [("timestamp_cycles", CInt 8); ("packets_seen", CInt 8); ("packets_dropped", CInt 8); ("bytes_seen", CInt 8);
   ("average_latency_ns", CInt 8); ("last_action", CInt 1); ("reserved0", CInt 1); ("reserved1", CInt 2)].

Definition DelayedFrame_layout : CType := CStruct
  [("frame_address", CInt 8); ("frame_length", CInt 4); ("rule_id", CInt 4); ("release_tick", CInt 8)].

Definition FrameHandle_layout : CType := CStruct [("address", CInt 8); ("index", CInt 4); ("reserved", CInt 4)].

Definition FrameAllocation_layout : CType := CStruct [("frame", FrameHandle_layout); ("status", CInt 1)].

Definition EthernetHeader_layout : CType := CStruct [("dst_mac", CBytes 6); ("src_mac", CBytes 6); ("ether_type", CBytes 2)].

Definition IPv4Header_layout : CType := CStruct
  [("version_ihl", CInt 1); ("dscp_ecn", CInt 1); ("total_length", CBytes 2); ("identification", CBytes 2);
   ("flags_fragment", CBytes 2); ("ttl", CInt 1); ("protocol", CInt 1); ("header_checksum", CBytes 2);
   ("src_addr", CBytes 4); ("dst_addr", CBytes 4)].

Definition TCPHeader_layout : CType := CStruct
  [("src_port", CBytes 2); ("dst_port", CBytes 2); ("seq_num", CBytes 4); ("ack_num", CBytes 4);
   ("data_offset_reserved", CInt 1); ("flags", CInt 1); ("window_size", CBytes 2); ("checksum", CBytes 2);
   ("urgent_pointer", CBytes 2)].

Definition UDPHeader_layout : CType := CStruct
  [("src_port", CBytes 2); ("dst_port", CBytes 2); ("length", CBytes 2); ("checksum", CBytes 2)].

Definition ChaosRule_layout : CType := CStruct
  [("seed", CInt 8); ("delay_ns", CInt 8); ("id", CInt 4); ("src_ip", CInt 4); ("dst_ip", CInt 4); ("src_port", CInt 2);
   ("dst_port", CInt 2); ("probability", CInt 2); ("protocol", CInt 1); ("action", CInt 1); ("enabled", CInt 1);
   ("reserved", CBytes 3)].

Definition ChaosDecision_layout : CType := CStruct
  [("hash", CInt 8); ("delay_ns", CInt 8); ("rule_id", CInt 4); ("roll", CInt 2); ("action", CInt 1);
   ("matched_rule", CInt 1)].

Definition PacketDescriptor_layout : CType := CStruct [("frame_address", CInt 8); ("frame_length", CInt 4); ("options", CInt 4)].

Definition ProcessedFrame_layout : CType := CStruct
  [("frame_address", CInt 8); ("frame_length", CInt 4); ("rule_id", CInt 4); ("action", CInt 1); ("reserved", CBytes 7)].

Definition MessageHeader_layout : CType := CStruct
  [("magic", CInt 2); ("version", CInt 1); ("opcode", CInt 1); ("sequence", CInt 4); ("payload_length", CInt 4);
   ("crc32", CInt 4); ("timestamp_ns", CInt 8)].

Definition RxDescriptor_layout : CType := CStruct [("address", CInt 8); ("length", CInt 4); ("options", CInt 4)].

Definition TxDescriptor_layout : CType := CStruct [("address", CInt 8); ("length", CInt 4); ("options", CInt 4)].

(** The sizes and alignments that the source asserts. *)
Definition asserted_layouts : list (CType * Z * Z) :=
  [(StatUpdate_layout, 48, 8); (DelayedFrame_layout, 24, 8); (FrameHandle_layout, 16, 8); (FrameAllocation_layout, 24, 8);
   (EthernetHeader_layout, kEthernetHeaderBytes, 1); (IPv4Header_layout, kIPv4BaseHeaderBytes, 1);
   (TCPHeader_layout, kTCPBaseHeaderBytes, 1); (UDPHeader_layout, kUDPHeaderBytes, 1);
   (ChaosRule_layout, 40, 8); (ChaosDecision_layout, 24, 8); (PacketDescriptor_layout, 16, 8);
   (ProcessedFrame_layout, 24, 8); (MessageHeader_layout, 24, 8); (RxDescriptor_layout, 16, 8); (TxDescriptor_layout, 16, 8)].

(** ** Layouts are sound *)

(** Case analysis on a size or an alignment. *)
Ltac size_cases H := rewrite !elem_of_cons, elem_of_nil in H; destruct H as [H|[H|[H|[H|[]]]]].

Section CType_induction.
Context (P : CType -> Prop).
Hypothesis P_int : forall n, P (CInt n).
Hypothesis P_array : forall t n, P t -> P (CArray t n).
Hypothesis P_struct : forall members, Forall (fun m => P m.2) members -> P (CStruct members).

Fixpoint CType_members_ind (t : CType) : P t :=
  match t with
  | CInt n => P_int n
  | CArray t n => P_array t n (CType_members_ind t)
  | CStruct members =>
      P_struct members ((fix go (l : list (string * CType)) : Forall (fun m => P m.2) l :=
        match l with
        | [] => Forall_nil_2 _
        | m :: l => Forall_cons_2 _ _ _ (let '(n, t) as m := m return P m.2 in CType_members_ind t) (go l)
        end) members)
  end.

End CType_induction.

(** Integers of 1, 2, 4 or 8 bytes and arrays of a length. *)
Fixpoint ctype_ok (t : CType) : bool :=
  match t with
  | CInt bytes => bool_decide (bytes ∈ [1; 2; 4; 8])
  | CArray t n => ctype_ok t && (0 <=? n)
  | CStruct members => forallb (fun '(_, t) => ctype_ok t) members
  end.

Lemma struct_members_ok members : ctype_ok (CStruct members) -> Forall (fun m => ctype_ok m.2) members.
Proof.
  cbn. induction members as [|[name t] members IH]; cbn; [constructor|]. intros [H1 H2]%andb_True.
  constructor; [done|by apply IH].
Qed.

Lemma round_up_bounds x a : 0 < a -> x <= round_up x a < x + a.
Proof. intros Ha. unfold round_up. pose proof (Z.div_mod (x + a - 1) a). pose proof (Z.mod_pos_bound (x + a - 1) a). nia. Qed.

Lemma round_up_divide x a : (a | round_up x a).
Proof. unfold round_up. apply Z.divide_factor_r. Qed.

Lemma alignof_cases t : ctype_ok t -> alignof t ∈ [1; 2; 4; 8].
Proof.
  induction t as [n|t n IH|members IH] using CType_members_ind; cbn -[In]; intros Hok.
  - by apply bool_decide_unpack in Hok.
  - apply andb_True in Hok as [Hok _]. by apply IH.
  - apply struct_members_ok in Hok. induction IH as [|[name t] members Ht _ IH]; [set_solver|].
    apply Forall_cons in Hok as [H1 H2]. cbn -[Z.max]. specialize (IH H2). specialize (Ht H1). cbn in Ht.
    destruct (Z.max_spec (alignof t) (foldr (fun '(_, t) a => Z.max (alignof t) a) 1 members)) as [[_ ->]|[_ ->]]; done.
Qed.

Lemma alignof_pos t : ctype_ok t -> 0 < alignof t.
Proof. intros H%alignof_cases. size_cases H; lia. Qed.

Lemma member_alignof members m : ctype_ok (CStruct members) -> m ∈ members -> (alignof m.2 | alignof (CStruct members)).
Proof.
  intros Hok Hm. assert (alignof m.2 <= alignof (CStruct members)) as Hle.
  { clear Hok. cbn. induction Hm as [[]|? [] ? ? IH]; cbn; lia. }
  pose proof (alignof_cases _ Hok) as H1. apply struct_members_ok in Hok. rewrite Forall_forall in Hok.
  pose proof (alignof_cases _ (Hok m Hm)) as H2. size_cases H1; size_cases H2;
    rewrite H1, H2 in *; (by exists 1) || (by exists 2) || (by exists 4) || (by exists 8) || lia.
Qed.

Lemma sizeof_align t : (alignof t | sizeof t).
Proof.
  induction t as [n|t n IH|members _] using CType_members_ind; cbn; [done| |apply round_up_divide].
  by apply Z.divide_mul_r.
Qed.

(** Where the members end. *)
Definition members_end (offset : Z) (members : list (string * CType)) : Z :=
  foldl (fun offset '(_, t) => round_up offset (alignof t) + sizeof t) offset members.

Lemma members_end_ge offset members :
  Forall (fun m => ctype_ok m.2 /\ 0 <= sizeof m.2) members -> offset <= members_end offset members.
Proof.
  intros H. revert offset. induction H as [|[name t] members [Hok Hs] _ IH]; intros offset; [done|].
  cbn [snd] in *. pose proof (round_up_bounds offset (alignof t) (alignof_pos _ Hok)).
  specialize (IH (round_up offset (alignof t) + sizeof t)).
  change (members_end offset ((name, t) :: members)) with (members_end (round_up offset (alignof t) + sizeof t) members). lia.
Qed.

Lemma sizeof_nonneg t : ctype_ok t -> 0 <= sizeof t.
Proof.
  induction t as [n|t n IH|members IH] using CType_members_ind; cbn -[round_up alignof].
  - intros Hok%bool_decide_unpack. size_cases Hok; lia.
  - intros [Hok Hn]%andb_True. apply Is_true_true, Z.leb_le in Hn. specialize (IH Hok). lia.
  - intros Hok. pose proof (alignof_pos (CStruct members) Hok) as Ha.
    pose proof (round_up_bounds (members_end 0 members) _ Ha) as [Hr _]. unfold members_end in Hr.
    pose proof (members_end_ge 0 members) as He. unfold members_end in He. apply struct_members_ok in Hok.
    enough (0 <= foldl (fun offset '(_, t) => round_up offset (alignof t) + sizeof t) 0 members) by lia. apply He.
    rewrite Forall_forall in *. intros m Hm. specialize (IH m Hm (Hok m Hm)). by split; [apply Hok|].
Qed.

(** Every member is aligned and ends before the next one starts. *)
Lemma placed_spec offset members i name o t :
  Forall (fun m => ctype_ok m.2) members -> placed offset members !! i = Some (name, o, t) ->
  offset <= o /\ (alignof t | o) /\ o + sizeof t <= members_end offset members /\
  forall j name' o' t', (i < j)%nat -> placed offset members !! j = Some (name', o', t') -> o + sizeof t <= o'.
Proof.
  intros Hok. revert offset i name o t. induction Hok as [|[n1 t1] members H1 Hok IH]; intros offset i name o t Hi; [done|].
  assert (Forall (fun m => ctype_ok m.2 /\ 0 <= sizeof m.2) members) as Hs.
  { eapply Forall_impl; [exact Hok|]. intros m Hm. split; [done|by apply sizeof_nonneg]. }
  cbn in H1. pose proof (round_up_bounds offset _ (alignof_pos _ H1)) as Hb. pose proof (sizeof_nonneg _ H1) as Hs1.
  cbn [placed] in Hi. set (o1 := round_up offset (alignof t1)) in *. destruct i as [|i].
  - injection Hi as <- <- <-. split_and!; [lia|apply round_up_divide|exact (members_end_ge (o1 + sizeof t1) members Hs)|].
    intros [|j] name' o' t' Hj Hlook; [lia|]. by destruct (IH _ _ _ _ _ Hlook) as [? _].
  - destruct (IH _ _ _ _ _ Hi) as (Hge & Hdiv & Hend & Hnext). split_and!; [lia|done|done|].
    intros [|j] name' o' t' Hj Hlook; [lia|]. apply (Hnext j name' o' t'); [lia|done].
Qed.

Lemma struct_placed members i name o t :
  ctype_ok (CStruct members) -> placed 0 members !! i = Some (name, o, t) ->
  0 <= o /\ (alignof t | o) /\ o + sizeof t <= sizeof (CStruct members) /\
  forall j name' o' t', (i < j)%nat -> placed 0 members !! j = Some (name', o', t') -> o + sizeof t <= o'.
Proof.
  intros Hok Hi. destruct (placed_spec 0 members i name o t (struct_members_ok _ Hok) Hi) as (H0 & Hd & He & Hn).
  split_and!; [done|done| |done]. pose proof (round_up_bounds (members_end 0 members) _ (alignof_pos _ Hok)) as [Hr _].
  change (sizeof (CStruct members)) with (round_up (members_end 0 members) (alignof (CStruct members))). lia.
Qed.

(** ** The structs on the wire *)

Definition rule_value (r : ChaosRule) : CValue := VAggregate
  [VInt (cr_seed r); VInt (cr_delay_ns r); VInt (cr_id r); VInt (cr_src_ip r); VInt (cr_dst_ip r); VInt (cr_src_port r);
   VInt (cr_dst_port r); VInt (cr_probability r); VInt (cr_protocol r); VInt (to_wire_value (cr_action r));
   VInt (cr_enabled r); VAggregate (VInt <$> cr_reserved r)].

Definition stats_value (s : StatUpdate) : CValue := VAggregate
  [VInt (su_timestamp_cycles s); VInt (su_packets_seen s); VInt (su_packets_dropped s); VInt (su_bytes_seen s);
   VInt (su_average_latency_ns s); VInt (to_wire_value (su_last_action s)); VInt (su_reserved0 s); VInt (su_reserved1 s)].

Lemma le_bytes_1 x : fits 8 x -> le_bytes 1 x = [x].
Proof. intros Hx. cbn. rewrite Z.div_1_r. f_equal. by apply wrap_small. Qed.

Lemma rule_object_bytes pad base r : rule_ok r -> object_bytes pad base ChaosRule_layout (rule_value r) = bytes_of_rule r.
Proof.
  intros Hr. pose proof (ro_reserved r Hr) as [Hlen Hres].
  destruct (cr_reserved r) as [|x [|y [|z [|]]]] eqn:E; try discriminate Hlen.
  apply Forall_cons in Hres as [Hx [Hy [Hz _]%Forall_cons]%Forall_cons].
  unfold bytes_of_rule, rule_value. rewrite E. cbn -[le_bytes]. unfold pad_bytes. cbn -[le_bytes].
  rewrite !le_bytes_1; try done; try apply Hr. by apply to_wire_value_fits, Hr.
Qed.

Lemma stats_object_bytes pad base s :
  stats_ok s -> object_bytes pad base StatUpdate_layout (stats_value s) = bytes_of_stats (pad_bytes pad (base + 44) 4) s.
Proof.
  intros [Ha H0]. unfold bytes_of_stats, stats_value. cbn -[le_bytes pad_bytes]. unfold pad_bytes at 1 2 3 4 5 6 7 8.
  cbn -[le_bytes pad_bytes]. rewrite !le_bytes_1; [|done|by apply to_wire_value_fits]. by rewrite <-?app_assoc.
Qed.

(** C30: structs have the layout the source asserts and the wire relies on.  Every struct
    with an asserted size and alignment has them, its members lie inside of it, each at a
    multiple of its alignment, none overlapping the next, and its size is a multiple of
    its alignment, so arrays of it are aligned too.  The bytes of a [ChaosRule] object are
    the 40 that the control core reads and writes, without padding; those of a
    [StatUpdate] are its members followed by four bytes of padding, whatever the memory
    held there. *)
Theorem struct_layouts :
  Forall (fun '(t, size, align) => ctype_ok t /\ sizeof t = size /\ alignof t = align /\ (align | size) /\
    forall members i name o m, t = CStruct members -> placed 0 members !! i = Some (name, o, m) ->
      0 <= o /\ (alignof m | o) /\ o + sizeof m <= size /\
      forall j name' o' m', (i < j)%nat -> placed 0 members !! j = Some (name', o', m') -> o + sizeof m <= o')
    asserted_layouts /\
  (forall pad base r, rule_ok r -> object_bytes pad base ChaosRule_layout (rule_value r) = bytes_of_rule r) /\
  (forall pad base s, stats_ok s ->
     object_bytes pad base StatUpdate_layout (stats_value s) = bytes_of_stats (pad_bytes pad (base + 44) 4) s).
Proof.
  split; [|split; [apply rule_object_bytes|apply stats_object_bytes]].
  assert (Forall (fun '(t, size, align) => ctype_ok t /\ sizeof t = size /\ alignof t = align) asserted_layouts) as H
    by (repeat (constructor; [by vm_compute|]); constructor).
  eapply Forall_impl; [exact H|]. intros [[t size] align] (Hok & <- & <-). split_and!; try done; [apply sizeof_align|].
  intros members i name o m -> Hi. by apply (struct_placed members i name).
Qed.

Lemma struct_layouts_witness :
  sizeof ChaosRule_layout = 40 /\
  object_bytes (fun _ => 170) 0 ChaosRule_layout (rule_value example_rule) = bytes_of_rule example_rule /\
  object_bytes (fun _ => 170) 0 StatUpdate_layout (stats_value StatUpdate_default) = replicate 44 0 ++ replicate 4 170.
Proof.
  destruct struct_layouts as (Hasserted & Hrule & Hstats). split_and!.
  - rewrite Forall_forall in Hasserted. assert ((ChaosRule_layout, 40, 8) ∈ asserted_layouts) as Hin by (unfold asserted_layouts; set_solver).
    exact (proj1 (proj2 (Hasserted _ Hin))).
  - apply Hrule. split; try done. split; [done|by repeat constructor].
  - exact (Hstats (fun _ => 170) 0 StatUpdate_default ltac:(done)).
Defined.

(** ** The header overlays *)

(** A member of a header at [base], read in network order. *)
Definition overlay (mem : Memory) (base : Z) (t : CType) (name : string) : option Z :=
  '(o, m) ← member t name; Some (be_value (byte_at mem base <$> seqZ o (sizeof m))).

Lemma be_value_1 x : be_value [x] = x.
Proof. unfold be_value. cbn. lia. Qed.

Lemma overlay_1 mem base o : be_value (byte_at mem base <$> seqZ o 1) = byte_at mem base o.
Proof. rewrite seqZ_cons by lia. change (seqZ (Z.succ o) (Z.pred 1)) with (@nil Z). apply be_value_1. Qed.

Lemma overlay_app l1 l2 : be_value (l1 ++ l2) = be_value l1 * 2 ^ (8 * zlen l2) + be_value l2.
Proof.
  induction l1 as [|x l1 IH]; cbn [app]; [unfold be_value; lia|].
  change (x * 2 ^ (8 * Z.of_nat (length (l1 ++ l2))) + be_value (l1 ++ l2)
    = (x * 2 ^ (8 * Z.of_nat (length l1)) + be_value l1) * 2 ^ (8 * zlen l2) + be_value l2).
  rewrite IH, length_app, Nat2Z.inj_add, Z.mul_add_distr_l, Z.pow_add_r by lia. unfold zlen. lia.
Qed.

Lemma overlay_split mem base o n1 n2 :
  0 <= n1 -> 0 <= n2 ->
  be_value (byte_at mem base <$> seqZ o (n1 + n2))
  = be_value (byte_at mem base <$> seqZ o n1) * 2 ^ (8 * n2) + be_value (byte_at mem base <$> seqZ (o + n1) n2).
Proof.
  intros H1 H2. rewrite seqZ_app, fmap_app, overlay_app by done. unfold zlen. rewrite length_fmap, length_seqZ.
  by rewrite Z2Nat.id.
Qed.

Lemma overlay_2 mem base o : be_value (byte_at mem base <$> seqZ o 2) = be16_at mem base o.
Proof.
  pose proof (overlay_split mem base o 1 1) as H. rewrite !overlay_1 in H. change (1 + 1) with 2 in H. rewrite H by lia.
  unfold be16_at. lia.
Qed.

Lemma overlay_4 mem base o : be_value (byte_at mem base <$> seqZ o 4) = be32_at mem base o.
Proof.
  pose proof (overlay_split mem base o 2 2) as H. rewrite !overlay_2 in H. change (2 + 2) with 4 in H. rewrite H by lia.
  unfold be32_at. lia.
Qed.

Lemma byte_at_shift mem base k i : byte_at mem (base + k) i = byte_at mem base (k + i).
Proof. unfold byte_at. by rewrite Z.add_assoc. Qed.

Lemma overlay_shift mem base k o n :
  byte_at mem (base + k) <$> seqZ o n = byte_at mem base <$> seqZ (k + o) n.
Proof.
  rewrite <-fmap_add_seqZ, <-list_fmap_compose. apply list_fmap_ext. intros i x _. cbn.
  by rewrite byte_at_shift.
Qed.

Lemma overlay_member mem base k t name o m n :
  member t name = Some (o, m) -> sizeof m = n ->
  overlay mem (base + k) t name = Some (be_value (byte_at mem base <$> seqZ (k + o) n)).
Proof. intros H <-. unfold overlay. rewrite H. cbn [mbind option_bind]. by rewrite overlay_shift. Qed.

Ltac overlay_field := erewrite overlay_member by (vm_compute; reflexivity); rewrite ?overlay_1, ?overlay_2, ?overlay_4.

(** C31: the parser reads the headers where the overlay structs have their members.  In
    every frame the parser accepts, the fields of its view are the members of an
    [EthernetHeader] at the start of the frame, of an [IPv4Header] at [l3_offset] and of a
    [TCPHeader] or [UDPHeader] at [l4_offset], in network order; the payload starts
    behind the transport header. *)
Theorem overlays_match_parser mem base length v :
  mem_ok mem -> 0 <= base -> base + length <= zlen mem -> 0 <= length ->
  parse_packet mem (Some base) length = Some v -> pv_ok v = true ->
  let ether := overlay mem base EthernetHeader_layout in
  let ip := overlay mem (base + pv_l3_offset v) IPv4Header_layout in
  let tcp := overlay mem (base + pv_l4_offset v) TCPHeader_layout in
  let udp := overlay mem (base + pv_l4_offset v) UDPHeader_layout in
  pv_l3_offset v = sizeof EthernetHeader_layout /\ ether "ether_type" = Some (pv_ether_type v) /\
  pv_dst_mac v = Some base /\ pv_src_mac v = Some (base + sizeof (CBytes 6)) /\
  ip "total_length" = Some (pv_ipv4_total_length v) /\ ip "protocol" = Some (pv_ipv4_protocol v) /\
  ip "src_addr" = Some (pv_src_ip v) /\ ip "dst_addr" = Some (pv_dst_ip v) /\
  (exists version_ihl, ip "version_ihl" = Some version_ihl /\ version_ihl = 16 * 4 + pv_ipv4_header_length v / 4) /\
  (if pv_is_tcp v then
     tcp "src_port" = Some (pv_src_port v) /\ tcp "dst_port" = Some (pv_dst_port v) /\
     (exists offset, tcp "data_offset_reserved" = Some offset /\ pv_tcp_header_length v = 4 * (offset / 16)) /\
     pv_payload_offset v = pv_l4_offset v + pv_tcp_header_length v
   else
     udp "src_port" = Some (pv_src_port v) /\ udp "dst_port" = Some (pv_dst_port v) /\
     udp "length" = Some (sizeof UDPHeader_layout + pv_payload_length v) /\
     pv_payload_offset v = pv_l4_offset v + sizeof UDPHeader_layout).
Proof.
  intros Hm Hb Hf Hl Hparse Hok. destruct (parse_packet_spec mem base length Hm Hb Hf Hl) as (v' & Hv' & Hiff & Hview).
  rewrite Hparse in Hv'. injection Hv' as <-. apply Hiff in Hok as Hwf. specialize (Hview Hok). subst v. clear Hiff Hparse.
  destruct Hwf as (H34 & Hether & Hver & [Hihl _] & _ & _ & Htransport).
  cbv zeta. change (pv_l3_offset (frame_view mem base length)) with 14.
  change (pv_l4_offset (frame_view mem base length)) with (l4_start mem base).
  split; [done|]. split.
  { rewrite <-(Z.add_0_r base) at 1. overlay_field. f_equal. exact Hether. }
  pose proof (byte_at_fits mem base Hm 14) as H14. unfold fits in H14.
  assert (14 <= length) by lia.
  assert (kEthernetHeaderBytes <=? pv_frame_length (frame_view mem base length) = true) as Hlong by by apply Z.leb_le.
  split; [unfold pv_dst_mac; by rewrite Hlong|]. split; [unfold pv_src_mac; by rewrite Hlong|].
  split; [by overlay_field|]. split; [by overlay_field|]. split; [by overlay_field|]. split; [by overlay_field|].
  split; [eexists; split; [by overlay_field|]|].
  { cbn [pv_ipv4_header_length frame_view]. unfold ip_header_length. rewrite (Z.mul_comm 4 (_ mod _)), Z.div_mul by lia.
    rewrite <-Hver. exact (Z.div_mod (byte_at mem base 14) 16 ltac:(lia)). }
  unfold pv_is_tcp. rewrite Hok. unfold frame_view, transport_header_length, transport_payload_length.
  cbn [andb pv_ipv4_protocol pv_src_port pv_dst_port pv_tcp_header_length pv_payload_offset pv_payload_length pv_l4_offset].
  destruct (Z.eqb_spec (byte_at mem base 23) kIPv4ProtocolTCP) as [Htcp|Hudp]; cbv iota.
  - split; [overlay_field; by rewrite Z.add_0_r|]. split; [by overlay_field|]. split; [|done].
    eexists. split; [by overlay_field|done].
  - split; [overlay_field; by rewrite Z.add_0_r|]. split; [by overlay_field|]. split; [|done].
    overlay_field. f_equal. change (sizeof UDPHeader_layout) with 8. lia.
Qed.

Lemma overlays_match_parser_witness :
  exists v, parse_packet example_udp_frame (Some 0) (zlen example_udp_frame) = Some v /\ pv_is_udp v = true /\
    overlay example_udp_frame (0 + pv_l4_offset v) UDPHeader_layout "dst_port" = Some (pv_dst_port v).
Proof.
  eexists. split; [vm_compute; reflexivity|]. split; [reflexivity|].
  match goal with |- overlay _ (0 + pv_l4_offset ?v) _ _ = _ =>
    pose proof (overlays_match_parser example_udp_frame 0 (zlen example_udp_frame) v) as H end.
  cbv zeta in H. destruct H as (_ & _ & _ & _ & _ & _ & _ & _ & _ & H);
    [apply example_udp_frame_ok|done|done|done|vm_compute; reflexivity|reflexivity|].
  exact (proj1 (proj2 H)).
Defined.
