(* ===== verification/Runtime.v ===== *)
(** * [include/chronosx/af_xdp_runtime.hpp]: the runtime adapter

    [AfXdpRuntimeAdapter] owns the UMEM, the frame allocator, the socket and the timing
    wheel, and moves every frame from one to the other.  Its socket and wheel types are
    template parameters: the classes [XskSocket] and [TimedQueue] say what the adapter
    needs of them, [SimulatedXskSocket_socket] and [TimingWheel_timed_queue] are the
    implementations of the repository. *)

From S2P Require Import Prelude Types Ring TimingWheel FrameAllocator PacketParser ChaosEngine DataPlane SocketManager.

Inductive RuntimeStatus :=
| RuntimeStatus_Ok
| RuntimeStatus_AlreadyInitialized
| RuntimeStatus_NotInitialized
| RuntimeStatus_FrameAllocationFailed
| RuntimeStatus_InvalidFrame
| RuntimeStatus_InvalidOwner
| RuntimeStatus_RingFull.

#[export] Instance RuntimeStatus_eq_dec : EqDecision RuntimeStatus.
Proof. solve_decision. Defined.

Record RuntimePollStats := mkRuntimePollStats {
  rs_rx_frames : Z;
  rs_tx_submitted : Z;
  rs_tx_completed : Z;
  rs_fill_refilled : Z;
  rs_fill_failures : Z;
  rs_owner_failures : Z;
  rs_data_plane : DataPlaneBatchStats;
}.

Definition RuntimePollStats_default : RuntimePollStats :=
  mkRuntimePollStats 0 0 0 0 0 0 DataPlaneBatchStats_default.

Record RuntimePollResult := mkRuntimePollResult {
  rpr_status : RuntimeStatus;
  rpr_stats : RuntimePollStats;
}.

Record RuntimeConfig := mkRuntimeConfig {
  rc_initial_fill_frames : Z;
}.

Definition RuntimeConfig_default : RuntimeConfig := mkRuntimeConfig kDefaultFillRingSize.

(** [++stats.field], and the three assignments of [poll_once] and [drain_completions]. *)
Definition rs_inc_tx_submitted (s : RuntimePollStats) : RuntimePollStats :=
  mkRuntimePollStats (rs_rx_frames s) (u64 (rs_tx_submitted s + 1)) (rs_tx_completed s) (rs_fill_refilled s)
    (rs_fill_failures s) (rs_owner_failures s) (rs_data_plane s).
Definition rs_inc_fill_refilled (s : RuntimePollStats) : RuntimePollStats :=
  mkRuntimePollStats (rs_rx_frames s) (rs_tx_submitted s) (rs_tx_completed s) (u64 (rs_fill_refilled s + 1))
    (rs_fill_failures s) (rs_owner_failures s) (rs_data_plane s).
Definition rs_inc_fill_failures (s : RuntimePollStats) : RuntimePollStats :=
  mkRuntimePollStats (rs_rx_frames s) (rs_tx_submitted s) (rs_tx_completed s) (rs_fill_refilled s)
    (u64 (rs_fill_failures s + 1)) (rs_owner_failures s) (rs_data_plane s).
Definition rs_inc_owner_failures (s : RuntimePollStats) : RuntimePollStats :=
  mkRuntimePollStats (rs_rx_frames s) (rs_tx_submitted s) (rs_tx_completed s) (rs_fill_refilled s)
    (rs_fill_failures s) (u64 (rs_owner_failures s + 1)) (rs_data_plane s).
Definition rs_add_tx_completed (s : RuntimePollStats) (n : Z) : RuntimePollStats :=
  mkRuntimePollStats (rs_rx_frames s) (rs_tx_submitted s) (u64 (rs_tx_completed s + n)) (rs_fill_refilled s)
    (rs_fill_failures s) (rs_owner_failures s) (rs_data_plane s).
Definition rs_set_rx_frames (s : RuntimePollStats) (n : Z) : RuntimePollStats :=
  mkRuntimePollStats n (rs_tx_submitted s) (rs_tx_completed s) (rs_fill_refilled s)
    (rs_fill_failures s) (rs_owner_failures s) (rs_data_plane s).
Definition rs_set_data_plane (s : RuntimePollStats) (d : DataPlaneBatchStats) : RuntimePollStats :=
  mkRuntimePollStats (rs_rx_frames s) (rs_tx_submitted s) (rs_tx_completed s) (rs_fill_refilled s)
    (rs_fill_failures s) (rs_owner_failures s) d.

(** ** What the adapter needs of its socket

    [xs_repr s q] says that the socket's rings hold the queues [q].  A producing call
    takes a front part of the span, all of it when the ring has room; a consuming call
    moves a front part of the queue to the front of the span, as much as fits. *)

Class XskSocket (SocketT : Type) := {
  xs_refill : SocketT -> list Z -> option (RingResult * SocketT);
  xs_drain_completions : SocketT -> list Z -> option (RingResult * list Z * SocketT);
  xs_consume_rx : SocketT -> list RxDescriptor -> option (RingResult * list RxDescriptor * SocketT);
  xs_submit_tx : SocketT -> list TxDescriptor -> option (RingResult * SocketT);
  xs_kick_tx : SocketT -> option (SocketStatus * SocketT);
  xs_fill_capacity : Z;
  xs_tx_capacity : Z;
  xs_repr : SocketT -> Queues -> Prop;
  xs_repr_inj : forall s q q', xs_repr s q -> xs_repr s q' -> q = q';
  xs_refill_law : forall s q l, xs_repr s q -> zlen l < 2 ^ 32 ->
    exists (k : nat) status s', xs_refill s l = Some (mkRingResult (Z.of_nat k) status, s') /\ (k <= length l)%nat /\
      (zlen (q_fill q) + zlen l <= xs_fill_capacity -> k = length l) /\
      xs_repr s' (mkQueues (q_fill q ++ take k l) (q_completion q) (q_rx q) (q_tx q) (q_kicks q));
  xs_drain_completions_law : forall s q out, xs_repr s q -> zlen out < 2 ^ 32 ->
    let k := Nat.min (length out) (length (q_completion q)) in
    exists status s', xs_drain_completions s out
        = Some (mkRingResult (Z.of_nat k) status, take k (q_completion q) ++ drop k out, s') /\
      xs_repr s' (mkQueues (q_fill q) (drop k (q_completion q)) (q_rx q) (q_tx q) (q_kicks q));
  xs_consume_rx_law : forall s q out, xs_repr s q -> zlen out < 2 ^ 32 ->
    let k := Nat.min (length out) (length (q_rx q)) in
    exists status s', xs_consume_rx s out
        = Some (mkRingResult (Z.of_nat k) status, take k (q_rx q) ++ drop k out, s') /\
      xs_repr s' (mkQueues (q_fill q) (q_completion q) (drop k (q_rx q)) (q_tx q) (q_kicks q));
  xs_submit_tx_law : forall s q l, xs_repr s q -> zlen l < 2 ^ 32 ->
    exists (k : nat) status s', xs_submit_tx s l = Some (mkRingResult (Z.of_nat k) status, s') /\ (k <= length l)%nat /\
      (zlen (q_tx q) + zlen l <= xs_tx_capacity -> k = length l) /\
      xs_repr s' (mkQueues (q_fill q) (q_completion q) (q_rx q) (q_tx q ++ take k l) (q_kicks q));
  xs_kick_tx_law : forall s q, xs_repr s q ->
    exists status kicks s', xs_kick_tx s = Some (status, s') /\
      xs_repr s' (mkQueues (q_fill q) (q_completion q) (q_rx q) (q_tx q) kicks);
}.

(** The delay queue with its clock: [tick] takes out what has expired. *)
Class TimedQueue (W : Type) := {
  tq_queue :: DelayQueue W;
  tq_tick : W -> option (list DelayedFrame * W);
  tq_holds_perm : forall w l l', l ≡ₚ l' -> dq_holds w l -> dq_holds w l';
  tq_tick_law : forall w l, dq_holds w l ->
    exists expired w' rest, tq_tick w = Some (expired, w') /\ l ≡ₚ (df_key <$> expired) ++ rest /\ dq_holds w' rest;
}.

#[export] Instance dq_holds_proper {W} `{!TimedQueue W} : Proper (eq ==> (≡ₚ) ==> iff) dq_holds.
Proof. intros w ? <- l l' Hl. split; apply tq_holds_perm; [done|by symmetry]. Qed.

(** ** [AfXdpRuntimeAdapter] *)

Record AfXdpRuntimeAdapter (SocketT W : Type) := mkAfXdpRuntimeAdapter {
  ra_umem_ : Memory;
  ra_allocator_ : FrameAllocator;
  ra_socket_ : SocketT;
  ra_timing_wheel_ : W;
  ra_initialized_ : bool;
}.
Arguments mkAfXdpRuntimeAdapter {SocketT W}.
Arguments ra_umem_ {SocketT W}.
Arguments ra_allocator_ {SocketT W}.
Arguments ra_socket_ {SocketT W}.
Arguments ra_timing_wheel_ {SocketT W}.
Arguments ra_initialized_ {SocketT W}.

Section Adapter.
Context {SocketT W : Type} `{!XskSocket SocketT} `{!TimedQueue W} (FrameCount FrameSize : Z).
Abbreviation Adapter := (AfXdpRuntimeAdapter SocketT W).

(** [AfXdpRuntimeAdapter() = default], for the default socket and wheel. *)
Definition ra_default (socket : SocketT) (timing_wheel : W) : Adapter :=
  mkAfXdpRuntimeAdapter (replicate (Z.to_nat (u64 (FrameCount * FrameSize))) 0) (FrameAllocator_new FrameCount)
    socket timing_wheel false.

Definition ra_set_allocator (rt : Adapter) (a : FrameAllocator) : Adapter :=
  mkAfXdpRuntimeAdapter (ra_umem_ rt) a (ra_socket_ rt) (ra_timing_wheel_ rt) (ra_initialized_ rt).
Definition ra_set_socket (rt : Adapter) (s : SocketT) : Adapter :=
  mkAfXdpRuntimeAdapter (ra_umem_ rt) (ra_allocator_ rt) s (ra_timing_wheel_ rt) (ra_initialized_ rt).
Definition ra_set_wheel (rt : Adapter) (w : W) : Adapter :=
  mkAfXdpRuntimeAdapter (ra_umem_ rt) (ra_allocator_ rt) (ra_socket_ rt) w (ra_initialized_ rt).
Definition ra_set_umem (rt : Adapter) (m : Memory) : Adapter :=
  mkAfXdpRuntimeAdapter m (ra_allocator_ rt) (ra_socket_ rt) (ra_timing_wheel_ rt) (ra_initialized_ rt).
Definition ra_set_initialized (rt : Adapter) (b : bool) : Adapter :=
  mkAfXdpRuntimeAdapter (ra_umem_ rt) (ra_allocator_ rt) (ra_socket_ rt) (ra_timing_wheel_ rt) b.

(** [allocator_.transition], on the adapter. *)
Definition ra_transition (rt : Adapter) (frame : FrameHandle) (expected_owner next_owner : FrameOwner)
    : option (FrameStatus * Adapter) :=
  '(status, allocator) ← transition FrameCount FrameSize (ra_allocator_ rt) frame expected_owner next_owner;
  Some (status, ra_set_allocator rt allocator).

(** The loop of [init] with [n] frames left to put on the fill ring. *)
Fixpoint ra_init_loop (n : nat) (rt : Adapter) : option (RuntimeStatus * Adapter) :=
  match n with
  | O => Some (RuntimeStatus_Ok, ra_set_initialized rt true)
  | S n =>
      '(allocation, allocator) ← allocate FrameSize (ra_allocator_ rt) FrameOwner_FillRing;
      let rt := ra_set_allocator rt allocator in
      if negb (fal_ok allocation) then Some (RuntimeStatus_FrameAllocationFailed, rt)
      else
        '(fill, socket) ← xs_refill (ra_socket_ rt) [fh_address (fal_frame allocation)];
        let rt := ra_set_socket rt socket in
        if negb (rr_count fill =? 1) then
          '(_, rt) ← ra_transition rt (fal_frame allocation) FrameOwner_FillRing FrameOwner_Free;
          Some (RuntimeStatus_RingFull, rt)
        else ra_init_loop n rt
  end.

Definition ra_init (rt : Adapter) (config : RuntimeConfig) : option (RuntimeStatus * Adapter) :=
  if ra_initialized_ rt then Some (RuntimeStatus_AlreadyInitialized, rt)
  else
    let fill_target := if rc_initial_fill_frames config <? FrameCount then rc_initial_fill_frames config
                       else FrameCount in
    ra_init_loop (Z.to_nat fill_target) rt.

Definition ra_refill_one (rt : Adapter) (frame : FrameHandle) (expected_owner : FrameOwner)
    (stats : RuntimePollStats) : option (RuntimePollStats * Adapter) :=
  '(status, rt) ← ra_transition rt frame expected_owner FrameOwner_FillRing;
  if negb (status =?? FrameStatus_Ok) then Some (rs_inc_owner_failures stats, rt)
  else
    '(fill, socket) ← xs_refill (ra_socket_ rt) [fh_address frame];
    let rt := ra_set_socket rt socket in
    if rr_count fill =? 1 then Some (rs_inc_fill_refilled stats, rt)
    else
      let stats := rs_inc_fill_failures stats in
      '(_, rt) ← ra_transition rt frame FrameOwner_FillRing expected_owner;
      Some (stats, rt).

Fixpoint ra_refill_recycled (rt : Adapter) (frames : list ProcessedFrame) (stats : RuntimePollStats)
    : option (RuntimePollStats * Adapter) :=
  match frames with
  | [] => Some (stats, rt)
  | frame :: frames =>
      let handle := handle_from_address FrameCount FrameSize (pf_frame_address frame) in
      if negb (fal_ok handle) then ra_refill_recycled rt frames (rs_inc_owner_failures stats)
      else
        '(stats, rt) ← ra_refill_one rt (fal_frame handle) FrameOwner_DataPlane stats;
        ra_refill_recycled rt frames stats
  end.

Fixpoint ra_submit_tx (rt : Adapter) (frames : list ProcessedFrame) (stats : RuntimePollStats)
    : option (RuntimePollStats * Adapter) :=
  match frames with
  | [] => Some (stats, rt)
  | frame :: frames =>
      let handle := handle_from_address FrameCount FrameSize (pf_frame_address frame) in
      if negb (fal_ok handle) then ra_submit_tx rt frames (rs_inc_owner_failures stats)
      else
        owner ← owner_of FrameCount (ra_allocator_ rt) (fh_index (fal_frame handle));
        '(status, rt) ← ra_transition rt (fal_frame handle) owner FrameOwner_TxRing;
        if negb (status =?? FrameStatus_Ok) then ra_submit_tx rt frames (rs_inc_owner_failures stats)
        else
          '(result, socket) ← xs_submit_tx (ra_socket_ rt)
             [mkTxDescriptor (pf_frame_address frame) (pf_frame_length frame) 0];
          let rt := ra_set_socket rt socket in
          if rr_count result =? 1 then
            let stats := rs_inc_tx_submitted stats in
            '(_, socket) ← xs_kick_tx (ra_socket_ rt);
            ra_submit_tx (ra_set_socket rt socket) frames stats
          else
            let stats := rs_inc_fill_failures stats in
            '(_, rt) ← ra_transition rt (fal_frame handle) FrameOwner_TxRing owner;
            ra_submit_tx rt frames stats
  end.

(** The loop of [release_delayed] over the expired frames. *)
Fixpoint ra_release_loop (rt : Adapter) (expired : list DelayedFrame) (stats : RuntimePollStats)
    : option (RuntimePollStats * Adapter) :=
  match expired with
  | [] => Some (stats, rt)
  | frame :: expired =>
      let processed := mkProcessedFrame (df_frame_address frame) (df_frame_length frame) (df_rule_id frame)
                         PacketAction_Delay in
      '(stats, rt) ← ra_submit_tx rt [processed] stats;
      ra_release_loop rt expired stats
  end.

Definition ra_release_delayed (rt : Adapter) (stats : RuntimePollStats) : option (RuntimePollStats * Adapter) :=
  '(expired, wheel) ← tq_tick (ra_timing_wheel_ rt);
  ra_release_loop (ra_set_wheel rt wheel) expired stats.

(** The loop of [drain_completions] from [index] on, with [n] iterations left. *)
Fixpoint ra_drain_loop (n : nat) (index : Z) (completed : list Z) (rt : Adapter) (stats : RuntimePollStats)
    : option (RuntimePollStats * Adapter) :=
  match n with
  | O => Some (stats, rt)
  | S n =>
      address ← completed.[index];
      let frame := handle_from_address FrameCount FrameSize address in
      if negb (fal_ok frame) then ra_drain_loop n (index + 1) completed rt (rs_inc_owner_failures stats)
      else
        '(stats, rt) ← ra_refill_one rt (fal_frame frame) FrameOwner_TxRing stats;
        ra_drain_loop n (index + 1) completed rt stats
  end.

Definition ra_drain_completions (rt : Adapter) (stats : RuntimePollStats) : option (RuntimePollStats * Adapter) :=
  '(result, completed, socket) ← xs_drain_completions (ra_socket_ rt) (replicate (Z.to_nat kDataPlaneBatchSize) 0);
  let rt := ra_set_socket rt socket in
  let stats := rs_add_tx_completed stats (rr_count result) in
  ra_drain_loop (Z.to_nat (rr_count result)) 0 completed rt stats.

(** The loop of [poll_once] that turns receive descriptors into packet descriptors. *)
Fixpoint ra_collect_loop (n : nat) (index : Z) (rx : list RxDescriptor) (rt : Adapter) (stats : RuntimePollStats)
    (descriptors : list PacketDescriptor) (descriptor_count : Z)
    : option (RuntimePollStats * Adapter * list PacketDescriptor * Z) :=
  match n with
  | O => Some (stats, rt, descriptors, descriptor_count)
  | S n =>
      d ← rx.[index];
      let frame := handle_from_address FrameCount FrameSize (rx_address d) in
      if negb (fal_ok frame) then
        ra_collect_loop n (index + 1) rx rt (rs_inc_owner_failures stats) descriptors descriptor_count
      else
        owner ← owner_of FrameCount (ra_allocator_ rt) (fh_index (fal_frame frame));
        '(status, rt) ← ra_transition rt (fal_frame frame) owner FrameOwner_DataPlane;
        if negb (status =?? FrameStatus_Ok) then
          ra_collect_loop n (index + 1) rx rt (rs_inc_owner_failures stats) descriptors descriptor_count
        else
          descriptors ← descriptors.[descriptor_count <- mkPacketDescriptor (rx_address d) (rx_length d) (rx_options d)];
          ra_collect_loop n (index + 1) rx rt stats descriptors (u64 (descriptor_count + 1))
  end.

Definition ra_poll_once (rt : Adapter) (rules : list ChaosRule) : option (RuntimePollResult * Adapter) :=
  if negb (ra_initialized_ rt)
  then Some (mkRuntimePollResult RuntimeStatus_NotInitialized RuntimePollStats_default, rt)
  else
    '(stats, rt) ← ra_drain_completions rt RuntimePollStats_default;
    '(stats, rt) ← ra_release_delayed rt stats;
    '(rx_result, rx, socket) ← xs_consume_rx (ra_socket_ rt) (replicate (Z.to_nat kDataPlaneBatchSize) inhabitant);
    let rt := ra_set_socket rt socket in
    let stats := rs_set_rx_frames stats (rr_count rx_result) in
    '(stats, rt, descriptors, descriptor_count) ←
       ra_collect_loop (Z.to_nat (rr_count rx_result)) 0 rx rt stats
         (replicate (Z.to_nat kDataPlaneBatchSize) (mkPacketDescriptor 0 0 0)) 0;
    batch ← process_packet_batch (ra_umem_ rt) (Some 0) (zlen (ra_umem_ rt))
       (take (Z.to_nat descriptor_count) descriptors) rules (ra_timing_wheel_ rt)
       (replicate (Z.to_nat kDataPlaneBatchSize) inhabitant) (replicate (Z.to_nat kDataPlaneBatchSize) inhabitant)
       kDefaultTimingWheelTickNs;
    let rt := ra_set_wheel (ra_set_umem rt (ba_mem batch)) (ba_wheel batch) in
    let stats := rs_set_data_plane stats (br_stats (ba_result batch)) in
    '(stats, rt) ← ra_submit_tx rt (take (Z.to_nat (br_tx_count (ba_result batch))) (ba_tx_output batch)) stats;
    '(stats, rt) ← ra_refill_recycled rt
       (take (Z.to_nat (br_recycle_count (ba_result batch))) (ba_recycle_output batch)) stats;
    Some (mkRuntimePollResult RuntimeStatus_Ok stats, rt).

Definition ra_umem_size_bytes (rt : Adapter) : Z := zlen (ra_umem_ rt).

End Adapter.

(** ** Who has which frame

    A list of claims names every frame in use once, by its address, with its owner. *)

Section ownership.
Context (FrameCount FrameSize : Z).
Hypothesis FrameCount_bounds : 0 < FrameCount <= 2 ^ 32.
Hypothesis FrameSize_pos : 0 < FrameSize.
Hypothesis umem_fits : FrameCount * FrameSize < 2 ^ 64.

Record owns (a : FrameAllocator) (claims : list (FrameOwner * Z)) : Prop := {
  ow_inv : fa_inv FrameCount a;
  ow_nodup : NoDup claims.*2;
  ow_claim : forall o address, (o, address) ∈ claims <->
    exists i, 0 <= i < FrameCount /\ address = i * FrameSize /\ o <> FrameOwner_Free /\ (fa_owners_ a).[i] = Some o;
}.

#[global] Instance owns_proper : Proper (eq ==> (≡ₚ) ==> iff) owns.
Proof.
  assert (forall a l l', l ≡ₚ l' -> owns a l -> owns a l') as H.
  { intros a l l' Hl [Hi Hn Hc]. split; [done|by rewrite <-Hl|]. intros o ad. by rewrite <-Hl. }
  intros a ? <- l l' Hl. split; apply H; [done|by symmetry].
Qed.

(** A claimed frame, and that no other claim names it. *)
Lemma owns_cons a o address claims :
  owns a ((o, address) :: claims) ->
  exists i, 0 <= i < FrameCount /\ address = i * FrameSize /\ o <> FrameOwner_Free /\ (fa_owners_ a).[i] = Some o /\
    handle_from_address FrameCount FrameSize address = mkFrameAllocation (make_handle FrameSize i) FrameStatus_Ok /\
    address ∉ claims.*2.
Proof.
  intros [Hi Hn Hc]. destruct (proj1 (Hc o address) ltac:(by left)) as (i & Hr & -> & Ho & Hi').
  exists i. split_and!; [lia|lia|done..|by apply handle_of_frame|]. by apply NoDup_cons in Hn as [? _].
Qed.

Lemma make_handle_ok i : 0 <= i < FrameCount -> handle_ok (make_handle FrameSize i).
Proof. intros Hi. split; unfold fits; simpl; [lia|]. rewrite (frame_offset FrameCount) by done. nia. Qed.

Lemma fh_address_make i : 0 <= i < FrameCount -> fh_address (make_handle FrameSize i) = i * FrameSize.
Proof. intros. simpl. by rewrite (frame_offset FrameCount). Qed.

(** [transition] succeeds on a claimed frame and hands the claim over. *)
Lemma owns_transition a o next i claims :
  owns a ((o, i * FrameSize) :: claims) -> 0 <= i < FrameCount ->
  exists a', transition FrameCount FrameSize a (make_handle FrameSize i) o next = Some (FrameStatus_Ok, a') /\
    owns a' (if decide (next = FrameOwner_Free) then claims else (next, i * FrameSize) :: claims).
Proof.
  intros Hown Hi. destruct (owns_cons _ _ _ _ Hown) as (i' & _ & Heq & Hne & Ho & _ & Hnot).
  assert (i' = i) as -> by nia.
  destruct (transition_spec FrameCount FrameSize FrameCount_bounds FrameSize_pos umem_fits a (make_handle FrameSize i)
    o next (ow_inv _ _ Hown) (make_handle_ok i Hi) Hne) as (a' & Htr & Ha' & Hset0).
  rewrite make_handle_valid in Htr, Hset0 by done. simpl in Htr, Hset0. rewrite Ho, bool_decide_eq_true_2 in Htr, Hset0 by done. destruct Hset0 as [Hset _].
  exists a'. split; [done|]. pose proof (ow_nodup _ _ Hown) as Hn. simpl in Hn. apply NoDup_cons in Hn as [_ Hn].
  assert (forall o' ad, ad <> i * FrameSize -> (o', ad) ∈ claims <->
    exists j, 0 <= j < FrameCount /\ ad = j * FrameSize /\ o' <> FrameOwner_Free /\ (fa_owners_ a').[j] = Some o') as Hother.
  { intros o' ad Had. pose proof (ow_claim _ _ Hown o' ad) as Hc. rewrite elem_of_cons in Hc.
    split.
    - intros Hin. destruct (proj1 Hc (or_intror Hin)) as (j & ? & -> & ? & ?). exists j. split_and!; [lia|lia|done|done|].
      rewrite (aget_aset_ne _ _ _ j _ Hset); [done|]. by intros ->.
    - intros (j & ? & -> & ? & Hj). rewrite (aget_aset_ne _ _ _ j _ Hset) in Hj by (by intros ->).
      assert ((o', j * FrameSize) = (o, i * FrameSize) \/ (o', j * FrameSize) ∈ claims) as [[= _ ?]|?]; [|done..].
      apply Hc. exists j. split_and!; [lia|lia|done..]. }
  assert (forall o', (o', i * FrameSize) ∉ claims) as Hnot'.
  { intros o' Hin. apply Hnot. change (i * FrameSize) with ((o', i * FrameSize).2). by apply list_elem_of_fmap_2. }
  pose proof (aget_aset_eq _ _ _ _ Hset) as Hnew.
  case_decide as Hfree; split; try done.
  - intros o' ad. destruct (decide (ad = i * FrameSize)) as [->|]; [|by apply Hother]. split; [by intros ?%Hnot'|].
    intros (j & _ & Hj & ? & ?). assert (j = i) as -> by nia. congruence.
  - by apply NoDup_cons.
  - intros o' ad. rewrite elem_of_cons. destruct (decide (ad = i * FrameSize)) as [->|Had].
    + split; [intros [[= ->]|?%Hnot']; [exists i; split_and!; [lia|lia|done..]|done]|]. intros (j & _ & Hj & ? & ?).
      assert (j = i) as -> by nia. left. congruence.
    + rewrite <-Hother by done. split; [by intros [[= ? ?]|?]|by right].
Qed.

(** Every frame is either free or claimed. *)
Lemma owns_partition a claims :
  owns a claims -> claims.*2 ++ ((fun i => i * FrameSize) <$> free_list a) ≡ₚ (fun i => i * FrameSize) <$> seqZ 0 FrameCount.
Proof.
  intros [Hi Hn Hc]. assert (Inj eq eq (fun i => i * FrameSize)) as Hinj by (intros i j; simpl; nia).
  apply NoDup_Permutation.
  - apply NoDup_app. split_and!; [done| |apply NoDup_fmap_2; [done|apply Hi]].
    intros ad ([o ?] & -> & (i & ? & -> & ? & Ho)%Hc)%list_elem_of_fmap (j & Heq & Hj)%list_elem_of_fmap.
    apply (fi_free _ _ Hi) in Hj. simpl in Heq. assert (j = i) as -> by nia. congruence.
  - apply NoDup_fmap_2; [done|apply NoDup_seqZ].
  - intros ad. rewrite elem_of_app, !list_elem_of_fmap. setoid_rewrite elem_of_seqZ. split.
    + intros [([o ?] & -> & (i & ? & -> & _)%Hc)|(i & -> & Hfree%(fi_free _ _ Hi))]; exists i; [simpl; split; [done|lia]|].
      apply aget_lt in Hfree. rewrite (fi_owners _ _ Hi) in Hfree. split; [done|lia].
    + intros (i & -> & Hr). destruct (aget_in_range (fa_owners_ a) i) as [o Ho]; [rewrite (fi_owners _ _ Hi); lia|].
      destruct (decide (o = FrameOwner_Free)) as [->|Hne].
      * right. exists i. split; [done|]. by apply (fi_free _ _ Hi).
      * left. exists (o, i * FrameSize). split; [done|]. apply Hc. exists i. split_and!; [lia|lia|done..].
Qed.

Lemma owns_count a claims : owns a claims -> zlen claims + fa_free_count_ a = FrameCount.
Proof.
  intros Hown. pose proof (Permutation_length (owns_partition _ _ Hown)) as Hlen.
  pose proof (free_list_length FrameCount FrameSize FrameCount_bounds FrameSize_pos _ (ow_inv _ _ Hown)) as Hfree.
  rewrite length_app, !length_fmap, length_seqZ in Hlen. unfold zlen in *. lia.
Qed.

Lemma owns_allocate a o claims :
  owns a claims -> o <> FrameOwner_Free -> zlen claims < FrameCount ->
  exists i a', allocate FrameSize a o = Some (mkFrameAllocation (make_handle FrameSize i) FrameStatus_Ok, a') /\
    0 <= i < FrameCount /\ owns a' ((o, i * FrameSize) :: claims).
Proof.
  intros Hown Hne Hroom. pose proof (owns_count _ _ Hown). pose proof (ow_inv _ _ Hown) as Ha.
  destruct (allocate_some FrameCount FrameSize FrameCount_bounds a o Ha) as (i & owners & Hi & Hfree & Hset & ->); [lia|].
  pose proof (aget_lt _ _ _ Hfree) as Hr. rewrite (fi_owners _ _ Ha) in Hr.
  eexists i, _. split_and!; [done|lia|lia|]. destruct Hown as [_ Hn Hc].
  assert (i * FrameSize ∉ claims.*2) as Hnot.
  { intros ([o' ?] & Heq & (j & ? & -> & ? & Hj)%Hc)%list_elem_of_fmap. simpl in Heq. assert (j = i) as -> by nia. congruence. }
  split; [by eapply fa_inv_pop|by apply NoDup_cons|]. simpl. intros o' ad. rewrite elem_of_cons, Hc.
  destruct (decide (ad = i * FrameSize)) as [->|Had].
  - rewrite <-Hc. split.
    + intros [[= ->]|Hin]; [exists i; split_and!; [lia|lia|done|done|by eapply aget_aset_eq]|].
      destruct Hnot. apply list_elem_of_fmap. by exists (o', i * FrameSize).
    + intros (j & _ & Hj & _ & Ho). assert (j = i) as -> by nia. rewrite (aget_aset_eq _ _ _ _ Hset) in Ho.
      left. congruence.
  - split.
    + intros [[= ? ?]|(j & ? & -> & ? & Hj)]; [done|]. exists j. split_and!; [lia|lia|done|done|].
      by rewrite (aget_aset_ne _ _ _ j _ Hset) by (by intros ->).
    + intros (j & ? & -> & ? & Hj). rewrite (aget_aset_ne _ _ _ j _ Hset) in Hj by (by intros ->).
      right. exists j. split_and!; [lia|lia|done|done|done].
Qed.

Lemma owns_new : owns (FrameAllocator_new FrameCount) [].
Proof.
  split; [by apply (FrameAllocator_new_inv FrameCount FrameSize)|constructor|]. intros o ad. split; [by intros ?%not_elem_of_nil|].
  intros (i & _ & _ & Hne & [? Ho]%aget_Some). simpl in Ho. apply lookup_replicate in Ho as [? _]. done.
Qed.

End ownership.

(** ** The adapter's frames *)

Definition claims_of (o : FrameOwner) (addresses : list Z) : list (FrameOwner * Z) := (fun a => (o, a)) <$> addresses.

(** The frame that a received packet lies in; the kernel may leave headroom before it. *)
Definition rx_chunk (FrameSize : Z) (d : RxDescriptor) : Z := rx_address d / FrameSize * FrameSize.

(** Whether the packet starts at the start of its frame. *)
Definition placed (FrameSize : Z) (d : RxDescriptor) : Prop := rx_address d mod FrameSize = 0.

#[global] Instance placed_dec FrameSize d : Decision (placed FrameSize d).
Proof. unfold placed. apply _. Defined.

(** The frames in the socket's rings and in the delay queue. *)
Definition queue_claims (FrameSize : Z) (q : Queues) (held : list (Z * Z * Z)) : list (FrameOwner * Z) :=
  claims_of FrameOwner_FillRing (q_fill q) ++ claims_of FrameOwner_FillRing (rx_chunk FrameSize <$> q_rx q) ++
  claims_of FrameOwner_TxRing (tx_address <$> q_tx q) ++ claims_of FrameOwner_TxRing (q_completion q) ++
  claims_of FrameOwner_DataPlane ((fun k => k.1.1) <$> held).

#[global] Instance claims_of_proper o : Proper ((≡ₚ) ==> (≡ₚ)) (claims_of o).
Proof. intros l k Hl. unfold claims_of. by rewrite Hl. Qed.

#[global] Instance queue_claims_proper FrameSize q : Proper ((≡ₚ) ==> (≡ₚ)) (queue_claims FrameSize q).
Proof. intros l k Hl. unfold queue_claims. by rewrite Hl. Qed.

Definition push_fill (q : Queues) (addresses : list Z) : Queues :=
  mkQueues (q_fill q ++ addresses) (q_completion q) (q_rx q) (q_tx q) (q_kicks q).

Definition push_tx (q : Queues) (descriptors : list TxDescriptor) (kicks : Z) : Queues :=
  mkQueues (q_fill q) (q_completion q) (q_rx q) (q_tx q ++ descriptors) kicks.

(** Counters of a poll that grow by [submitted], [refilled] and [failed]. *)
Definition rs_add (s : RuntimePollStats) (submitted refilled failed : Z) : RuntimePollStats :=
  mkRuntimePollStats (rs_rx_frames s) (rs_tx_submitted s + submitted) (rs_tx_completed s)
    (rs_fill_refilled s + refilled) (rs_fill_failures s + failed) (rs_owner_failures s) (rs_data_plane s).

(** Refused addresses. *)
Definition rs_add_owner (s : RuntimePollStats) (n : Z) : RuntimePollStats :=
  mkRuntimePollStats (rs_rx_frames s) (rs_tx_submitted s) (rs_tx_completed s) (rs_fill_refilled s) (rs_fill_failures s)
    (rs_owner_failures s + n) (rs_data_plane s).

(** They have room for [n] more frames. *)
Definition stats_room (s : RuntimePollStats) (n : Z) : Prop :=
  (0 <= rs_tx_submitted s /\ rs_tx_submitted s + n < 2 ^ 64) /\
  (0 <= rs_fill_refilled s /\ rs_fill_refilled s + n < 2 ^ 64) /\
  (0 <= rs_fill_failures s /\ rs_fill_failures s + n < 2 ^ 64).

Lemma rs_add_add s a b c a' b' c' : rs_add (rs_add s a b c) a' b' c' = rs_add s (a + a') (b + b') (c + c').
Proof. unfold rs_add. simpl. f_equal; lia. Qed.

Lemma rs_add_0 s : rs_add s 0 0 0 = s.
Proof. destruct s. unfold rs_add. simpl. f_equal; lia. Qed.

Lemma stats_room_add s a b c n m :
  stats_room s n -> 0 <= a -> 0 <= b -> 0 <= c -> a + b + c + m <= n -> stats_room (rs_add s a b c) m.
Proof. unfold stats_room, rs_add. simpl. lia. Qed.

(** [perm_solver] on claims. *)
Ltac claims_solver :=
  unfold queue_claims, claims_of, push_fill, push_tx; cbn [q_fill q_completion q_rx q_tx q_kicks];
  rewrite ?fmap_app, ?fmap_cons, ?fmap_nil; cbn [rx_address tx_address]; perm_solver.

(** ** The kernel's side of the rings

    The kernel is not part of the repository.  [ring_move delivers] is what its
    documentation lets it do with the rings of a socket, on the state [(q, krx, ktx)] of the
    queues, the buffers it took off the fill ring and the frames it took off the transmit
    ring: it takes the oldest entry of the fill or the transmit ring; it delivers a packet in
    a buffer it has, at an address [offset] bytes into that buffer (the headroom; [delivers]
    says which offsets it uses); and it completes a frame it has, with the address it was
    submitted with.  The class [RingKernel] is a kernel: any relation within that. *)

Definition empty_queues : Queues := mkQueues [] [] [] [] 0.

Abbreviation KernelState := (Queues * list Z * list Z)%type.

Inductive ring_move (delivers : Z -> Prop) : KernelState -> KernelState -> Prop :=
| kernel_take_fill address fill completion rx tx kicks krx ktx :
    ring_move delivers (mkQueues (address :: fill) completion rx tx kicks, krx, ktx)
      (mkQueues fill completion rx tx kicks, address :: krx, ktx)
| kernel_deliver address offset length options fill completion rx tx kicks krx1 krx2 ktx :
    delivers offset -> fits 32 length ->
    ring_move delivers (mkQueues fill completion rx tx kicks, krx1 ++ address :: krx2, ktx)
      (mkQueues fill completion (rx ++ [mkRxDescriptor (address + offset) length options]) tx kicks, krx1 ++ krx2, ktx)
| kernel_take_tx descriptor fill completion rx tx kicks krx ktx :
    ring_move delivers (mkQueues fill completion rx (descriptor :: tx) kicks, krx, ktx)
      (mkQueues fill completion rx tx kicks, krx, tx_address descriptor :: ktx)
| kernel_complete address fill completion rx tx kicks krx ktx1 ktx2 :
    ring_move delivers (mkQueues fill completion rx tx kicks, krx, ktx1 ++ address :: ktx2)
      (mkQueues fill (completion ++ [address]) rx tx kicks, krx, ktx1 ++ ktx2).

Class RingKernel (FrameSize : Z) := {
  kernel_move : KernelState -> KernelState -> Prop;
  delivers : Z -> Prop;
  delivers_law : forall offset, delivers offset -> 0 <= offset < FrameSize;
  kernel_law : forall s s', kernel_move s s' -> ring_move delivers s s';
}.

(** ** Where received packets start *)

Section placement.
Context (FrameSize : Z).
Implicit Types (d : RxDescriptor) (l : list RxDescriptor).

Definition rx_claims (o : FrameOwner) (l : list RxDescriptor) : list (FrameOwner * Z) := claims_of o (rx_chunk FrameSize <$> l).

Definition well_placed (l : list RxDescriptor) : list RxDescriptor := filter (placed FrameSize) l.
Definition misplaced (l : list RxDescriptor) : list RxDescriptor := filter (fun d => ~ placed FrameSize d) l.

Lemma placed_chunk d : placed FrameSize d -> rx_chunk FrameSize d = rx_address d.
Proof. unfold placed, rx_chunk. intros H. pose proof (Z_div_mod_eq_full (rx_address d) FrameSize). lia. Qed.

Lemma placed_cons d l : placed FrameSize d -> well_placed (d :: l) = d :: well_placed l /\ misplaced (d :: l) = misplaced l.
Proof. intros Hd. split; [by apply filter_cons_True|by apply filter_cons_False; cbv beta; tauto]. Qed.

Lemma misplaced_cons d l : ~ placed FrameSize d -> well_placed (d :: l) = well_placed l /\ misplaced (d :: l) = d :: misplaced l.
Proof. intros Hd. split; [by apply filter_cons_False|by apply filter_cons_True]. Qed.

Lemma placed_all l : Forall (placed FrameSize) l -> well_placed l = l /\ misplaced l = [].
Proof. induction 1 as [|d l Hd _ [IH1 IH2]]; [done|]. destruct (placed_cons d l Hd) as [-> ->]. by rewrite IH1, IH2. Qed.

Lemma placed_split l : zlen (well_placed l) + zlen (misplaced l) = zlen l.
Proof.
  induction l as [|d l IH]; [done|]. destruct (decide (placed FrameSize d)) as [Hd|Hd].
  - destruct (placed_cons d l Hd) as [-> ->]. rewrite !zlen_cons. lia.
  - destruct (misplaced_cons d l Hd) as [-> ->]. rewrite !zlen_cons. lia.
Qed.

Lemma well_placed_all l : Forall (placed FrameSize) (well_placed l).
Proof. apply Forall_forall. by intros d [? _]%list_elem_of_filter. Qed.

Lemma well_placed_Forall (P : RxDescriptor -> Prop) l : Forall P l -> Forall P (well_placed l).
Proof. intros Hl. apply Forall_forall. intros d [_ Hd]%list_elem_of_filter. revert d Hd. by apply Forall_forall. Qed.

End placement.

Section adapter_proofs.
Context {SocketT W : Type} `{!XskSocket SocketT} `{!TimedQueue W} (FrameCount FrameSize : Z).
Hypothesis FrameCount_bounds : 0 < FrameCount <= 2 ^ 32.
Hypothesis FrameSize_pos : 0 < FrameSize.
Hypothesis umem_fits : FrameCount * FrameSize < 2 ^ 64.
Abbreviation Adapter := (AfXdpRuntimeAdapter SocketT W).

(** The queues hold [q], the wheel [held], and [others] are the frames in use that are
    in none of them: in the adapter's hands, with the kernel, or stuck. *)
Record ra_rel (umem : Memory) (rt : Adapter) (q : Queues) (held : list (Z * Z * Z)) (others : list (FrameOwner * Z))
    : Prop := {
  ral_owns : owns FrameCount FrameSize (ra_allocator_ rt) (queue_claims FrameSize q held ++ others);
  ral_socket : xs_repr (ra_socket_ rt) q;
  ral_wheel : dq_holds (ra_timing_wheel_ rt) held;
  ral_umem : ra_umem_ rt = umem;
}.

Lemma ra_rel_perm umem rt q held others others' :
  others ≡ₚ others' -> ra_rel umem rt q held others -> ra_rel umem rt q held others'.
Proof. intros Hp [Ho ? ? ?]. split; try done. by rewrite <-Hp. Qed.

Lemma ra_rel_take umem rt q held o address others :
  ra_rel umem rt q held ((o, address) :: others) ->
  owns FrameCount FrameSize (ra_allocator_ rt) ((o, address) :: queue_claims FrameSize q held ++ others).
Proof. intros [Ho _ _ _]. by rewrite <-Permutation_middle in Ho. Qed.

(** Handing a frame to another owner keeps it in the adapter's hands. *)
Lemma ra_transition_rel umem rt q held o next i others :
  ra_rel umem rt q held ((o, i * FrameSize) :: others) -> 0 <= i < FrameCount -> next <> FrameOwner_Free ->
  exists rt', ra_transition FrameCount FrameSize rt (make_handle FrameSize i) o next = Some (FrameStatus_Ok, rt') /\
    ra_rel umem rt' q held ((next, i * FrameSize) :: others) /\
    ra_socket_ rt' = ra_socket_ rt /\ ra_initialized_ rt' = ra_initialized_ rt.
Proof.
  intros Hrel Hi Hnext. pose proof (ra_rel_take _ _ _ _ _ _ _ Hrel) as Hown.
  destruct (owns_transition FrameCount FrameSize FrameCount_bounds FrameSize_pos umem_fits _ o next i _ Hown Hi)
    as (a' & Htr & Hown'). rewrite decide_False in Hown' by done.
  unfold ra_transition. rewrite Htr. cbn [mbind option_bind]. eexists. split; [done|]. split; [|done].
  destruct Hrel. split; try done. simpl. by rewrite <-Permutation_middle.
Qed.

(** [handle_from_address] finds the handle of a frame the adapter has. *)
Lemma ra_handle umem rt q held o address others :
  ra_rel umem rt q held ((o, address) :: others) ->
  exists i, 0 <= i < FrameCount /\ address = i * FrameSize /\ o <> FrameOwner_Free /\
    handle_from_address FrameCount FrameSize address = mkFrameAllocation (make_handle FrameSize i) FrameStatus_Ok /\
    owner_of FrameCount (ra_allocator_ rt) i = Some o.
Proof.
  intros Hrel. pose proof (ra_rel_take _ _ _ _ _ _ _ Hrel) as Hown.
  destruct (owns_cons FrameCount FrameSize FrameCount_bounds FrameSize_pos umem_fits _ _ _ _ Hown)
    as (i & Hi & -> & Hne & Ho & Hh & _).
  exists i. split_and!; [lia|lia|done..|]. unfold owner_of. destruct (Z.ltb_spec i FrameCount); [done|lia].
Qed.

Lemma refill_one_spec umem rt q held o i others stats :
  ra_rel umem rt q held ((o, i * FrameSize) :: others) -> 0 <= i < FrameCount -> o <> FrameOwner_Free ->
  stats_room stats 1 ->
  exists (ok : bool) rt', ra_refill_one FrameCount FrameSize rt (make_handle FrameSize i) o stats
      = Some (if ok then rs_add stats 0 1 0 else rs_add stats 0 0 1, rt') /\
    ra_rel umem rt' (push_fill q (if ok then [i * FrameSize] else [])) held
      (if ok then others else (o, i * FrameSize) :: others) /\
    (zlen (q_fill q) + 1 <= xs_fill_capacity -> ok = true) /\ ra_initialized_ rt' = ra_initialized_ rt.
Proof.
  intros Hrel Hi Hne (_ & Hr & Hf).
  destruct (ra_transition_rel _ _ _ _ _ FrameOwner_FillRing _ _ Hrel Hi) as (rt1 & Htr & Hrel1 & _ & Hin1); [done|].
  unfold ra_refill_one. rewrite Htr. cbn [mbind option_bind]. rewrite bool_decide_true by done. cbn [negb].
  rewrite (fh_address_make FrameCount) by done.
  destruct (xs_refill_law (ra_socket_ rt1) q [i * FrameSize]) as (k & status & s' & -> & Hk & Hroom & Hs'); [apply Hrel1|done|].
  cbn [mbind option_bind rr_count]. destruct Hrel1 as [Ho _ Hw Hu]. assert (k = 0%nat \/ k = 1%nat) as [-> | ->] by (simpl in Hk; lia).
  - assert (ra_rel umem (ra_set_socket rt1 s') q held ((FrameOwner_FillRing, i * FrameSize) :: others)) as Hrel2.
    { split; try done. simpl. rewrite take_0, app_nil_r in Hs'. by destruct q. }
    destruct (ra_transition_rel _ _ _ _ _ o _ _ Hrel2 Hi Hne) as (rt3 & -> & Hrel3 & _ & Hin3). cbn.
    exists false, rt3. split_and!; [|by destruct q; unfold push_fill; simpl; rewrite app_nil_r| |by rewrite Hin3].
    + do 2 f_equal. unfold rs_inc_fill_failures, rs_add. rewrite wrap_small by (unfold fits; lia). f_equal; lia.
    + intros Hc. specialize (Hroom Hc). done.
  - exists true, (ra_set_socket rt1 s'). split_and!; [|split|done|done]; try done.
    + change (Z.of_nat 1 =? 1) with true. cbn iota. do 2 f_equal. unfold rs_inc_fill_refilled, rs_add. rewrite wrap_small by (unfold fits; lia). f_equal; lia.
    + simpl. eapply owns_proper; [done| |exact Ho]. claims_solver.
Qed.

(** Both loops over [refill_one] go through a list of addresses. *)
Fixpoint refill_addresses (rt : Adapter) (addresses : list Z) (o : FrameOwner) (stats : RuntimePollStats)
    : option (RuntimePollStats * Adapter) :=
  match addresses with
  | [] => Some (stats, rt)
  | address :: addresses =>
      let handle := handle_from_address FrameCount FrameSize address in
      if negb (fal_ok handle) then refill_addresses rt addresses o (rs_inc_owner_failures stats)
      else '(stats, rt) ← ra_refill_one FrameCount FrameSize rt (fal_frame handle) o stats;
           refill_addresses rt addresses o stats
  end.

Lemma refill_recycled_addresses rt frames stats :
  ra_refill_recycled FrameCount FrameSize rt frames stats
  = refill_addresses rt (pf_frame_address <$> frames) FrameOwner_DataPlane stats.
Proof.
  revert rt stats. induction frames as [|f frames IH]; intros rt stats; [done|]. cbn. rewrite IH.
  destruct (negb _); [done|]. by destruct (ra_refill_one _ _ _ _ _ _) as [[stats' rt']|]; cbn.
Qed.

Lemma drain_loop_addresses n index completed rt stats :
  0 <= index -> index + Z.of_nat n <= zlen completed ->
  ra_drain_loop FrameCount FrameSize n index completed rt stats
  = refill_addresses rt (take n (drop (Z.to_nat index) completed)) FrameOwner_TxRing stats.
Proof.
  revert index rt stats. induction n as [|n IH]; intros index rt stats H0 Hn; [done|].
  destruct (aget_in_range completed index) as [address Ha]; [lia|].
  cbn [ra_drain_loop]. rewrite Ha. apply aget_Some in Ha as [_ Ha]. rewrite (drop_S _ _ _ Ha).
  replace (S (Z.to_nat index)) with (Z.to_nat (index + 1)) by lia. cbn. rewrite IH by lia.
  destruct (negb _); [done|].
  destruct (ra_refill_one _ _ _ _ _ _) as [[stats' rt']|]; cbn; [|done]. apply IH; lia.
Qed.

(** Each frame goes to the fill ring or, when that is full, stays with its owner. *)
Lemma refill_addresses_spec umem addresses rt q held o others stats :
  ra_rel umem rt q held (claims_of o addresses ++ others) -> stats_room stats (zlen addresses) ->
  exists refilled stuck rt', refill_addresses rt addresses o stats
      = Some (rs_add stats 0 (zlen refilled) (zlen stuck), rt') /\
    addresses ≡ₚ refilled ++ stuck /\ ra_rel umem rt' (push_fill q refilled) held (claims_of o stuck ++ others) /\
    (zlen (q_fill q) + zlen addresses <= xs_fill_capacity -> stuck = []) /\ ra_initialized_ rt' = ra_initialized_ rt.
Proof.
  revert rt q others stats. induction addresses as [|address addresses IH]; intros rt q others stats Hrel Hroom.
  { exists [], [], rt. change (zlen (@nil Z)) with 0. rewrite rs_add_0. split_and!; try done. unfold push_fill. rewrite app_nil_r. by destruct q. }
  rewrite zlen_cons in *. pose proof (zlen_nonneg addresses).
  change (claims_of o (address :: addresses) ++ others) with ((o, address) :: claims_of o addresses ++ others) in Hrel.
  destruct (ra_handle _ _ _ _ _ _ _ Hrel) as (i & Hi & -> & Hne & Hh & _).
  cbn [refill_addresses]. rewrite Hh. change (fal_ok _) with true. cbn [negb fal_frame].
  destruct (refill_one_spec _ _ _ _ _ _ _ stats Hrel Hi Hne) as (ok & rt1 & -> & Hrel1 & Hok & Hin1).
  { unfold stats_room in *. lia. }
  cbn [mbind option_bind]. set (stats1 := if ok then _ else _).
  assert (stats_room stats1 (zlen addresses)) as Hroom1
    by (subst stats1; destruct ok; eapply stats_room_add; try exact Hroom; lia).
  destruct (IH rt1 (push_fill q (if ok then [i * FrameSize] else []))
    (if ok then others else (o, i * FrameSize) :: others) stats1) as (refilled & stuck & rt' & -> & Hp & Hrel' & Hs & Hin').
  { eapply ra_rel_perm; [|exact Hrel1]. destruct ok; claims_solver. }
  { done. }
  exists (if ok then i * FrameSize :: refilled else refilled), (if ok then stuck else i * FrameSize :: stuck), rt'.
  subst stats1. split_and!.
  - do 2 f_equal. destruct ok; rewrite rs_add_add, ?zlen_cons; f_equal; lia.
  - destruct ok; rewrite Hp; perm_solver.
  - destruct ok.
    + unfold push_fill in *. simpl in Hrel'. by rewrite <-app_assoc in Hrel'.
    + eapply ra_rel_perm; [|unfold push_fill in *; simpl in Hrel'; rewrite app_nil_r in Hrel'; exact Hrel']. claims_solver.
  - intros Hc. rewrite (Hok ltac:(lia)) in *. apply Hs. unfold push_fill. cbn [q_fill]. autorewrite with zlen. lia.
  - congruence.
Qed.

Definition tx_of (f : ProcessedFrame) : TxDescriptor := mkTxDescriptor (pf_frame_address f) (pf_frame_length f) 0.

(** One frame on its way out: it is on the transmit ring, or stuck with its owner. *)
Lemma submit_one_spec umem rt q held f others stats :
  ra_rel umem rt q held ((FrameOwner_DataPlane, pf_frame_address f) :: others) -> stats_room stats 1 ->
  exists (ok : bool) kicks rt', (forall frames, ra_submit_tx FrameCount FrameSize rt (f :: frames) stats
      = ra_submit_tx FrameCount FrameSize rt' frames (if ok then rs_add stats 1 0 0 else rs_add stats 0 0 1)) /\
    ra_rel umem rt' (push_tx q (if ok then [tx_of f] else []) kicks) held
      (if ok then others else (FrameOwner_DataPlane, pf_frame_address f) :: others) /\
    (zlen (q_tx q) + 1 <= xs_tx_capacity -> ok = true) /\ ra_initialized_ rt' = ra_initialized_ rt.
Proof.
  intros Hrel (Hr & _ & Hf). destruct (ra_handle _ _ _ _ _ _ _ Hrel) as (i & Hi & Ha & Hne & Hh & Howner).
  cbn [ra_submit_tx]. rewrite Hh. change (fal_ok _) with true. cbn [negb fal_frame]. change (fh_index _) with i.
  rewrite Howner. cbn [mbind option_bind]. rewrite Ha in Hrel.
  destruct (ra_transition_rel _ _ _ _ _ FrameOwner_TxRing _ _ Hrel Hi) as (rt1 & -> & Hrel1 & _ & Hin1); [done|].
  cbn [mbind option_bind]. rewrite bool_decide_true by done. cbn [negb]. fold (tx_of f).
  destruct (xs_submit_tx_law (ra_socket_ rt1) q [tx_of f]) as (k & status & s' & -> & Hk & Hroom & Hs'); [apply Hrel1|done|].
  cbn [mbind option_bind rr_count]. destruct Hrel1 as [Ho _ Hw Hu]. assert (k = 0%nat \/ k = 1%nat) as [-> | ->] by (simpl in Hk; lia).
  - assert (ra_rel umem (ra_set_socket rt1 s') q held ((FrameOwner_TxRing, i * FrameSize) :: others)) as Hrel2.
    { split; try done. simpl. rewrite take_0, app_nil_r in Hs'. by destruct q. }
    destruct (ra_transition_rel _ _ _ _ _ FrameOwner_DataPlane _ _ Hrel2 Hi Hne) as (rt3 & Htr & Hrel3 & _ & Hin3).
    exists false, (q_kicks q), rt3. split_and!.
    + intros frames. change (Z.of_nat 0 =? 1) with false. cbn iota. rewrite Htr. cbn [mbind option_bind]. f_equal.
      unfold rs_inc_fill_failures, rs_add. rewrite wrap_small by (unfold fits; lia). f_equal; lia.
    + unfold push_tx. rewrite app_nil_r, Ha. by destruct q.
    + intros Hc. specialize (Hroom Hc). done.
    + by rewrite Hin3.
  - destruct (xs_kick_tx_law s' _ Hs') as (ks & kicks & s'' & Hkick & Hs'').
    exists true, kicks, (ra_set_socket (ra_set_socket rt1 s') s''). split_and!; [|split|done|done]; try done.
    + intros frames. change (Z.of_nat 1 =? 1) with true. cbn iota. cbn [ra_socket_ ra_set_socket]. rewrite Hkick.
      cbn [mbind option_bind]. f_equal.
      unfold rs_inc_tx_submitted, rs_add. rewrite wrap_small by (unfold fits; lia). f_equal; lia.
    + simpl. eapply owns_proper; [done| |exact Ho]. rewrite <-Ha. change (pf_frame_address f) with (tx_address (tx_of f)).
      claims_solver.
Qed.

Definition tx_claims (frames : list ProcessedFrame) : list (FrameOwner * Z) :=
  claims_of FrameOwner_DataPlane (pf_frame_address <$> frames).

Lemma submit_tx_spec umem frames rt q held others stats :
  ra_rel umem rt q held (tx_claims frames ++ others) -> stats_room stats (zlen frames) ->
  exists sent stuck kicks rt', ra_submit_tx FrameCount FrameSize rt frames stats
      = Some (rs_add stats (zlen sent) 0 (zlen stuck), rt') /\
    sent `sublist_of` frames /\ (pf_frame_address <$> frames) ≡ₚ (pf_frame_address <$> sent) ++ stuck /\
    ra_rel umem rt' (push_tx q (tx_of <$> sent) kicks) held (claims_of FrameOwner_DataPlane stuck ++ others) /\
    (zlen (q_tx q) + zlen frames <= xs_tx_capacity -> stuck = []) /\ ra_initialized_ rt' = ra_initialized_ rt.
Proof.
  revert rt q others stats. induction frames as [|f frames IH]; intros rt q others stats Hrel Hroom.
  { exists [], [], (q_kicks q), rt. change (zlen (@nil Z)) with 0. change (zlen (@nil ProcessedFrame)) with 0.
    rewrite rs_add_0. split_and!; try done. unfold push_tx. rewrite app_nil_r. by destruct q. }
  rewrite zlen_cons in *. pose proof (zlen_nonneg frames).
  change (tx_claims (f :: frames) ++ others)
    with ((FrameOwner_DataPlane, pf_frame_address f) :: tx_claims frames ++ others) in Hrel.
  destruct (submit_one_spec _ _ _ _ _ _ stats Hrel) as (ok & kicks1 & rt1 & -> & Hrel1 & Hok & Hin1).
  { unfold stats_room in *. lia. }
  set (stats1 := if ok then _ else _).
  assert (stats_room stats1 (zlen frames)) as Hroom1
    by (subst stats1; destruct ok; eapply stats_room_add; try exact Hroom; lia).
  destruct (IH rt1 (push_tx q (if ok then [tx_of f] else []) kicks1)
    (if ok then others else (FrameOwner_DataPlane, pf_frame_address f) :: others) stats1)
    as (sent & stuck & kicks & rt' & -> & Hsub & Hp & Hrel' & Hs & Hin').
  { eapply ra_rel_perm; [|exact Hrel1]. unfold tx_claims. destruct ok; claims_solver. }
  { done. }
  exists (if ok then f :: sent else sent), (if ok then stuck else pf_frame_address f :: stuck), kicks, rt'.
  subst stats1. split_and!.
  - do 2 f_equal. destruct ok; rewrite rs_add_add, ?zlen_cons; f_equal; lia.
  - destruct ok; by constructor.
  - destruct ok; rewrite !fmap_cons, Hp; [done|]. perm_solver.
  - destruct ok.
    + unfold push_tx in *. simpl in Hrel'. by rewrite <-app_assoc in Hrel'.
    + eapply ra_rel_perm; [|unfold push_tx in *; simpl in Hrel'; rewrite app_nil_r in Hrel'; exact Hrel']. claims_solver.
  - intros Hc. rewrite (Hok ltac:(lia)) in *. apply Hs. unfold push_tx. cbn [q_tx]. autorewrite with zlen. lia.
  - congruence.
Qed.

Lemma submit_tx_app (rt : Adapter) f frames stats :
  ra_submit_tx FrameCount FrameSize rt (f :: frames) stats
  = '(stats, rt) ← ra_submit_tx FrameCount FrameSize rt [f] stats; ra_submit_tx FrameCount FrameSize rt frames stats.
Proof.
  cbn [ra_submit_tx]. destruct (negb _); [done|]. destruct (owner_of _ _ _); cbn [mbind option_bind]; [|done].
  destruct (ra_transition _ _ _ _ _ _) as [[status rt1]|]; cbn [mbind option_bind]; [|done]. destruct (negb _); [done|].
  destruct (xs_submit_tx _ _) as [[result s']|]; cbn [mbind option_bind]; [|done]. destruct (_ =? 1).
  - by destruct (xs_kick_tx _) as [[? ?]|].
  - by destruct (ra_transition _ _ _ _ _ _) as [[? ?]|].
Qed.

Definition processed_of (f : DelayedFrame) : ProcessedFrame :=
  mkProcessedFrame (df_frame_address f) (df_frame_length f) (df_rule_id f) PacketAction_Delay.

Lemma release_loop_submit (rt : Adapter) expired stats :
  ra_release_loop FrameCount FrameSize rt expired stats
  = ra_submit_tx FrameCount FrameSize rt (processed_of <$> expired) stats.
Proof.
  revert rt stats. induction expired as [|f expired IH]; intros rt stats; [done|].
  rewrite fmap_cons, submit_tx_app. cbn [ra_release_loop]. fold (processed_of f).
  destruct (ra_submit_tx _ _ _ _ _) as [[? ?]|]; cbn [mbind option_bind]; [|done]. apply IH.
Qed.

(** Moving frames between the rings leaves the wheel alone. *)

Lemma transition_wheel (rt rt' : Adapter) frame expected next status :
  ra_transition FrameCount FrameSize rt frame expected next = Some (status, rt') -> ra_timing_wheel_ rt' = ra_timing_wheel_ rt.
Proof. intros ([s a] & _ & [= _ <-])%bind_Some. done. Qed.

Lemma refill_one_wheel (rt rt' : Adapter) frame expected stats stats' :
  ra_refill_one FrameCount FrameSize rt frame expected stats = Some (stats', rt') -> ra_timing_wheel_ rt' = ra_timing_wheel_ rt.
Proof.
  intros ([status rt1] & H1%transition_wheel & H)%bind_Some. destruct (negb _); [by injection H as _ <-|].
  apply bind_Some in H as ([fill socket] & _ & H). destruct (_ =? 1); [by injection H as _ <-|].
  apply bind_Some in H as ([s2 rt2] & H2%transition_wheel & [= _ <-]). by rewrite H2.
Qed.

Lemma drain_completions_wheel (rt rt' : Adapter) stats stats' :
  ra_drain_completions FrameCount FrameSize rt stats = Some (stats', rt') -> ra_timing_wheel_ rt' = ra_timing_wheel_ rt.
Proof.
  intros ([[result completed] socket] & _ & H)%bind_Some. change (ra_timing_wheel_ rt) with (ra_timing_wheel_ (ra_set_socket rt socket)).
  revert H. generalize (rs_add_tx_completed stats (rr_count result)), (ra_set_socket rt socket), 0.
  induction (Z.to_nat (rr_count result)) as [|n IH]; intros stats1 rt1 index H; cbn [ra_drain_loop] in H; [by injection H as _ <-|].
  apply bind_Some in H as (address & _ & H). destruct (negb _); [by eapply IH|].
  apply bind_Some in H as ([stats2 rt2] & H2%refill_one_wheel & H%IH). by rewrite H.
Qed.

Lemma sublist_same_length {A} (l k : list A) : l `sublist_of` k -> length l = length k -> l = k.
Proof.
  induction 1 as [|x l k Hs IH|x l k Hs IH]; cbn; intros Hl; [done|f_equal; apply IH; lia|].
  apply sublist_length in Hs. lia.
Qed.

Lemma take_min {A} n (l : list A) : take (Nat.min n (length l)) l = take n l.
Proof. destruct (Nat.min_spec n (length l)) as [[? ->]|[? ->]]; [done|]. by rewrite !take_ge by lia. Qed.

Lemma drop_min {A} n (l : list A) : drop (Nat.min n (length l)) l = drop n l.
Proof. destruct (Nat.min_spec n (length l)) as [[? ->]|[? ->]]; [done|]. by rewrite !drop_ge by lia. Qed.

Lemma drain_completions_spec umem rt q held others :
  ra_rel umem rt q held others ->
  let completed := take 64 (q_completion q) in
  exists refilled stuck rt', ra_drain_completions FrameCount FrameSize rt RuntimePollStats_default
      = Some (mkRuntimePollStats 0 0 (zlen completed) (zlen refilled) (zlen stuck) 0 DataPlaneBatchStats_default, rt') /\
    completed ≡ₚ refilled ++ stuck /\
    ra_rel umem rt' (push_fill (mkQueues (q_fill q) (drop 64 (q_completion q)) (q_rx q) (q_tx q) (q_kicks q)) refilled)
      held (claims_of FrameOwner_TxRing stuck ++ others) /\
    (zlen (q_fill q) + zlen completed <= xs_fill_capacity -> stuck = []) /\ ra_initialized_ rt' = ra_initialized_ rt.
Proof.
  intros [Ho Hs Hw Hu] completed. unfold ra_drain_completions. change (Z.to_nat kDataPlaneBatchSize) with 64%nat.
  destruct (xs_drain_completions_law _ _ (replicate 64 0) Hs) as (status & s' & -> & Hs'); [done|].
  rewrite length_replicate in *. rewrite drop_min in Hs'. rewrite take_min. fold completed.
  set (k := Nat.min _ _). assert (length completed = k) as Hk by (apply length_take).
  cbn [mbind option_bind rr_count]. rewrite drain_loop_addresses; [|lia|unfold zlen; rewrite length_app; lia].
  rewrite Nat2Z.id. change (drop (Z.to_nat 0) ?l) with l. rewrite take_app_le, take_ge by lia.
  set (q1 := mkQueues (q_fill q) (drop 64 (q_completion q)) (q_rx q) (q_tx q) (q_kicks q)) in *.
  destruct (refill_addresses_spec umem completed (ra_set_socket rt s') q1 held FrameOwner_TxRing others
    (rs_add_tx_completed RuntimePollStats_default (Z.of_nat k))) as (refilled & stuck & rt' & -> & Hp & Hrel & Hroom & Hin).
  { split; try done. simpl. eapply owns_proper; [done| |exact Ho]. subst q1.
    pose proof (take_drop 64 (q_completion q)) as Htd. fold completed in Htd. unfold queue_claims.
    cbn [q_fill q_completion q_rx q_tx]. set (rest := drop 64 (q_completion q)) in *. rewrite <-Htd. claims_solver. }
  { unfold stats_room, zlen. simpl. lia. }
  exists refilled, stuck, rt'. split_and!; try done. do 2 f_equal. unfold rs_add, rs_add_tx_completed. simpl.
  rewrite wrap_small; [unfold zlen; by rewrite Hk|]. unfold fits. subst k. lia.
Qed.

Lemma queue_claims_length q held :
  zlen (queue_claims FrameSize q held) = zlen (q_fill q) + zlen (q_rx q) + zlen (q_tx q) + zlen (q_completion q) + zlen held.
Proof. unfold queue_claims, claims_of, zlen. rewrite !length_app, !length_fmap. lia. Qed.

(** All frames in use fit in the pool. *)
Lemma ra_rel_count umem rt q held others :
  ra_rel umem rt q held others -> zlen (queue_claims FrameSize q held) + zlen others <= FrameCount.
Proof.
  intros [Ho _ _ _]. pose proof (owns_count FrameCount FrameSize FrameCount_bounds FrameSize_pos _ _ Ho) as Hc.
  pose proof (fi_count _ _ (ow_inv _ _ _ _ Ho)). rewrite zlen_app in Hc. lia.
Qed.

Lemma release_delayed_spec umem rt q held others stats :
  ra_rel umem rt q held others -> stats_room stats FrameCount ->
  exists expired rest sent stuck kicks rt', ra_release_delayed FrameCount FrameSize rt stats
      = Some (rs_add stats (zlen sent) 0 (zlen stuck), rt') /\
    held ≡ₚ (df_key <$> expired) ++ rest /\ sent `sublist_of` (processed_of <$> expired) /\
    (df_frame_address <$> expired) ≡ₚ (pf_frame_address <$> sent) ++ stuck /\
    ra_rel umem rt' (push_tx q (tx_of <$> sent) kicks) rest (claims_of FrameOwner_DataPlane stuck ++ others) /\
    (zlen (q_tx q) + zlen expired <= xs_tx_capacity -> stuck = []) /\ ra_initialized_ rt' = ra_initialized_ rt /\
    exists w', tq_tick (ra_timing_wheel_ rt) = Some (expired, w').
Proof.
  intros Hrel Hroom. pose proof (ra_rel_count _ _ _ _ _ Hrel) as Hcount. rewrite queue_claims_length in Hcount.
  destruct Hrel as [Ho Hs Hw Hu].
  unfold ra_release_delayed. destruct (tq_tick_law _ _ Hw) as (expired & w' & rest & Htick & Hheld & Hw'). rewrite Htick.
  cbn [mbind option_bind]. rewrite release_loop_submit.
  assert (zlen expired <= zlen held) as Hle.
  { pose proof (Permutation_length Hheld) as Hl. rewrite length_app, length_fmap in Hl. unfold zlen. lia. }
  pose proof (zlen_nonneg (q_fill q)). pose proof (zlen_nonneg (q_rx q)). pose proof (zlen_nonneg (q_tx q)).
  pose proof (zlen_nonneg (q_completion q)). pose proof (zlen_nonneg others).
  assert (zlen (processed_of <$> expired) = zlen expired) as Hz by (unfold zlen; by rewrite length_fmap).
  destruct (submit_tx_spec umem (processed_of <$> expired) (ra_set_wheel rt w') q rest others stats)
    as (sent & stuck & kicks & rt' & -> & Hsub & Hp & Hrel' & Hcap & Hin).
  { split; try done. simpl. eapply owns_proper; [done| |exact Ho]. rewrite Hheld.
    unfold tx_claims, queue_claims. rewrite !fmap_app, <-!list_fmap_compose.
    change (pf_frame_address ∘ processed_of) with df_frame_address.
    change ((fun k : Z * Z * Z => k.1.1) ∘ df_key) with df_frame_address. claims_solver. }
  { rewrite Hz. unfold stats_room in *. lia. }
  rewrite <-list_fmap_compose in Hp. change (pf_frame_address ∘ processed_of) with df_frame_address in Hp.
  exists expired, rest, sent, stuck, kicks, rt'. rewrite Hz in Hcap. split_and!; try done. by exists w'.
Qed.

Definition pd_of (d : RxDescriptor) : PacketDescriptor := mkPacketDescriptor (rx_address d) (rx_length d) (rx_options d).

(** [handle_from_address] refuses an address inside of a frame. *)
Lemma misplaced_handle d : ~ placed FrameSize d -> fal_ok (handle_from_address FrameCount FrameSize (rx_address d)) = false.
Proof.
  unfold placed, handle_from_address. intros Hd. by destruct (Z.eqb_spec (rx_address d mod FrameSize) 0).
Qed.

(** Every packet at the start of its frame gets a descriptor and passes to the data plane;
    the others are refused, and their frames keep the owner they have. *)
Lemma collect_spec umem n index rx rt q held others stats descriptors count :
  let l := take n (drop (Z.to_nat index) rx) in
  0 <= index -> index + Z.of_nat n <= zlen rx ->
  0 <= count -> count + Z.of_nat n <= zlen descriptors -> zlen descriptors < 2 ^ 64 ->
  0 <= rs_owner_failures stats -> rs_owner_failures stats + Z.of_nat n < 2 ^ 64 ->
  ra_rel umem rt q held (rx_claims FrameSize FrameOwner_FillRing l ++ others) ->
  exists rt' ds', ra_collect_loop FrameCount FrameSize n index rx rt stats descriptors count
      = Some (rs_add_owner stats (zlen (misplaced FrameSize l)), rt', ds', count + zlen (well_placed FrameSize l)) /\
    take (Z.to_nat (count + zlen (well_placed FrameSize l))) ds' = take (Z.to_nat count) descriptors ++ (pd_of <$> well_placed FrameSize l) /\
    ra_rel umem rt' q held (rx_claims FrameSize FrameOwner_DataPlane (well_placed FrameSize l) ++ rx_claims FrameSize FrameOwner_FillRing (misplaced FrameSize l) ++ others) /\
    ra_initialized_ rt' = ra_initialized_ rt.
Proof.
  revert index rt others stats descriptors count.
  induction n as [|n IH]; intros index rt others stats descriptors count l Hi Hn Hc Hd Hbig Hs0 Hs1 Hrel.
  { exists rt, descriptors. subst l. cbn. rewrite app_nil_r, Z.add_0_r. split_and!; try done.
    destruct stats. unfold rs_add_owner. cbn. by rewrite Z.add_0_r. }
  destruct (aget_in_range rx index) as [d Ha]; [lia|]. cbn [ra_collect_loop]. rewrite Ha.
  apply aget_Some in Ha as [_ Ha]. subst l. rewrite (drop_S _ _ _ Ha) in *.
  replace (S (Z.to_nat index)) with (Z.to_nat (index + 1)) in * by lia. cbn [take] in *.
  set (l := take n (drop (Z.to_nat (index + 1)) rx)) in *. cbn [mbind option_bind].
  change (rx_claims FrameSize FrameOwner_FillRing (d :: l) ++ others)
    with ((FrameOwner_FillRing, rx_chunk FrameSize d) :: rx_claims FrameSize FrameOwner_FillRing l ++ others) in Hrel.
  destruct (decide (placed FrameSize d)) as [Hpl|Hpl].
  2: { rewrite misplaced_handle by done. cbn [negb].
       destruct (misplaced_cons FrameSize d l Hpl) as [-> ->].
       destruct (IH (index + 1) rt ((FrameOwner_FillRing, rx_chunk FrameSize d) :: others) (rs_inc_owner_failures stats) descriptors count)
         as (rt' & ds' & Hrun & Hds & Hrel' & Hin'); try lia.
       { cbn. rewrite wrap_small by (unfold fits; lia). lia. }
       { cbn. rewrite wrap_small by (unfold fits; lia). lia. }
       { eapply ra_rel_perm; [|exact Hrel]. fold l. unfold rx_claims. claims_solver. }
       fold l in Hrun, Hds, Hrel'. exists rt', ds'. split_and!; [|done| |done].
       - rewrite Hrun. do 4 f_equal. unfold rs_add_owner, rs_inc_owner_failures. cbn. rewrite wrap_small by (unfold fits; lia).
         f_equal. rewrite zlen_cons. lia.
       - eapply ra_rel_perm; [|exact Hrel']. unfold rx_claims. claims_solver. }
  destruct (placed_cons FrameSize d l Hpl) as [-> ->]. rewrite (placed_chunk FrameSize) in Hrel by done.
  destruct (ra_handle _ _ _ _ _ _ _ Hrel) as (i & Hr & Haddr & Hne & Hh & Howner).
  rewrite Hh. change (fal_ok _) with true. cbn [negb fal_frame]. change (fh_index _) with i.
  rewrite Howner. cbn [mbind option_bind]. rewrite Haddr in Hrel.
  destruct (ra_transition_rel _ _ _ _ _ FrameOwner_DataPlane _ _ Hrel Hr) as (rt1 & -> & Hrel1 & _ & Hin1); [done|].
  cbn [mbind option_bind]. rewrite bool_decide_true by done. cbn [negb]. fold (pd_of d).
  rewrite aset_in_range by lia. cbn [mbind option_bind]. rewrite wrap_small by (unfold fits; lia).
  destruct (IH (index + 1) rt1 ((FrameOwner_DataPlane, i * FrameSize) :: others) stats
    (<[Z.to_nat count := pd_of d]> descriptors) (count + 1)) as (rt' & ds' & Hrun & Hds & Hrel' & Hin'); try lia.
  { unfold zlen in *. rewrite length_insert. lia. }
  { unfold zlen in *. by rewrite length_insert. }
  { eapply ra_rel_perm; [|exact Hrel1]. fold l. unfold rx_claims. claims_solver. }
  fold l in Hrun, Hds, Hrel'. rewrite zlen_cons. replace (count + (1 + zlen (well_placed FrameSize l))) with (count + 1 + zlen (well_placed FrameSize l)) by lia.
  exists rt', ds'. split_and!; [done| | |congruence].
  - rewrite Hds. replace (Z.to_nat (count + 1)) with (S (Z.to_nat count)) by lia.
    rewrite (take_S_r _ _ (pd_of d)) by (apply list_lookup_insert_eq; unfold zlen in *; lia).
    by rewrite take_insert_ge, <-app_assoc by lia.
  - eapply ra_rel_perm; [|exact Hrel']. rewrite <-Haddr, <-(placed_chunk FrameSize d) by done. unfold rx_claims. claims_solver.
Qed.

(** The frames of a batch by their fates. *)
Lemma fates_addresses ds entries :
  Forall2 entry_ok ds entries -> with_fate Lost entries = [] ->
  (pd_frame_address <$> ds) ≡ₚ (pf_frame_address <$> with_fate Transmitted entries) ++
    (pf_frame_address <$> with_fate Recycled entries) ++ (pf_frame_address <$> with_fate Delayed entries).
Proof.
  induction 1 as [|d [pf k] ds entries (Ha & _ & _) _ IH]; [done|]. rewrite !with_fate_cons, fmap_cons, <-Ha. cbn [fst].
  destruct k; repeat (case_decide; [|try done]); try done; intros Hl; specialize (IH Hl); rewrite IH; perm_solver.
Qed.

(** What the rules and descriptors of a poll are. *)
Definition poll_args_ok (q : Queues) (rules : list ChaosRule) : Prop :=
  Forall (fun r => 0 <= cr_delay_ns r) rules /\ Forall (fun d => fits 32 (rx_length d)) (q_rx q).

Lemma batch_rel umem rt q held others rules l tx_output recycle_output :
  zlen umem = FrameCount * FrameSize -> mem_ok umem -> Forall (fun r => 0 <= cr_delay_ns r) rules ->
  Forall (placed FrameSize) l -> Forall (fun d => fits 32 (rx_length d)) l -> zlen l <= 64 -> zlen tx_output = 64 -> zlen recycle_output = 64 ->
  ra_rel umem rt q held (rx_claims FrameSize FrameOwner_DataPlane l ++ others) ->
  exists batch tx recycle delayed,
    process_packet_batch (ra_umem_ rt) (Some 0) (zlen (ra_umem_ rt)) (pd_of <$> l) rules (ra_timing_wheel_ rt)
      tx_output recycle_output kDefaultTimingWheelTickNs = Some batch /\
    zlen (ba_tx_output batch) = 64 /\ zlen (ba_recycle_output batch) = 64 /\
    filled (ba_tx_output batch) (br_tx_count (ba_result batch)) tx /\
    filled (ba_recycle_output batch) (br_recycle_count (ba_result batch)) recycle /\
    bs_packets_delayed (br_stats (ba_result batch)) = zlen delayed /\
    zlen l = zlen tx + zlen recycle + zlen delayed /\
    zlen (ba_mem batch) = FrameCount * FrameSize /\ mem_ok (ba_mem batch) /\
    ra_rel (ba_mem batch) (ra_set_wheel (ra_set_umem rt (ba_mem batch)) (ba_wheel batch)) q
      (reverse (pf_key <$> delayed) ++ held) (tx_claims tx ++ tx_claims recycle ++ others).
Proof.
  intros Hz Hm Hrules Hpl Hl Hlen Htx Hrec [Ho Hs Hw Hu]. rewrite Hu.
  assert (rx_claims FrameSize FrameOwner_DataPlane l = claims_of FrameOwner_DataPlane (rx_address <$> l)) as Hclaims.
  { unfold rx_claims. f_equal. apply list_fmap_ext. intros i d Hd. by apply (placed_chunk FrameSize), (Forall_lookup_1 _ _ i d Hpl). }
  rewrite Hclaims in Ho.
  assert (Forall (fun d => fits 64 (rx_address d)) l) as Haddr.
  { apply Forall_forall. intros d Hd.
    assert ((FrameOwner_DataPlane, rx_address d) ∈ claims_of FrameOwner_DataPlane (rx_address <$> l)) as Hin.
    { unfold claims_of. apply list_elem_of_fmap. exists (rx_address d). split; [done|]. by apply list_elem_of_fmap_2. }
    destruct (proj1 (ow_claim _ _ _ _ Ho FrameOwner_DataPlane (rx_address d))) as (i & ? & -> & _).
    { rewrite !elem_of_app. auto. }
    unfold fits. nia. }
  destruct (batch_run umem (Some 0) (zlen umem) (pd_of <$> l) rules (ra_timing_wheel_ rt) tx_output recycle_output
    kDefaultTimingWheelTickNs held) as (batch & entries & Hrun & Hinv & H2 & Hz' & Hm' & _).
  { split; try done.
    - unfold fits. nia.
    - split; [done|]. intros base [= <-]. lia.
    - apply Forall_fmap, Forall_forall. intros d Hd. rewrite Forall_forall in Haddr, Hl. by split; [apply Haddr|apply Hl].
    - unfold zlen in *. rewrite length_fmap. lia.
    - lia.
    - lia. }
  { done. }
  assert (zlen entries = zlen l) as He.
  { apply Forall2_length in H2. unfold zlen. by rewrite <-H2, length_fmap. }
  pose proof (batch_no_loss _ _ _ _ _ _ Hinv) as Hlost. rewrite Hrec, He in Hlost. specialize (Hlost Hlen).
  exists batch, (with_fate Transmitted entries), (with_fate Recycled entries), (with_fate Delayed entries).
  pose proof (fates_total entries) as Htot. rewrite Hlost in Htot. change (zlen (@nil ProcessedFrame)) with 0 in Htot.
  split_and!; [done|rewrite <-Htx; apply Hinv|rewrite <-Hrec; apply Hinv|apply Hinv|apply Hinv|apply Hinv|lia|lia|done|]. split; try done; [|apply Hinv].
  eapply owns_proper; [done| |exact Ho]. pose proof (fates_addresses _ _ H2 Hlost) as Hp.
  rewrite <-list_fmap_compose in Hp. change (pd_frame_address ∘ pd_of) with rx_address in Hp.
  rewrite Hp. unfold tx_claims, queue_claims. rewrite !fmap_app, (reverse_Permutation (pf_key <$> _)), <-!list_fmap_compose.
  change ((fun k : Z * Z * Z => k.1.1) ∘ pf_key) with pf_frame_address. clear Hp. claims_solver.
Qed.

(** The receive side of a poll: [consume_rx] and the loop after it. *)
Lemma receive_spec umem rt q held others stats :
  ra_rel umem rt q held others -> 0 <= rs_owner_failures stats < 2 ^ 63 ->
  let l := take 64 (q_rx q) in
  exists status rx s' rt' ds,
    xs_consume_rx (ra_socket_ rt) (replicate 64 inhabitant) = Some (mkRingResult (zlen l) status, rx, s') /\
    ra_collect_loop FrameCount FrameSize (Z.to_nat (zlen l)) 0 rx (ra_set_socket rt s') stats
      (replicate 64 (mkPacketDescriptor 0 0 0)) 0
    = Some (rs_add_owner stats (zlen (misplaced FrameSize l)), rt', ds, zlen (well_placed FrameSize l)) /\
    take (Z.to_nat (zlen (well_placed FrameSize l))) ds = pd_of <$> well_placed FrameSize l /\
    ra_rel umem rt' (mkQueues (q_fill q) (q_completion q) (drop 64 (q_rx q)) (q_tx q) (q_kicks q)) held
      (rx_claims FrameSize FrameOwner_DataPlane (well_placed FrameSize l) ++ rx_claims FrameSize FrameOwner_FillRing (misplaced FrameSize l) ++ others) /\
    ra_initialized_ rt' = ra_initialized_ rt.
Proof.
  intros [Ho Hs Hw Hu] Hown l.
  destruct (xs_consume_rx_law _ _ (replicate 64 inhabitant) Hs) as (status & s' & Hrun & Hs'); [done|].
  rewrite length_replicate, take_min in Hrun. rewrite length_replicate, drop_min in Hs'. fold l in Hrun.
  assert (length l = Nat.min 64 (length (q_rx q))) as Hlen by (apply length_take).
  assert (Z.to_nat (zlen l) = length l) as Hnat by (unfold zlen; lia).
  rewrite <-Hlen in Hrun. rewrite Hnat.
  set (q1 := mkQueues (q_fill q) (q_completion q) (drop 64 (q_rx q)) (q_tx q) (q_kicks q)) in *.
  set (rx := l ++ _) in Hrun.
  assert (take (length l) (drop (Z.to_nat 0) rx) = l) as Hl by (unfold rx; change (Z.to_nat 0) with 0%nat; by rewrite drop_0, take_app_length).
  destruct (collect_spec umem (length l) 0 rx (ra_set_socket rt s') q1 held others stats
    (replicate 64 (mkPacketDescriptor 0 0 0)) 0) as (rt' & ds & Hcol & Hds & Hrel & Hin); rewrite ?Hl in *; try done.
  { unfold rx, zlen. rewrite length_app. lia. }
  { rewrite zlen_replicate. lia. }
  { lia. }
  { lia. }
  { split; try done. simpl. eapply owns_proper; [done| |exact Ho]. subst q1.
    pose proof (take_drop 64 (q_rx q)) as Htd. fold l in Htd. unfold queue_claims, rx_claims.
    cbn [q_fill q_completion q_rx q_tx]. set (rest := drop 64 (q_rx q)) in *. rewrite <-Htd. claims_solver. }
  exists status, rx, s', rt', ds. rewrite Z.add_0_l in *. split_and!; try done.
Qed.

Lemma perm_app_zlen {A} (l a b : list A) : l ≡ₚ a ++ b -> zlen l = zlen a + zlen b.
Proof. intros H. unfold zlen. rewrite (Permutation_length H), length_app. lia. Qed.

Lemma fmap_zlen {A B} (f : A -> B) l : zlen (f <$> l) = zlen l.
Proof. unfold zlen. by rewrite length_fmap. Qed.

(** What one poll does to the queues: [expired] frames leave the wheel, [stuck] ones were
    refused by a full ring, and packets that do not start at the start of their frame are
    refused by [handle_from_address]. *)
Record poll_effect (q q' : Queues) (held held' : list (Z * Z * Z)) (stats : RuntimePollStats) (expired : list DelayedFrame)
    (stuck : list (FrameOwner * Z)) : Prop := {
  pe_completion : q_completion q' = drop 64 (q_completion q);
  pe_rx : q_rx q' = drop 64 (q_rx q);
  pe_fill : exists refilled, q_fill q' = q_fill q ++ refilled /\ zlen refilled = rs_fill_refilled stats;
  pe_tx : exists sent, q_tx q' = q_tx q ++ sent /\ zlen sent = rs_tx_submitted stats;
  pe_released : exists released others, q_tx q' = q_tx q ++ (tx_of <$> released) ++ others /\
    released `sublist_of` (processed_of <$> expired) /\ (stuck = [] -> released = processed_of <$> expired);
  pe_wheel : exists rest delayed, held ≡ₚ (df_key <$> expired) ++ rest /\ held' = delayed ++ rest /\
    zlen delayed = bs_packets_delayed (rs_data_plane stats);
  pe_completed : rs_tx_completed stats = zlen (take 64 (q_completion q));
  pe_received : rs_rx_frames stats = zlen (take 64 (q_rx q));
  pe_stuck : rs_fill_failures stats = zlen stuck;
  pe_owners : rs_owner_failures stats = zlen (misplaced FrameSize (take 64 (q_rx q)));
  pe_flow : rs_tx_submitted stats + rs_fill_refilled stats + rs_fill_failures stats + rs_owner_failures stats
    = rs_tx_completed stats + zlen expired + (rs_rx_frames stats - bs_packets_delayed (rs_data_plane stats));
}.

(** The two steps before the receive ring: completed frames go back, due frames go out. *)
Lemma drain_release_spec umem rt q held others :
  ra_rel umem rt q held others ->
  let completed := take 64 (q_completion q) in
  exists stats1 rt1 refilled stuck1 expired rest sent stuck2 kicks rt2,
    ra_drain_completions FrameCount FrameSize rt RuntimePollStats_default = Some (stats1, rt1) /\
    ra_release_delayed FrameCount FrameSize rt1 stats1
      = Some (mkRuntimePollStats 0 (zlen sent) (zlen completed) (zlen refilled) (zlen stuck1 + zlen stuck2) 0 DataPlaneBatchStats_default, rt2) /\
    zlen completed = zlen refilled + zlen stuck1 /\ zlen expired = zlen sent + zlen stuck2 /\
    held ≡ₚ (df_key <$> expired) ++ rest /\ sent `sublist_of` (processed_of <$> expired) /\
    ra_rel umem rt2 (push_tx (push_fill (mkQueues (q_fill q) (drop 64 (q_completion q)) (q_rx q) (q_tx q) (q_kicks q)) refilled)
      (tx_of <$> sent) kicks) rest (claims_of FrameOwner_DataPlane stuck2 ++ claims_of FrameOwner_TxRing stuck1 ++ others) /\
    (zlen (q_fill q) + zlen completed <= xs_fill_capacity -> stuck1 = []) /\
    (zlen (q_tx q) + zlen expired <= xs_tx_capacity -> stuck2 = []) /\ ra_initialized_ rt2 = ra_initialized_ rt /\
    exists w', tq_tick (ra_timing_wheel_ rt) = Some (expired, w').
Proof.
  intros Hrel completed.
  destruct (drain_completions_spec _ _ _ _ _ Hrel) as (refilled & stuck1 & rt1 & Hdrain & Hp1 & Hrel1 & Hcap1 & Hin1).
  apply drain_completions_wheel in Hdrain as Hwheel. fold completed in Hdrain, Hp1, Hcap1.
  assert (zlen completed <= 64) by (unfold completed, zlen; rewrite length_take; lia).
  apply perm_app_zlen in Hp1. pose proof (zlen_nonneg refilled). pose proof (zlen_nonneg stuck1).
  destruct (release_delayed_spec _ _ _ _ _ (mkRuntimePollStats 0 0 (zlen completed) (zlen refilled) (zlen stuck1) 0
    DataPlaneBatchStats_default) Hrel1)
    as (expired & rest & sent & stuck2 & kicks & rt2 & Hrun & Hheld & Hsub & Hp2 & Hrel2 & Hcap2 & Hin2 & Htick).
  { unfold stats_room. simpl. lia. }
  rewrite Hwheel in Htick. apply perm_app_zlen in Hp2. rewrite !fmap_zlen in Hp2.
  eexists _, rt1, refilled, stuck1, expired, rest, sent, stuck2, kicks, rt2. split_and!; try done; [|by rewrite Hin2].
  rewrite Hrun. unfold rs_add. cbn. by rewrite Z.add_0_r.
Qed.

(** The two steps after the batch: the frames to transmit, then the recycled ones. *)
Lemma dispatch_spec umem rt q held tx recycle others stats :
  ra_rel umem rt q held (tx_claims tx ++ tx_claims recycle ++ others) -> stats_room stats (zlen tx + zlen recycle) ->
  exists stats1 rt1 sent stuck1 kicks refilled stuck2 rt2,
    ra_submit_tx FrameCount FrameSize rt tx stats = Some (stats1, rt1) /\
    ra_refill_recycled FrameCount FrameSize rt1 recycle stats1
      = Some (rs_add stats (zlen sent) (zlen refilled) (zlen stuck1 + zlen stuck2), rt2) /\
    zlen tx = zlen sent + zlen stuck1 /\ zlen recycle = zlen refilled + zlen stuck2 /\
    ra_rel umem rt2 (push_fill (push_tx q (tx_of <$> sent) kicks) refilled) held
      (claims_of FrameOwner_DataPlane (stuck2 ++ stuck1) ++ others) /\
    (zlen (q_tx q) + zlen tx <= xs_tx_capacity -> stuck1 = []) /\
    (zlen (q_fill q) + zlen recycle <= xs_fill_capacity -> stuck2 = []) /\ ra_initialized_ rt2 = ra_initialized_ rt.
Proof.
  intros Hrel Hroom. pose proof (zlen_nonneg tx). pose proof (zlen_nonneg recycle).
  destruct (submit_tx_spec _ _ _ _ _ _ stats Hrel) as (sent & stuck1 & kicks & rt1 & Hrun1 & _ & Hp1 & Hrel1 & Hcap1 & Hin1).
  { unfold stats_room in *. lia. }
  apply perm_app_zlen in Hp1. rewrite !fmap_zlen in Hp1. pose proof (zlen_nonneg sent). pose proof (zlen_nonneg stuck1).
  apply (ra_rel_perm _ _ _ _ _ (tx_claims recycle ++ claims_of FrameOwner_DataPlane stuck1 ++ others)) in Hrel1; [|perm_solver].
  destruct (refill_addresses_spec _ _ _ _ _ _ _ (rs_add stats (zlen sent) 0 (zlen stuck1)) Hrel1)
    as (refilled & stuck2 & rt2 & Hrun2 & Hp2 & Hrel2 & Hcap2 & Hin2).
  { rewrite fmap_zlen. eapply stats_room_add; [done|lia..]. }
  apply perm_app_zlen in Hp2. rewrite !fmap_zlen in *.
  eexists _, rt1, sent, stuck1, kicks, refilled, stuck2, rt2. split_and!; try done; [| |by rewrite Hin2].
  - rewrite refill_recycled_addresses, Hrun2, rs_add_add. do 3 f_equal; lia.
  - eapply ra_rel_perm; [|exact Hrel2]. claims_solver.
Qed.

Lemma poll_once_spec umem rt q held others rules :
  ra_rel umem rt q held others -> zlen umem = FrameCount * FrameSize -> mem_ok umem ->
  poll_args_ok q rules -> ra_initialized_ rt = true ->
  exists umem' stats rt' q' held' expired stuck,
    ra_poll_once FrameCount FrameSize rt rules = Some (mkRuntimePollResult RuntimeStatus_Ok stats, rt') /\
    ra_rel umem' rt' q' held' (stuck ++ rx_claims FrameSize FrameOwner_FillRing (misplaced FrameSize (take 64 (q_rx q))) ++ others) /\
    zlen umem' = FrameCount * FrameSize /\ mem_ok umem' /\ ra_initialized_ rt' = true /\ poll_effect q q' held held' stats expired stuck /\
    (zlen (queue_claims FrameSize q held ++ others) <= Z.min xs_fill_capacity xs_tx_capacity -> stuck = []) /\
    exists w', tq_tick (ra_timing_wheel_ rt) = Some (expired, w').
Proof.
  intros Hrel Hz Hm [Hrules Hrx] Hinit. unfold ra_poll_once. rewrite Hinit. cbn [negb].
  destruct (drain_release_spec _ _ _ _ _ Hrel) as (stats1 & rt1 & refilled & stuck1 & expired & rest & sent1 & stuck2 & kicks & rt2 &
    -> & Hrelease & Hp1 & Hp2 & Hheld & Hsub1 & Hrel2 & Hcap1 & Hcap2 & Hin2 & Htick).
  set (completed := take 64 (q_completion q)) in *. cbn [mbind option_bind]. rewrite Hrelease.
  assert (0 <= zlen completed <= zlen (q_completion q) /\ zlen completed <= 64) as [Hc1 Hc2]
    by (unfold completed, zlen; rewrite length_take; lia).
  pose proof (zlen_nonneg refilled). pose proof (zlen_nonneg stuck1). pose proof (zlen_nonneg sent1). pose proof (zlen_nonneg stuck2).
  pose proof (perm_app_zlen _ _ _ Hheld) as Hheldz. rewrite fmap_zlen in Hheldz.
  pose proof (ra_rel_count _ _ _ _ _ Hrel) as Hcount. rewrite queue_claims_length in Hcount.
  pose proof (zlen_nonneg others). pose proof (zlen_nonneg rest). pose proof (zlen_nonneg (q_fill q)).
  pose proof (zlen_nonneg (q_tx q)).
  cbn [mbind option_bind]. change (Z.to_nat kDataPlaneBatchSize) with 64%nat.
  set (stats2 := mkRuntimePollStats _ _ _ _ _ _ _).
  destruct (receive_spec _ _ _ _ _ (rs_set_rx_frames stats2 (zlen (take 64 (q_rx q)))) Hrel2)
    as (status & rx & s' & rt3 & ds & Hcons & Hcol & Hds & Hrel3 & Hin3); [cbn; lia|].
  cbn [q_rx push_tx push_fill q_fill q_completion q_tx] in *. set (l := take 64 (q_rx q)) in *.
  assert (0 <= zlen l <= zlen (q_rx q) /\ zlen l <= 64) as [Hl1 Hl2] by (unfold l, zlen; rewrite length_take; lia).
  rewrite Hcons. cbn [mbind option_bind rr_count]. rewrite Hcol. cbn [mbind option_bind]. rewrite Hds.
  assert (Forall (fun d => fits 32 (rx_length d)) (well_placed FrameSize l)) as Hrxl by (by apply well_placed_Forall, Forall_take).
  assert (Forall (placed FrameSize) (well_placed FrameSize l)) as Hpl by apply well_placed_all.
  pose proof (placed_split FrameSize l) as Hsplit. pose proof (zlen_nonneg (misplaced FrameSize l)). pose proof (zlen_nonneg (well_placed FrameSize l)).
  destruct (batch_rel _ _ _ _ _ rules (well_placed FrameSize l) (replicate 64 inhabitant) (replicate 64 inhabitant) Hz Hm Hrules Hpl Hrxl
    ltac:(lia) eq_refl eq_refl Hrel3)
    as (batch & tx & recycle & delayed & -> & _ & _ & [_ Htx] & [_ Hrec] & Hdel & Hsum & Hz' & Hm' & Hrel4).
  cbn [mbind option_bind]. rewrite Htx, Hrec.
  pose proof (zlen_nonneg tx). pose proof (zlen_nonneg recycle). pose proof (zlen_nonneg delayed).
  set (stats4 := rs_set_data_plane _ _).
  destruct (dispatch_spec _ _ _ _ _ _ _ stats4 Hrel4) as (stats5 & rt5 & sent & stuck3 & kicks5 & refilled6 & stuck4 & rt6 &
    -> & Hdispatch & Hp5 & Hp6 & Hrel6 & Hcap5 & Hcap6 & Hin6).
  { subst stats4 stats2. unfold stats_room. simpl. lia. }
  cbn [mbind option_bind]. rewrite Hdispatch. cbn [mbind option_bind q_fill q_tx push_fill push_tx] in *.
  eexists (ba_mem batch), _, rt6, _, _, expired, (claims_of FrameOwner_DataPlane (stuck4 ++ stuck3 ++ stuck2) ++
    claims_of FrameOwner_TxRing stuck1).
  split_and!; [done| |done|done|cbn in Hin6; congruence| | |done].
  - eapply ra_rel_perm; [|exact Hrel6]. claims_solver.
  - subst stats4 stats2. unfold claims_of. split; cbn [q_fill q_tx q_completion q_rx push_fill push_tx]; try done.
    + exists (refilled ++ refilled6). rewrite app_assoc. split; [done|]. rewrite zlen_app. simpl. lia.
    + exists ((tx_of <$> sent1) ++ (tx_of <$> sent)). rewrite app_assoc. split; [done|]. rewrite zlen_app, !fmap_zlen. simpl. lia.
    + exists sent1, (tx_of <$> sent). rewrite app_assoc. split_and!; [done|done|].
      intros [[_ [_ Hs2]%app_nil]%fmap_nil_inv%app_nil _]%app_nil. apply sublist_same_length; [done|].
      rewrite length_fmap. subst stuck2. unfold zlen in Hp2. cbn [length] in Hp2. lia.
    + exists rest, (reverse (pf_key <$> delayed)). split_and!; [done|done|]. simpl. rewrite Hdel.
      unfold zlen. by rewrite length_reverse, length_fmap.
    + rewrite zlen_app, !fmap_zlen, !zlen_app. simpl. lia.
    + simpl. rewrite Hdel. lia.
  - rewrite zlen_app, queue_claims_length. intros Hcap.
    rewrite Hcap1, Hcap2, Hcap5, Hcap6; [done|..]; autorewrite with zlen; rewrite ?fmap_zlen; lia.
Qed.

(** Every frame is accounted for: what leaves the queues was refused. *)
Lemma poll_effect_count q q' held held' stats expired stuck :
  poll_effect q q' held held' stats expired stuck ->
  zlen (queue_claims FrameSize q' held') + rs_fill_failures stats + rs_owner_failures stats = zlen (queue_claims FrameSize q held).
Proof.
  intros [Hc Hx (refilled & Hf & Hfz) (sent & Ht & Htz) _ (rest & delayed & Hh & -> & Hd) Hcz Hxz Hs _ Hflow].
  apply perm_app_zlen in Hh. rewrite fmap_zlen in Hh. rewrite !queue_claims_length, Hc, Hx, Hf, Ht, !zlen_app.
  pose proof (take_drop 64 (q_completion q)) as E1. pose proof (take_drop 64 (q_rx q)) as E2.
  apply (f_equal zlen) in E1, E2. rewrite zlen_app in E1. rewrite zlen_app in E2. lia.
Qed.

(** [init] puts frames on the fill ring until it has enough, or the ring is full. *)
Lemma init_loop_spec umem n rt q held others :
  ra_rel umem rt q held others -> zlen (queue_claims FrameSize q held ++ others) + Z.of_nat n <= FrameCount ->
  exists status filled rt', ra_init_loop FrameCount FrameSize n rt = Some (status, rt') /\
    ra_rel umem rt' (push_fill q filled) held others /\
    (status = RuntimeStatus_Ok /\ length filled = n /\ ra_initialized_ rt' = true \/
     status = RuntimeStatus_RingFull /\ (length filled < n)%nat /\ ra_initialized_ rt' = ra_initialized_ rt) /\
    (zlen (q_fill q) + Z.of_nat n <= xs_fill_capacity -> status = RuntimeStatus_Ok).
Proof.
  revert rt q. induction n as [|n IH]; intros rt q Hrel Hcount; cbn [ra_init_loop].
  { exists RuntimeStatus_Ok, [], (ra_set_initialized rt true). destruct Hrel. unfold push_fill. rewrite app_nil_r.
    split_and!; [done|by destruct q|auto|done]. }
  destruct Hrel as [Ho Hs Hw Hu].
  destruct (owns_allocate FrameCount FrameSize FrameCount_bounds FrameSize_pos umem_fits _ FrameOwner_FillRing _ Ho)
    as (i & a1 & -> & Hi & Ho1); [done|lia|].
  cbn [mbind option_bind]. change (fal_ok _) with true. cbn [negb fal_frame]. rewrite (fh_address_make FrameCount) by done.
  cbn [ra_socket_ ra_set_allocator].
  destruct (xs_refill_law _ _ [i * FrameSize] Hs) as (k & st & s' & -> & Hk & Hroom & Hs'); [done|].
  cbn [mbind option_bind rr_count]. set (rt1 := ra_set_socket _ _).
  assert (k = 0%nat \/ k = 1%nat) as [-> | ->] by (simpl in Hk; lia).
  - change (negb (Z.of_nat 0 =? 1)) with true. cbn iota. unfold ra_transition.
    destruct (owns_transition FrameCount FrameSize FrameCount_bounds FrameSize_pos umem_fits _ _ FrameOwner_Free _ _ Ho1 Hi)
      as (a2 & Htr & Ho2). change (ra_allocator_ rt1) with a1. rewrite Htr. cbn [mbind option_bind].
    exists RuntimeStatus_RingFull, [], (ra_set_allocator rt1 a2). rewrite take_0 in Hs'. unfold push_fill.
    split_and!; [done| |right; simpl; split_and!; [done|lia|done]|].
    + rewrite app_nil_r in *. by destruct q; split.
    + intros Hc. exfalso. enough (0%nat = length [i * FrameSize]) by done. apply Hroom. rewrite zlen_cons, zlen_nil. lia.
  - change (negb (Z.of_nat 1 =? 1)) with false. cbn iota.
    destruct (IH rt1 (push_fill q [i * FrameSize])) as (status & filled & rt' & -> & Hrel' & Hst & Hcap).
    { split; try done. simpl. eapply owns_proper; [done| |exact Ho1]. claims_solver. }
    { rewrite zlen_app, queue_claims_length in *. unfold push_fill. cbn [q_fill q_rx q_tx q_completion].
      autorewrite with zlen. lia. }
    exists status, (i * FrameSize :: filled), rt'. split_and!; [done| | |].
    + unfold push_fill in *. cbn [q_fill q_completion q_rx q_tx q_kicks] in Hrel'. by rewrite <-app_assoc in Hrel'.
    + destruct Hst as [(? & ? & ?)|(? & ? & ?)]; [left|right]; simpl; split_and!; try done; lia.
    + intros Hc. apply Hcap. unfold push_fill. cbn [q_fill]. autorewrite with zlen. lia.
Qed.

(** ** The adapter and the kernel

    The kernel's side of the rings is a parameter, the class [RingKernel] above. *)

Context `{!RingKernel FrameSize}.

Inductive system_step : Adapter * list Z * list Z -> Adapter * list Z * list Z -> Prop :=
| system_poll rt rules result rt' krx ktx :
    Forall (fun r => 0 <= cr_delay_ns r) rules ->
    ra_poll_once FrameCount FrameSize rt rules = Some (result, rt') ->
    system_step (rt, krx, ktx) (rt', krx, ktx)
| system_kernel rt q q' s' krx ktx krx' ktx' :
    xs_repr (ra_socket_ rt) q -> kernel_move (q, krx, ktx) (q', krx', ktx') -> xs_repr s' q' ->
    system_step (rt, krx, ktx) (ra_set_socket rt s', krx', ktx')
| system_receive rt umem krx ktx :
    zlen umem = zlen (ra_umem_ rt) -> mem_ok umem ->
    system_step (rt, krx, ktx) (ra_set_umem rt umem, krx, ktx).

(** The frames the kernel has. *)
Definition kernel_claims (krx ktx : list Z) : list (FrameOwner * Z) :=
  claims_of FrameOwner_FillRing krx ++ claims_of FrameOwner_TxRing ktx.

(** The frames in use are in the queues, in the wheel, with the kernel or stranded, [in_use]
    in all; none is stranded if the rings have room for them all and the kernel leaves no
    headroom. *)
Definition no_headroom : Prop := forall offset, delivers (FrameSize := FrameSize) offset -> offset = 0.

Definition system_inv (in_use : Z) (state : Adapter * list Z * list Z) : Prop :=
  let '(rt, krx, ktx) := state in
  exists q held stranded,
    let others := kernel_claims krx ktx ++ stranded in
    ra_rel (ra_umem_ rt) rt q held others /\ zlen (ra_umem_ rt) = FrameCount * FrameSize /\ mem_ok (ra_umem_ rt) /\
    ra_initialized_ rt = true /\ Forall (fun d => fits 32 (rx_length d)) (q_rx q) /\
    zlen (queue_claims FrameSize q held ++ others) = in_use /\
    (no_headroom -> Forall (fun a => a mod FrameSize = 0) krx /\ Forall (placed FrameSize) (q_rx q)) /\
    (in_use <= Z.min xs_fill_capacity xs_tx_capacity -> no_headroom -> stranded = []).

Lemma delivered_chunk address offset :
  address mod FrameSize = 0 -> 0 <= offset < FrameSize -> (address + offset) / FrameSize * FrameSize = address.
Proof.
  intros Ha Ho. pose proof (Z_div_mod_eq_full address FrameSize). rewrite Z.add_comm.
  replace address with (address / FrameSize * FrameSize) at 1 by lia. rewrite Z.div_add by lia. rewrite (Z.div_small offset) by lia. lia.
Qed.

Lemma owns_aligned a claims o address : owns FrameCount FrameSize a claims -> (o, address) ∈ claims -> address mod FrameSize = 0.
Proof. intros Ho (i & _ & -> & _)%(ow_claim _ _ _ _ Ho). apply Z_mod_mult. Qed.

(** A move of the kernel hands frames from one of its places to another. *)
Lemma kernel_move_claims a q krx ktx q' krx' ktx' held others :
  kernel_move (q, krx, ktx) (q', krx', ktx') ->
  owns FrameCount FrameSize a (queue_claims FrameSize q held ++ kernel_claims krx ktx ++ others) ->
  queue_claims FrameSize q held ++ kernel_claims krx ktx ≡ₚ queue_claims FrameSize q' held ++ kernel_claims krx' ktx' /\
  (Forall (fun d => fits 32 (rx_length d)) (q_rx q) -> Forall (fun d => fits 32 (rx_length d)) (q_rx q')) /\
  (no_headroom -> Forall (placed FrameSize) (q_rx q) -> Forall (placed FrameSize) (q_rx q')).
Proof.
  intros Hmove%kernel_law. inversion Hmove as [|address offset length options fill completion rx tx kicks krx1 krx2 ktx0 Hoff Hlen| |]; subst;
    intros Ho; try (split; [unfold kernel_claims; claims_solver|done]).
  assert (address mod FrameSize = 0) as Ha.
  { eapply (owns_aligned _ _ FrameOwner_FillRing); [exact Ho|]. unfold kernel_claims, claims_of.
    rewrite fmap_app, fmap_cons, !elem_of_app, elem_of_cons. right; left; left; right; by left. }
  assert (rx_chunk FrameSize (mkRxDescriptor (address + offset) length options) = address) as Hchunk
    by exact (delivered_chunk address offset Ha (delivers_law offset Hoff)).
  split_and!; cbn [q_rx].
  - unfold kernel_claims, queue_claims. cbn [q_fill q_completion q_rx q_tx]. rewrite fmap_app, (list_fmap_singleton (rx_chunk FrameSize)), Hchunk.
    claims_solver.
  - intros ?. apply Forall_app. by split; [|constructor].
  - intros Hzero Hall. rewrite (Hzero offset Hoff), Z.add_0_r. apply Forall_app. split; [done|]. by constructor; [|done].
Qed.

Lemma system_step_inv in_use st st' :
  system_step st st' -> system_inv in_use st -> system_inv in_use st'.
Proof.
  intros Hstep. destruct Hstep as [rt rules result rt' krx ktx Hrules Hpoll|rt q1 q' s' krx ktx krx' ktx' Hq Hmove Hs'|rt umem krx ktx Hz Hm];
    intros (q & held & stranded & Hrel & Hzu & Hmu & Hin & Hrx & Hcount & Hplaced & Hstr); cbn [fst snd] in *.
  - destruct (poll_once_spec _ _ _ _ _ rules Hrel Hzu Hmu (conj Hrules Hrx) Hin)
      as (umem' & stats & rt1 & q' & held' & expired & stuck & Hrun & Hrel' & Hzu' & Hmu' & Hin' & Heff & Hstuck & _).
    rewrite Hrun in Hpoll. injection Hpoll as <- <-. set (bad := misplaced FrameSize (take 64 (q_rx q))) in *.
    pose proof (ral_umem _ _ _ _ _ Hrel') as <-. exists q', held', (stuck ++ rx_claims FrameSize FrameOwner_FillRing bad ++ stranded).
    pose proof (poll_effect_count _ _ _ _ _ _ _ Heff) as Hc. pose proof (pe_stuck _ _ _ _ _ _ _ Heff) as Hs1.
    pose proof (pe_owners _ _ _ _ _ _ _ Heff) as Hs2. fold bad in Hs2.
    split_and!; try done.
    + eapply ra_rel_perm; [|exact Hrel']. perm_solver.
    + rewrite (pe_rx _ _ _ _ _ _ _ Heff). by apply Forall_drop.
    + autorewrite with zlen in *. unfold rx_claims, claims_of. rewrite !fmap_zlen. lia.
    + intros Hno. rewrite (pe_rx _ _ _ _ _ _ _ Heff). split; [by apply Hplaced|]. by apply Forall_drop, Hplaced.
    + intros Hcap Hno. rewrite Hstr, Hstuck by (done || lia). destruct (placed_all FrameSize (take 64 (q_rx q))) as [_ E]; [by apply Forall_take, Hplaced|].
      subst bad. by rewrite E.
  - destruct Hrel as [Ho Hs Hw Hu]. pose proof (xs_repr_inj _ _ _ Hs Hq) as <-.
    destruct (kernel_move_claims _ _ _ _ _ _ _ held stranded Hmove Ho) as (Hp & Hrx' & Hpl).
    exists q', held, stranded. rewrite !app_assoc in Ho, Hcount. rewrite Hp in Ho.
    assert (owns FrameCount FrameSize (ra_allocator_ rt) (queue_claims FrameSize q' held ++ kernel_claims krx' ktx' ++ stranded)) as Ho'
      by (by rewrite app_assoc).
    split_and!; try done; [by apply Hrx'| |].
    + rewrite <-Hcount, app_assoc. unfold zlen. apply Permutation_length in Hp. rewrite !length_app in *. lia.
    + intros Hno. split; [|by apply Hpl, Hplaced]. apply Forall_forall. intros address Hin'.
      eapply (owns_aligned _ _ FrameOwner_FillRing); [exact Ho'|]. unfold kernel_claims, claims_of.
      rewrite !elem_of_app. right. left. left. by apply list_elem_of_fmap_2.
  - exists q, held, stranded. destruct Hrel as [Ho Hs Hw Hu]. cbn. rewrite Hz. by split_and!.
Qed.

Lemma system_inv_reachable in_use st st' : rtc system_step st st' -> system_inv in_use st -> system_inv in_use st'.
Proof. induction 1; [done|]. eauto using system_step_inv. Qed.

(** Starting up. *)
Lemma init_system socket wheel config :
  xs_repr socket empty_queues -> dq_holds wheel [] -> 0 <= rc_initial_fill_frames config ->
  let fill_target := Z.min (rc_initial_fill_frames config) FrameCount in
  fill_target <= xs_fill_capacity ->
  exists rt, ra_init FrameCount FrameSize (ra_default FrameCount FrameSize socket wheel) config = Some (RuntimeStatus_Ok, rt) /\
    system_inv fill_target (rt, [], []).
Proof.
  intros Hs Hw Hc fill_target Hcap. unfold ra_init. cbn [ra_initialized_ ra_default].
  assert ((if rc_initial_fill_frames config <? FrameCount then rc_initial_fill_frames config else FrameCount) = fill_target)
    as -> by (subst fill_target; zcase; lia).
  assert (0 <= fill_target <= FrameCount) as Hft by lia. clearbody fill_target.
  assert (ra_rel (replicate (Z.to_nat (u64 (FrameCount * FrameSize))) 0) (ra_default FrameCount FrameSize socket wheel)
    empty_queues [] []) as Hrel by (split; try done; by apply owns_new).
  destruct (init_loop_spec _ (Z.to_nat fill_target) _ _ _ _ Hrel) as (status & filled & rt & -> & Hrel' & Hst & Hok).
  { assert (zlen (queue_claims FrameSize empty_queues [] ++ []) = 0) as -> by done. lia. }
  change (zlen (q_fill empty_queues)) with 0 in Hok. specialize (Hok ltac:(lia)) as ->. destruct Hst as [(_ & Hlen & Hin)|(? & _)]; [|done].
  pose proof (ral_umem _ _ _ _ _ Hrel') as Hu. exists rt. split; [done|]. exists (push_fill empty_queues filled), [], [].
  cbn [kernel_claims claims_of fmap list_fmap app]. rewrite Hu. split_and!; try done.
  - rewrite zlen_replicate, wrap_small by (unfold fits; nia). nia.
  - by apply Forall_replicate.
  - rewrite app_nil_r, queue_claims_length. unfold zlen. simpl. lia.
Qed.

(** C1: no frame is ever shared, and the only frames ever lost are those that a full ring
    or [handle_from_address] refuses.  Start the adapter with an empty socket and wheel,
    with at most as many frames as the fill ring has room for; then [init] succeeds, and
    after every interleaving of polls with any rules, of moves of the kernel on the rings
    (which may deliver a packet at any offset in its frame) and of its writes to the UMEM:
    each frame of the UMEM is in exactly one place (free, fill ring, receive ring, transmit
    ring, completion ring, delay queue, with the kernel, or stranded: in use but in no
    queue), its owner in the table is the one of that place, and as many frames are free as
    [init] left.  The next poll runs without undefined behaviour and succeeds, and it
    strands exactly the frames it counts: [fill_failures] refused by a full ring, and
    [owner_failures], which are the received packets that do not start at the start of
    their frame.  If the transmit ring, too, has room for all frames, no poll meets a full
    ring; if besides the kernel leaves no headroom, no frame is ever stranded. *)
Theorem runtime_conserves_frames socket wheel config :
  xs_repr socket empty_queues -> dq_holds wheel [] -> 0 <= rc_initial_fill_frames config ->
  let fill_target := Z.min (rc_initial_fill_frames config) FrameCount in
  fill_target <= xs_fill_capacity ->
  exists rt0, ra_init FrameCount FrameSize (ra_default FrameCount FrameSize socket wheel) config
      = Some (RuntimeStatus_Ok, rt0) /\
  forall rt krx ktx, rtc system_step (rt0, [], []) (rt, krx, ktx) ->
  exists q held stranded, xs_repr (ra_socket_ rt) q /\ dq_holds (ra_timing_wheel_ rt) held /\
    let claims := queue_claims FrameSize q held ++ kernel_claims krx ktx ++ stranded in
    claims.*2 ++ ((fun i => i * FrameSize) <$> free_list (ra_allocator_ rt)) ≡ₚ (fun i => i * FrameSize) <$> seqZ 0 FrameCount /\
    (forall o address, (o, address) ∈ claims -> owner_of FrameCount (ra_allocator_ rt) (address / FrameSize) = Some o) /\
    fa_available (ra_allocator_ rt) = FrameCount - fill_target /\
    (fill_target <= xs_tx_capacity -> no_headroom -> stranded = []) /\
    forall rules, Forall (fun r => 0 <= cr_delay_ns r) rules ->
      exists stats rt' q' held' lost,
        ra_poll_once FrameCount FrameSize rt rules = Some (mkRuntimePollResult RuntimeStatus_Ok stats, rt') /\
        xs_repr (ra_socket_ rt') q' /\ dq_holds (ra_timing_wheel_ rt') held' /\
        owns FrameCount FrameSize (ra_allocator_ rt') (queue_claims FrameSize q' held' ++ kernel_claims krx ktx ++ lost ++ stranded) /\
        zlen lost = rs_fill_failures stats + rs_owner_failures stats /\
        rs_owner_failures stats = zlen (misplaced FrameSize (take 64 (q_rx q))) /\
        (fill_target <= xs_tx_capacity -> rs_fill_failures stats = 0).
Proof.
  intros Hs Hw Hc fill_target Hcap. destruct (init_system socket wheel config Hs Hw Hc Hcap) as (rt0 & Hinit & Hinv0).
  exists rt0. split; [done|]. intros rt krx ktx Hreach.
  destruct (system_inv_reachable fill_target _ _ Hreach Hinv0)
    as (q & held & stranded & Hrel & Hz & Hm & Hin & Hrx & Hcount & Hplaced & Hstr).
  pose proof (ral_owns _ _ _ _ _ Hrel) as Ho. exists q, held, stranded.
  split; [apply Hrel|]. split; [apply Hrel|]. intros claims. split_and!; [by apply owns_partition|..].
  - intros o address (i & Hi & -> & _ & Hown)%(ow_claim _ _ _ _ Ho). rewrite Z_div_mult by lia.
    unfold owner_of. destruct (Z.ltb_spec i FrameCount); [done|lia].
  - pose proof (owns_count FrameCount FrameSize FrameCount_bounds FrameSize_pos _ _ Ho). unfold fa_available. lia.
  - intros Htx Hno. apply Hstr; [lia|done].
  - intros rules Hrules.
    destruct (poll_once_spec _ _ _ _ _ rules Hrel Hz Hm (conj Hrules Hrx) Hin)
      as (umem' & stats & rt1 & q' & held' & expired & stuck & Hrun & Hrel' & _ & _ & _ & Heff & Hstuck & _).
    pose proof (pe_stuck _ _ _ _ _ _ _ Heff) as Hs1. pose proof (pe_owners _ _ _ _ _ _ _ Heff) as Hs2.
    exists stats, rt1, q', held', (stuck ++ rx_claims FrameSize FrameOwner_FillRing (misplaced FrameSize (take 64 (q_rx q)))).
    split_and!; [done|apply Hrel'|apply Hrel'| | |done|].
    + eapply owns_proper; [done| |exact (ral_owns _ _ _ _ _ Hrel')]. perm_solver.
    + unfold rx_claims, claims_of. rewrite zlen_app, !fmap_zlen. lia.
    + intros Htx. by rewrite Hs1, Hstuck by lia.
Qed.

(** C18: what one poll does, whatever the fill levels.  From any consistent state (also
    one in which rings are full and frames are [others]: with the kernel or stuck) a poll
    of an initialised adapter runs without undefined behaviour; it takes up to 64
    completions and 64 received frames off their rings, appends the refilled and the
    submitted frames to the fill and the transmit ring, moves the frames that one tick of
    the delay queue returns out of it (and first onto the transmit ring) and the delayed
    ones into it, and its counters are exact: what came in (completions, expired, received
    less delayed) is what went out (submitted, refilled), what a full ring refused, which is
    [fill_failures], and the packets that do not start at the start of their frame, which
    are the [owner_failures]: there are none if all received packets do.  A refused frame
    stays with an owner but is in no queue. *)
Theorem poll_once_accounts umem rt q held others rules :
  ra_rel umem rt q held others -> zlen umem = FrameCount * FrameSize -> mem_ok umem ->
  poll_args_ok q rules -> ra_initialized_ rt = true ->
  exists umem' stats rt' q' held' expired stuck,
    ra_poll_once FrameCount FrameSize rt rules = Some (mkRuntimePollResult RuntimeStatus_Ok stats, rt') /\
    ra_rel umem' rt' q' held' (stuck ++ rx_claims FrameSize FrameOwner_FillRing (misplaced FrameSize (take 64 (q_rx q))) ++ others) /\
    zlen umem' = FrameCount * FrameSize /\ mem_ok umem' /\
    poll_effect q q' held held' stats expired stuck /\
    zlen (queue_claims FrameSize q' held') + rs_fill_failures stats + rs_owner_failures stats = zlen (queue_claims FrameSize q held) /\
    (Forall (placed FrameSize) (q_rx q) -> rs_owner_failures stats = 0) /\
    exists wheel, tq_tick (ra_timing_wheel_ rt) = Some (expired, wheel).
Proof.
  intros Hrel Hz Hm Hargs Hin. destruct (poll_once_spec _ _ _ _ _ rules Hrel Hz Hm Hargs Hin)
    as (umem' & stats & rt' & q' & held' & expired & stuck & Hrun & Hrel' & Hz' & Hm' & _ & Heff & _ & Htick).
  exists umem', stats, rt', q', held', expired, stuck. split_and!; try done; [by eapply poll_effect_count|].
  intros Hpl. rewrite (pe_owners _ _ _ _ _ _ _ Heff). by rewrite (proj2 (placed_all FrameSize _ (Forall_take _ 64 _ Hpl))).
Qed.

(** [init] and the initialised flag.  On a new adapter [init] puts
    [min(initial_fill_frames, FrameCount)] frames on the fill ring and answers [Ok], or,
    when the ring refuses one, leaves those before it on the ring, returns the refused
    frame to the pool, answers [RingFull] and stays uninitialised; it never fails to
    allocate.  A second [init] answers [AlreadyInitialized], and a poll before it
    [NotInitialized]; neither changes anything. *)
Theorem init_fills_or_reports socket wheel config :
  xs_repr socket empty_queues -> dq_holds wheel [] -> 0 <= rc_initial_fill_frames config ->
  let rt := ra_default FrameCount FrameSize socket wheel in
  let fill_target := Z.min (rc_initial_fill_frames config) FrameCount in
  exists status filled rt',
    ra_init FrameCount FrameSize rt config = Some (status, rt') /\
    ra_rel (ra_umem_ rt) rt' (push_fill empty_queues filled) [] [] /\
    (status = RuntimeStatus_Ok /\ zlen filled = fill_target /\
       ra_init FrameCount FrameSize rt' config = Some (RuntimeStatus_AlreadyInitialized, rt') \/
     status = RuntimeStatus_RingFull /\ zlen filled < fill_target /\
       fa_available (ra_allocator_ rt') = FrameCount - zlen filled /\
       forall rules, ra_poll_once FrameCount FrameSize rt' rules
         = Some (mkRuntimePollResult RuntimeStatus_NotInitialized RuntimePollStats_default, rt')).
Proof.
  intros Hs Hw Hc rt fill_target. unfold ra_init at 1. change (ra_initialized_ rt) with false. cbn iota zeta.
  assert ((if rc_initial_fill_frames config <? FrameCount then rc_initial_fill_frames config else FrameCount) = fill_target)
    as -> by (subst fill_target; zcase; lia).
  assert (0 <= fill_target <= FrameCount) as Hft by lia. clearbody fill_target.
  assert (ra_rel (ra_umem_ rt) rt empty_queues [] []) as Hrel by (split; try done; by apply owns_new).
  destruct (init_loop_spec _ (Z.to_nat fill_target) _ _ _ _ Hrel) as (status & filled & rt' & -> & Hrel' & Hst & _).
  { assert (zlen (queue_claims FrameSize empty_queues [] ++ []) = 0) as -> by done. lia. }
  exists status, filled, rt'. split_and!; [done|done|].
  destruct Hst as [(-> & Hlen & Hin)|(-> & Hlen & Hin)]; [left|right]; split_and!; try done; unfold zlen; try lia.
  - unfold ra_init. by rewrite Hin.
  - pose proof (owns_count FrameCount FrameSize FrameCount_bounds FrameSize_pos _ _ (ral_owns _ _ _ _ _ Hrel')) as Hn.
    rewrite app_nil_r, queue_claims_length in Hn. unfold fa_available, zlen in *. simpl in Hn. lia.
  - intros rules. unfold ra_poll_once. by rewrite Hin.
Qed.

End adapter_proofs.

(** ** The simulated socket and the timing wheel implement the interfaces *)

Section simulated_socket.
Context (FillSize CompSize RxSize TxSize : Z).
Hypothesis Fill_pow2 : is_power_of_two FillSize = true.
Hypothesis Comp_pow2 : is_power_of_two CompSize = true.
Hypothesis Rx_pow2 : is_power_of_two RxSize = true.
Hypothesis Tx_pow2 : is_power_of_two TxSize = true.
Hypothesis Fill_fits : fits 64 FillSize.
Hypothesis Comp_fits : fits 64 CompSize.
Hypothesis Rx_fits : fits 64 RxSize.
Hypothesis Tx_fits : fits 64 TxSize.

Abbreviation repr := (sx_repr FillSize CompSize RxSize TxSize).

Lemma simulated_refill_law s q l : repr s q -> zlen l < 2 ^ 32 ->
  exists (k : nat) status s', refill FillSize s l = Some (mkRingResult (Z.of_nat k) status, s') /\ (k <= length l)%nat /\
    (zlen (q_fill q) + zlen l <= FillSize -> k = length l) /\
    repr s' (mkQueues (q_fill q ++ take k l) (q_completion q) (q_rx q) (q_tx q) (q_kicks q)).
Proof.
  intros [Hf Hc Hx Ht Hk] Hl. destruct (produce_spec FillSize Fill_pow2 Fill_fits _ _ l Hf ltac:(lia)) as (ring & Hrun & Hring).
  unfold refill. rewrite Hrun. cbn [mbind option_bind]. pose proof (zlen_nonneg l). pose proof (sr_repr_le _ _ _ Hf).
  exists (Z.to_nat (Z.min (zlen l) (FillSize - zlen (q_fill q)))). rewrite Z2Nat.id by lia.
  eexists _, _. split_and!; [done|unfold zlen; lia|unfold zlen; lia|by split].
Qed.

Lemma simulated_submit_tx_law s q l : repr s q -> zlen l < 2 ^ 32 ->
  exists (k : nat) status s', submit_tx TxSize s l = Some (mkRingResult (Z.of_nat k) status, s') /\ (k <= length l)%nat /\
    (zlen (q_tx q) + zlen l <= TxSize -> k = length l) /\
    repr s' (mkQueues (q_fill q) (q_completion q) (q_rx q) (q_tx q ++ take k l) (q_kicks q)).
Proof.
  intros [Hf Hc Hx Ht Hk] Hl. destruct (produce_spec TxSize Tx_pow2 Tx_fits _ _ l Ht ltac:(lia)) as (ring & Hrun & Hring).
  unfold submit_tx. rewrite Hrun. cbn [mbind option_bind]. pose proof (zlen_nonneg l). pose proof (sr_repr_le _ _ _ Ht).
  exists (Z.to_nat (Z.min (zlen l) (TxSize - zlen (q_tx q)))). rewrite Z2Nat.id by lia.
  eexists _, _. split_and!; [done|unfold zlen; lia|unfold zlen; lia|by split].
Qed.

#[refine] Definition SimulatedXskSocket_socket : XskSocket SimulatedXskSocket := {|
  xs_refill := refill FillSize;
  xs_drain_completions := drain_completions CompSize;
  xs_consume_rx := consume_rx RxSize;
  xs_submit_tx := submit_tx TxSize;
  xs_kick_tx := fun s => Some (kick_tx s);
  xs_fill_capacity := FillSize;
  xs_tx_capacity := TxSize;
  xs_repr := repr;
  xs_refill_law := simulated_refill_law;
  xs_submit_tx_law := simulated_submit_tx_law;
|}.
Proof.
  - by apply sx_repr_inj.
  - intros s q out [Hf Hc Hx Ht Hk] Hl k.
    destruct (consume_spec CompSize Comp_pow2 Comp_fits _ _ out Hc ltac:(lia)) as (ring & Hrun & Hring).
    unfold drain_completions. rewrite Hrun. eexists _, _. split; [done|]. by split.
  - intros s q out [Hf Hc Hx Ht Hk] Hl k.
    destruct (consume_spec RxSize Rx_pow2 Rx_fits _ _ out Hx ltac:(lia)) as (ring & Hrun & Hring).
    unfold consume_rx. rewrite Hrun. eexists _, _. split; [done|]. by split.
  - intros s q [Hf Hc Hx Ht Hk]. eexists _, _, _. split; [done|]. by split.
Defined.

End simulated_socket.

Lemma cal_frames_clear D t u n : t < u -> cal_frames (cal_clear D t) u n = cal_frames D u n.
Proof.
  revert u. induction n as [|n IH]; intros u Hu; simpl; [done|]. rewrite IH by lia. unfold cal_clear.
  by rewrite decide_False by lia.
Qed.

Lemma cal_frames_snoc D t n : cal_frames D t (S n) = cal_frames D t n ++ D (t + Z.of_nat n).
Proof.
  revert t. induction n as [|n IH]; intros t; [by rewrite Z.add_0_r; simpl; rewrite app_nil_r|].
  change (cal_frames D t (S (S n))) with (D t ++ cal_frames D (t + 1) (S n)). rewrite IH, app_assoc.
  simpl. do 2 f_equal. lia.
Qed.

Section wheel_timed_queue.
Context (SlotCount MaxFramesPerSlot : Z).
Hypothesis SlotCount_fits : fits 64 SlotCount.
Hypothesis SlotCount_pow2 : is_power_of_two SlotCount = true.
Hypothesis MaxFrames_pos : 0 < MaxFramesPerSlot.
Hypothesis wheel_memory : SlotCount * MaxFramesPerSlot < 2 ^ 64.

Lemma wheel_tick_law w l :
  wheel_holds SlotCount MaxFramesPerSlot w l ->
  exists expired w' rest, tick SlotCount w = Some (expired, w') /\ l ≡ₚ (df_key <$> expired) ++ rest /\
    wheel_holds SlotCount MaxFramesPerSlot w' rest.
Proof.
  intros (now & D & Hr & Hl).
  pose proof (SlotCount_bounds SlotCount MaxFramesPerSlot SlotCount_fits SlotCount_pow2 wheel_memory) as Hb.
  destruct (tick_releases_due SlotCount MaxFramesPerSlot SlotCount_fits SlotCount_pow2 MaxFrames_pos wheel_memory w now D Hr)
    as (w' & Ht & Hr').
  exists (D (now + 1)), w', (df_key <$> cal_frames D (now + 1 + 1) (Z.to_nat (SlotCount - 1))). split_and!; [done| |].
  - rewrite Hl. replace (Z.to_nat SlotCount) with (S (Z.to_nat (SlotCount - 1))) by lia. simpl. by rewrite fmap_app.
  - exists (now + 1), (cal_clear D (now + 1)). split; [done|].
    rewrite cal_frames_clear by lia. replace (Z.to_nat SlotCount) with (S (Z.to_nat (SlotCount - 1))) by lia.
    rewrite cal_frames_snoc, (wr_window _ _ _ _ _ Hr), app_nil_r by lia. done.
Qed.

#[refine] Definition TimingWheel_timed_queue : TimedQueue TimingWheel := {|
  tq_queue := TimingWheel_delay_queue SlotCount MaxFramesPerSlot SlotCount_fits SlotCount_pow2 MaxFrames_pos wheel_memory;
  tq_tick := tick SlotCount;
  tq_tick_law := wheel_tick_law;
|}.
Proof. intros w l l' Hl (now & D & Hr & Hp). exists now, D. split; [done|]. by rewrite <-Hl. Defined.

End wheel_timed_queue.

(** ** A small adapter: four frames of 64 bytes, rings of four, four slots of two. *)

Definition small_socket : XskSocket SimulatedXskSocket :=
  SimulatedXskSocket_socket 4 4 4 4 ltac:(done) ltac:(done) ltac:(done) ltac:(done)
    ltac:(done) ltac:(done) ltac:(done) ltac:(done).

Definition small_timed_queue : TimedQueue TimingWheel :=
  TimingWheel_timed_queue 4 2 ltac:(done) ltac:(done) ltac:(done) ltac:(done).

Definition small_adapter : AfXdpRuntimeAdapter SimulatedXskSocket TimingWheel :=
  ra_default 4 64 (SimulatedXskSocket_default 4 4 4 4) (TimingWheel_default 4 2).

Lemma small_socket_empty : xs_repr (XskSocket := small_socket) (SimulatedXskSocket_default 4 4 4 4) empty_queues.
Proof. by apply SimulatedXskSocket_default_repr. Qed.

Lemma small_wheel_empty : dq_holds (DelayQueue := tq_queue (TimedQueue := small_timed_queue)) (TimingWheel_default 4 2) [].
Proof. by apply TimingWheel_default_holds. Qed.

(** A kernel that leaves [headroom] bytes before every packet. *)
#[refine] Definition headroom_kernel (FrameSize headroom : Z) (Hroom : 0 <= headroom < FrameSize) : RingKernel FrameSize := {|
  kernel_move := ring_move (fun offset => offset = headroom);
  delivers offset := offset = headroom;
|}.
Proof.
  - by intros offset ->.
  - done.
Defined.

Definition small_kernel : RingKernel 64 := headroom_kernel 64 0 ltac:(done).

Lemma runtime_conserves_frames_witness :
  exists rt, ra_init (XskSocket0 := small_socket) 4 64 small_adapter (mkRuntimeConfig 3) = Some (RuntimeStatus_Ok, rt) /\
    fa_available (ra_allocator_ rt) = 1 /\
    exists stats rt', ra_poll_once (XskSocket0 := small_socket) (TimedQueue0 := small_timed_queue) 4 64 rt [example_rule]
      = Some (mkRuntimePollResult RuntimeStatus_Ok stats, rt') /\ rs_fill_failures stats = 0.
Proof.
  destruct (runtime_conserves_frames (XskSocket0 := small_socket) (TimedQueue0 := small_timed_queue) (RingKernel0 := small_kernel) 4 64
    ltac:(done) ltac:(done) ltac:(done) (SimulatedXskSocket_default 4 4 4 4) (TimingWheel_default 4 2) (mkRuntimeConfig 3)
    small_socket_empty small_wheel_empty ltac:(done) ltac:(done)) as (rt & Hinit & Hreach).
  exists rt. split; [exact Hinit|].
  destruct (Hreach rt [] [] (rtc_refl _ _)) as (q & held & stranded & _ & _ & _ & _ & Ha & _ & Hpoll). split; [exact Ha|].
  destruct (Hpoll [example_rule]) as (stats & rt' & q' & held' & lost & Hrun & _ & _ & _ & _ & _ & Hf); [by repeat constructor|].
  exists stats, rt'. split; [exact Hrun|]. apply Hf. done.
Defined.

(** With headroom a received frame is refused and stranded: the frame at 0 was on the fill
    ring, the packet arrives 16 bytes into it, and after the poll the frame belongs to the
    fill ring but is in no ring. *)
Definition headroom_poll : option (Z * Z * option FrameOwner * Z) :=
  '(_, rt) ← ra_init (XskSocket0 := small_socket) 4 64 small_adapter (mkRuntimeConfig 1);
  '(_, _, socket) ← consume_fill 4 (ra_socket_ rt) [0];
  '(_, socket) ← inject_rx 4 socket [mkRxDescriptor 16 44 0];
  '(result, rt) ← ra_poll_once (XskSocket0 := small_socket) (TimedQueue0 := small_timed_queue) 4 64 (ra_set_socket rt socket) [];
  let '(pending, _, _) := default (0, [], sx_fill_ring_ (ra_socket_ rt)) (consume 4 (sx_fill_ring_ (ra_socket_ rt)) [0; 0; 0; 0]) in
  Some (rs_rx_frames (rpr_stats result), rs_owner_failures (rpr_stats result), owner_of 4 (ra_allocator_ rt) 0, pending).

Example headroom_strands_frame : headroom_poll = Some (1, 1, Some FrameOwner_FillRing, 0).
Proof. vm_compute. reflexivity. Qed.

(** A frame that the transmit ring has no room for is stranded with the data plane: two
    packets to forward and a transmit ring of one entry. *)
Definition narrow_socket : XskSocket SimulatedXskSocket :=
  SimulatedXskSocket_socket 4 4 4 1 ltac:(done) ltac:(done) ltac:(done) ltac:(done)
    ltac:(done) ltac:(done) ltac:(done) ltac:(done).

Definition full_ring_poll : option (RuntimeStatus * Z * Z * list (option FrameOwner)) :=
  let packet := example_udp_frame ++ replicate 20 0 in
  '(_, rt) ← ra_init (XskSocket0 := narrow_socket) 4 64
    (ra_default 4 64 (SimulatedXskSocket_default 4 4 4 1) (TimingWheel_default 4 2)) (mkRuntimeConfig 2);
  '(_, _, socket) ← consume_fill 4 (ra_socket_ rt) [0; 0];
  '(_, socket) ← inject_rx 4 socket [mkRxDescriptor 0 44 0; mkRxDescriptor 64 44 0];
  '(result, rt) ← ra_poll_once (XskSocket0 := narrow_socket) (TimedQueue0 := small_timed_queue) 4 64
    (ra_set_umem (ra_set_socket rt socket) (packet ++ packet ++ replicate 128 0)) [];
  Some (rpr_status result, rs_tx_submitted (rpr_stats result), rs_fill_failures (rpr_stats result),
        owner_of 4 (ra_allocator_ rt) <$> [0; 1]).

Example full_ring_strands_frame :
  full_ring_poll = Some (RuntimeStatus_Ok, 1, 1, [Some FrameOwner_TxRing; Some FrameOwner_DataPlane]).
Proof. vm_compute. reflexivity. Qed.

Lemma init_fills_or_reports_witness :
  exists rt, ra_init (XskSocket0 := small_socket) 4 64 small_adapter (mkRuntimeConfig 3) = Some (RuntimeStatus_Ok, rt) /\
    exists filled, ra_rel (XskSocket0 := small_socket) (TimedQueue0 := small_timed_queue) 4 64 (ra_umem_ small_adapter) rt
      (push_fill empty_queues filled) [] [].
Proof.
  destruct (init_fills_or_reports (XskSocket0 := small_socket) (TimedQueue0 := small_timed_queue) 4 64
    ltac:(done) ltac:(done) ltac:(done) (SimulatedXskSocket_default 4 4 4 4) (TimingWheel_default 4 2) (mkRuntimeConfig 3)
    small_socket_empty small_wheel_empty ltac:(done)) as (status & filled & rt & Hinit & Hrel & Hst).
  exists rt. assert (status = RuntimeStatus_Ok) as ->.
  { vm_compute in Hinit. congruence. }
  split; [exact Hinit|]. exists filled. exact Hrel.
Defined.

(** A poll right after [init]. *)
Lemma poll_once_accounts_witness :
  exists rt stats rt', ra_init (XskSocket0 := small_socket) 4 64 small_adapter (mkRuntimeConfig 3) = Some (RuntimeStatus_Ok, rt) /\
    ra_poll_once (XskSocket0 := small_socket) (TimedQueue0 := small_timed_queue) 4 64 rt [example_rule]
      = Some (mkRuntimePollResult RuntimeStatus_Ok stats, rt') /\ rs_owner_failures stats = 0.
Proof.
  destruct (init_system (XskSocket0 := small_socket) (TimedQueue0 := small_timed_queue) (RingKernel0 := small_kernel) 4 64
    ltac:(done) ltac:(done) ltac:(done) (SimulatedXskSocket_default 4 4 4 4) (TimingWheel_default 4 2) (mkRuntimeConfig 3)
    small_socket_empty small_wheel_empty ltac:(done) ltac:(done)) as (rt & Hinit & q & held & stranded & Hrel & Hz & Hm & Hin & Hrx & _ & Hpl & _).
  destruct (poll_once_accounts (XskSocket0 := small_socket) (TimedQueue0 := small_timed_queue) 4 64
    ltac:(done) ltac:(done) ltac:(done) _ rt q held _ [example_rule] Hrel Hz Hm) as (u & stats & rt' & q' & h' & e & st & Hrun & _ & _ & _ & _ & _ & Hown & _).
  - split; [by repeat constructor|exact Hrx].
  - exact Hin.
  - exists rt, stats, rt'. split; [exact Hinit|]. split; [exact Hrun|]. apply Hown, Hpl. by intros offset.
Defined.
