(* ===== verification/Delays.v ===== *)
(** * How long a packet is delayed

    The adapter of [af_xdp_runtime.hpp] ticks its timing wheel once per poll and schedules
    the frames that a rule delays.  To say when a frame comes out again, the wheel is
    observed: [LoggedWheel] is a [TimingWheel] with a list of the calls that were made and
    what they returned, and an instance of the same interface, so the adapter's code runs
    on it unchanged.  That the log is on time is part of what the instance promises, and
    the theorems about the adapter over any such queue carry it through every poll. *)

From stdpp Require Import relations.
From S2P Require Import Prelude Types TimingWheel FrameAllocator PacketParser ChaosEngine DataPlane SocketManager Runtime.

Inductive WheelEvent :=
| Scheduled (frame : DelayedFrame) (delay_ticks : Z)
| Refused (frame : DelayedFrame) (delay_ticks : Z) (status : ScheduleStatus)
| Ticked (expired : list DelayedFrame).

Abbreviation LoggedWheel := (TimingWheel * list WheelEvent)%type.

(** What the ticks of a log returned, in order. *)
Definition ticks_of (log : list WheelEvent) : list (list DelayedFrame) :=
  omap (fun e => match e with Ticked expired => Some expired | _ => None end) log.

(** The frames that are due at tick [t], in the order in which they were scheduled: a
    frame scheduled with [d] after [n] ticks is due at tick [n + max 1 d]. *)
Fixpoint due_from (now : Z) (log : list WheelEvent) (t : Z) : list (Z * Z * Z) :=
  match log with
  | [] => []
  | Scheduled f d :: log => (if decide (now + effective_delay d = t) then [df_key f] else []) ++ due_from now log t
  | Refused _ _ _ :: log => due_from now log t
  | Ticked _ :: log => due_from (now + 1) log t
  end.

Definition due_at (log : list WheelEvent) (t : Z) : list (Z * Z * Z) := due_from 0 log t.

(** Every tick returned exactly the frames that were due. *)
Definition on_time (log : list WheelEvent) : Prop :=
  forall n expired, ticks_of log !! n = Some expired -> df_key <$> expired = due_at log (Z.of_nat n + 1).

Lemma ticks_of_app l k : ticks_of (l ++ k) = ticks_of l ++ ticks_of k.
Proof. apply omap_app. Qed.

Lemma due_from_app now l k t : due_from now (l ++ k) t = due_from now l t ++ due_from (now + zlen (ticks_of l)) k t.
Proof.
  revert now. induction l as [|[f d|f d s|expired] l IH]; intros now; cbn [app due_from].
  - by rewrite Z.add_0_r.
  - by rewrite IH, app_assoc.
  - by rewrite IH.
  - rewrite IH. change (ticks_of (Ticked expired :: l)) with (expired :: ticks_of l). rewrite zlen_cons.
    do 2 f_equal. lia.
Qed.

Lemma due_at_app l k t : due_at (l ++ k) t = due_at l t ++ due_from (zlen (ticks_of l)) k t.
Proof. apply due_from_app. Qed.

(** Nothing becomes due in the past. *)
Lemma due_from_past now log t : t <= now -> due_from now log t = [].
Proof.
  revert now. induction log as [|[f d|f d s|expired] log IH]; intros now Ht; cbn [due_from]; [done| |by apply IH|apply IH; lia].
  rewrite decide_False by (unfold effective_delay; lia). by apply IH.
Qed.

Lemma on_time_snoc log e : on_time log -> (forall expired, e = Ticked expired -> df_key <$> expired = due_at log (zlen (ticks_of log) + 1)) ->
  on_time (log ++ [e]).
Proof.
  intros Hlog He n expired. rewrite ticks_of_app. intros [Hn|[Hn H]]%lookup_app_Some.
  - rewrite due_at_app, (due_from_past _ _ (Z.of_nat n + 1)), app_nil_r; [by apply Hlog|].
    apply lookup_lt_Some in Hn. unfold zlen. lia.
  - destruct e as [f d|f d s|expired']; try done. apply list_lookup_singleton_Some in H as [H0 ->].
    rewrite due_at_app, (He expired eq_refl). cbn. rewrite app_nil_r. unfold zlen. f_equal. lia.
Qed.

Section logged.
Context (SlotCount MaxFramesPerSlot : Z).
Hypothesis SlotCount_fits : fits 64 SlotCount.
Hypothesis SlotCount_pow2 : is_power_of_two SlotCount = true.
Hypothesis MaxFrames_pos : 0 < MaxFramesPerSlot.
Hypothesis wheel_memory : SlotCount * MaxFramesPerSlot < 2 ^ 64.

(** The wheel's calls, with the log. *)
Definition logged_schedule (w : LoggedWheel) (f : DelayedFrame) (d : Z) : option (ScheduleStatus * LoggedWheel) :=
  '(status, wheel) ← schedule SlotCount MaxFramesPerSlot w.1 f d;
  Some (status, (wheel, w.2 ++ [if status =?? ScheduleStatus_Scheduled then Scheduled f d else Refused f d status])).

Definition logged_tick (w : LoggedWheel) : option (list DelayedFrame * LoggedWheel) :=
  '(expired, wheel) ← tick SlotCount w.1;
  Some (expired, (wheel, w.2 ++ [Ticked expired])).

(** The wheel holds [l], its log is on time, and what is in the wheel is what the log says
    is due. *)
Definition logged_holds (w : LoggedWheel) (l : list (Z * Z * Z)) : Prop :=
  exists D, wheel_repr SlotCount MaxFramesPerSlot w.1 (zlen (ticks_of w.2)) D /\ on_time w.2 /\
    (forall t, zlen (ticks_of w.2) < t -> df_key <$> D t = due_at w.2 t) /\
    l ≡ₚ df_key <$> cal_frames D (zlen (ticks_of w.2) + 1) (Z.to_nat SlotCount).

Lemma logged_schedule_law w l f d :
  logged_holds w l -> 0 <= d ->
  exists status w', logged_schedule w f d = Some (status, w') /\
    logged_holds w' (if status =?? ScheduleStatus_Scheduled then df_key f :: l else l).
Proof.
  destruct w as [w log]. intros (D & Hr & Htime & Hdue & Hl) Hd. cbn [fst snd] in *. unfold logged_schedule. cbn [fst snd].
  set (now := zlen (ticks_of log)) in *.
  pose proof (SlotCount_bounds SlotCount MaxFramesPerSlot SlotCount_fits SlotCount_pow2 wheel_memory) as Hb.
  assert (forall status w', status <> ScheduleStatus_Scheduled -> wheel_repr SlotCount MaxFramesPerSlot w' now D ->
    logged_holds (w', log ++ [Refused f d status]) l) as Hrefused.
  { intros status w' Hne Hr'. exists D. cbn [fst snd]. rewrite ticks_of_app. cbn. rewrite app_nil_r. fold now.
    split_and!; [done|by apply on_time_snoc| |done]. intros t Ht. rewrite due_at_app. cbn. rewrite app_nil_r. by apply Hdue. }
  destruct (decide (SlotCount < d)) as [Hbig|Hsmall].
  - rewrite schedule_too_large by done. cbn [mbind option_bind]. do 2 eexists. split; [done|].
    rewrite !bool_decide_false by done. apply Hrefused; [done|]. by apply schedule_failed_repr.
  - pose proof (schedule_in_window SlotCount MaxFramesPerSlot SlotCount_fits SlotCount_pow2 MaxFrames_pos wheel_memory
      w now D f d Hr ltac:(lia)) as Hs. cbv zeta in Hs. case_bool_decide.
    + destruct Hs as (w' & -> & Hr'). cbn [mbind option_bind]. do 2 eexists. split; [done|]. rewrite !bool_decide_true by done.
      exists (cal_add D (now + effective_delay d) (df_set_release_tick f (u64 (now + effective_delay d)))). cbn [fst snd].
      rewrite ticks_of_app. cbn. rewrite app_nil_r. fold now. split_and!; [done|by apply on_time_snoc| |].
      * intros t Ht. rewrite due_at_app. cbn. rewrite app_nil_r. fold now. unfold cal_add.
        destruct (decide (now + effective_delay d = t)) as [<-|Hne].
        -- rewrite decide_True by done. rewrite fmap_app, Hdue by done. done.
        -- rewrite decide_False by congruence. rewrite app_nil_r. by apply Hdue.
      * rewrite cal_frames_add by (unfold fits, effective_delay in *; lia). cbn. by rewrite Hl.
    + rewrite Hs. cbn [mbind option_bind]. do 2 eexists. split; [done|].
      rewrite !bool_decide_false by done. apply Hrefused; [done|]. by apply schedule_failed_repr.
Qed.

Lemma logged_tick_law w l :
  logged_holds w l ->
  exists expired w' rest, logged_tick w = Some (expired, w') /\ l ≡ₚ (df_key <$> expired) ++ rest /\ logged_holds w' rest.
Proof.
  destruct w as [w log]. intros (D & Hr & Htime & Hdue & Hl). cbn [fst snd] in *. unfold logged_tick. cbn [fst snd].
  set (now := zlen (ticks_of log)) in *.
  pose proof (SlotCount_bounds SlotCount MaxFramesPerSlot SlotCount_fits SlotCount_pow2 wheel_memory) as Hb.
  destruct (tick_releases_due SlotCount MaxFramesPerSlot SlotCount_fits SlotCount_pow2 MaxFrames_pos wheel_memory w now D Hr)
    as (w' & -> & Hr'). cbn [mbind option_bind].
  assert (zlen (ticks_of (log ++ [Ticked (D (now + 1))])) = now + 1) as Hnow
    by (rewrite ticks_of_app, zlen_app; done).
  exists (D (now + 1)), (w', log ++ [Ticked (D (now + 1))]), (df_key <$> cal_frames D (now + 1 + 1) (Z.to_nat (SlotCount - 1))).
  split_and!; [done| |].
  - rewrite Hl. replace (Z.to_nat SlotCount) with (S (Z.to_nat (SlotCount - 1))) by lia. cbn. by rewrite fmap_app.
  - exists (cal_clear D (now + 1)). cbn [fst snd]. rewrite Hnow. split_and!; [done| | |].
    + apply on_time_snoc; [done|]. intros expired [= <-]. apply Hdue. unfold now. lia.
    + intros t Ht. rewrite due_at_app. cbn. rewrite app_nil_r. unfold cal_clear. rewrite decide_False by lia. apply Hdue. lia.
    + rewrite cal_frames_clear by lia. replace (Z.to_nat SlotCount) with (S (Z.to_nat (SlotCount - 1))) by lia.
      rewrite cal_frames_snoc, (wr_window _ _ _ _ _ Hr), app_nil_r by lia. done.
Qed.

(** What a tick returns and logs. *)
Lemma logged_tick_due w l expired w' :
  logged_holds w l -> logged_tick w = Some (expired, w') ->
  on_time w.2 /\ w'.2 = w.2 ++ [Ticked expired] /\ df_key <$> expired = due_at w.2 (zlen (ticks_of w.2) + 1).
Proof.
  intros (D & Hr & Htime & Hdue & _) ([e wheel] & Htick & [= <- <-])%bind_Some. split_and!; [done|done|].
  destruct (tick_releases_due SlotCount MaxFramesPerSlot SlotCount_fits SlotCount_pow2 MaxFrames_pos wheel_memory _ _ _ Hr) as (w1 & Ht & _).
  rewrite Htick in Ht. injection Ht as -> _. apply Hdue. lia.
Qed.

Definition LoggedWheel_delay_queue : DelayQueue LoggedWheel := {|
  dq_schedule := logged_schedule;
  dq_holds := logged_holds;
  dq_schedule_law := logged_schedule_law;
|}.

#[refine] Definition LoggedWheel_timed_queue : TimedQueue LoggedWheel := {|
  tq_queue := LoggedWheel_delay_queue;
  tq_tick := logged_tick;
  tq_tick_law := logged_tick_law;
|}.
Proof. intros w l l' Hp (D & Hr & Ht & Hd & Hl). exists D. split_and!; try done. by rewrite <-Hp. Defined.

Lemma LoggedWheel_default_holds : logged_holds (TimingWheel_default SlotCount MaxFramesPerSlot, []) [].
Proof.
  exists cal_empty. split; [by apply TimingWheel_default_repr|]. split; [done|]. split; [done|].
  cbn [snd]. generalize (Z.to_nat SlotCount). intros n. generalize (zlen (ticks_of []) + 1). induction n as [|n IH]; intros t; simpl; auto.
Qed.

End logged.

(** ** A poll ticks once and then schedules *)

(** The frame [f] is delayed by [d] ticks on behalf of one of the rules. *)
Definition delayed_by (rules : list ChaosRule) (tick_ns : Z) (f : DelayedFrame) (d : Z) : Prop :=
  exists rule, rule ∈ rules /\ cr_action rule = PacketAction_Delay /\ df_rule_id f = cr_id rule /\
    d = delay_ns_to_ticks (cr_delay_ns rule) tick_ns.

Lemma decide_for_rule_fast_delays rule packet :
  let decision := decide_for_rule_fast rule packet in
  should_delay decision = true ->
  cr_action rule = PacketAction_Delay /\ cd_rule_id decision = cr_id rule /\ cd_delay_ns decision = cr_delay_ns rule.
Proof.
  cbv zeta. unfold decide_for_rule_fast, should_delay. repeat case_match; intros Hd; try done;
    cbn in *; case_bool_decide; try done; by rewrite bool_decide_true.
Qed.

Lemma decide_packet_fast_delays packet rules tick_ns address length :
  let decision := decide_packet_fast packet rules in
  should_delay decision = true ->
  delayed_by rules tick_ns (mkDelayedFrame address length (cd_rule_id decision) 0) (delay_ns_to_ticks (cd_delay_ns decision) tick_ns).
Proof.
  cbv zeta. induction rules as [|rule rules IH]; [done|]. cbn [decide_packet_fast]. destruct (rule_matches_packet rule packet).
  - intros (Ha & Hid & Hd)%decide_for_rule_fast_delays. exists rule. rewrite Hid, Hd. split_and!; try done. constructor.
  - intros (r & Hin & H)%IH. exists r. split; [by constructor|done].
Qed.

Section scheduling.
Context {W : Type} `{!DelayQueue W} (rules : list ChaosRule) (tick_ns : Z) (P : W -> Prop).
Hypothesis P_schedule : forall w f d status w',
  P w -> delayed_by rules tick_ns f d -> dq_schedule w f d = Some (status, w') -> P w'.

Lemma recycle_frame_wheel (st st' : BatchState (W := W)) processed f :
  recycle_frame st processed f = Some st' -> ba_wheel st' = ba_wheel st.
Proof. by intros ([[b out] result] & _ & [= <-])%bind_Some. Qed.

Lemma forward_frame_wheel (st st' : BatchState (W := W)) frame frame_length packet decision processed :
  forward_frame st frame frame_length packet decision processed = Some st' -> ba_wheel st' = ba_wheel st.
Proof.
  intros ([c mem] & _ & ([b mem'] & _ & H)%bind_Some)%bind_Some. destruct (_ <? _).
  - by apply bind_Some in H as (out & _ & [= <-]).
  - by apply recycle_frame_wheel in H.
Qed.

Lemma process_descriptor_wheel umem_base umem_size (st st' : BatchState (W := W)) d :
  P (ba_wheel st) -> process_descriptor umem_base umem_size rules tick_ns st d = Some st' -> P (ba_wheel st').
Proof.
  intros HP (packet & _ & H)%bind_Some. cbv zeta in H. destruct (pv_ok packet) eqn:Hok.
  2:{ rewrite orb_true_r in H. by rewrite (recycle_frame_wheel _ _ _ _ H). }
  destruct (_ || _); [by rewrite (recycle_frame_wheel _ _ _ _ H)|].
  destruct (should_drop _); [by rewrite (recycle_frame_wheel _ _ _ _ H)|].
  destruct (should_delay _) eqn:Hdelay; [|by rewrite (forward_frame_wheel _ _ _ _ _ _ _ H)].
  apply bind_Some in H as ([status wheel] & Hs & H).
  eapply P_schedule in Hs; [|exact HP|by apply decide_packet_fast_delays].
  destruct (_ =?? _); [by injection H as <-|by rewrite (recycle_frame_wheel _ _ _ _ H)].
Qed.

Lemma process_packet_batch_wheel mem umem_base umem_size ds (wheel : W) tx recycle st :
  P wheel -> process_packet_batch mem umem_base umem_size ds rules wheel tx recycle tick_ns = Some st -> P (ba_wheel st).
Proof.
  unfold process_packet_batch. set (st0 := mkBatchState _ _ _ _ _). change wheel with (ba_wheel st0). generalize st0. clear st0.
  induction ds as [|d ds IH]; intros st0 HP H; [by injection H as <-|]. cbn [process_descriptors] in H.
  apply bind_Some in H as (st1 & H1%process_descriptor_wheel & H); [|done]. by apply (IH st1).
Qed.

End scheduling.

Section polls.
Context {SocketT W : Type} `{!XskSocket SocketT} `{!TimedQueue W} (FrameCount FrameSize : Z).
Abbreviation Adapter := (AfXdpRuntimeAdapter SocketT W).

Lemma submit_tx_wheel (rt rt' : Adapter) frames stats stats' :
  ra_submit_tx FrameCount FrameSize rt frames stats = Some (stats', rt') -> ra_timing_wheel_ rt' = ra_timing_wheel_ rt.
Proof.
  revert rt stats. induction frames as [|f frames IH]; intros rt stats H; cbn [ra_submit_tx] in H; [by injection H as _ <-|].
  destruct (negb _); [by eapply IH|]. apply bind_Some in H as (owner & _ & H).
  apply bind_Some in H as ([status rt1] & H1%transition_wheel & H). destruct (negb _); [rewrite <-H1; by eapply IH|].
  apply bind_Some in H as ([result socket] & _ & H). destruct (_ =? 1).
  - apply bind_Some in H as ([k socket'] & _ & H%IH). by rewrite H.
  - apply bind_Some in H as ([s2 rt2] & H2%transition_wheel & H%IH). by rewrite H, H2.
Qed.

Lemma refill_recycled_wheel (rt rt' : Adapter) frames stats stats' :
  ra_refill_recycled FrameCount FrameSize rt frames stats = Some (stats', rt') -> ra_timing_wheel_ rt' = ra_timing_wheel_ rt.
Proof.
  revert rt stats. induction frames as [|f frames IH]; intros rt stats H; cbn [ra_refill_recycled] in H; [by injection H as _ <-|].
  destruct (negb _); [by eapply IH|]. apply bind_Some in H as ([stats1 rt1] & H1%refill_one_wheel & H%IH). by rewrite H.
Qed.

Lemma collect_loop_wheel n index rx (rt rt' : Adapter) stats stats' ds ds' count count' :
  ra_collect_loop FrameCount FrameSize n index rx rt stats ds count = Some (stats', rt', ds', count') ->
  ra_timing_wheel_ rt' = ra_timing_wheel_ rt.
Proof.
  revert index rt stats ds count. induction n as [|n IH]; intros index rt stats ds count H; cbn [ra_collect_loop] in H; [by injection H as _ <- _ _|].
  apply bind_Some in H as (d & _ & H). destruct (negb _); [by eapply IH|]. apply bind_Some in H as (owner & _ & H).
  apply bind_Some in H as ([status rt1] & H1%transition_wheel & H). rewrite <-H1. destruct (negb _); [by eapply IH|].
  apply bind_Some in H as (ds1 & _ & H). by eapply IH.
Qed.

(** One tick, and then nothing but [schedule], on behalf of the rules. *)
Lemma poll_once_wheel (P : W -> Prop) (rt rt' : Adapter) rules result expired w1 :
  (forall w f d status w', P w -> delayed_by rules kDefaultTimingWheelTickNs f d -> dq_schedule w f d = Some (status, w') -> P w') ->
  ra_initialized_ rt = true -> ra_poll_once FrameCount FrameSize rt rules = Some (result, rt') ->
  tq_tick (ra_timing_wheel_ rt) = Some (expired, w1) -> P w1 -> P (ra_timing_wheel_ rt').
Proof.
  intros HP Hin H Htick Hw1. unfold ra_poll_once in H. rewrite Hin in H. cbn [negb] in H.
  apply bind_Some in H as ([s1 rt1] & Hd%drain_completions_wheel & H). apply bind_Some in H as ([s2 rt2] & Hr & H).
  apply bind_Some in Hr as ([e w2] & Ht & Hr). rewrite Hd, Htick in Ht. injection Ht as <- <-.
  rewrite release_loop_submit in Hr. apply submit_tx_wheel in Hr. cbn in Hr.
  apply bind_Some in H as ([[rx_result rx] socket] & _ & H). apply bind_Some in H as ([[[s3 rt3] ds] count] & Hc%collect_loop_wheel & H).
  cbn in Hc. apply bind_Some in H as (batch & Hb & H). rewrite Hc, Hr in Hb. apply (process_packet_batch_wheel _ _ P HP) in Hb; [|done].
  apply bind_Some in H as ([s4 rt4] & H4%submit_tx_wheel & H). apply bind_Some in H as ([s5 rt5] & H5%refill_recycled_wheel & [= _ <-]).
  by rewrite H5, H4.
Qed.

End polls.

(** ** The adapter over the observed wheel *)

(** What a poll may log after its tick. *)
Definition logs_schedule (rules : list ChaosRule) (e : WheelEvent) : Prop :=
  match e with
  | Scheduled f d | Refused f d _ => delayed_by rules kDefaultTimingWheelTickNs f d
  | Ticked _ => False
  end.

Lemma logged_schedule_more SlotCount MaxFrames log expired rules (w : LoggedWheel) f d status (w' : LoggedWheel) :
  (exists schedules, w.2 = log ++ Ticked expired :: schedules /\ Forall (logs_schedule rules) schedules) ->
  delayed_by rules kDefaultTimingWheelTickNs f d -> logged_schedule SlotCount MaxFrames w f d = Some (status, w') ->
  exists schedules, w'.2 = log ++ Ticked expired :: schedules /\ Forall (logs_schedule rules) schedules.
Proof.
  intros (schedules & Hlog & Hall) Hby ([s wheel] & _ & [= _ <-])%bind_Some. cbn [snd]. rewrite Hlog, <-app_assoc.
  eexists. split; [done|]. apply Forall_app. split; [done|]. constructor; [|done]. by destruct (_ =?? _).
Qed.

Section observed.
Context {SocketT : Type} `{!XskSocket SocketT} (FrameCount FrameSize SlotCount MaxFramesPerSlot : Z) `{!RingKernel FrameSize}.
Hypothesis FrameCount_bounds : 0 < FrameCount <= 2 ^ 32.
Hypothesis FrameSize_pos : 0 < FrameSize.
Hypothesis umem_fits : FrameCount * FrameSize < 2 ^ 64.
Hypothesis SlotCount_fits : fits 64 SlotCount.
Hypothesis SlotCount_pow2 : is_power_of_two SlotCount = true.
Hypothesis MaxFrames_pos : 0 < MaxFramesPerSlot.
Hypothesis wheel_memory : SlotCount * MaxFramesPerSlot < 2 ^ 64.

Local Instance observed_queue : TimedQueue LoggedWheel :=
  LoggedWheel_timed_queue SlotCount MaxFramesPerSlot SlotCount_fits SlotCount_pow2 MaxFrames_pos wheel_memory.

(** C7: a delayed packet leaves at its tick.  Watch the timing wheel of an adapter that
    starts with an empty socket and wheel and no more frames than the fill ring has room
    for.  After every interleaving of polls, kernel moves and writes to the UMEM, each tick
    so far returned exactly the frames that were due at it, in the order in which they were
    scheduled (a frame scheduled with [d] after [n] ticks is due at tick [n + max 1 d]); and
    the next poll, whatever its rules, succeeds, ticks the wheel once, submits the frames
    the tick returned at once, before any other, and after that only schedules frames, each
    for a rule of the list whose action is to delay, with the delay of that rule in ticks.
    Of the frames the tick returned, those that the transmit ring takes are on it in their
    order: all of them if the poll counts no [fill_failures], which is always so when the
    transmit ring has room for all frames. *)
Theorem delayed_frames_leave_on_time socket config :
  xs_repr socket empty_queues -> 0 <= rc_initial_fill_frames config ->
  let fill_target := Z.min (rc_initial_fill_frames config) FrameCount in
  fill_target <= xs_fill_capacity ->
  let wheel := (TimingWheel_default SlotCount MaxFramesPerSlot, []) in
  exists rt0, ra_init FrameCount FrameSize (ra_default FrameCount FrameSize socket wheel) config
      = Some (RuntimeStatus_Ok, rt0) /\
  forall rt krx ktx, rtc (system_step FrameCount FrameSize) (rt0, [], []) (rt, krx, ktx) ->
  let log := (ra_timing_wheel_ rt).2 in
  on_time log /\
  forall rules, Forall (fun r => 0 <= cr_delay_ns r) rules ->
  exists stats rt' expired schedules q q' released others,
    ra_poll_once FrameCount FrameSize rt rules = Some (mkRuntimePollResult RuntimeStatus_Ok stats, rt') /\
    (ra_timing_wheel_ rt').2 = log ++ Ticked expired :: schedules /\ Forall (logs_schedule rules) schedules /\
    df_key <$> expired = due_at log (zlen (ticks_of log) + 1) /\
    xs_repr (ra_socket_ rt) q /\ xs_repr (ra_socket_ rt') q' /\
    q_tx q' = q_tx q ++ (tx_of <$> released) ++ others /\ released `sublist_of` (processed_of <$> expired) /\
    (rs_fill_failures stats = 0 -> released = processed_of <$> expired) /\
    (fill_target <= xs_tx_capacity -> rs_fill_failures stats = 0).
Proof.
  intros Hs Hc fill_target Hcap wheel. destruct (init_system FrameCount FrameSize FrameCount_bounds FrameSize_pos umem_fits socket wheel config Hs) as (rt0 & Hinit & Hinv0);
    [by apply LoggedWheel_default_holds|done|done|].
  exists rt0. split; [done|]. intros rt krx ktx Hreach log.
  destruct (system_inv_reachable FrameCount FrameSize FrameCount_bounds FrameSize_pos umem_fits _ _ _ Hreach Hinv0)
    as (q & held & stranded & Hrel & Hz & Hm & Hin & Hrx & Hcount & _).
  split; [by destruct (ral_wheel _ _ _ _ _ _ _ Hrel) as (D & _ & Htime & _)|]. intros rules Hrules.
  destruct (poll_once_spec FrameCount FrameSize FrameCount_bounds FrameSize_pos umem_fits _ _ _ _ _ rules Hrel Hz Hm (conj Hrules Hrx) Hin)
    as (umem' & stats & rt' & q' & held' & expired & stuck & Hrun & Hrel' & _ & _ & _ & Heff & Hstuck & w' & Htick).
  destruct (logged_tick_due SlotCount MaxFramesPerSlot SlotCount_fits SlotCount_pow2 MaxFrames_pos wheel_memory _ _ _ _
    (ral_wheel _ _ _ _ _ _ _ Hrel) Htick) as (_ & Hlog & Hexpired).
  destruct (poll_once_wheel (TimedQueue0 := observed_queue) FrameCount FrameSize
    (fun w => exists schedules, w.2 = log ++ Ticked expired :: schedules /\ Forall (logs_schedule rules) schedules)
    _ _ rules _ _ _ (logged_schedule_more SlotCount MaxFramesPerSlot log expired rules) Hin Hrun Htick) as (schedules & Hlog' & Hall).
  { by exists []. }
  destruct (pe_released _ _ _ _ _ _ _ _ Heff) as (released & others & Htx & Hsub & Hall').
  pose proof (pe_stuck _ _ _ _ _ _ _ _ Heff) as Hst.
  exists stats, rt', expired, schedules, q, q', released, others. split_and!; try done; [apply Hrel|apply Hrel'| |].
  - intros H0. apply Hall'. rewrite H0 in Hst. destruct stuck as [|c stuck]; [done|].
    rewrite zlen_cons in Hst. pose proof (zlen_nonneg stuck). lia.
  - intros Htxc. by rewrite Hst, Hstuck by lia.
Qed.

End observed.

(** The small adapter with its wheel observed. *)
Definition small_observed : TimedQueue LoggedWheel :=
  observed_queue 4 2 ltac:(done) ltac:(done) ltac:(done) ltac:(done).

Definition small_logged_wheel : LoggedWheel := (TimingWheel_default 4 2, []).

Lemma delayed_frames_leave_on_time_witness :
  exists rt stats rt' schedules,
    ra_init (XskSocket0 := small_socket) 4 64
      (ra_default 4 64 (SimulatedXskSocket_default 4 4 4 4) small_logged_wheel) (mkRuntimeConfig 3) = Some (RuntimeStatus_Ok, rt) /\
    ra_poll_once (XskSocket0 := small_socket) (TimedQueue0 := small_observed) 4 64 rt [example_rule]
      = Some (mkRuntimePollResult RuntimeStatus_Ok stats, rt') /\
    (ra_timing_wheel_ rt').2 = Ticked [] :: schedules.
Proof.
  destruct (delayed_frames_leave_on_time (XskSocket0 := small_socket) (RingKernel0 := small_kernel) 4 64 4 2
    ltac:(done) ltac:(done) ltac:(done) ltac:(done) ltac:(done) ltac:(done) ltac:(done)
    (SimulatedXskSocket_default 4 4 4 4) (mkRuntimeConfig 3) small_socket_empty ltac:(done) ltac:(done)) as (rt & Hinit & Hreach).
  assert ((ra_timing_wheel_ rt).2 = []) as Hnil by (vm_compute in Hinit; by injection Hinit as <-).
  destruct (Hreach rt [] [] (rtc_refl _ _)) as [_ Hpoll].
  destruct (Hpoll [example_rule]) as (stats & rt' & expired & schedules & q & q' & released & others & Hrun & Hlog & _ & Hexp & _); [by repeat constructor|].
  rewrite Hnil in Hlog, Hexp. apply fmap_nil_inv in Hexp as ->.
  exists rt, stats, rt', schedules. split; [exact Hinit|]. split; [exact Hrun|exact Hlog].
Defined.

(** A packet that a rule delays by two ticks: it arrives, is scheduled by the first poll,
    and is on the transmit ring after the third. *)
Definition delay_two_ticks : ChaosRule :=
  mkChaosRule 7 (2 * kDefaultTimingWheelTickNs) 9 0 0 0 53 kProbabilityScale 17 PacketAction_Delay 1 [0; 0; 0].

Definition observed_polls : option (list WheelEvent * list (Z * list TxDescriptor)) :=
  let poll rt := '(_, rt) ← ra_poll_once (XskSocket0 := small_socket) (TimedQueue0 := small_observed) 4 64 rt [delay_two_ticks]; Some rt in
  let sent rt := '(r, output, _) ← consume 4 (sx_tx_ring_ (ra_socket_ rt)) (replicate 4 (mkTxDescriptor 0 0 0)); Some (r, take (Z.to_nat r) output) in
  '(_, rt) ← ra_init (XskSocket0 := small_socket) 4 64
    (ra_default 4 64 (SimulatedXskSocket_default 4 4 4 4) small_logged_wheel) (mkRuntimeConfig 3);
  '(_, _, socket) ← consume_fill 4 (ra_socket_ rt) [0];
  '(_, socket) ← inject_rx 4 socket [mkRxDescriptor 0 44 0];
  let rt := ra_set_umem (ra_set_socket rt socket) (example_udp_frame ++ drop 44 (ra_umem_ rt)) in
  rt1 ← poll rt; rt2 ← poll rt1; rt3 ← poll rt2;
  sent1 ← sent rt1; sent2 ← sent rt2; sent3 ← sent rt3;
  Some ((ra_timing_wheel_ rt3).2, [sent1; sent2; sent3]).

Example delayed_packet_leaves :
  observed_polls = Some ([Ticked []; Scheduled (mkDelayedFrame 0 44 9 0) 2; Ticked []; Ticked [mkDelayedFrame 0 44 9 3]],
    [(0, []); (0, []); (1, [mkTxDescriptor 0 44 0])]).
Proof. vm_compute. reflexivity. Qed.
