(* ===== verification/ControlPlane.v ===== *)
(** * [include/chronosx/control_plane.hpp]: message reassembly and rule snapshots

    [ConnectionBuffer] collects the bytes of a connection until they hold a complete
    message; [ControlPlaneCore] wraps the control core and publishes a snapshot of the
    rules after every request that changes them.  The server that uses both is in
    ControlServer. *)

From stdpp Require Import gmap.
From S2P Require Import Prelude Types Ring ChaosEngine Protocol ControlCore.

Definition kDefaultControlPort : Z := 9090.
Definition kMaxControlConnections : Z := 16.
Definition kControlReadBufferBytes : Z := 8192.
Definition kControlResponseBufferBytes : Z := 8192.
Definition kMaxEpollEvents : Z := 32.

Inductive ControlPlaneStatus :=
| ControlPlaneStatus_Ok
| ControlPlaneStatus_BindFailed
| ControlPlaneStatus_ListenFailed
| ControlPlaneStatus_EpollCreateFailed
| ControlPlaneStatus_AcceptFailed
| ControlPlaneStatus_ReadFailed
| ControlPlaneStatus_WriteFailed
| ControlPlaneStatus_ConnectionClosed
| ControlPlaneStatus_TooManyConnections
| ControlPlaneStatus_InvalidMessage
| ControlPlaneStatus_ShutdownRequested
| ControlPlaneStatus_EventFdFailed
| ControlPlaneStatus_NotInitialized
| ControlPlaneStatus_AlreadyInitialized.

#[export] Instance ControlPlaneStatus_eq_dec : EqDecision ControlPlaneStatus.
Proof. solve_decision. Defined.

Definition control_plane_status_name (status : ControlPlaneStatus) : string :=
  match status with
  | ControlPlaneStatus_Ok => "Ok"
  | ControlPlaneStatus_BindFailed => "BindFailed"
  | ControlPlaneStatus_ListenFailed => "ListenFailed"
  | ControlPlaneStatus_EpollCreateFailed => "EpollCreateFailed"
  | ControlPlaneStatus_AcceptFailed => "AcceptFailed"
  | ControlPlaneStatus_ReadFailed => "ReadFailed"
  | ControlPlaneStatus_WriteFailed => "WriteFailed"
  | ControlPlaneStatus_ConnectionClosed => "ConnectionClosed"
  | ControlPlaneStatus_TooManyConnections => "TooManyConnections"
  | ControlPlaneStatus_InvalidMessage => "InvalidMessage"
  | ControlPlaneStatus_ShutdownRequested => "ShutdownRequested"
  | ControlPlaneStatus_EventFdFailed => "EventFdFailed"
  | ControlPlaneStatus_NotInitialized => "NotInitialized"
  | ControlPlaneStatus_AlreadyInitialized => "AlreadyInitialized"
  end.

(** ** [ConnectionBuffer] *)

Record ConnectionBuffer := mkConnectionBuffer {
  cb_buffer_ : list Byte;
  cb_write_pos_ : Z;
  cb_overflowed_ : bool;
}.

Definition ConnectionBuffer_default : ConnectionBuffer :=
  mkConnectionBuffer (replicate (Z.to_nat kControlReadBufferBytes) 0) 0 false.

#[export] Instance ConnectionBuffer_inhabited : Inhabited ConnectionBuffer := populate ConnectionBuffer_default.

Definition cb_append (b : ConnectionBuffer) (data : list Byte) : option (Z * ConnectionBuffer) :=
  let space := u64 (zlen (cb_buffer_ b) - cb_write_pos_ b) in
  let copy_bytes := if zlen data <? space then zlen data else space in
  buffer ← memcpy_at (cb_buffer_ b) (cb_write_pos_ b) (take (Z.to_nat copy_bytes) data);
  Some (copy_bytes,
    mkConnectionBuffer buffer (u64 (cb_write_pos_ b + copy_bytes))
      (cb_overflowed_ b || negb (copy_bytes =? zlen data))).

(** The span [{buffer_.data(), write_pos_}]. *)
Definition cb_readable (b : ConnectionBuffer) : list Byte := take (Z.to_nat (cb_write_pos_ b)) (cb_buffer_ b).

Definition cb_readable_bytes (b : ConnectionBuffer) : Z := cb_write_pos_ b.

(** [memmove] of [n] bytes from [source] to the start of the array. *)
Definition memmove_front (bytes : list Byte) (source n : Z) : option (list Byte) :=
  if bool_decide (0 <= source /\ 0 <= n /\ source + n <= zlen bytes)
  then Some (take (Z.to_nat n) (drop (Z.to_nat source) bytes) ++ drop (Z.to_nat n) bytes)
  else None.

Definition cb_consume (b : ConnectionBuffer) (count : Z) : option ConnectionBuffer :=
  if cb_write_pos_ b <=? count then Some (mkConnectionBuffer (cb_buffer_ b) 0 (cb_overflowed_ b))
  else
    buffer ← memmove_front (cb_buffer_ b) count (u64 (cb_write_pos_ b - count));
    Some (mkConnectionBuffer buffer (u64 (cb_write_pos_ b - count)) (cb_overflowed_ b)).

Definition cb_reset (b : ConnectionBuffer) : ConnectionBuffer := mkConnectionBuffer (cb_buffer_ b) 0 false.

Definition cb_has_complete_message (b : ConnectionBuffer) : option bool :=
  if cb_write_pos_ b <? kProtocolHeaderBytes then Some false
  else
    payload_length ← read_u32_be (cb_readable b) 8;
    if kMaxControlPayloadBytes <? payload_length then Some true
    else Some (u64 (kProtocolHeaderBytes + payload_length) <=? cb_write_pos_ b).

Definition cb_next_message_length (b : ConnectionBuffer) : option Z :=
  if cb_write_pos_ b <? kProtocolHeaderBytes then Some 0
  else
    payload_length ← read_u32_be (cb_readable b) 8;
    if kMaxControlPayloadBytes <? payload_length then Some (cb_write_pos_ b)
    else Some (u64 (kProtocolHeaderBytes + payload_length)).

(** ** [ControlPlaneConfig], [RuleSnapshot], [ControlPlaneCore] *)

Record ControlPlaneConfig := mkControlPlaneConfig {
  cpc_port : Z;
  cpc_max_connections : Z;
  cpc_listen_backlog : Z;
}.

Definition ControlPlaneConfig_default : ControlPlaneConfig :=
  mkControlPlaneConfig kDefaultControlPort kMaxControlConnections 8.

Definition cpc_valid (c : ControlPlaneConfig) : bool :=
  (0 <? cpc_port c) && (0 <? cpc_max_connections c) && (cpc_max_connections c <=? kMaxControlConnections) &&
  (0 <? cpc_listen_backlog c).

Record RuleSnapshot := mkRuleSnapshot {
  sn_rules_ : list ChaosRule;
}.

Definition sn_size (s : RuleSnapshot) : Z := zlen (sn_rules_ s).
Definition sn_empty (s : RuleSnapshot) : bool := zlen (sn_rules_ s) =? 0.

(** [rule_snapshot_] is the snapshot that the atomic pointer points to. *)
Record ControlPlaneCore := mkControlPlaneCore {
  cp_control_ : ControlCore;
  cp_rule_snapshot_ : RuleSnapshot;
}.

Definition ControlPlaneCore_new : ControlPlaneCore :=
  mkControlPlaneCore (ControlCore_default kDefaultMaxRules) (mkRuleSnapshot []).

Definition peek_request_opcode (request : list Byte) : option Opcode :=
  if zlen request <? 4 then Some Opcode_Ping
  else byte ← request.[3]; Some (opcode_of_byte byte).

Definition is_rule_mutating_request (opcode : Opcode) : bool :=
  (opcode =?? Opcode_AddRule) || (opcode =?? Opcode_RemoveRule) || (opcode =?? Opcode_ClearRules).

Definition publish_rules (core : ControlPlaneCore) : ControlPlaneCore :=
  mkControlPlaneCore (cp_control_ core) (mkRuleSnapshot (cc_rules (cp_control_ core))).

Definition cp_publish_stats (core : ControlPlaneCore) (update : StatUpdate) : ControlPlaneCore :=
  mkControlPlaneCore (publish_stats (cp_control_ core) update) (cp_rule_snapshot_ core).

Definition current_rules (core : ControlPlaneCore) : RuleSnapshot := cp_rule_snapshot_ core.

Section ControlPlaneCore.
Context (padding : list Byte).

Definition handle_request (core : ControlPlaneCore) (request response : list Byte)
    : option (ControlResponse * list Byte * ControlPlaneCore) :=
  request_opcode ← peek_request_opcode request;
  '(result, response, control) ← handle kDefaultMaxRules padding (cp_control_ core) request response;
  let core := mkControlPlaneCore control (cp_rule_snapshot_ core) in
  let core := if (rsp_status result =?? ProtocolStatus_Ok) && is_rule_mutating_request request_opcode
              then publish_rules core else core in
  Some (result, response, core).

End ControlPlaneCore.

(** ** Messages in a byte stream *)

(** The first message of a stream and the bytes after it.  A header that announces more
    than the protocol allows takes all bytes with it: it is answered with an error. *)
Definition next_message (l : list Byte) : option (list Byte * list Byte) :=
  if bool_decide (zlen l < kProtocolHeaderBytes) then None
  else
    let total := kProtocolHeaderBytes + be_value (length_field l) in
    if bool_decide (kMaxControlPayloadBytes < be_value (length_field l)) then Some (l, [])
    else if bool_decide (zlen l < total) then None
    else Some (take (Z.to_nat total) l, drop (Z.to_nat total) l).

(** All complete messages of a stream and what is left. *)
Fixpoint split_messages (n : nat) (l : list Byte) : list (list Byte) * list Byte :=
  match n with
  | O => ([], l)
  | S n =>
      match next_message l with
      | None => ([], l)
      | Some (m, rest) => let '(ms, r) := split_messages n rest in (m :: ms, r)
      end
  end.

(** With as much fuel as there are bytes, all are found. *)
Definition messages_of (l : list Byte) : list (list Byte) * list Byte := split_messages (length l) l.

(** [m] is one message: a header and as many bytes as it announces. *)
Definition well_framed (m : list Byte) : Prop :=
  kProtocolHeaderBytes <= zlen m /\ zlen m = kProtocolHeaderBytes + be_value (length_field m) /\
  be_value (length_field m) <= kMaxControlPayloadBytes.

Lemma length_field_app l k : kProtocolHeaderBytes <= zlen l -> length_field (l ++ k) = length_field l.
Proof.
  intros Hl. unfold length_field, kProtocolHeaderBytes, zlen in *.
  rewrite drop_app_le, take_app_le by (rewrite ?length_drop; lia). done.
Qed.

Lemma length_field_fits l : Forall (fits 8) l -> 0 <= be_value (length_field l) < 2 ^ 32.
Proof.
  intros Hf. assert (Forall (fits 8) (length_field l)) as Hf' by by apply Forall_take, Forall_drop.
  pose proof (be_value_fits _ Hf') as [H0 H1]. split; [done|]. eapply Z.lt_le_trans; [done|].
  apply Z.pow_le_mono_r; [lia|]. unfold length_field. rewrite length_take. lia.
Qed.

Lemma next_message_app l m rest :
  Forall (fits 8) l -> next_message l = Some (m, rest) -> l = m ++ rest /\ kProtocolHeaderBytes <= zlen m.
Proof.
  intros Hf. unfold next_message. pose proof (length_field_fits l Hf). case_bool_decide; [done|].
  case_bool_decide; [intros [= <- <-]; split; [by rewrite app_nil_r|lia]|].
  case_bool_decide; [done|]. intros [= <- <-]. rewrite take_drop. split; [done|]. unfold zlen in *. rewrite length_take. lia.
Qed.

Lemma next_message_rest l m rest :
  Forall (fits 8) l -> next_message l = Some (m, rest) -> (length rest < length l)%nat /\ Forall (fits 8) m /\ Forall (fits 8) rest.
Proof.
  intros Hf Hn. destruct (next_message_app _ _ _ Hf Hn) as [-> Hm]. apply Forall_app in Hf.
  rewrite length_app. unfold kProtocolHeaderBytes, zlen in Hm. split; [lia|done].
Qed.

Lemma split_messages_enough n l : Forall (fits 8) l -> (length l <= n)%nat -> split_messages n l = messages_of l.
Proof.
  unfold messages_of. revert l. induction n as [n IH] using lt_wf_ind. intros l Hf Hn. destruct n as [|n].
  { by destruct l; [|simpl in Hn; lia]. }
  destruct (next_message l) as [[m rest]|] eqn:E.
  - destruct (next_message_rest _ _ _ Hf E) as (Hlt & _ & Hr). destruct l as [|x l]; [simpl in Hlt; lia|].
    cbn [split_messages length] in *. rewrite E. rewrite (IH n), (IH (length l)) by (done || lia). done.
  - cbn [split_messages]. rewrite E. destruct l as [|x l]; cbn [length split_messages]; [done|]. by rewrite E.
Qed.

Lemma messages_of_next l :
  Forall (fits 8) l ->
  messages_of l = match next_message l with
                  | Some (m, rest) => (m :: (messages_of rest).1, (messages_of rest).2)
                  | None => ([], l)
                  end.
Proof.
  intros Hf. rewrite <-(split_messages_enough (S (length l)) l) by (done || lia). cbn [split_messages].
  destruct (next_message l) as [[m rest]|] eqn:E; [|done]. destruct (next_message_rest _ _ _ Hf E) as (Hlt & _ & Hr).
  rewrite split_messages_enough by (done || lia). by destruct (messages_of rest).
Qed.

(** A message at the front of a stream is found, whatever follows. *)
Lemma next_message_framed m k : well_framed m -> Forall (fits 8) m -> next_message (m ++ k) = Some (m, k).
Proof.
  intros (H24 & Hz & Hmax) Hf. unfold next_message. rewrite length_field_app by done. pose proof (zlen_nonneg k).
  rewrite zlen_app, !bool_decide_false by lia. rewrite <-Hz, take_app_zlen, drop_app_zlen by done. done.
Qed.

(** A proper front part of a message is not a message. *)
Lemma next_message_partial m p k : well_framed m -> Forall (fits 8) m -> m = p ++ k -> k <> [] -> next_message p = None.
Proof.
  intros (H24 & Hz & Hmax) Hf -> Hk. unfold next_message. case_bool_decide; [done|].
  rewrite length_field_app in Hz, Hmax by lia. rewrite bool_decide_false by lia.
  rewrite bool_decide_true; [done|]. rewrite zlen_app in Hz. destruct k as [|b k]; [done|]. rewrite zlen_cons in Hz.
  pose proof (zlen_nonneg k). lia.
Qed.

(** A stream that is a sequence of messages, cut anywhere: the messages that are complete
    are found, and what is left is the front of the next one. *)
Lemma messages_split bound ms q k :
  Forall (fun m => well_framed m /\ Forall (fits 8) m /\ zlen m <= bound) ms -> mjoin ms = q ++ k ->
  exists ms1 ms2 r, ms = ms1 ++ ms2 /\ messages_of q = (ms1, r) /\ mjoin ms2 = r ++ k /\ next_message r = None /\
    (r = [] \/ zlen r < bound).
Proof.
  intros Hms. revert q. induction Hms as [|m ms (Hm & Hf & Hb) Hms IH]; intros q E.
  { symmetry in E. apply app_nil in E as [-> ->]. exists [], [], []. by split_and!; try left. }
  change (mjoin (m :: ms)) with (m ++ mjoin ms) in E.
  assert ((exists q', q = m ++ q' /\ mjoin ms = q' ++ k) \/ (exists k', m = q ++ k' /\ k' <> [] /\ k = k' ++ mjoin ms))
    as [(q' & -> & E')|(k' & Em & Hk' & ->)].
  { apply app_eq_inv in E as [(k' & Em & Ek)|(q' & Eq & Ej)]; [|left; eauto].
    destruct k' as [|b k']; [|right; by exists (b :: k')]. left. exists []. by rewrite Em, !app_nil_r. }
  - destruct (IH q' E') as (ms1 & ms2 & r & -> & Hq & Hj & Hn & Hr). exists (m :: ms1), ms2, r.
    assert (Forall (fits 8) q') as Hf'.
    { assert (Forall (fits 8) (mjoin (ms1 ++ ms2))) as Hj' by (apply Forall_join; eapply Forall_impl; [exact Hms|]; naive_solver).
      rewrite E' in Hj'. by apply Forall_app in Hj' as [? _]. }
    rewrite messages_of_next by (by apply Forall_app). rewrite next_message_framed, Hq by done. by split_and!.
  - exists [], (m :: ms), q. pose proof (next_message_partial _ _ _ Hm Hf Em Hk') as Hn. subst m.
    apply Forall_app in Hf as [Hf _]. rewrite messages_of_next, Hn by done. split_and!; try done.
    right. rewrite zlen_app in Hb. destruct k' as [|b k']; [done|]. rewrite zlen_cons in Hb. pose proof (zlen_nonneg k'). lia.
Qed.

(** ** The connection buffer is a bounded byte queue *)

(** Whatever the buffer holds, its array is there. *)
Definition cb_ok (b : ConnectionBuffer) : Prop :=
  zlen (cb_buffer_ b) = kControlReadBufferBytes /\ 0 <= cb_write_pos_ b <= kControlReadBufferBytes /\
  Forall (fits 8) (cb_buffer_ b).

(** It holds the bytes [l], and lost none. *)
Definition cb_repr (b : ConnectionBuffer) (l : list Byte) : Prop :=
  cb_ok b /\ cb_readable b = l /\ cb_overflowed_ b = false.

Lemma cb_repr_zlen b l : cb_repr b l -> zlen l = cb_write_pos_ b /\ zlen l <= kControlReadBufferBytes /\ Forall (fits 8) l.
Proof.
  intros ((Hz & Hw & Hf) & <- & _). unfold cb_readable, zlen in *. rewrite length_take.
  split_and!; [lia|lia|by apply Forall_take].
Qed.

Lemma ConnectionBuffer_default_repr : cb_repr ConnectionBuffer_default [].
Proof. split; [|done]. split_and!; try done. by apply Forall_replicate. Qed.

Lemma cb_reset_repr b : cb_ok b -> cb_repr (cb_reset b) [].
Proof. intros (Hz & _ & Hf). split; [|done]. by split_and!. Qed.

Lemma cb_append_room b l data :
  cb_repr b l -> Forall (fits 8) data -> zlen l + zlen data <= kControlReadBufferBytes ->
  exists b', cb_append b data = Some (zlen data, b') /\ cb_repr b' (l ++ data).
Proof.
  intros Hr Hd Hroom. destruct (cb_repr_zlen b l Hr) as (Hl & _ & _). destruct Hr as ((Hz & Hw & Hf) & Hrd & Ho).
  unfold kControlReadBufferBytes in *. pose proof (zlen_nonneg data). pose proof (zlen_nonneg l).
  unfold cb_append. rewrite Hz. rewrite wrap_small by (unfold fits; lia).
  assert ((if zlen data <? 8192 - cb_write_pos_ b then zlen data else 8192 - cb_write_pos_ b) = zlen data) as ->
    by (zcase; lia).
  rewrite take_ge by (unfold zlen; lia). unfold memcpy_at. rewrite bool_decide_true by lia. cbn [mbind option_bind].
  rewrite wrap_small by (unfold fits; lia). rewrite Ho, Z.eqb_refl. cbn. eexists. split; [done|].
  assert (length (take (Z.to_nat (cb_write_pos_ b)) (cb_buffer_ b)) = Z.to_nat (cb_write_pos_ b)) as Htk
    by (rewrite length_take; unfold zlen in Hz; lia).
  split; [unfold cb_ok, kControlReadBufferBytes; split_and!|split; [|done]]; cbn [cb_buffer_ cb_write_pos_]; try lia.
  - unfold zlen in *. rewrite !length_app, Htk, length_drop. lia.
  - rewrite !Forall_app. split_and!; [by apply Forall_take|done|by apply Forall_drop].
  - unfold cb_readable in *. cbn [cb_buffer_ cb_write_pos_]. rewrite Hrd, app_assoc. apply take_app_zlen.
    rewrite zlen_app. lia.
Qed.

Lemma cb_append_full b l data :
  cb_repr b l -> Forall (fits 8) data -> kControlReadBufferBytes < zlen l + zlen data ->
  exists b' n, cb_append b data = Some (n, b') /\ n < zlen data /\ cb_ok b'.
Proof.
  intros Hr Hd Hroom. destruct (cb_repr_zlen b l Hr) as (Hl & Hle & _). destruct Hr as ((Hz & Hw & Hf) & Hrd & Ho).
  unfold kControlReadBufferBytes in *. pose proof (zlen_nonneg data). pose proof (zlen_nonneg l).
  unfold cb_append. rewrite Hz. rewrite wrap_small by (unfold fits; lia).
  assert ((if zlen data <? 8192 - cb_write_pos_ b then zlen data else 8192 - cb_write_pos_ b) = 8192 - cb_write_pos_ b) as ->
    by (zcase; lia).
  assert (zlen (take (Z.to_nat (8192 - cb_write_pos_ b)) data) = 8192 - cb_write_pos_ b) as Htk
    by (unfold zlen in *; rewrite length_take; lia).
  unfold memcpy_at. rewrite bool_decide_true by lia. cbn [mbind option_bind]. rewrite wrap_small by (unfold fits; lia).
  eexists _, _. split; [done|]. split; [lia|]. unfold cb_ok, kControlReadBufferBytes. cbn [cb_buffer_ cb_write_pos_]. split_and!; try lia.
  - rewrite !zlen_app, Htk. unfold zlen in *. rewrite length_take, length_drop. lia.
  - rewrite !Forall_app. split_and!; [by apply Forall_take|by apply Forall_take|by apply Forall_drop].
Qed.

Lemma cb_consume_spec b m rest :
  cb_repr b (m ++ rest) -> exists b', cb_consume b (zlen m) = Some b' /\ cb_repr b' rest.
Proof.
  intros Hr. destruct (cb_repr_zlen _ _ Hr) as (Hl & Hle & _). destruct Hr as ((Hz & Hw & Hf) & Hrd & Ho).
  rewrite zlen_app in *. pose proof (zlen_nonneg m). pose proof (zlen_nonneg rest). unfold kControlReadBufferBytes in *.
  unfold cb_consume. zcase.
  - eexists. split; [done|]. split; [by unfold cb_ok; split_and!|]. split; [|done].
    unfold cb_readable. cbn. assert (zlen rest = 0) as Hrest by lia. destruct rest as [|x rest]; [done|].
    rewrite zlen_cons in Hrest. pose proof (zlen_nonneg rest). lia.
  - rewrite wrap_small by (unfold fits; lia). unfold memmove_front. rewrite bool_decide_true by lia. cbn [mbind option_bind].
    assert (take (Z.to_nat (cb_write_pos_ b - zlen m)) (drop (Z.to_nat (zlen m)) (cb_buffer_ b)) = rest) as Hrest.
    { replace (cb_write_pos_ b - zlen m) with (zlen rest) by lia. unfold cb_readable in Hrd.
      rewrite <-(take_drop (Z.to_nat (cb_write_pos_ b)) (cb_buffer_ b)), Hrd, <-app_assoc, drop_app_zlen by done.
      by apply take_app_zlen. }
    rewrite Hrest. eexists. split; [done|].
    split; [unfold cb_ok, kControlReadBufferBytes; split_and!|split; [|done]]; cbn [cb_buffer_ cb_write_pos_]; try lia.
    + rewrite zlen_app. unfold zlen in *. rewrite length_drop. lia.
    + apply Forall_app. split; [|by apply Forall_drop]. rewrite <-Hrest. by apply Forall_take, Forall_drop.
    + unfold cb_readable. cbn [cb_buffer_ cb_write_pos_]. apply take_app_zlen. lia.
Qed.

Lemma read_length_field b l :
  cb_repr b l -> kProtocolHeaderBytes <= zlen l -> read_u32_be (cb_readable b) 8 = Some (be_value (length_field l)).
Proof.
  intros Hr Hl. destruct (cb_repr_zlen _ _ Hr) as (_ & _ & Hf). destruct Hr as (_ & -> & _).
  unfold kProtocolHeaderBytes in Hl.
  assert (l = take 8 l ++ length_field l ++ drop 12 l) as E.
  { unfold length_field. rewrite <-(take_drop 8 l) at 1. f_equal. rewrite <-(take_drop 4 (drop 8 l)) at 1. by rewrite drop_drop. }
  rewrite E at 1. apply read_u32_field.
  - unfold zlen in *. rewrite length_take. lia.
  - unfold length_field, zlen in *. rewrite length_take, length_drop. lia.
  - by apply Forall_take, Forall_drop.
Qed.

(** [has_complete_message] and [next_message_length] find the next message. *)
Lemma cb_next_spec b l :
  cb_repr b l ->
  match next_message l with
  | None => cb_has_complete_message b = Some false
  | Some (m, rest) =>
      cb_has_complete_message b = Some true /\ cb_next_message_length b = Some (zlen m) /\
      (zlen m =? 0) || (cb_readable_bytes b <? zlen m) = false /\ span_first (cb_readable b) (zlen m) = Some m
  end.
Proof.
  intros Hr. destruct (cb_repr_zlen _ _ Hr) as (Hl & Hle & Hf). pose proof (length_field_fits l Hf).
  unfold cb_has_complete_message, cb_next_message_length, next_message, cb_readable_bytes. rewrite <-Hl.
  destruct (bool_decide_reflect (zlen l < kProtocolHeaderBytes)); [by zcase; [|lia]|]. zcase; [lia|].
  rewrite (read_length_field b l) by (done || lia). cbn [mbind option_bind]. destruct Hr as (_ & Hrd & _). rewrite Hrd.
  unfold kProtocolHeaderBytes, kMaxControlPayloadBytes, span_first in *.
  destruct (bool_decide_reflect (64 * 1024 < be_value (length_field l))).
  { zcase; [|lia]. split_and!; [done|done|by repeat zcase; lia|]. zcase; [|lia]. f_equal. apply take_ge. unfold zlen. lia. }
  zcase; [lia|]. rewrite wrap_small by (unfold fits; lia).
  case_bool_decide; [by zcase; [lia|]|].
  assert (zlen (take (Z.to_nat (24 + be_value (length_field l))) l) = 24 + be_value (length_field l)) as Htk
    by (unfold zlen in *; rewrite length_take; lia).
  rewrite Htk. split_and!; [by zcase; [|lia]|done|by repeat zcase; lia|by zcase; [|lia]].
Qed.

(** ** Snapshots follow the rule table *)

Lemma peek_decoded request decoded :
  Forall (fits 8) request -> decode_message request = Some decoded -> dr_status decoded = ProtocolStatus_Ok ->
  peek_request_opcode request = Some (mh_opcode (dm_header (dr_message decoded))).
Proof.
  intros Hf Hd Hok. destruct (decode_accepted _ _ Hf Hd Hok) as (Hh & _ & _ & _ & _ & E).
  set (h := dm_header (dr_message decoded)) in *. unfold message_bytes, header_bytes in E. rewrite <-!app_assoc in E.
  assert (zlen (be_bytes 2 (mh_magic h)) = 2) as Hz by (apply (zlen_length _ 2), be_bytes_length).
  assert (request.[3] = Some (opcode_byte (mh_opcode h))) as Hb.
  { rewrite E. replace 3 with (zlen (be_bytes 2 (mh_magic h)) + 1) by lia. by rewrite aget_app_r. }
  unfold peek_request_opcode. apply aget_lt in Hb as Hlt. zcase; [lia|]. rewrite Hb. cbn [mbind option_bind].
  f_equal. apply (ho_opcode _ Hh).
Qed.

(** The core holds [rules], and the published snapshot is [rules] as well. *)
Definition plane_repr (core : ControlPlaneCore) (rules : list ChaosRule) (stats : StatUpdate) : Prop :=
  core_repr kDefaultMaxRules (cp_control_ core) rules stats /\ sn_rules_ (cp_rule_snapshot_ core) = rules.

Lemma ControlPlaneCore_new_repr : plane_repr ControlPlaneCore_new [] StatUpdate_default.
Proof. split; [by apply ControlCore_default_repr|done]. Qed.

Section plane.
Context (padding : list Byte).
Hypothesis padding_bytes : Forall (fits 8) padding.

(** What a request of the protocol asks for, on a list of rules. *)
Definition plane_reply := core_reply kDefaultMaxRules padding.

(** Only a mutating request that is answered with [Pong] changes the rules. *)
Lemma core_reply_changes rules stats decoded :
  (plane_reply rules stats decoded).2 <> rules ->
  dr_status decoded = ProtocolStatus_Ok /\
  is_rule_mutating_request (mh_opcode (dm_header (dr_message decoded))) = true /\
  rp_status (plane_reply rules stats decoded).1 = ProtocolStatus_Ok /\ rp_payload (plane_reply rules stats decoded).1 = [].
Proof.
  unfold plane_reply, core_reply. case_bool_decide as Hok; [done|].
  destruct (mh_opcode (dm_header (dr_message decoded))) eqn:E; cbn; try done; repeat case_bool_decide; cbn; try done.
Qed.

Lemma handle_request_spec core rules stats request response :
  plane_repr core rules stats -> Forall (fits 8) request -> Forall (fits 8) response ->
  kProtocolHeaderBytes <= zlen response ->
  exists decoded rsp response' core', decode_message request = Some decoded /\
    handle_request padding core request response = Some (rsp, response', core') /\
    let reply := plane_reply rules stats decoded in
    plane_repr core' reply.2 stats /\
    delivered (rp_status reply.1) (rp_opcode reply.1) (rp_sequence reply.1) (rp_payload reply.1) response rsp response'.
Proof.
  intros [Hc Hsn] Hreq Hrsp Hroom.
  destruct (handle_handled kDefaultMaxRules padding ltac:(done) ltac:(done) padding_bytes _ _ _ _ _ Hc Hreq Hrsp)
    as (decoded & Hd & rsp & response' & control & Hrun & Hc' & Hdel).
  assert (exists opcode, peek_request_opcode request = Some opcode) as [opcode Hpeek].
  { unfold peek_request_opcode. zcase; [eauto|]. destruct (aget_in_range request 3) as [b ->]; [lia|]. cbn. eauto. }
  unfold handle_request. rewrite Hpeek. cbn [mbind option_bind]. rewrite Hrun. cbn [mbind option_bind].
  eexists decoded, rsp, response', _. split_and!; [done|done| |exact Hdel]. fold plane_reply in *.
  destruct ((rsp_status rsp =?? ProtocolStatus_Ok) && is_rule_mutating_request opcode) eqn:Epub; split; try exact Hc'.
  - cbn. by apply (rt_repr_rules kDefaultMaxRules), Hc'.
  - cbn. destruct (decide ((plane_reply rules stats decoded).2 = rules)) as [->|Hne]; [done|].
    destruct (core_reply_changes _ _ _ Hne) as (Hok & Hmut & Hst & Hpl). exfalso.
    rewrite (peek_decoded _ _ Hreq Hd Hok) in Hpeek. injection Hpeek as <-.
    destruct Hdel as (_ & _ & Hfit). rewrite Hpl, Hst, bool_decide_true in Hfit by (rewrite zlen_nil; unfold kMaxControlPayloadBytes; lia).
    destruct Hfit as (Hok' & _). by rewrite Hok', Hmut, bool_decide_true in Epub.
Qed.

(** A run of requests, each with the span for its response. *)
Fixpoint handle_requests (core : ControlPlaneCore) (requests : list (list Byte * list Byte))
    : option (list ControlResponse * ControlPlaneCore) :=
  match requests with
  | [] => Some ([], core)
  | (request, response) :: requests =>
      '(result, _, core) ← handle_request padding core request response;
      '(results, core) ← handle_requests core requests;
      Some (result :: results, core)
  end.

(** The rules that a run of requests leaves: those of the abstract table. *)
Fixpoint rules_after (rules : list ChaosRule) (stats : StatUpdate) (requests : list (list Byte)) : list ChaosRule :=
  match requests with
  | [] => rules
  | request :: requests =>
      match decode_message request with
      | Some decoded => rules_after (plane_reply rules stats decoded).2 stats requests
      | None => rules
      end
  end.

(** A request is bytes, and the span takes at least a header. *)
Definition request_ok (r : list Byte * list Byte) : Prop :=
  Forall (fits 8) r.1 /\ Forall (fits 8) r.2 /\ kProtocolHeaderBytes <= zlen r.2.

Lemma handle_requests_spec requests core rules stats :
  plane_repr core rules stats -> Forall request_ok requests ->
  exists results core', handle_requests core requests = Some (results, core') /\ length results = length requests /\
    plane_repr core' (rules_after rules stats requests.*1) stats.
Proof.
  intros Hp Hok. revert core rules Hp. induction Hok as [|[request response] requests (Hf & Hfr & Hroom) _ IH]; intros core rules Hp; cbn [fst snd] in *.
  { by exists [], core. }
  cbn [handle_requests fmap list_fmap rules_after fst].
  destruct (handle_request_spec _ _ _ _ _ Hp Hf Hfr Hroom) as (decoded & rsp & response' & core1 & -> & -> & Hp1 & _).
  cbn [mbind option_bind]. destruct (IH _ _ Hp1) as (results & core' & -> & Hlen & Hp'). cbn [mbind option_bind].
  exists (rsp :: results), core'. split_and!; [done|by cbn; rewrite Hlen|done].
Qed.

End plane.

(** After any run of requests, whatever bytes they are, the published snapshot is
    exactly the rule table, and both are the list of rules that the abstract table has
    after the same requests; no request makes the core fail. *)
Theorem snapshot_tracks_rules (padding : list Byte) (requests : list (list Byte * list Byte)) :
  Forall (fits 8) padding -> Forall request_ok requests ->
  exists results core, handle_requests padding ControlPlaneCore_new requests = Some (results, core) /\
    length results = length requests /\
    sn_rules_ (current_rules core) = cc_rules (cp_control_ core) /\
    cc_rules (cp_control_ core) = rules_after padding [] StatUpdate_default requests.*1.
Proof.
  intros Hpad Hok.
  destruct (handle_requests_spec padding Hpad _ _ _ _ ControlPlaneCore_new_repr Hok) as (results & core & Hrun & Hlen & Hc & Hs).
  exists results, core. unfold current_rules, cc_rules. rewrite Hs, (rt_repr_rules kDefaultMaxRules _ _ (cr_table _ _ _ _ Hc)). done.
Qed.

(** A request that clears the rules. *)
Definition example_clear_request : list Byte :=
  message_bytes (sent_header (reply_header Opcode_ClearRules 8) []) [].

Lemma snapshot_tracks_rules_witness :
  exists results core, handle_requests [0; 0; 0; 0] ControlPlaneCore_new
      [(example_clear_request, replicate 64 0); (example_add_request, replicate 64 0); ([1; 2; 3], replicate 64 0)]
    = Some (results, core) /\ sn_rules_ (current_rules core) = [example_rule].
Proof.
  destruct (snapshot_tracks_rules [0; 0; 0; 0]
    [(example_clear_request, replicate 64 0); (example_add_request, replicate 64 0); ([1; 2; 3], replicate 64 0)])
    as (results & core & Hrun & _ & Hsn & Hrules).
  - by repeat constructor.
  - repeat constructor; by vm_compute.
  - exists results, core. split; [exact Hrun|]. rewrite Hsn, Hrules. vm_compute. reflexivity.
Defined.
