(* ===== verification/SnapshotConcurrent.v ===== *)
(** * [control_plane.hpp]: rule snapshots between threads

    The control thread handles requests and publishes snapshots through an atomic
    [shared_ptr]; other threads load it with [current_rules], use the snapshot and let go
    of it.  Here the steps of the control thread and of any number of readers interleave:
    the copy of the rules, the store to the atomic pointer with the release of the old
    snapshot, and the end of the local [snapshot] are steps of their own.  [shared_ptr] is
    modelled with its use count: a snapshot is freed when the count drops to zero, and a
    copy or a release of a freed snapshot is undefined behaviour.  Loads and stores of
    [std::atomic<std::shared_ptr>] are atomic, with the change of the use count. *)

From stdpp Require Import gmap relations.
From S2P Require Import Prelude Types ChaosEngine Protocol ControlCore ControlPlane.

(** ** [std::shared_ptr] *)

(** The live snapshots with their use counts. *)
Abbreviation SnapHeap := (gmap nat (RuleSnapshot * nat)).

(** Copying a pointer. *)
Definition sp_copy (heap : SnapHeap) (o : nat) : option SnapHeap :=
  '(s, n) ← heap !! o; Some (<[o := (s, S n)]> heap).

(** The end of a pointer's life. *)
Definition sp_release (heap : SnapHeap) (o : nat) : option SnapHeap :=
  '(s, n) ← heap !! o;
  match n with
  | O => None
  | 1%nat => Some (delete o heap)
  | S n => Some (<[o := (s, n)]> heap)
  end.

(** ** The threads *)

(** Where the control thread is: between requests, before [make_shared], before
    [rule_snapshot_.store], and before the end of [publish_rules]; [o] is its local
    [snapshot]. *)
Inductive WriterPc :=
| WriterIdle
| WriterPublish
| WriterStore (o : nat)
| WriterRelease (o : nat).

(** [ss_readers] are the snapshots that readers hold.  Snapshots are numbered in the order
    in which they are made, and [ss_history] are their rules; [ss_requests] are the requests
    handled so far. *)
Record SnapState := mkSnapState {
  ss_control : ControlCore;
  ss_writer : WriterPc;
  ss_pointer : nat;
  ss_heap : SnapHeap;
  ss_readers : gmap nat nat;
  ss_history : list (list ChaosRule);
  ss_requests : list (list Byte);
}.

(** The constructor: an empty snapshot, held by the atomic pointer. *)
Definition SnapState_init : SnapState :=
  mkSnapState (ControlCore_default kDefaultMaxRules) WriterIdle 0 {[0%nat := (mkRuleSnapshot [], 1%nat)]} ∅ [[]] [].

Section threads.
Context (padding : list Byte).

(** [handle_request] up to [publish_rules]; the flag says whether it is called. *)
Definition begin_request (control : ControlCore) (request response : list Byte)
    : option (ControlResponse * list Byte * ControlCore * bool) :=
  request_opcode ← peek_request_opcode request;
  '(result, response, control) ← handle kDefaultMaxRules padding control request response;
  Some (result, response, control, (rsp_status result =?? ProtocolStatus_Ok) && is_rule_mutating_request request_opcode).

Definition request_handled (st : SnapState) (request : list Byte) (control : ControlCore) (publish : bool) : SnapState :=
  mkSnapState control (if publish then WriterPublish else WriterIdle) (ss_pointer st) (ss_heap st) (ss_readers st)
    (ss_history st) (ss_requests st ++ [request]).

(** [std::make_shared<const RuleSnapshot>(control_.rules())]. *)
Definition make_snapshot (st : SnapState) : SnapState :=
  let o := length (ss_history st) in
  let rules := cc_rules (ss_control st) in
  mkSnapState (ss_control st) (WriterStore o) (ss_pointer st) (<[o := (mkRuleSnapshot rules, 1%nat)]> (ss_heap st))
    (ss_readers st) (ss_history st ++ [rules]) (ss_requests st).

(** [rule_snapshot_.store(snapshot)]: the argument is a copy, and the old value is released. *)
Definition store_snapshot (st : SnapState) (o : nat) : option SnapState :=
  heap ← sp_copy (ss_heap st) o;
  heap ← sp_release heap (ss_pointer st);
  Some (mkSnapState (ss_control st) (WriterRelease o) o heap (ss_readers st) (ss_history st) (ss_requests st)).

(** The end of the local [snapshot]. *)
Definition end_publish (st : SnapState) (o : nat) : option SnapState :=
  heap ← sp_release (ss_heap st) o;
  Some (mkSnapState (ss_control st) WriterIdle (ss_pointer st) heap (ss_readers st) (ss_history st) (ss_requests st)).

(** [current_rules], called by reader [r]. *)
Definition load_snapshot (st : SnapState) (r : nat) : option SnapState :=
  heap ← sp_copy (ss_heap st) (ss_pointer st);
  Some (mkSnapState (ss_control st) (ss_writer st) (ss_pointer st) heap (<[r := ss_pointer st]> (ss_readers st))
          (ss_history st) (ss_requests st)).

(** The end of the pointer that [r] holds. *)
Definition drop_snapshot (st : SnapState) (r : nat) : option SnapState :=
  o ← ss_readers st !! r;
  heap ← sp_release (ss_heap st) o;
  Some (mkSnapState (ss_control st) (ss_writer st) (ss_pointer st) heap (delete r (ss_readers st)) (ss_history st) (ss_requests st)).

(** What reader [r] reads through its pointer. *)
Definition reader_rules (st : SnapState) (r : nat) : option (list ChaosRule) :=
  o ← ss_readers st !! r;
  '(s, _) ← ss_heap st !! o;
  Some (sn_rules_ s).

Inductive snap_step : SnapState -> SnapState -> Prop :=
| snap_request_step st request response result response' control publish :
    ss_writer st = WriterIdle -> request_ok (request, response) ->
    begin_request (ss_control st) request response = Some (result, response', control, publish) ->
    snap_step st (request_handled st request control publish)
| snap_make_step st : ss_writer st = WriterPublish -> snap_step st (make_snapshot st)
| snap_store_step st st' o : ss_writer st = WriterStore o -> store_snapshot st o = Some st' -> snap_step st st'
| snap_end_step st st' o : ss_writer st = WriterRelease o -> end_publish st o = Some st' -> snap_step st st'
| snap_load_step st st' r : ss_readers st !! r = None -> load_snapshot st r = Some st' -> snap_step st st'
| snap_drop_step st st' r : drop_snapshot st r = Some st' -> snap_step st st'.

End threads.

(** ** Use counts *)

(** The use counts are the numbers of pointers in [refs]. *)
Definition heap_counts (heap : SnapHeap) (refs : list nat) : Prop :=
  forall o, match heap !! o with
            | Some (_, n) => n = occurrences refs o /\ (0 < n)%nat
            | None => occurrences refs o = 0%nat
            end.

(** The snapshots are those of the history. *)
Definition heap_rules (heap : SnapHeap) (history : list (list ChaosRule)) : Prop :=
  forall o s n, heap !! o = Some (s, n) -> history !! o = Some (sn_rules_ s).

Lemma heap_counts_perm heap refs refs' : refs ≡ₚ refs' -> heap_counts heap refs -> heap_counts heap refs'.
Proof.
  intros Hp H o. specialize (H o). rewrite Permutation_occurrences in Hp. by rewrite <-Hp.
Qed.

Lemma occurrences_cons_eq (l : list nat) x : occurrences (x :: l) x = S (occurrences l x).
Proof. unfold occurrences. cbn. by rewrite decide_True. Qed.

Lemma occurrences_cons_ne (l : list nat) x y : y <> x -> occurrences (y :: l) x = occurrences l x.
Proof. intros. unfold occurrences. cbn. by rewrite decide_False. Qed.

Lemma sp_copy_spec heap history refs o :
  heap_counts heap (o :: refs) -> heap_rules heap history ->
  exists heap', sp_copy heap o = Some heap' /\ heap_counts heap' (o :: o :: refs) /\ heap_rules heap' history.
Proof.
  intros Hc Hr. pose proof (Hc o) as Ho. rewrite occurrences_cons_eq in Ho.
  destruct (heap !! o) as [[s n]|] eqn:E; [|done]. destruct Ho as [-> _]. unfold sp_copy. rewrite E. cbn [mbind option_bind].
  eexists. split; [done|]. split.
  - intros o'. destruct (decide (o' = o)) as [->|Hne].
    + rewrite lookup_insert_eq, !occurrences_cons_eq. lia.
    + rewrite lookup_insert_ne by done. specialize (Hc o'). rewrite !occurrences_cons_ne in * by done. done.
  - intros o' s' n'. destruct (decide (o' = o)) as [->|Hne].
    + rewrite lookup_insert_eq. intros [= <- _]. by apply (Hr _ _ _ E).
    + rewrite lookup_insert_ne by done. apply Hr.
Qed.

Lemma sp_release_spec heap history refs o :
  heap_counts heap (o :: refs) -> heap_rules heap history ->
  exists heap', sp_release heap o = Some heap' /\ heap_counts heap' refs /\ heap_rules heap' history.
Proof.
  intros Hc Hr. pose proof (Hc o) as Ho. rewrite occurrences_cons_eq in Ho.
  destruct (heap !! o) as [[s n]|] eqn:E; [|done]. destruct Ho as [-> _]. unfold sp_release. rewrite E. cbn [mbind option_bind].
  destruct (occurrences refs o) as [|k] eqn:Ek.
  - eexists. split; [done|]. split.
    + intros o'. destruct (decide (o' = o)) as [->|Hne]; [by rewrite lookup_delete_eq|].
      rewrite lookup_delete_ne by done. specialize (Hc o'). by rewrite occurrences_cons_ne in Hc.
    + intros o' s' n' [_ H]%lookup_delete_Some. by apply (Hr _ _ _ H).
  - eexists. split; [done|]. split.
    + intros o'. destruct (decide (o' = o)) as [->|Hne]; [rewrite lookup_insert_eq; lia|].
      rewrite lookup_insert_ne by done. specialize (Hc o'). by rewrite occurrences_cons_ne in Hc.
    + intros o' s' n'. destruct (decide (o' = o)) as [->|Hne].
      * rewrite lookup_insert_eq. intros [= <- _]. by apply (Hr _ _ _ E).
      * rewrite lookup_insert_ne by done. apply Hr.
Qed.

Lemma sp_make_spec heap history refs rules :
  heap_counts heap refs -> heap_rules heap history ->
  let o := length history in
  heap_counts (<[o := (mkRuleSnapshot rules, 1%nat)]> heap) (o :: refs) /\
  heap_rules (<[o := (mkRuleSnapshot rules, 1%nat)]> heap) (history ++ [rules]).
Proof.
  intros Hc Hr o. assert (heap !! o = None) as Hfresh.
  { destruct (heap !! o) as [[s n]|] eqn:E; [|done]. apply Hr, lookup_lt_Some in E. lia. }
  split.
  - intros o'. destruct (decide (o' = o)) as [->|Hne].
    + specialize (Hc o). rewrite Hfresh in Hc. rewrite lookup_insert_eq, occurrences_cons_eq. lia.
    + rewrite lookup_insert_ne, occurrences_cons_ne by done. apply Hc.
  - intros o' s n. destruct (decide (o' = o)) as [->|Hne].
    + rewrite lookup_insert_eq. intros [= <- _]. by apply list_lookup_middle.
    + rewrite lookup_insert_ne by done. intros H%Hr. by apply lookup_app_l_Some.
Qed.

(** ** The invariant *)

Definition writer_refs (pc : WriterPc) : list nat :=
  match pc with WriterStore o | WriterRelease o => [o] | _ => [] end.

(** All pointers: the atomic one, the control thread's and the readers'. *)
Definition snap_refs (st : SnapState) : list nat :=
  ss_pointer st :: writer_refs (ss_writer st) ++ (map_to_list (ss_readers st)).*2.

Section invariant.
Context (padding : list Byte).
Hypothesis padding_bytes : Forall (fits 8) padding.

(** The rules that the requests leave. *)
Definition rules_at (requests : list (list Byte)) : list ChaosRule := rules_after padding [] StatUpdate_default requests.

(** The requests whose effect is visible to a reader that loads the pointer now. *)
Definition visible_requests (st : SnapState) : list (list Byte) :=
  match ss_writer st with
  | WriterPublish | WriterStore _ => take (pred (length (ss_requests st))) (ss_requests st)
  | _ => ss_requests st
  end.

(** How the control thread's position relates to the snapshots made so far. *)
Definition writer_ok (st : SnapState) : Prop :=
  match ss_writer st with
  | WriterIdle | WriterPublish => S (ss_pointer st) = length (ss_history st)
  | WriterStore o => o = S (ss_pointer st) /\ S o = length (ss_history st) /\
                     ss_history st !! o = Some (rules_at (ss_requests st))
  | WriterRelease o => o = ss_pointer st /\ S o = length (ss_history st)
  end.

Record snap_inv (st : SnapState) : Prop := {
  si_counts : heap_counts (ss_heap st) (snap_refs st);
  si_rules : heap_rules (ss_heap st) (ss_history st);
  si_requests : Forall (Forall (fits 8)) (ss_requests st);
  si_core : core_repr kDefaultMaxRules (ss_control st) (rules_at (ss_requests st)) StatUpdate_default;
  si_history : forall o rules, ss_history st !! o = Some rules ->
    exists k, (k <= length (ss_requests st))%nat /\ rules = rules_at (take k (ss_requests st));
  si_readers : forall r o, ss_readers st !! r = Some o -> (o <= ss_pointer st)%nat;
  si_visible : ss_history st !! ss_pointer st = Some (rules_at (visible_requests st));
  si_writer : writer_ok st;
}.

Lemma rules_after_snoc rules requests request decoded :
  Forall (Forall (fits 8)) requests -> decode_message request = Some decoded ->
  rules_after padding rules StatUpdate_default (requests ++ [request])
  = (plane_reply padding (rules_after padding rules StatUpdate_default requests) StatUpdate_default decoded).2.
Proof.
  intros Hok Hd. revert rules. induction Hok as [|r requests Hr _ IH]; intros rules; cbn [app rules_after].
  - by rewrite Hd.
  - destruct (decode_total _ Hr) as [d ->]. apply IH.
Qed.

Lemma snap_init_inv : snap_inv SnapState_init.
Proof.
  split; try done.
  - change (snap_refs SnapState_init) with [0%nat]. intros [|o]; [by split; [|lia]|]. cbn [ss_heap SnapState_init].
    rewrite lookup_singleton_ne by done. by rewrite occurrences_cons_ne by done.
  - intros o s n H. cbn [ss_heap SnapState_init] in H. apply lookup_singleton_Some in H as [<- [= <- _]]. done.
  - intros o rules H. exists 0%nat. split; [done|]. destruct o as [|o]; [by injection H as <-|done].
Qed.

(** The sequential [handle_request] of the same core is [begin_request] and, if it says so,
    the publication. *)
Lemma begin_request_spec st request response :
  snap_inv st -> ss_writer st = WriterIdle -> request_ok (request, response) ->
  exists decoded result response' control publish,
    decode_message request = Some decoded /\
    begin_request padding (ss_control st) request response = Some (result, response', control, publish) /\
    core_repr kDefaultMaxRules control (rules_at (ss_requests st ++ [request])) StatUpdate_default /\
    (publish = false -> rules_at (ss_requests st ++ [request]) = rules_at (ss_requests st)).
Proof.
  intros Hinv Hidle (Hreq & Hrsp & Hroom). pose proof (si_visible st Hinv) as Hv. unfold visible_requests in Hv. rewrite Hidle in Hv.
  set (core := mkControlPlaneCore (ss_control st) (mkRuleSnapshot (rules_at (ss_requests st)))).
  destruct (handle_request_spec padding padding_bytes core _ _ request response (conj (si_core st Hinv) eq_refl) Hreq Hrsp Hroom)
    as (decoded & rsp & response' & core' & Hd & Hrun & [Hc' Hs'] & _). revert Hrun. unfold handle_request.
  unfold begin_request. cbn [cp_control_ core]. destruct (peek_request_opcode request) as [opcode|]; [|done]. cbn [mbind option_bind].
  destruct (handle _ _ _ _ _) as [[[rsp0 response0] control]|]; [|done]. cbn [mbind option_bind]. intros [= -> -> Hcore].
  pose proof (rules_after_snoc [] _ _ _ (si_requests st Hinv) Hd) as Hsnoc. fold (rules_at (ss_requests st)) in Hsnoc.
  fold (rules_at (ss_requests st ++ [request])) in Hsnoc. rewrite <-Hsnoc in Hc', Hs'.
  eexists decoded, rsp, response', control, _. split_and!; [done|done| |].
  - subst core'. destruct (_ && _) in Hc'; exact Hc'.
  - intros Hpub. rewrite Hpub in Hcore. subst core'. by rewrite <-Hs'.
Qed.

Lemma map_to_list_snd_insert (m : gmap nat nat) r o :
  m !! r = None -> (map_to_list (<[r := o]> m)).*2 ≡ₚ o :: (map_to_list m).*2.
Proof. intros H. by rewrite map_to_list_insert. Qed.

Lemma map_to_list_snd_delete (m : gmap nat nat) r o :
  m !! r = Some o -> (map_to_list m).*2 ≡ₚ o :: (map_to_list (delete r m)).*2.
Proof. intros H. by rewrite <-(map_to_list_delete m r o H). Qed.

(** ** Every step keeps it *)

Lemma si_requests_snoc st request :
  snap_inv st -> forall o rules, ss_history st !! o = Some rules ->
  exists k, (k <= length (ss_requests st ++ [request]))%nat /\ rules = rules_at (take k (ss_requests st ++ [request])).
Proof.
  intros Hinv o rules H. destruct (si_history st Hinv o rules H) as (k & Hk & ->). exists k.
  rewrite length_app, take_app_le by done. split; [lia|done].
Qed.

Lemma request_handled_inv st request response result response' control publish :
  snap_inv st -> ss_writer st = WriterIdle -> request_ok (request, response) ->
  begin_request padding (ss_control st) request response = Some (result, response', control, publish) ->
  snap_inv (request_handled st request control publish).
Proof.
  intros Hinv Hidle Hok Hrun. destruct (begin_request_spec st request response Hinv Hidle Hok)
    as (decoded & r1 & r2 & c1 & p1 & Hd & Hrun' & Hcore & Hsame). rewrite Hrun in Hrun'. injection Hrun' as <- <- <- <-.
  destruct Hinv as [Hc Hr Hq Hcr Hh Hrd Hv Hw] eqn:E. clear E.
  unfold snap_refs, visible_requests, writer_ok in *. rewrite Hidle in Hc, Hv, Hw. destruct publish; split; try done; cbn -[rules_at].
  - apply Forall_app. split; [done|]. constructor; [apply Hok|done].
  - by apply si_requests_snoc.
  - rewrite length_app. cbn. replace (pred (length (ss_requests st) + 1)) with (length (ss_requests st)) by lia.
    by rewrite take_app_length.
  - apply Forall_app. split; [done|]. constructor; [apply Hok|done].
  - by apply si_requests_snoc.
  - by rewrite Hsame.
Qed.

Lemma make_snapshot_inv st : snap_inv st -> ss_writer st = WriterPublish -> snap_inv (make_snapshot st).
Proof.
  intros [Hc Hr Hq Hcr Hh Hrd Hv Hw] Hpub.
  assert (cc_rules (ss_control st) = rules_at (ss_requests st)) as Hrules by apply (rt_repr_rules kDefaultMaxRules), Hcr.
  destruct (sp_make_spec _ _ _ (rules_at (ss_requests st)) Hc Hr) as [Hc' Hr'].
  unfold snap_refs, visible_requests, writer_ok in *. rewrite Hpub in Hc', Hv, Hw. unfold make_snapshot. rewrite Hrules.
  split; try done; cbn -[take].
  - eapply heap_counts_perm; [|exact Hc']. cbn. apply perm_swap.
  - intros o rules [H|[_ H]]%lookup_app_Some; [by apply (Hh o)|]. apply list_lookup_singleton_Some in H as [_ <-].
    exists (length (ss_requests st)). split; [done|]. by rewrite take_ge.
  - by apply lookup_app_l_Some.
  - rewrite length_app. cbn. split_and!; [lia|lia|]. by apply list_lookup_middle.
Qed.

Lemma store_snapshot_inv st o :
  snap_inv st -> ss_writer st = WriterStore o -> exists st', store_snapshot st o = Some st' /\ snap_inv st'.
Proof.
  intros [Hc Hr Hq Hcr Hh Hrd Hv Hw] Hst. unfold snap_refs, visible_requests, writer_ok in *. rewrite Hst in Hc, Hv, Hw.
  destruct Hw as (-> & Hlen & Hnew). unfold store_snapshot.
  destruct (sp_copy_spec (ss_heap st) (ss_history st) (ss_pointer st :: (map_to_list (ss_readers st)).*2) (S (ss_pointer st)))
    as (heap1 & -> & Hc1 & Hr1); [|done|].
  { eapply heap_counts_perm; [|exact Hc]. apply perm_swap. }
  destruct (sp_release_spec heap1 (ss_history st) (S (ss_pointer st) :: S (ss_pointer st) :: (map_to_list (ss_readers st)).*2)
    (ss_pointer st)) as (heap2 & Hrel & Hc2 & Hr2); [|done|].
  { eapply heap_counts_perm; [|exact Hc1]. symmetry. apply (Permutation_middle [S (ss_pointer st); S (ss_pointer st)]). }
  cbn [mbind option_bind]. rewrite Hrel. cbn [mbind option_bind]. eexists. split; [done|].
  split; try done; cbn. intros r o H. specialize (Hrd r o H). lia.
Qed.

Lemma end_publish_inv st o :
  snap_inv st -> ss_writer st = WriterRelease o -> exists st', end_publish st o = Some st' /\ snap_inv st'.
Proof.
  intros [Hc Hr Hq Hcr Hh Hrd Hv Hw] Hst. unfold snap_refs, visible_requests, writer_ok in *. rewrite Hst in Hc, Hv, Hw.
  destruct Hw as [-> Hlen]. unfold end_publish.
  destruct (sp_release_spec (ss_heap st) (ss_history st) (ss_pointer st :: (map_to_list (ss_readers st)).*2) (ss_pointer st))
    as (heap & -> & Hc' & Hr'); [done|done|].
  cbn [mbind option_bind]. eexists. split; [done|]. split; done.
Qed.

Lemma load_snapshot_inv st r :
  snap_inv st -> ss_readers st !! r = None -> exists st', load_snapshot st r = Some st' /\ snap_inv st'.
Proof.
  intros [Hc Hr Hq Hcr Hh Hrd Hv Hw] Hnone. unfold load_snapshot.
  destruct (sp_copy_spec _ _ _ _ Hc Hr) as (heap & -> & Hc' & Hr'). cbn [mbind option_bind]. eexists. split; [done|].
  split; try done; cbn.
  - eapply heap_counts_perm; [|exact Hc']. unfold snap_refs. cbn. rewrite map_to_list_snd_insert by done.
    constructor. apply Permutation_middle.
  - intros r' o [[<- <-]|[_ H]]%lookup_insert_Some; [done|]. by apply (Hrd r').
Qed.

Lemma drop_snapshot_inv st r o :
  snap_inv st -> ss_readers st !! r = Some o -> exists st', drop_snapshot st r = Some st' /\ snap_inv st'.
Proof.
  intros [Hc Hr Hq Hcr Hh Hrd Hv Hw] Hsome. unfold drop_snapshot. rewrite Hsome. cbn [mbind option_bind].
  destruct (sp_release_spec (ss_heap st) (ss_history st)
    (ss_pointer st :: writer_refs (ss_writer st) ++ (map_to_list (delete r (ss_readers st))).*2) o) as (heap & -> & Hc' & Hr'); [|done|].
  { eapply heap_counts_perm; [|exact Hc]. unfold snap_refs. rewrite (map_to_list_snd_delete _ _ _ Hsome).
    symmetry. apply (Permutation_middle (_ :: _)). }
  cbn [mbind option_bind]. eexists. split; [done|]. split; try done; cbn.
  intros r' o' [_ H]%lookup_delete_Some. by apply (Hrd r').
Qed.

Lemma snap_step_inv st st' : snap_inv st -> snap_step padding st st' -> snap_inv st'.
Proof.
  intros Hinv Hstep. revert Hinv.
  destruct Hstep as [st request response result response' control publish Hidle Hok Hrun|st Hpub|st st' o Hst Hrun
    |st st' o Hst Hrun|st st' r Hnone Hrun|st st' r Hrun]; intros Hinv.
  - by eapply request_handled_inv.
  - by apply make_snapshot_inv.
  - destruct (store_snapshot_inv _ _ Hinv Hst) as (st1 & Hrun1 & Hinv1). congruence.
  - destruct (end_publish_inv _ _ Hinv Hst) as (st1 & Hrun1 & Hinv1). congruence.
  - destruct (load_snapshot_inv _ _ Hinv Hnone) as (st1 & Hrun1 & Hinv1). congruence.
  - destruct (ss_readers st !! r) as [o|] eqn:Ho; [|unfold drop_snapshot in Hrun; by rewrite Ho in Hrun].
    destruct (drop_snapshot_inv _ _ _ Hinv Ho) as (st1 & Hrun1 & Hinv1). congruence.
Qed.

Lemma snap_reachable st st' : snap_inv st -> rtc (snap_step padding) st st' -> snap_inv st'.
Proof. intros Hinv. induction 1 as [|st st1 st' Hstep _ IH]; [done|]. by apply IH, (snap_step_inv st). Qed.

(** A referenced snapshot is alive. *)
Lemma ref_alive st o : snap_inv st -> o ∈ snap_refs st -> exists s n, ss_heap st !! o = Some (s, n) /\ ss_history st !! o = Some (sn_rules_ s).
Proof.
  intros Hinv Ho. pose proof (si_counts st Hinv o) as Hc. destruct (ss_heap st !! o) as [[s n]|] eqn:E.
  - exists s, n. split; [done|]. by apply (si_rules st Hinv _ _ _ E).
  - apply list_elem_of_In, (count_occ_In (fun a b => decide (a = b))) in Ho. unfold occurrences in Hc. lia.
Qed.

Lemma alive_ref st o : snap_inv st -> is_Some (ss_heap st !! o) -> o ∈ snap_refs st.
Proof.
  intros Hinv [[s n] Ho]. pose proof (si_counts st Hinv o) as Hc. rewrite Ho in Hc.
  apply list_elem_of_In, (count_occ_In (fun a b => decide (a = b))). unfold occurrences in Hc. lia.
Qed.

Lemma reader_ref st r o : ss_readers st !! r = Some o -> o ∈ snap_refs st.
Proof.
  intros H. unfold snap_refs. rewrite (map_to_list_snd_delete _ _ _ H). rewrite !elem_of_cons, elem_of_app, elem_of_cons. auto.
Qed.

Lemma reader_rules_history st r o :
  snap_inv st -> ss_readers st !! r = Some o -> exists rules, reader_rules st r = Some rules /\ ss_history st !! o = Some rules.
Proof.
  intros Hinv H. destruct (ref_alive st o Hinv (reader_ref _ _ _ H)) as (s & n & Ho & Hh).
  exists (sn_rules_ s). unfold reader_rules. rewrite H. cbn [mbind option_bind]. by rewrite Ho.
Qed.

Lemma heap_size st : snap_inv st -> (size (ss_heap st) <= 2 + size (ss_readers st))%nat.
Proof.
  intros Hinv. rewrite <-!length_map_to_list, <-(length_fmap fst (map_to_list (ss_heap st))).
  transitivity (length (snap_refs st)).
  - apply submseteq_length, NoDup_submseteq; [apply NoDup_fst_map_to_list|].
    intros o ([o' x] & -> & Hx%elem_of_map_to_list)%list_elem_of_fmap. apply alive_ref; [done|by exists x].
  - unfold snap_refs. cbn. rewrite length_app, length_fmap. destruct (ss_writer st); cbn; lia.
Qed.

End invariant.

(** ** Readers never see a freed, torn or outdated snapshot *)

(** C11: rule snapshots are safe to share.  In every interleaving of the control thread with
    any number of readers: a reader's snapshot stays alive as long as the reader holds it,
    and is the rule table as it was after some number of the requests; a reader that loads
    gets the table after all requests, except while one is being published, when it gets
    the table before or after it; no thread's next step copies or releases a freed
    snapshot; and a snapshot is alive exactly when something points to it, so that there
    are never more than two besides those that readers hold: none is freed early and none
    leaks. *)
Theorem snapshot_readers_safe (padding : list Byte) st :
  Forall (fits 8) padding -> rtc (snap_step padding) SnapState_init st ->
  (forall r o, ss_readers st !! r = Some o ->
     is_Some (drop_snapshot st r) /\
     exists k, (k <= length (ss_requests st))%nat /\ reader_rules st r = Some (rules_at padding (take k (ss_requests st)))) /\
  (forall r, ss_readers st !! r = None ->
     exists st', load_snapshot st r = Some st' /\ reader_rules st' r = Some (rules_at padding (visible_requests st))) /\
  match ss_writer st with
  | WriterIdle => forall request response, request_ok (request, response) -> is_Some (begin_request padding (ss_control st) request response)
  | WriterPublish => True
  | WriterStore o => is_Some (store_snapshot st o)
  | WriterRelease o => is_Some (end_publish st o)
  end /\
  (forall o, is_Some (ss_heap st !! o) <-> o ∈ snap_refs st) /\ (size (ss_heap st) <= 2 + size (ss_readers st))%nat.
Proof.
  intros Hpad Hreach. pose proof (snap_reachable padding Hpad _ _ (snap_init_inv padding) Hreach) as Hinv. split_and!.
  - intros r o Hr. destruct (drop_snapshot_inv padding st r o Hinv Hr) as (st' & -> & _). split; [done|].
    destruct (reader_rules_history padding st r o Hinv Hr) as (rules & Hrules & Hh).
    destruct (si_history padding st Hinv o rules Hh) as (k & Hk & ->). by exists k.
  - intros r Hr. destruct (load_snapshot_inv padding st r Hinv Hr) as (st' & Hrun & Hinv'). exists st'. split; [done|].
    assert (ss_readers st' !! r = Some (ss_pointer st) /\ ss_history st' = ss_history st) as [Hr' Hh].
    { apply bind_Some in Hrun as (heap & _ & [= <-]). cbn. by rewrite lookup_insert_eq. }
    destruct (reader_rules_history padding st' r _ Hinv' Hr') as (rules & -> & Hlook). rewrite Hh, (si_visible padding st Hinv) in Hlook. done.
  - destruct (ss_writer st) as [| |o|o] eqn:Hw; [|done| |].
    + intros request response Hok.
      destruct (begin_request_spec padding Hpad st request response Hinv Hw Hok) as (d & r1 & r2 & c & p & _ & -> & _). done.
    + by destruct (store_snapshot_inv padding st o Hinv Hw) as (st' & -> & _).
    + by destruct (end_publish_inv padding st o Hinv Hw) as (st' & -> & _).
  - intros o. split; [by apply (alive_ref padding)|]. intros Ho.
    destruct (ref_alive padding st o Hinv Ho) as (s & n & -> & _). done.
  - by apply (heap_size padding).
Qed.

(** The order of the snapshots that a reader sees. *)
Lemma snap_step_history padding st st' : snap_step padding st st' -> ss_history st `prefix_of` ss_history st'.
Proof.
  destruct 1 as [st request response result response' control publish Hidle Hok Hrun|st Hpub|st st' o Hst Hrun
    |st st' o Hst Hrun|st st' r Hnone Hrun|st st' r Hrun]; try done.
  - by apply prefix_app_r.
  - by apply bind_Some in Hrun as (h1 & _ & (h2 & _ & [= <-])%bind_Some).
  - by apply bind_Some in Hrun as (h1 & _ & [= <-]).
  - by apply bind_Some in Hrun as (h1 & _ & [= <-]).
  - by apply bind_Some in Hrun as (o & _ & (h & _ & [= <-])%bind_Some).
Qed.

Lemma snap_step_pointer padding st st' r v :
  snap_inv padding st -> snap_step padding st st' -> (v <= ss_pointer st)%nat ->
  (forall o, ss_readers st !! r = Some o -> (v <= o)%nat) ->
  (v <= ss_pointer st')%nat /\ forall o, ss_readers st' !! r = Some o -> (v <= o)%nat.
Proof.
  intros Hinv Hstep Hp Hr. revert Hinv Hp Hr. destruct Hstep as [st request response result response' control publish Hidle Hok Hrun
    |st Hpub|st st' o Hst Hrun|st st' o Hst Hrun|st st' r' Hnone Hrun|st st' r' Hrun]; intros Hinv Hp Hr; try done.
  - pose proof (si_writer padding st Hinv) as Hw. unfold writer_ok in Hw. rewrite Hst in Hw. destruct Hw as (-> & _).
    apply bind_Some in Hrun as (h1 & _ & (h2 & _ & [= <-])%bind_Some). cbn. split; [lia|done].
  - by apply bind_Some in Hrun as (h1 & _ & [= <-]).
  - apply bind_Some in Hrun as (h1 & _ & [= <-]). cbn. split; [done|].
    intros o [[-> <-]|[_ H]]%lookup_insert_Some; [done|by apply Hr].
  - apply bind_Some in Hrun as (o & _ & (h & _ & [= <-])%bind_Some). cbn. split; [done|].
    intros o' [_ H]%lookup_delete_Some. by apply Hr.
Qed.

(** C32: readers see the rules change in order.  A reader that holds one snapshot and later
    another holds a later one, never an earlier; as long as it holds one and the same, it
    reads the same rules, whatever the control thread publishes in between. *)
Theorem snapshot_reads_ordered (padding : list Byte) st1 st2 r o1 o2 :
  Forall (fits 8) padding -> rtc (snap_step padding) SnapState_init st1 -> rtc (snap_step padding) st1 st2 ->
  ss_readers st1 !! r = Some o1 -> ss_readers st2 !! r = Some o2 ->
  (o1 <= o2)%nat /\ (o1 = o2 -> exists rules, reader_rules st1 r = Some rules /\ reader_rules st2 r = Some rules).
Proof.
  intros Hpad Hreach Hrun H1 H2. pose proof (snap_reachable padding Hpad _ _ (snap_init_inv padding) Hreach) as Hinv1.
  assert (snap_inv padding st2 /\ ss_history st1 `prefix_of` ss_history st2 /\ (o1 <= ss_pointer st2)%nat /\
    forall o, ss_readers st2 !! r = Some o -> (o1 <= o)%nat) as (Hinv2 & Hpre & _ & Hle).
  { clear Hreach H2. assert (forall o, ss_readers st1 !! r = Some o -> (o1 <= o)%nat) as Hr by (intros; simplify_eq; lia).
    pose proof (si_readers padding st1 Hinv1 r o1 H1) as Hp. clear H1. revert Hinv1 Hp Hr.
    induction Hrun as [st|st st' st2 Hstep _ IH]; intros Hinv Hp Hr; [done|].
    destruct (snap_step_pointer padding _ _ r o1 Hinv Hstep Hp Hr) as [Hp' Hr'].
    destruct (IH (snap_step_inv padding Hpad _ _ Hinv Hstep) Hp' Hr') as (Hinv2 & Hpre & Hp2 & Hr2).
    split_and!; [done| |done|done]. etrans; [by eapply snap_step_history|done]. }
  split; [by apply Hle|]. intros ->.
  destruct (reader_rules_history padding st1 r _ Hinv1 H1) as (rules & -> & Hh1).
  destruct (reader_rules_history padding st2 r _ Hinv2 H2) as (rules' & -> & Hh2).
  rewrite (prefix_lookup_Some _ _ _ _ Hh1 Hpre) in Hh2. exists rules. by injection Hh2 as ->.
Qed.

(** ** An example: reader 7 loads, then a rule is added and published *)

Definition snap_example_1 : SnapState := default SnapState_init (load_snapshot SnapState_init 7).

Definition snap_example_2 : SnapState :=
  match begin_request [0; 0; 0; 0] (ss_control snap_example_1) example_add_request (replicate 64 0) with
  | Some (_, _, control, publish) => request_handled snap_example_1 example_add_request control publish
  | None => snap_example_1
  end.

Definition snap_example_3 : SnapState := make_snapshot snap_example_2.
Definition snap_example_4 : SnapState := default snap_example_3 (store_snapshot snap_example_3 1).
Definition snap_example_5 : SnapState := default snap_example_4 (end_publish snap_example_4 1).

Lemma snap_example_loaded : rtc (snap_step [0; 0; 0; 0]) SnapState_init snap_example_1.
Proof. apply rtc_once, (snap_load_step _ _ _ 7); [done|vm_compute; reflexivity]. Qed.

Lemma snap_example_published : rtc (snap_step [0; 0; 0; 0]) snap_example_1 snap_example_5.
Proof.
  apply (rtc_l _ _ snap_example_2).
  { assert (exists r1 r2 c, begin_request [0; 0; 0; 0] (ss_control snap_example_1) example_add_request (replicate 64 0)
      = Some (r1, r2, c, true)) as (r1 & r2 & c & E) by (vm_compute; eauto).
    unfold snap_example_2. rewrite E. eapply snap_request_step; [done| |exact E]. repeat constructor; by vm_compute. }
  apply (rtc_l _ _ snap_example_3); [apply snap_make_step; by vm_compute|].
  apply (rtc_l _ _ snap_example_4); [apply (snap_store_step _ _ _ 1); vm_compute; reflexivity|].
  apply rtc_once, (snap_end_step _ _ _ 1); vm_compute; reflexivity.
Qed.

Lemma snapshot_readers_safe_witness :
  reader_rules snap_example_5 7 = Some [] /\
  exists st', load_snapshot snap_example_5 8 = Some st' /\ reader_rules st' 8 = Some [example_rule].
Proof.
  assert (rtc (snap_step [0; 0; 0; 0]) SnapState_init snap_example_5) as Hrun by (etrans; [apply snap_example_loaded|apply snap_example_published]).
  destruct (snapshot_readers_safe [0; 0; 0; 0] snap_example_5 ltac:(by repeat constructor) Hrun) as (Hheld & Hload & _). split.
  - by vm_compute.
  - destruct (Hload 8%nat ltac:(by vm_compute)) as (st' & Hst & Hrules). exists st'. split; [exact Hst|]. rewrite Hrules. by vm_compute.
Defined.

Lemma snapshot_reads_ordered_witness :
  exists rules, reader_rules snap_example_1 7 = Some rules /\ reader_rules snap_example_5 7 = Some rules.
Proof.
  refine (proj2 (snapshot_reads_ordered [0; 0; 0; 0] snap_example_1 snap_example_5 7 0 0 _ snap_example_loaded
    snap_example_published _ _) eq_refl); [by repeat constructor|by vm_compute|by vm_compute].
Defined.
