(* ===== verification/ControlServer.v ===== *)
(** * [include/chronosx/control_plane.hpp]: the epoll server

    [ControlPlaneServer] owns the listening socket and the connections, reads bytes into
    their buffers and answers complete messages.  The operating system is a parameter:
    the class [Os] has the system calls the server makes, as functions on a [World], the
    class [OsLaws] what POSIX says of them.  The server has no locks and its rounds are
    run by one thread. *)

From stdpp Require Import gmap relations.
From S2P Require Import Prelude Types Ring ChaosEngine Protocol ControlCore ControlPlane.

(** ** The operating system

    Results are as in C: a negative number is a failure, with [errno].  [os_open] is the
    set of the process's descriptors, [os_delivered w fd] what was sent on [fd] so far,
    [os_interrupts] bounds how often calls will be interrupted by signals. *)

Inductive Errno := EINTR | EAGAIN | EOTHER.

#[export] Instance Errno_eq_dec : EqDecision Errno.
Proof. solve_decision. Defined.

Class Os (World : Type) := {
  os_socket : World -> Z * World;
  os_setsockopt : World -> Z -> World;
  os_bind : World -> Z -> Z -> Z * World;
  os_listen : World -> Z -> Z -> Z * World;
  os_epoll_create1 : World -> Z * World;
  os_eventfd : World -> Z * World;
  os_epoll_ctl_add : World -> Z -> Z -> Z * World;
  os_epoll_wait : World -> Z -> Z -> (Z * list Z * Errno) * World;
  os_accept4 : World -> Z -> Z * World;
  os_recv : World -> Z -> Z -> (Z * list Byte * Errno) * World;
  os_send : World -> Z -> list Byte -> (Z * Errno) * World;
  os_write_eventfd : World -> Z -> World;
  os_close : World -> Z -> World;
  os_open : World -> gset Z;
  os_delivered : World -> Z -> list Byte;
  os_interrupts : World -> nat;
}.

(** ** [ControlPlaneServer] *)

Record ControlPlaneServer := mkControlPlaneServer {
  cs_config_ : ControlPlaneConfig;
  cs_core_ : ControlPlaneCore;
  cs_listen_fd_ : Z;
  cs_epoll_fd_ : Z;
  cs_event_fd_ : Z;
  cs_initialized_ : bool;
  cs_client_fds_ : list Z;
  cs_buffers_ : list ConnectionBuffer;
  cs_connection_count_ : Z;
  cs_messages_handled_ : Z;
}.

(** The members that change one by one. *)
Definition cs_set_core (s : ControlPlaneServer) (core : ControlPlaneCore) : ControlPlaneServer :=
  mkControlPlaneServer (cs_config_ s) core (cs_listen_fd_ s) (cs_epoll_fd_ s) (cs_event_fd_ s) (cs_initialized_ s)
    (cs_client_fds_ s) (cs_buffers_ s) (cs_connection_count_ s) (cs_messages_handled_ s).
Definition cs_set_buffers (s : ControlPlaneServer) (buffers : list ConnectionBuffer) : ControlPlaneServer :=
  mkControlPlaneServer (cs_config_ s) (cs_core_ s) (cs_listen_fd_ s) (cs_epoll_fd_ s) (cs_event_fd_ s) (cs_initialized_ s)
    (cs_client_fds_ s) buffers (cs_connection_count_ s) (cs_messages_handled_ s).
Definition cs_set_connections (s : ControlPlaneServer) (fds : list Z) (buffers : list ConnectionBuffer) (count : Z)
    : ControlPlaneServer :=
  mkControlPlaneServer (cs_config_ s) (cs_core_ s) (cs_listen_fd_ s) (cs_epoll_fd_ s) (cs_event_fd_ s) (cs_initialized_ s)
    fds buffers count (cs_messages_handled_ s).
Definition cs_inc_messages_handled (s : ControlPlaneServer) : ControlPlaneServer :=
  mkControlPlaneServer (cs_config_ s) (cs_core_ s) (cs_listen_fd_ s) (cs_epoll_fd_ s) (cs_event_fd_ s) (cs_initialized_ s)
    (cs_client_fds_ s) (cs_buffers_ s) (cs_connection_count_ s) (u64 (cs_messages_handled_ s + 1)).
Definition cs_set_fds (s : ControlPlaneServer) (listen_fd epoll_fd event_fd : Z) (initialized : bool) : ControlPlaneServer :=
  mkControlPlaneServer (cs_config_ s) (cs_core_ s) listen_fd epoll_fd event_fd initialized
    (cs_client_fds_ s) (cs_buffers_ s) (cs_connection_count_ s) (cs_messages_handled_ s).
Definition cs_set_config (s : ControlPlaneServer) (config : ControlPlaneConfig) (core : ControlPlaneCore) : ControlPlaneServer :=
  mkControlPlaneServer config core (cs_listen_fd_ s) (cs_epoll_fd_ s) (cs_event_fd_ s) (cs_initialized_ s)
    (cs_client_fds_ s) (cs_buffers_ s) (cs_connection_count_ s) (cs_messages_handled_ s).

(** A new server; its core is the one it is initialised with. *)
Definition ControlPlaneServer_default (core : ControlPlaneCore) : ControlPlaneServer :=
  mkControlPlaneServer ControlPlaneConfig_default core (-1) (-1) (-1) false
    (replicate (Z.to_nat kMaxControlConnections) 0)
    (replicate (Z.to_nat kMaxControlConnections) ConnectionBuffer_default) 0 0.

Section Server.
Context {World : Type} `{!Os World} (padding : list Byte).

(** [close_fd]: the descriptor's new value and the world. *)
Definition close_fd (w : World) (fd : Z) : Z * World :=
  if 0 <=? fd then (-1, os_close w fd) else (fd, w).

Definition add_to_epoll (w : World) (s : ControlPlaneServer) (fd : Z) : bool * World :=
  let '(r, w) := os_epoll_ctl_add w (cs_epoll_fd_ s) fd in (r =? 0, w).

Definition cs_init (w : World) (s : ControlPlaneServer) (config : ControlPlaneConfig) (core : ControlPlaneCore)
    : ControlPlaneStatus * ControlPlaneServer * World :=
  if cs_initialized_ s then (ControlPlaneStatus_AlreadyInitialized, s, w)
  else if negb (cpc_valid config) then (ControlPlaneStatus_InvalidMessage, s, w)
  else
    let s := cs_set_config s config core in
    let '(listen_fd, w) := os_socket w in
    let s := cs_set_fds s listen_fd (cs_epoll_fd_ s) (cs_event_fd_ s) (cs_initialized_ s) in
    if listen_fd <? 0 then (ControlPlaneStatus_BindFailed, s, w)
    else
      let w := os_setsockopt w listen_fd in
      let '(r, w) := os_bind w listen_fd (cpc_port config) in
      if r <? 0 then
        let '(listen_fd, w) := close_fd w listen_fd in
        (ControlPlaneStatus_BindFailed, cs_set_fds s listen_fd (cs_epoll_fd_ s) (cs_event_fd_ s) (cs_initialized_ s), w)
      else
        let '(r, w) := os_listen w listen_fd (cpc_listen_backlog config) in
        if r <? 0 then
          let '(listen_fd, w) := close_fd w listen_fd in
          (ControlPlaneStatus_ListenFailed, cs_set_fds s listen_fd (cs_epoll_fd_ s) (cs_event_fd_ s) (cs_initialized_ s), w)
        else
          let '(epoll_fd, w) := os_epoll_create1 w in
          let s := cs_set_fds s listen_fd epoll_fd (cs_event_fd_ s) (cs_initialized_ s) in
          if epoll_fd <? 0 then
            let '(listen_fd, w) := close_fd w listen_fd in
            (ControlPlaneStatus_EpollCreateFailed,
             cs_set_fds s listen_fd epoll_fd (cs_event_fd_ s) (cs_initialized_ s), w)
          else
            let '(event_fd, w) := os_eventfd w in
            let s := cs_set_fds s listen_fd epoll_fd event_fd (cs_initialized_ s) in
            if event_fd <? 0 then
              let '(epoll_fd, w) := close_fd w epoll_fd in
              let '(listen_fd, w) := close_fd w listen_fd in
              (ControlPlaneStatus_EventFdFailed, cs_set_fds s listen_fd epoll_fd event_fd (cs_initialized_ s), w)
            else
              let '(added, w) := add_to_epoll w s listen_fd in
              let '(added, w) := if added then add_to_epoll w s event_fd else (false, w) in
              if negb added then
                let '(event_fd, w) := close_fd w event_fd in
                let '(epoll_fd, w) := close_fd w epoll_fd in
                let '(listen_fd, w) := close_fd w listen_fd in
                (ControlPlaneStatus_EpollCreateFailed, cs_set_fds s listen_fd epoll_fd event_fd (cs_initialized_ s), w)
              else (ControlPlaneStatus_Ok, cs_set_fds s listen_fd epoll_fd event_fd true, w).

(** The loop of [find_slot] from [index] on, with [n] connections left. *)
Fixpoint find_slot_loop (n : nat) (s : ControlPlaneServer) (fd index : Z) : option Z :=
  match n with
  | O => Some (cs_connection_count_ s)
  | S n =>
      client ← (cs_client_fds_ s).[index];
      if client =? fd then Some index else find_slot_loop n s fd (index + 1)
  end.

Definition find_slot (s : ControlPlaneServer) (fd : Z) : option Z :=
  find_slot_loop (Z.to_nat (cs_connection_count_ s)) s fd 0.

Definition remove_connection (w : World) (s : ControlPlaneServer) (slot : Z) : option (ControlPlaneServer * World) :=
  if cs_connection_count_ s <=? slot then Some (s, w)
  else
    fd ← (cs_client_fds_ s).[slot];
    let '(fd, w) := close_fd w fd in
    fds ← (cs_client_fds_ s).[slot <- fd];
    '(fds, buffers) ←
      (if slot <? u64 (cs_connection_count_ s - 1) then
         last_fd ← fds.[u64 (cs_connection_count_ s - 1)];
         fds ← fds.[slot <- last_fd];
         last_buffer ← (cs_buffers_ s).[u64 (cs_connection_count_ s - 1)];
         buffers ← (cs_buffers_ s).[slot <- last_buffer];
         Some (fds, buffers)
       else Some (fds, cs_buffers_ s));
    Some (cs_set_connections s fds buffers (u64 (cs_connection_count_ s - 1)), w).

Definition handle_accept (w : World) (s : ControlPlaneServer) : option (ControlPlaneServer * World) :=
  let '(client, w) := os_accept4 w (cs_listen_fd_ s) in
  if client <? 0 then Some (s, w)
  else if cpc_max_connections (cs_config_ s) <=? cs_connection_count_ s then Some (s, os_close w client)
  else
    let '(added, w) := add_to_epoll w s client in
    if negb added then Some (s, os_close w client)
    else
      fds ← (cs_client_fds_ s).[cs_connection_count_ s <- client];
      buffer ← (cs_buffers_ s).[cs_connection_count_ s];
      buffers ← (cs_buffers_ s).[cs_connection_count_ s <- cb_reset buffer];
      Some (cs_set_connections s fds buffers (u64 (cs_connection_count_ s + 1)), w).

(** [send_all]; [fuel] bounds the number of calls of [send]. *)
Fixpoint send_all (fuel : nat) (w : World) (fd : Z) (bytes : list Byte) : option (bool * World) :=
  match bytes with
  | [] => Some (true, w)
  | _ =>
      match fuel with
      | O => None
      | S fuel =>
          let '((sent, errno), w) := os_send w fd bytes in
          if (sent <? 0) && (errno =?? EINTR) then send_all fuel w fd bytes
          else if sent <=? 0 then Some (false, w)
          else send_all fuel w fd (drop (Z.to_nat sent) bytes)
      end
  end.

(** The loop of [handle_client] over the complete messages in the buffer. *)
Fixpoint client_loop (n send_fuel : nat) (w : World) (s : ControlPlaneServer) (slot fd : Z)
    : option (ControlPlaneServer * World) :=
  match n with
  | O => None
  | S n =>
      buffer ← (cs_buffers_ s).[slot];
      complete ← cb_has_complete_message buffer;
      if negb complete then Some (s, w)
      else
        msg_len ← cb_next_message_length buffer;
        if (msg_len =? 0) || (cb_readable_bytes buffer <? msg_len) then remove_connection w s slot
        else
          msg_data ← span_first (cb_readable buffer) msg_len;
          '(result, response, core) ←
             handle_request padding (cs_core_ s) msg_data (replicate (Z.to_nat kControlResponseBufferBytes) 0);
          buffer ← cb_consume buffer msg_len;
          buffers ← (cs_buffers_ s).[slot <- buffer];
          let s := cs_set_buffers (cs_set_core s core) buffers in
          '(sent, w) ← (if 0 <? rsp_bytes_written result
                        then send_all send_fuel w fd (take (Z.to_nat (rsp_bytes_written result)) response)
                        else Some (true, w));
          if negb sent then remove_connection w s slot
          else client_loop n send_fuel w (cs_inc_messages_handled s) slot fd
  end.

(** Every message of the loop takes at least a byte of the buffer, which bounds it. *)
Definition client_fuel : nat := S (Z.to_nat kControlReadBufferBytes).

Definition handle_client (send_fuel : nat) (w : World) (s : ControlPlaneServer) (fd : Z)
    : option (ControlPlaneServer * World) :=
  slot ← find_slot s fd;
  if slot =? cs_connection_count_ s then Some (s, w)
  else
    let '((bytes_read, read_buf, errno), w) := os_recv w fd 4096 in
    if (bytes_read <? 0) && (errno =?? EAGAIN) then Some (s, w)
    else if bytes_read <=? 0 then remove_connection w s slot
    else
      buffer ← (cs_buffers_ s).[slot];
      '(appended, buffer) ← cb_append buffer (take (Z.to_nat bytes_read) read_buf);
      buffers ← (cs_buffers_ s).[slot <- buffer];
      let s := cs_set_buffers s buffers in
      if negb (appended =? bytes_read) || cb_overflowed_ buffer then remove_connection w s slot
      else client_loop client_fuel send_fuel w s slot fd.

(** The loop of [run_once] over the ready descriptors. *)
Fixpoint dispatch_loop (send_fuel : nat) (w : World) (s : ControlPlaneServer) (events : list Z)
    : option (ControlPlaneStatus * ControlPlaneServer * World) :=
  match events with
  | [] => Some (ControlPlaneStatus_Ok, s, w)
  | fd :: events =>
      if fd =? cs_event_fd_ s then Some (ControlPlaneStatus_ShutdownRequested, s, w)
      else if fd =? cs_listen_fd_ s then
        '(s, w) ← handle_accept w s; dispatch_loop send_fuel w s events
      else
        '(s, w) ← handle_client send_fuel w s fd; dispatch_loop send_fuel w s events
  end.

Definition run_once (send_fuel : nat) (w : World) (s : ControlPlaneServer)
    : option (ControlPlaneStatus * ControlPlaneServer * World) :=
  if negb (cs_initialized_ s) then Some (ControlPlaneStatus_NotInitialized, s, w)
  else
    let '((nfds, events, errno), w) := os_epoll_wait w (cs_epoll_fd_ s) kMaxEpollEvents in
    if nfds <? 0 then
      if errno =?? EINTR then Some (ControlPlaneStatus_Ok, s, w)
      else Some (ControlPlaneStatus_EpollCreateFailed, s, w)
    else dispatch_loop send_fuel w s (take (Z.to_nat nfds) events).

(** [run]: [running] are the values the flag is read with, one per round. *)
Fixpoint cs_run (send_fuel : nat) (w : World) (s : ControlPlaneServer) (running : list bool)
    : option (ControlPlaneServer * World) :=
  match running with
  | true :: running =>
      '(status, s, w) ← run_once send_fuel w s;
      if status =?? ControlPlaneStatus_ShutdownRequested then Some (s, w) else cs_run send_fuel w s running
  | _ => Some (s, w)
  end.

Definition request_shutdown (w : World) (s : ControlPlaneServer) : World :=
  if 0 <=? cs_event_fd_ s then os_write_eventfd w (cs_event_fd_ s) else w.

(** The loop of [shutdown] from [index] on, with [n] connections left. *)
Fixpoint close_loop (n : nat) (w : World) (fds : list Z) (index : Z) : option (list Z * World) :=
  match n with
  | O => Some (fds, w)
  | S n =>
      fd ← fds.[index];
      let '(fd, w) := close_fd w fd in
      fds ← fds.[index <- fd];
      close_loop n w fds (index + 1)
  end.

Definition cs_shutdown (w : World) (s : ControlPlaneServer) : option (ControlPlaneServer * World) :=
  '(fds, w) ← close_loop (Z.to_nat (cs_connection_count_ s)) w (cs_client_fds_ s) 0;
  let s := cs_set_connections s fds (cs_buffers_ s) 0 in
  let '(event_fd, w) := close_fd w (cs_event_fd_ s) in
  let '(epoll_fd, w) := close_fd w (cs_epoll_fd_ s) in
  let '(listen_fd, w) := close_fd w (cs_listen_fd_ s) in
  Some (cs_set_fds s listen_fd epoll_fd event_fd false, w).

End Server.

(** ** What POSIX says of the system calls *)

(** A call that may open a descriptor returns the number of one that was not open. *)
Definition opened `{!Os World} (w : World) (fd : Z) (w' : World) : Prop :=
  (fd < 0 /\ os_open w' = os_open w) \/ (0 <= fd /\ (fd ∉ os_open w) /\ os_open w' = {[fd]} ∪ os_open w).

(** Nothing is sent, and signals are only used up. *)
Definition quiet `{!Os World} (w w' : World) : Prop :=
  (os_interrupts w' <= os_interrupts w)%nat /\ forall fd, os_delivered w' fd = os_delivered w fd.

Class OsLaws (World : Type) `{!Os World} := {
  os_socket_law : forall w fd w', os_socket w = (fd, w') -> opened w fd w' /\ quiet w w';
  os_epoll_create1_law : forall w fd w', os_epoll_create1 w = (fd, w') -> opened w fd w' /\ quiet w w';
  os_eventfd_law : forall w fd w', os_eventfd w = (fd, w') -> opened w fd w' /\ quiet w w';
  os_accept4_law : forall w l fd w', os_accept4 w l = (fd, w') -> opened w fd w' /\ quiet w w';
  os_setsockopt_law : forall w fd, os_open (os_setsockopt w fd) = os_open w /\ quiet w (os_setsockopt w fd);
  os_bind_law : forall w fd p r w', os_bind w fd p = (r, w') -> os_open w' = os_open w /\ quiet w w';
  os_listen_law : forall w fd b r w', os_listen w fd b = (r, w') -> os_open w' = os_open w /\ quiet w w';
  os_epoll_ctl_add_law : forall w e fd r w', os_epoll_ctl_add w e fd = (r, w') -> os_open w' = os_open w /\ quiet w w';
  os_epoll_wait_law : forall w e n r w', os_epoll_wait w e n = (r, w') -> os_open w' = os_open w /\ quiet w w';
  os_recv_law : forall w fd n r data errno w', os_recv w fd n = ((r, data, errno), w') ->
    os_open w' = os_open w /\ quiet w w' /\ (0 < r -> r <= n /\ r <= zlen data /\ Forall (fits 8) data);
  os_send_law : forall w fd bytes sent errno w', os_send w fd bytes = ((sent, errno), w') ->
    os_open w' = os_open w /\ (os_interrupts w' <= os_interrupts w)%nat /\
    (sent < 0 -> errno = EINTR -> (os_interrupts w' < os_interrupts w)%nat) /\ sent <= zlen bytes /\
    os_delivered w' fd = os_delivered w fd ++ take (Z.to_nat sent) bytes /\
    forall fd', fd' <> fd -> os_delivered w' fd' = os_delivered w fd';
  os_write_eventfd_law : forall w fd, os_open (os_write_eventfd w fd) = os_open w /\ quiet w (os_write_eventfd w fd);
  os_close_law : forall w fd, os_open (os_close w fd) = os_open w ∖ {[fd]} /\ quiet w (os_close w fd);
}.

(** ** Removal by swapping

    The element at [i] is taken out of a list, and the last one takes its place. *)
Definition swap_out {A} (i : nat) (l : list A) : list A :=
  match last l with
  | Some x => take (pred (length l)) (<[i := x]> l)
  | None => []
  end.

Lemma swap_out_perm {A} (l : list A) i x : l !! i = Some x -> l ≡ₚ x :: swap_out i l.
Proof.
  intros Hi. unfold swap_out. destruct (last l) as [z|] eqn:Hz; [|by apply last_None in Hz; subst].
  apply last_Some in Hz as [k ->]. rewrite length_app. cbn [length]. replace (pred (length k + 1)) with (length k) by lia.
  apply lookup_app_Some in Hi as [Hi|[Hi Hz]].
  - rewrite insert_app_l by (by eapply lookup_lt_Some). rewrite take_app_length' by (by rewrite length_insert).
    apply list_elem_of_split_length in Hi as (l1 & l2 & -> & ->). rewrite insert_app_r_alt, Nat.sub_diag by lia. cbn.
    rewrite <-app_assoc. cbn. by rewrite <-!Permutation_middle, !app_nil_r.
  - apply list_lookup_singleton_Some in Hz as [Hz <-]. replace i with (length k) by lia.
    rewrite insert_app_r_alt, Nat.sub_diag by lia. rewrite take_app_length. cbn. by rewrite <-Permutation_cons_append.
Qed.

Lemma swap_out_lookup {A} (l : list A) i j y :
  (i < length l)%nat -> swap_out i l !! j = Some y ->
  (S j < length l)%nat /\ if decide (j = i) then last l = Some y else l !! j = Some y.
Proof.
  intros Hi. unfold swap_out. destruct (last l) as [z|] eqn:Hz; [|done].
  intros [Hj Hl]%lookup_take_Some. split; [lia|]. case_decide as E.
  - subst j. by rewrite list_lookup_insert_eq in Hj by done.
  - by rewrite list_lookup_insert_ne in Hj by done.
Qed.

Lemma swap_out_length {A} (l : list A) i x : l !! i = Some x -> length l = S (length (swap_out i l)).
Proof. intros H%swap_out_perm%Permutation_length. done. Qed.

Lemma swap_out_insert {A} (l : list A) i y : (i < length l)%nat -> swap_out i (<[i := y]> l) = swap_out i l.
Proof.
  intros Hi. unfold swap_out. rewrite !last_lookup, length_insert.
  destruct (decide (i = pred (length l))) as [->|Hne].
  - rewrite list_lookup_insert_eq by done. rewrite list_insert_insert_eq.
    destruct (lookup_lt_is_Some_2 l (pred (length l)) ltac:(lia)) as [z ->]. by rewrite !take_insert_ge by lia.
  - rewrite list_lookup_insert_ne by done. destruct (l !! pred (length l)); [|done]. by rewrite list_insert_insert_eq.
Qed.

(** The segments that arrived on a connection and are not read yet. *)
Class OsInbox (World : Type) `{!Os World} := {
  os_incoming : World -> Z -> list (list Byte);
  os_incoming_recv : forall w fd n c cs, os_incoming w fd = c :: cs -> Forall (fits 8) c -> 0 < zlen c <= n ->
    exists data errno w', os_recv w fd n = ((zlen c, data, errno), w') /\ take (length c) data = c /\ os_incoming w' fd = cs;
  os_incoming_send : forall w fd bytes r w', os_send w fd bytes = (r, w') -> os_incoming w' fd = os_incoming w fd;
}.

Section server.
Context {World : Type} `{!Os World} `{!OsLaws World}.

Lemma quiet_trans w1 w2 w3 : quiet w1 w2 -> quiet w2 w3 -> quiet w1 w3.
Proof. intros [H1 H2] [H3 H4]. split; [lia|]. intros fd. by rewrite H4. Qed.

(** The connections [conns], with the bytes that are pending on each, in the order of
    their slots.  [base] are the descriptors of the rest of the process. *)
Record srv_rel (base : gset Z) (w : World) (s : ControlPlaneServer) (conns : list (Z * list Byte))
    (rules : list ChaosRule) (stats : StatUpdate) : Prop := {
  sv_init : cs_initialized_ s = true;
  sv_config : cpc_valid (cs_config_ s) = true;
  sv_count : cs_connection_count_ s = zlen conns;
  sv_max : zlen conns <= cpc_max_connections (cs_config_ s);
  sv_fds : zlen (cs_client_fds_ s) = kMaxControlConnections;
  sv_buffers : zlen (cs_buffers_ s) = kMaxControlConnections;
  sv_buffers_ok : Forall cb_ok (cs_buffers_ s);
  sv_conn : forall (i : nat) fd p, conns !! i = Some (fd, p) ->
    (cs_client_fds_ s).[Z.of_nat i] = Some fd /\ exists b, (cs_buffers_ s).[Z.of_nat i] = Some b /\ cb_repr b p;
  sv_nodup : NoDup (cs_listen_fd_ s :: cs_epoll_fd_ s :: cs_event_fd_ s :: conns.*1);
  sv_own : Forall (fun fd => 0 <= fd /\ fd ∉ base) (cs_listen_fd_ s :: cs_epoll_fd_ s :: cs_event_fd_ s :: conns.*1);
  sv_open : os_open w = base ∪ list_to_set (cs_listen_fd_ s :: cs_epoll_fd_ s :: cs_event_fd_ s :: conns.*1);
  sv_plane : plane_repr (cs_core_ s) rules stats;
}.

Lemma sv_max16 base w s conns rules stats : srv_rel base w s conns rules stats -> zlen conns <= 16.
Proof.
  intros Hr. pose proof (sv_config _ _ _ _ _ _ Hr) as Hv. pose proof (sv_max _ _ _ _ _ _ Hr).
  unfold cpc_valid, kMaxControlConnections in Hv. rewrite !andb_true_iff, !Z.ltb_lt, Z.leb_le in Hv. lia.
Qed.

(** The operating system may change whatever the relation does not mention. *)
Lemma srv_rel_world base w w' s conns rules stats :
  os_open w' = os_open w -> srv_rel base w s conns rules stats -> srv_rel base w' s conns rules stats.
Proof. intros Ho []. split; try done. by rewrite Ho. Qed.

Lemma find_slot_loop_spec n i s fd conns base w rules stats :
  srv_rel base w s conns rules stats -> (i + n = length conns)%nat ->
  find_slot_loop n s fd (Z.of_nat i)
  = Some match list_find (fun c => c.1 = fd) (drop i conns) with
         | Some (j, _) => Z.of_nat (i + j) | None => zlen conns end.
Proof.
  intros Hr. revert i. induction n as [|n IH]; intros i Hi; cbn [find_slot_loop].
  { rewrite drop_ge by lia. cbn. by rewrite (sv_count _ _ _ _ _ _ Hr). }
  destruct (lookup_lt_is_Some_2 conns i) as [[fd' p] Hc]; [lia|]. rewrite (drop_S _ _ _ Hc).
  destruct (sv_conn _ _ _ _ _ _ Hr _ _ _ Hc) as [-> _]. cbn [mbind option_bind list_find]. cbn [fst].
  destruct (Z.eqb_spec fd' fd) as [->|Hne].
  - rewrite decide_True by done. do 2 f_equal. lia.
  - rewrite decide_False by done. replace (Z.of_nat i + 1) with (Z.of_nat (S i)) by lia. rewrite IH by lia. f_equal.
    destruct (list_find _ (drop (S i) conns)) as [[j x]|]; cbn; [|done]. f_equal. lia.
Qed.

Lemma find_slot_spec s fd conns base w rules stats :
  srv_rel base w s conns rules stats ->
  (exists i p, conns !! i = Some (fd, p) /\ find_slot s fd = Some (Z.of_nat i)) \/
  ((fd ∉ conns.*1) /\ find_slot s fd = Some (zlen conns)).
Proof.
  intros Hr. unfold find_slot. rewrite (sv_count _ _ _ _ _ _ Hr).
  rewrite (find_slot_loop_spec _ 0 s fd conns base w rules stats Hr) by (unfold zlen; lia). rewrite drop_0.   destruct (list_find (fun c => c.1 = fd) conns) as [[j [fd' p]]|] eqn:E.
  - apply list_find_Some in E as (Hj & Hfd & _). cbn in Hfd. subst. left. by exists j, p.
  - right. split; [|done]. intros ([fd' p] & -> & Hin)%list_elem_of_fmap. apply list_find_None in E.
    rewrite Forall_forall in E. by apply (E _ Hin).
Qed.

Lemma close_fd_open (w : World) fd : 0 <= fd -> close_fd w fd = (-1, os_close w fd).
Proof. intros. unfold close_fd. zcase; [done|lia]. Qed.

(** Closing one of the server's descriptors. *)
Lemma fds_remove (base open : gset Z) a b c fd fds fds' :
  fds ≡ₚ fd :: fds' -> NoDup (a :: b :: c :: fds) -> Forall (fun fd => 0 <= fd /\ fd ∉ base) (a :: b :: c :: fds) ->
  open = base ∪ list_to_set (a :: b :: c :: fds) ->
  NoDup (a :: b :: c :: fds') /\ Forall (fun fd => 0 <= fd /\ fd ∉ base) (a :: b :: c :: fds') /\
  open ∖ {[fd]} = base ∪ list_to_set (a :: b :: c :: fds').
Proof.
  intros Hp Hn Hown ->.
  assert (a :: b :: c :: fds ≡ₚ fd :: a :: b :: c :: fds') as Hp' by perm_solver.
  rewrite (list_to_set_perm_L _ _ Hp'). apply (NoDup_Permutation_proper _ _ Hp') in Hn.
  apply (Permutation_Forall Hp') in Hown.
  apply NoDup_cons in Hn as [Hfd Hn]. apply Forall_cons in Hown as [[_ Hb] Hown]. split_and!; [done|done|].
  rewrite (list_to_set_cons fd).
  assert (fd ∉ (list_to_set (a :: b :: c :: fds') : gset Z)) as Hout by by rewrite elem_of_list_to_set.
  revert Hout. generalize (list_to_set (a :: b :: c :: fds') : gset Z). intros L Hout. clear -Hb Hout. set_solver.
Qed.

(** The slot's new contents, when the last connection moves into it. *)
Lemma swap_out_conn s conns i fds buffers :
  (i < length conns)%nat ->
  (forall (j : nat) fd p, conns !! j = Some (fd, p) ->
    (cs_client_fds_ s).[Z.of_nat j] = Some fd /\ exists b, (cs_buffers_ s).[Z.of_nat j] = Some b /\ cb_repr b p) ->
  (forall j : nat, (S j < length conns)%nat -> fds.[Z.of_nat j] = (cs_client_fds_ s).[Z.of_nat (if decide (j = i) then pred (length conns) else j)]) ->
  (forall j : nat, (S j < length conns)%nat -> buffers.[Z.of_nat j] = (cs_buffers_ s).[Z.of_nat (if decide (j = i) then pred (length conns) else j)]) ->
  forall (j : nat) fd p, swap_out i conns !! j = Some (fd, p) ->
    fds.[Z.of_nat j] = Some fd /\ exists b, buffers.[Z.of_nat j] = Some b /\ cb_repr b p.
Proof.
  intros Hi Hc Hf Hb j fd p [Hlt Hj]%swap_out_lookup; [|done]. rewrite Hf, Hb by done. apply Hc.
  case_decide; [|done]. by rewrite last_lookup in Hj.
Qed.

(** [remove_connection] closes the slot's descriptor and frees the slot, whatever the
    slot's buffer holds. *)
Lemma remove_connection_any base w s conns rules stats i fd p b' :
  srv_rel base w s conns rules stats -> conns !! i = Some (fd, p) -> cb_ok b' ->
  exists s' w', remove_connection w (cs_set_buffers s (<[i := b']> (cs_buffers_ s))) (Z.of_nat i) = Some (s', w') /\
    srv_rel base w' s' (swap_out i conns) rules stats /\ quiet w w' /\ cs_messages_handled_ s' = cs_messages_handled_ s.
Proof.
  intros Hr Hi Hb'. pose proof (sv_max16 _ _ _ _ _ _ Hr) as H16. pose proof (lookup_lt_Some _ _ _ Hi) as Hlt.
  pose proof (swap_out_length _ _ _ Hi) as Hlen. pose proof (swap_out_perm _ _ _ Hi) as Hp.
  apply (fmap_Permutation fst) in Hp. cbn [fmap list_fmap fst] in Hp.
  destruct (fds_remove base (os_open w) _ _ _ _ _ _ Hp (sv_nodup _ _ _ _ _ _ Hr) (sv_own _ _ _ _ _ _ Hr) (sv_open _ _ _ _ _ _ Hr))
    as (Hn' & Hown' & Hopen').
  assert (0 <= fd) as Hfd.
  { pose proof (sv_own _ _ _ _ _ _ Hr) as Hown. rewrite Hp, !Forall_cons in Hown. tauto. }
  destruct Hr as [Hin Hcfg Hcount Hmax Hfl Hbl Hbok Hconn _ _ _ Hplane]. unfold kMaxControlConnections, zlen in *.
  unfold remove_connection. cbn [cs_set_buffers cs_connection_count_ cs_client_fds_ cs_buffers_]. rewrite Hcount. destruct (Z.leb_spec (Z.of_nat (length conns)) (Z.of_nat i)); [lia|].
  destruct (Hconn _ _ _ Hi) as [Hgf _]. rewrite Hgf. cbn [mbind option_bind]. rewrite close_fd_open by done.
  rewrite aset_in_range by (unfold zlen; lia). cbn [mbind option_bind]. rewrite Nat2Z.id.
  rewrite wrap_small by (unfold fits; lia).
  replace (Z.of_nat (length conns) - 1) with (Z.of_nat (pred (length conns))) by lia.
  destruct (os_close_law w fd) as [Hcl Hq].
  assert (forall fds buffers, length fds = 16%nat -> length buffers = 16%nat -> Forall cb_ok buffers ->
    (forall (j : nat) fd p, swap_out i conns !! j = Some (fd, p) ->
      fds.[Z.of_nat j] = Some fd /\ exists b, buffers.[Z.of_nat j] = Some b /\ cb_repr b p) ->
    srv_rel base (os_close w fd) (cs_set_connections (cs_set_buffers s (<[i := b']> (cs_buffers_ s))) fds buffers (Z.of_nat (pred (length conns)))) (swap_out i conns) rules stats)
    as Hdone.
  { intros fds buffers H1 H2 H3 H4. split; cbn; unfold kMaxControlConnections, zlen; try done; try lia. by rewrite Hcl. }
  destruct (Z.ltb_spec (Z.of_nat i) (Z.of_nat (pred (length conns)))) as [Hmid|Hlast].
  - destruct (lookup_lt_is_Some_2 conns (pred (length conns))) as [[fdl pl] Hl]; [lia|].
    destruct (Hconn _ _ _ Hl) as [Hgl (bl & Hgbl & _)].
    assert (forall j : nat, (j <> i)%nat -> (<[i := -1]> (cs_client_fds_ s)).[Z.of_nat j] = (cs_client_fds_ s).[Z.of_nat j]) as Hne.
    { intros j Hj. unfold aget. rewrite !decide_True, Nat2Z.id by lia. apply list_lookup_insert_ne. lia. }
    rewrite Hne, Hgl by lia. cbn [mbind option_bind]. rewrite aset_in_range by (unfold zlen; rewrite length_insert; lia).
    cbn [mbind option_bind].
    assert ((<[i := b']> (cs_buffers_ s)).[Z.of_nat (pred (length conns))] = Some bl) as ->.
    { rewrite <-Hgbl. unfold aget. rewrite !decide_True, Nat2Z.id by lia. apply list_lookup_insert_ne. lia. }
    cbn [mbind option_bind]. rewrite aset_in_range by (unfold zlen; rewrite length_insert; lia).
    cbn [mbind option_bind]. rewrite Nat2Z.id. eexists _, _. split; [done|]. split; [|done].
    rewrite (list_insert_insert_eq (cs_buffers_ s)). apply Hdone; [by rewrite !length_insert; lia|by rewrite length_insert; lia| |].
    + apply Forall_insert; [done|]. apply (proj1 (Forall_aget _ _) Hbok _ _ Hgbl).
    + apply (swap_out_conn s); try lia; [done|..]; intros j Hj; case_decide as E; try subst j;
        unfold aget in *; rewrite ?decide_True, ?Nat2Z.id in * by lia.
      * rewrite list_lookup_insert_eq by (rewrite length_insert; lia). by rewrite Hgl.
      * by rewrite !list_lookup_insert_ne by lia.
      * rewrite list_lookup_insert_eq by lia. by rewrite Hgbl.
      * by rewrite list_lookup_insert_ne by lia.
  - assert (pred (length conns) = i) as E by lia. cbn [mbind option_bind]. eexists _, _. split; [done|]. split; [|done].
    apply Hdone; [rewrite length_insert; lia|rewrite length_insert; lia|by apply Forall_insert|].
    apply (swap_out_conn s); try lia; [done|..]; intros j Hj; rewrite decide_False by lia;
      unfold aget; rewrite !decide_True, Nat2Z.id by lia; apply list_lookup_insert_ne; lia.
Qed.

Lemma remove_connection_spec base w s conns rules stats i fd p :
  srv_rel base w s conns rules stats -> conns !! i = Some (fd, p) ->
  exists s' w', remove_connection w s (Z.of_nat i) = Some (s', w') /\
    srv_rel base w' s' (swap_out i conns) rules stats /\ quiet w w' /\ cs_messages_handled_ s' = cs_messages_handled_ s.
Proof.
  intros Hr Hi. destruct (sv_conn _ _ _ _ _ _ Hr _ _ _ Hi) as [_ (b & Hb & Hbr)].
  pose proof (remove_connection_any _ _ _ _ _ _ _ _ _ b Hr Hi (proj1 Hbr)) as H.
  apply aget_Some in Hb as [_ Hb]. rewrite Nat2Z.id in Hb. rewrite list_insert_id in H by done. by destruct s.
Qed.

(** ** Updates of the relation *)

Lemma srv_rel_set_buffer base w s conns rules stats i fd p b' p' :
  srv_rel base w s conns rules stats -> conns !! i = Some (fd, p) -> cb_repr b' p' ->
  (cs_buffers_ s).[Z.of_nat i <- b'] = Some (<[i := b']> (cs_buffers_ s)) /\
  srv_rel base w (cs_set_buffers s (<[i := b']> (cs_buffers_ s))) (<[i := (fd, p')]> conns) rules stats.
Proof.
  intros Hr Hi Hb. pose proof (sv_max16 _ _ _ _ _ _ Hr) as H16. pose proof (lookup_lt_Some _ _ _ Hi) as Hlt.
  destruct Hr as [Hin Hcfg Hcount Hmax Hfl Hbl Hbok Hconn Hn Hown Hopen Hplane].
  unfold kMaxControlConnections, zlen in *.
  assert ((<[i := (fd, p')]> conns).*1 = conns.*1) as Hfst.
  { rewrite list_fmap_insert. apply list_insert_id. rewrite list_lookup_fmap, Hi. done. }
  split; [rewrite aset_in_range by (unfold zlen; lia); by rewrite Nat2Z.id|].
  split; cbn; unfold kMaxControlConnections, zlen; rewrite ?length_insert, ?Hfst; try done; try lia.
  - apply Forall_insert; [done|]. apply Hb.
  - intros j fd' pj Hj. apply list_lookup_insert_Some in Hj as [(<- & [= <- <-] & _)|[Hne Hj]].
    + destruct (Hconn _ _ _ Hi) as [Hf _]. split; [done|]. exists b'. split; [|done].
      unfold aget. rewrite decide_True, Nat2Z.id, list_lookup_insert_eq by lia. done.
    + destruct (Hconn _ _ _ Hj) as [Hf (bj & Hgb & Hbj)]. split; [done|]. exists bj. split; [|done].
      unfold aget in *. rewrite decide_True, Nat2Z.id in * by lia. by rewrite list_lookup_insert_ne.
Qed.

Lemma srv_rel_set_core base w s conns rules stats core rules' :
  srv_rel base w s conns rules stats -> plane_repr core rules' stats -> srv_rel base w (cs_set_core s core) conns rules' stats.
Proof. intros [] Hp. by split. Qed.

Lemma srv_rel_handled base w s conns rules stats :
  srv_rel base w s conns rules stats -> srv_rel base w (cs_inc_messages_handled s) conns rules stats.
Proof. intros []. by split. Qed.

(** ** The handlers keep the relation *)

Lemma handle_accept_spec base w s conns rules stats :
  srv_rel base w s conns rules stats ->
  exists s' w' conns', handle_accept w s = Some (s', w') /\ srv_rel base w' s' conns' rules stats /\ quiet w w' /\
    (conns' = conns \/ exists fd, conns' = conns ++ [(fd, [])]).
Proof.
  intros Hr. pose proof (sv_max16 _ _ _ _ _ _ Hr) as H16. unfold handle_accept.
  destruct (os_accept4 w (cs_listen_fd_ s)) as [client w1] eqn:Ea. destruct (os_accept4_law _ _ _ _ Ea) as [Hop Hq1].
  destruct Hop as [[Hneg Ho1]|(Hpos & Hfresh & Ho1)].
  { zcase; [|lia]. eexists _, _, conns. split_and!; [done|by eapply srv_rel_world|done|by left]. }
  destruct (Z.ltb_spec client 0); [lia|]. rewrite (sv_count _ _ _ _ _ _ Hr).
  assert (forall w2, os_open w2 = os_open w1 -> srv_rel base (os_close w2 client) s conns rules stats) as Hclosed.
  { intros w2 Hw2. eapply srv_rel_world; [|exact Hr]. destruct (os_close_law w2 client) as [-> _]. rewrite Hw2, Ho1.
    clear -Hfresh. set_solver. }
  destruct (Z.leb_spec (cpc_max_connections (cs_config_ s)) (zlen conns)) as [|Hroom].
  { eexists _, _, conns. split_and!; [done|by apply Hclosed| |by left]. eapply quiet_trans; [done|]. apply os_close_law. }
  unfold add_to_epoll. destruct (os_epoll_ctl_add w1 (cs_epoll_fd_ s) client) as [r w2] eqn:Ee.
  destruct (os_epoll_ctl_add_law _ _ _ _ _ Ee) as [Ho2 Hq2].
  destruct (r =? 0); cbn [negb].
  2: { eexists _, _, conns. split_and!; [done|by apply Hclosed| |by left]. eapply quiet_trans; [done|].
       eapply quiet_trans; [done|]. apply os_close_law. }
  pose proof (sv_config _ _ _ _ _ _ Hr) as Hv. unfold cpc_valid, kMaxControlConnections in Hv.
  rewrite !andb_true_iff, !Z.ltb_lt, Z.leb_le in Hv.
  destruct Hr as [Hin Hcfg Hcount Hmax Hfl Hbl Hbok Hconn Hn Hown Hopen Hplane].
  unfold kMaxControlConnections, zlen in *. rewrite aset_in_range by (unfold zlen; lia). cbn [mbind option_bind].
  destruct (aget_in_range (cs_buffers_ s) (Z.of_nat (length conns))) as [b Hb]; [unfold zlen; lia|].
  rewrite Hb. cbn [mbind option_bind]. rewrite aset_in_range by (unfold zlen; lia). cbn [mbind option_bind].
  rewrite wrap_small by (unfold fits; lia). rewrite Nat2Z.id.
  pose proof (proj1 (Forall_aget _ _) Hbok _ _ Hb) as Hbk.
  eexists _, _, (conns ++ [(client, [])]). split_and!; [done| |by eapply quiet_trans|eauto].
  assert (client ∉ cs_listen_fd_ s :: cs_epoll_fd_ s :: cs_event_fd_ s :: conns.*1) as Hnew.
  { rewrite Hopen in Hfresh. rewrite elem_of_union, elem_of_list_to_set in Hfresh. tauto. }
  assert (cs_listen_fd_ s :: cs_epoll_fd_ s :: cs_event_fd_ s :: (conns ++ [(client, [])]).*1 ≡ₚ
    client :: cs_listen_fd_ s :: cs_epoll_fd_ s :: cs_event_fd_ s :: conns.*1) as Hp
    by (rewrite fmap_app; change ([(client, [] : list Byte)].*1) with [client]; perm_solver).
  split; cbn [cs_set_connections cs_initialized_ cs_config_ cs_connection_count_ cs_client_fds_ cs_buffers_ cs_listen_fd_
    cs_epoll_fd_ cs_event_fd_ cs_core_]; unfold kMaxControlConnections, zlen; rewrite ?length_insert, ?length_app;
    cbn [length]; try done; try lia.
  - apply Forall_insert; [done|]. apply cb_reset_repr, Hbk.
  - intros j fd p [Hj|[Hj [Hz [= <- <-]]%list_lookup_singleton_Some]]%lookup_app_Some; unfold aget.
    + pose proof (lookup_lt_Some _ _ _ Hj). destruct (Hconn _ _ _ Hj) as [Hf (bj & Hgb & Hbj)]. unfold aget in Hf, Hgb.
      rewrite !decide_True, Nat2Z.id, !list_lookup_insert_ne in * by lia. eauto.
    + rewrite !decide_True, Nat2Z.id by lia. replace j with (length conns) by lia.
      rewrite !list_lookup_insert_eq by lia. split; [done|]. eexists. split; [done|]. by apply cb_reset_repr.
  - rewrite Hp. by apply NoDup_cons.
  - rewrite Hp. apply Forall_cons. split; [|done]. split; [done|]. rewrite Hopen in Hfresh. set_solver.
  - rewrite (list_to_set_perm_L _ _ Hp), (list_to_set_cons client), Ho2, Ho1, Hopen. clear. set_solver.
Qed.

(** [send] failed on [fd], and not for a signal. *)
Definition send_refused (fd : Z) : Prop :=
  exists (w : World) bytes sent errno w', os_send w fd bytes = ((sent, errno), w') /\ bytes <> [] /\
    sent <= 0 /\ (sent < 0 -> errno <> EINTR).

(** One call of [send] on [fd]. *)
Definition sends (fd : Z) (w w' : World) : Prop := exists bytes r, os_send w fd bytes = (r, w').

Lemma send_all_spec fuel w fd bytes :
  (os_interrupts w + length bytes <= fuel)%nat ->
  exists ok w' k, send_all fuel w fd bytes = Some (ok, w') /\ os_open w' = os_open w /\
    (os_interrupts w' <= os_interrupts w)%nat /\ os_delivered w' fd = os_delivered w fd ++ take k bytes /\
    (if ok then take k bytes = bytes else send_refused fd) /\ rtc (sends fd) w w' /\ forall fd', fd' <> fd -> os_delivered w' fd' = os_delivered w fd'.
Proof.
  revert w bytes. induction fuel as [|fuel IH]; intros w bytes Hf.
  { destruct bytes; [|simpl in Hf; lia]. exists true, w, 0%nat. cbn. rewrite app_nil_r. by split_and!. }
  destruct bytes as [|b bytes].
  { exists true, w, 0%nat. cbn. rewrite app_nil_r. by split_and!. }
  set (l := b :: bytes) in *. change (send_all (S fuel) w fd l) with
    (let '((sent, errno), w) := os_send w fd l in
     if (sent <? 0) && (errno =?? EINTR) then send_all fuel w fd l
     else if sent <=? 0 then Some (false, w) else send_all fuel w fd (drop (Z.to_nat sent) l)).
  destruct (os_send w fd l) as [[sent errno] w1] eqn:Es.
  destruct (os_send_law _ _ _ _ _ _ Es) as (Ho & Hi & Hintr & Hle & Hd & Hd').
  destruct (Z.ltb_spec sent 0) as [Hneg|Hnn]; [destruct (bool_decide_reflect (errno = EINTR)) as [He|He]|]; cbn [andb].
  - specialize (Hintr Hneg He). replace (Z.to_nat sent) with 0%nat in Hd by lia. rewrite take_0, app_nil_r in Hd.
    destruct (IH w1 l) as (ok & w' & k & Hrun & Ho' & Hi' & Hdl & Hok & Hrtc & Hoth); [lia|].
    exists ok, w', k. rewrite Ho', Hdl, Hd. split_and!; try done; [lia|by eapply rtc_l; [eexists _, _|]|]. intros fd' Hne. by rewrite Hoth, Hd'.
  - destruct (Z.leb_spec sent 0); [|lia]. exists false, w1, 0%nat. replace (Z.to_nat sent) with 0%nat in Hd by lia. split_and!; try done.
    + by exists w, l, sent, errno, w1.
    + apply rtc_once. by eexists _, _.
  - destruct (Z.leb_spec sent 0).
    + exists false, w1, 0%nat. replace (Z.to_nat sent) with 0%nat in Hd by lia. split_and!; try done.
      * exists w, l, sent, errno, w1. split_and!; [done|done|lia|lia].
      * apply rtc_once. by eexists _, _.
    + destruct (IH w1 (drop (Z.to_nat sent) l)) as (ok & w' & k & Hrun & Ho' & Hi' & Hdl & Hok & Hrtc & Hoth).
      { rewrite length_drop. unfold zlen in Hle. lia. }
      exists ok, w', (Z.to_nat sent + k)%nat. rewrite Ho', Hdl, Hd, <-app_assoc, take_take_drop.
      split_and!; try done; [lia| |by eapply rtc_l; [eexists _, _|]|].
      * destruct ok; [|done]. rewrite <-(take_take_drop l), Hok. apply take_drop.
      * intros fd' Hne. by rewrite Hoth, Hd'.
Qed.

(** ** Serving a connection *)

Section serving.
Context (padding : list Byte).
Hypothesis padding_bytes : Forall (fits 8) padding.
Hypothesis padding_size : length padding = 4%nat.

(** The bytes [b] are the reply on the wire. *)
Definition reply_on_wire (reply : Reply) (b : list Byte) : Prop :=
  exists h, decode_message b = Some (mkDecodeResult ProtocolStatus_Ok (mkDecodedMessage h (rp_payload reply))) /\
    mh_opcode h = rp_opcode reply /\ mh_sequence h = rp_sequence reply.

(** The messages are answered one after the other, each on the rules the ones before it left. *)
Inductive answered (stats : StatUpdate) : list ChaosRule -> list (list Byte) -> list (list Byte) -> list ChaosRule -> Prop :=
| answered_nil rules : answered stats rules [] [] rules
| answered_cons rules m ms decoded b bs rules' :
    decode_message m = Some decoded ->
    reply_on_wire (plane_reply padding rules stats decoded).1 b ->
    answered stats (plane_reply padding rules stats decoded).2 ms bs rules' ->
    answered stats rules (m :: ms) (b :: bs) rules'.

(** Every reply fits in the response buffer. *)
Lemma reply_fits core rules stats decoded :
  core_repr kDefaultMaxRules core rules stats ->
  let payload := rp_payload (plane_reply padding rules stats decoded).1 in
  zlen payload <= kMaxControlPayloadBytes /\ kProtocolHeaderBytes + zlen payload <= kControlResponseBufferBytes.
Proof.
  intros Hc. enough (zlen (rp_payload (plane_reply padding rules stats decoded).1) <= 5120) as H
    by (unfold kMaxControlPayloadBytes, kProtocolHeaderBytes, kControlResponseBufferBytes; lia).
  assert (forall status, zlen (string_bytes (protocol_status_name status)) <= 5120) as Herr by (by intros []).
  destruct (cr_table _ _ _ _ Hc) as (Hle & _). unfold kDefaultMaxRules in Hle.
  unfold plane_reply, core_reply. case_bool_decide; [apply Herr|].
  destruct (mh_opcode _); cbv iota; repeat case_bool_decide; cbn [fst rp_payload error_reply]; try apply Herr; try done.
  - unfold bytes_of_stats, zlen. rewrite !length_app, !le_bytes_length, padding_size. cbn [length]. lia.
  - unfold zlen in *. rewrite rules_bytes_length by apply Hc. lia.
Qed.

(** A message is handled, and its reply is in the response buffer. *)
Lemma message_answered base w s conns rules stats m :
  srv_rel base w s conns rules stats -> Forall (fits 8) m ->
  exists decoded rsp response core reply, decode_message m = Some decoded /\
    handle_request padding (cs_core_ s) m (replicate (Z.to_nat kControlResponseBufferBytes) 0) = Some (rsp, response, core) /\
    plane_repr core (plane_reply padding rules stats decoded).2 stats /\
    (length reply <= Z.to_nat kControlResponseBufferBytes)%nat /\
    0 < rsp_bytes_written rsp /\ take (Z.to_nat (rsp_bytes_written rsp)) response = reply /\
    reply_on_wire (plane_reply padding rules stats decoded).1 reply.
Proof.
  intros Hr Hm. pose proof (sv_plane _ _ _ _ _ _ Hr) as Hplane.
  destruct (handle_request_spec padding padding_bytes _ _ _ m (replicate (Z.to_nat kControlResponseBufferBytes) 0) Hplane Hm)
    as (decoded & rsp & response & core & Hd & Hrun & Hplane' & _ & [Hz _] & Hdel); [by apply Forall_replicate|done|].
  destruct (reply_fits _ _ _ decoded (proj1 Hplane)) as [Hmax Hfit].
  rewrite zlen_replicate, bool_decide_true in Hdel by (by split; [|unfold kControlResponseBufferBytes in *; lia]).
  destruct Hdel as (_ & Hbw & h & Hdec & Hop & Hseq).
  exists decoded, rsp, response, core, (take (Z.to_nat (rsp_bytes_written rsp)) response). rewrite Hbw in *.
  pose proof (zlen_nonneg (rp_payload (plane_reply padding rules stats decoded).1)).
  split_and!; try done.
  - rewrite length_take. unfold kControlResponseBufferBytes, kProtocolHeaderBytes in *. lia.
  - unfold kProtocolHeaderBytes. lia.
  - by exists h.
Qed.

(** The outcome of the loop over the messages [ms]: all are answered and [rest] stays in
    the buffer, or sending failed and the connection is gone. *)
Definition loop_done (base : gset Z) (w : World) (conns : list (Z * list Byte)) (i : nat) (fd : Z)
    (rules : list ChaosRule) (stats : StatUpdate) (ms : list (list Byte)) (rest : list Byte)
    (run : option (ControlPlaneServer * World)) : Prop :=
  exists s' w' conns' rules' served unserved replies,
    run = Some (s', w') /\ ms = served ++ unserved /\ answered stats rules served replies rules' /\
    srv_rel base w' s' conns' rules' stats /\ (os_interrupts w' <= os_interrupts w)%nat /\
    (forall fd', fd' <> fd -> os_delivered w' fd' = os_delivered w fd') /\
    (unserved = [] /\ conns' = <[i := (fd, rest)]> conns /\ rtc (sends fd) w w' /\ os_delivered w' fd = os_delivered w fd ++ mjoin replies \/
     send_refused fd /\ conns' = swap_out i conns).

Lemma client_loop_spec n send_fuel base w s conns rules stats i fd p :
  srv_rel base w s conns rules stats -> conns !! i = Some (fd, p) -> (length p < n)%nat ->
  (os_interrupts w + Z.to_nat kControlResponseBufferBytes <= send_fuel)%nat ->
  loop_done base w conns i fd rules stats (messages_of p).1 (messages_of p).2
    (client_loop padding n send_fuel w s (Z.of_nat i) fd).
Proof.
  revert w s conns rules p. induction n as [|n IH]; intros w s conns rules p Hr Hi Hn Hfuel; [lia|].
  cbn [client_loop]. destruct (sv_conn _ _ _ _ _ _ Hr _ _ _ Hi) as [_ (b & Hgb & Hb)]. rewrite Hgb. cbn [mbind option_bind].
  destruct (cb_repr_zlen _ _ Hb) as (_ & _ & Hf). rewrite messages_of_next by done. pose proof (cb_next_spec b p Hb) as Hnext.
  destruct (next_message p) as [[m rest]|] eqn:Em.
  2: { rewrite Hnext. cbn. exists s, w, conns, rules, [], [], []. split_and!; try done; [constructor|]. left. cbn.
       rewrite app_nil_r. split_and!; try done. by rewrite list_insert_id. }
  destruct Hnext as (H1 & H2 & H3 & H4). rewrite H1. cbn [mbind option_bind negb]. rewrite H2. cbn [mbind option_bind].
  rewrite H3, H4. cbn [mbind option_bind].
  destruct (next_message_rest _ _ _ Hf Em) as (Hlt & Hfm & Hfr). destruct (next_message_app _ _ _ Hf Em) as [-> _].
  destruct (message_answered _ _ _ _ _ _ _ Hr Hfm) as (decoded & rsp & response & core & reply & Hd & -> & Hplane & Hlen & Hreply).
  cbn [mbind option_bind].
  destruct (cb_consume_spec b m rest Hb) as (b' & -> & Hb'). cbn [mbind option_bind].
  destruct (srv_rel_set_buffer _ _ _ _ _ _ _ _ _ _ _ (srv_rel_set_core _ _ _ _ _ _ _ _ Hr Hplane) Hi Hb') as [Hset Hr1].
  cbn [cs_buffers_ cs_set_core] in Hset, Hr1. rewrite Hset. cbn [mbind option_bind].
  destruct Hreply as (Hpos & Htake & Hwire). zcase; [|lia]. rewrite Htake.
  destruct (send_all_spec send_fuel w fd reply) as (ok & w1 & k & -> & Ho1 & Hi1 & Hdel & Hok & Hrtc & Hoth); [lia|].
  cbn [mbind option_bind]. set (conns1 := <[i := (fd, rest)]> conns) in *.
  apply (srv_rel_world _ w w1) in Hr1; [|done].
  assert (conns1 !! i = Some (fd, rest)) as Hi1'.
  { apply list_lookup_insert_eq. by eapply lookup_lt_Some. }
  destruct ok; cbn [negb].
  - destruct (IH w1 _ conns1 _ rest (srv_rel_handled _ _ _ _ _ _ Hr1) Hi1')
      as (s' & w' & conns' & rules' & served & unserved & replies & -> & Hms & Hans & Hr' & Hint & Hoth' & Hcase); [lia|lia|].
    exists s', w', conns', rules', (m :: served), unserved, (reply :: replies).
    split_and!; try done; [cbn; by rewrite Hms|by econstructor|lia| |].
    + intros fd' Hne. by rewrite Hoth', Hoth.
    + destruct Hcase as [(-> & -> & Hrtc' & Hdel')|[Href ->]]; [left|right].
      * split_and!; [done|subst conns1; by rewrite list_insert_insert_eq|by etrans|]. rewrite Hdel', Hdel, Hok, <-app_assoc. done.
      * split; [done|]. apply swap_out_insert. by eapply lookup_lt_Some.
  - destruct (remove_connection_spec _ _ _ _ _ _ _ _ _ Hr1 Hi1') as (s' & w' & -> & Hr' & [Hint Hq] & _).
    exists s', w', (swap_out i conns1), (plane_reply padding rules stats decoded).2, [m], (messages_of rest).1, [reply].
    split_and!; try done; [econstructor; [done|done|constructor]|lia| |].
    + intros fd' Hne. by rewrite Hq, Hoth.
    + right. split; [done|]. apply swap_out_insert. by eapply lookup_lt_Some.
Qed.

Lemma find_slot_conn base w s conns rules stats i fd p :
  srv_rel base w s conns rules stats -> conns !! i = Some (fd, p) -> find_slot s fd = Some (Z.of_nat i).
Proof.
  intros Hr Hi. pose proof (sv_nodup _ _ _ _ _ _ Hr) as Hn. rewrite !NoDup_cons in Hn. destruct Hn as (_ & _ & _ & Hn).
  assert (conns.*1 !! i = Some fd) as Hi' by (rewrite list_lookup_fmap, Hi; done).
  destruct (find_slot_spec s fd conns base w rules stats Hr) as [(j & pj & Hj & ->)|[Hout _]].
  - do 2 f_equal. eapply (NoDup_lookup conns.*1); [done| |done]. rewrite list_lookup_fmap, Hj. done.
  - destruct Hout. by eapply list_elem_of_lookup_2.
Qed.

(** What [handle_client] does with the data [recv] returns. *)
Lemma handle_client_data send_fuel base w s conns rules stats i fd p r data errno w1 :
  srv_rel base w s conns rules stats -> conns !! i = Some (fd, p) -> os_recv w fd 4096 = ((r, data, errno), w1) -> 0 < r ->
  (os_interrupts w + Z.to_nat kControlResponseBufferBytes <= send_fuel)%nat ->
  let stream := p ++ take (Z.to_nat r) data in
  if bool_decide (zlen stream <= kControlReadBufferBytes)
  then loop_done base w1 conns i fd rules stats (messages_of stream).1 (messages_of stream).2
         (handle_client padding send_fuel w s fd)
  else exists s' w', handle_client padding send_fuel w s fd = Some (s', w') /\
         srv_rel base w' s' (swap_out i conns) rules stats /\ quiet w w'.
Proof.
  intros Hr Hi Hrecv Hpos Hfuel stream. destruct (os_recv_law _ _ _ _ _ _ _ Hrecv) as (Ho1 & Hq1 & Hdata).
  specialize (Hdata Hpos) as (Hr4 & Hrz & Hfd). pose proof (sv_max16 _ _ _ _ _ _ Hr). pose proof (lookup_lt_Some _ _ _ Hi) as Hlt.
  unfold handle_client. rewrite (find_slot_conn _ _ _ _ _ _ _ _ _ Hr Hi). cbn [mbind option_bind].
  rewrite (sv_count _ _ _ _ _ _ Hr). destruct (Z.eqb_spec (Z.of_nat i) (zlen conns)) as [E|_]; [unfold zlen in E; lia|].
  rewrite Hrecv. destruct (Z.ltb_spec r 0); [lia|]. cbn [andb]. destruct (Z.leb_spec r 0); [lia|].
  destruct (sv_conn _ _ _ _ _ _ Hr _ _ _ Hi) as [_ (b & Hgb & Hb)]. rewrite Hgb. cbn [mbind option_bind].
  assert (zlen (take (Z.to_nat r) data) = r) as Hz by (unfold zlen in *; rewrite length_take; lia).
  assert (Forall (fits 8) (take (Z.to_nat r) data)) as Hft by by apply Forall_take.
  assert (srv_rel base w1 s conns rules stats) as Hr1 by by eapply srv_rel_world.
  destruct (cb_repr_zlen _ _ Hb) as (Hpz & _ & _). destruct Hq1 as [Hq1 Hq1'].
  case_bool_decide as Hroom; subst stream; rewrite zlen_app in Hroom.
  - destruct (cb_append_room b p (take (Z.to_nat r) data) Hb Hft Hroom) as (b' & -> & Hb'). cbn [mbind option_bind].
    destruct (srv_rel_set_buffer _ _ _ _ _ _ _ _ _ _ _ Hr1 Hi Hb') as [-> Hr2]. cbn [mbind option_bind].
    rewrite Hz, Z.eqb_refl. cbn [negb orb]. destruct (cb_repr_zlen _ _ Hb') as (_ & Hsz & _). pose proof Hb' as (_ & _ & ->).
    edestruct (client_loop_spec client_fuel send_fuel) as (s' & w' & conns' & rules' & served & unserved & replies & Hrun & Hms & Hans & Hr' & Hint & Hoth & Hcase);
      [exact Hr2|by apply list_lookup_insert_eq| | |].
    { unfold client_fuel, zlen in *. lia. }
    { lia. }
    exists s', w', conns', rules', served, unserved, replies. split_and!; try done.
    rewrite list_insert_insert_eq, swap_out_insert in Hcase by done. exact Hcase.
  - destruct (cb_append_full b p (take (Z.to_nat r) data) Hb Hft) as (b' & n & -> & Hn & Hbk); [lia|]. cbn [mbind option_bind].
    pose proof (sv_buffers _ _ _ _ _ _ Hr) as Hbl. unfold kMaxControlConnections, zlen in Hbl.
    rewrite aset_in_range by (unfold zlen in *; lia). cbn [mbind option_bind]. rewrite Nat2Z.id.
    destruct (Z.eqb_spec n r); [lia|]. cbn [negb orb].
    destruct (remove_connection_any _ _ _ _ _ _ _ _ _ b' Hr1 Hi Hbk) as (s' & w' & -> & Hr' & Hq & _).
    exists s', w'. split_and!; [done|done|]. by eapply quiet_trans; [|done].
Qed.

Lemma handle_client_keeps send_fuel base w s conns rules stats fd :
  srv_rel base w s conns rules stats -> (os_interrupts w + Z.to_nat kControlResponseBufferBytes <= send_fuel)%nat ->
  exists s' w' conns' rules', handle_client padding send_fuel w s fd = Some (s', w') /\
    srv_rel base w' s' conns' rules' stats /\ (os_interrupts w' <= os_interrupts w)%nat.
Proof.
  intros Hr Hfuel. destruct (find_slot_spec s fd conns base w rules stats Hr) as [(i & p & Hi & Hslot)|[_ Hslot]].
  2: { unfold handle_client. rewrite Hslot. cbn [mbind option_bind]. rewrite (sv_count _ _ _ _ _ _ Hr), Z.eqb_refl.
       exists s, w, conns, rules. by split_and!. }
  destruct (os_recv w fd 4096) as [[[r data] errno] w1] eqn:Hrecv.
  destruct (os_recv_law _ _ _ _ _ _ _ Hrecv) as (Ho1 & [Hq1 _] & _).
  destruct (Z.ltb_spec 0 r) as [Hpos|Hneg].
  - pose proof (handle_client_data _ _ _ _ _ _ _ _ _ _ _ _ _ _ Hr Hi Hrecv Hpos Hfuel) as H. cbv zeta in H.
    case_bool_decide.
    + destruct H as (s' & w' & conns' & rules' & served & unserved & replies & -> & _ & _ & Hr' & Hint & _).
      exists s', w', conns', rules'. split_and!; [done|done|lia].
    + destruct H as (s' & w' & -> & Hr' & [Hint _]). exists s', w', (swap_out i conns), rules. by split_and!.
  - unfold handle_client. rewrite Hslot. cbn [mbind option_bind]. rewrite (sv_count _ _ _ _ _ _ Hr).
    pose proof (lookup_lt_Some _ _ _ Hi). destruct (Z.eqb_spec (Z.of_nat i) (zlen conns)) as [E|_]; [unfold zlen in E; lia|].
    rewrite Hrecv. assert (srv_rel base w1 s conns rules stats) as Hr1 by by eapply srv_rel_world.
    destruct ((r <? 0) && (errno =?? EAGAIN)); [exists s, w1, conns, rules; by split_and!|].
    destruct (Z.leb_spec r 0); [|lia].
    destruct (remove_connection_spec _ _ _ _ _ _ _ _ _ Hr1 Hi) as (s' & w' & -> & Hr' & [Hint _] & _).
    exists s', w', (swap_out i conns), rules. split_and!; [done|done|lia].
Qed.

Lemma dispatch_keeps send_fuel events base w s conns rules stats :
  srv_rel base w s conns rules stats -> (os_interrupts w + Z.to_nat kControlResponseBufferBytes <= send_fuel)%nat ->
  exists status s' w' conns' rules', dispatch_loop padding send_fuel w s events = Some (status, s', w') /\
    srv_rel base w' s' conns' rules' stats /\ (os_interrupts w' <= os_interrupts w)%nat.
Proof.
  revert w s conns rules. induction events as [|fd events IH]; intros w s conns rules Hr Hfuel; cbn [dispatch_loop].
  { exists ControlPlaneStatus_Ok, s, w, conns, rules. by split_and!. }
  destruct (fd =? cs_event_fd_ s); [exists ControlPlaneStatus_ShutdownRequested, s, w, conns, rules; by split_and!|].
  assert (exists s1 w1 conns1 rules1, (if fd =? cs_listen_fd_ s then handle_accept w s else handle_client padding send_fuel w s fd)
    = Some (s1, w1) /\ srv_rel base w1 s1 conns1 rules1 stats /\ (os_interrupts w1 <= os_interrupts w)%nat)
    as (s1 & w1 & conns1 & rules1 & Hrun & Hr1 & Hint1).
  { destruct (fd =? cs_listen_fd_ s); [|by apply (handle_client_keeps _ _ _ _ conns rules)].
    destruct (handle_accept_spec _ _ _ _ _ _ Hr) as (s1 & w1 & conns1 & Hrun & Hr1 & [Hq _] & _). by exists s1, w1, conns1, rules. }
  destruct (IH w1 s1 conns1 rules1 Hr1) as (status & s' & w' & conns' & rules' & Hloop & Hr' & Hint); [lia|].
  exists status, s', w', conns', rules'. split_and!; [|done|lia].
  destruct (fd =? cs_listen_fd_ s); rewrite Hrun; exact Hloop.
Qed.

Lemma run_once_keeps send_fuel base w s conns rules stats :
  srv_rel base w s conns rules stats -> (os_interrupts w + Z.to_nat kControlResponseBufferBytes <= send_fuel)%nat ->
  exists status s' w' conns' rules', run_once padding send_fuel w s = Some (status, s', w') /\
    srv_rel base w' s' conns' rules' stats /\ (os_interrupts w' <= os_interrupts w)%nat.
Proof.
  intros Hr Hfuel. unfold run_once. rewrite (sv_init _ _ _ _ _ _ Hr). cbn [negb].
  destruct (os_epoll_wait w (cs_epoll_fd_ s) kMaxEpollEvents) as [[[nfds events] errno] w1] eqn:Ew.
  destruct (os_epoll_wait_law _ _ _ _ _ Ew) as [Ho [Hq _]]. assert (srv_rel base w1 s conns rules stats) as Hr1 by by eapply srv_rel_world.
  destruct (nfds <? 0).
  - destruct (bool_decide (errno = EINTR)); by eexists _, s, w1, conns, rules.
  - destruct (dispatch_keeps send_fuel (take (Z.to_nat nfds) events) _ _ _ _ _ _ Hr1)
      as (status & s' & w' & conns' & rules' & Hrun & Hr' & Hint); [lia|].
    exists status, s', w', conns', rules'. split_and!; [done|done|lia].
Qed.

End serving.

(** ** Starting and stopping *)

(** A server that is not running. *)
Record srv_idle (s : ControlPlaneServer) : Prop := {
  si_init : cs_initialized_ s = false;
  si_count : cs_connection_count_ s = 0;
  si_fds : zlen (cs_client_fds_ s) = kMaxControlConnections;
  si_buffers : zlen (cs_buffers_ s) = kMaxControlConnections;
  si_buffers_ok : Forall cb_ok (cs_buffers_ s);
  si_closed : cs_listen_fd_ s < 0 /\ cs_epoll_fd_ s < 0 /\ cs_event_fd_ s < 0;
}.

Lemma ControlPlaneServer_default_idle core : srv_idle (ControlPlaneServer_default core).
Proof. split; try done. apply Forall_replicate, ConnectionBuffer_default_repr. Qed.

Lemma close_loop_spec n i (w : World) fds l :
  (i + n = length l)%nat -> (length l <= length fds)%nat -> Forall (fun fd => 0 <= fd) l ->
  (forall (j : nat) fd, (i <= j)%nat -> l !! j = Some fd -> fds !! j = Some fd) ->
  exists fds' w', close_loop n w fds (Z.of_nat i) = Some (fds', w') /\ zlen fds' = zlen fds /\
    os_open w' = os_open w ∖ list_to_set (drop i l) /\ quiet w w'.
Proof.
  revert i w fds. induction n as [|n IH]; intros i w fds Hi Hle Hpos Hj; cbn [close_loop].
  { exists fds, w. rewrite drop_ge by lia. split_and!; [done|done|cbn; set_solver|done]. }
  destruct (lookup_lt_is_Some_2 l i) as [fd Hfd]; [lia|]. rewrite (drop_S _ _ _ Hfd).
  unfold aget at 1. rewrite decide_True, Nat2Z.id, (Hj i fd) by (done || lia). cbn [mbind option_bind].
  rewrite close_fd_open by (by eapply (Forall_lookup_1 _ _ _ _ Hpos)). rewrite aset_in_range by (unfold zlen; lia).
  cbn [mbind option_bind]. rewrite Nat2Z.id. replace (Z.of_nat i + 1) with (Z.of_nat (S i)) by lia.
  destruct (IH (S i) (os_close w fd) (<[i := -1]> fds)) as (fds' & w' & -> & Hz & Ho & Hq); try done; [lia|by rewrite length_insert| |].
  { intros j fd' Hij Hl. rewrite list_lookup_insert_ne by lia. apply Hj; [lia|done]. }
  destruct (os_close_law w fd) as [Hc Hqc]. exists fds', w'. split_and!; [done| | |by eapply quiet_trans].
  - rewrite Hz. unfold zlen. by rewrite length_insert.
  - rewrite Ho, Hc, list_to_set_cons. clear. set_solver.
Qed.

Lemma shutdown_spec base w s conns rules stats :
  srv_rel base w s conns rules stats ->
  exists s' w', cs_shutdown w s = Some (s', w') /\ os_open w' = base /\ srv_idle s' /\ quiet w w'.
Proof.
  intros [Hin Hcfg Hcount Hmax Hfl Hbl Hbok Hconn Hn Hown Hopen Hplane]. unfold cs_shutdown. rewrite Hcount.
  rewrite !Forall_cons in Hown. destruct Hown as ([Hl Hl'] & [He He'] & [Hv Hv'] & Hown).
  destruct (close_loop_spec (length conns) 0 w (cs_client_fds_ s) conns.*1) as (fds' & w1 & Hrun & Hz & Ho1 & Hq1).
  { by rewrite length_fmap. }
  { rewrite length_fmap. unfold cpc_valid, kMaxControlConnections, zlen in *. rewrite !andb_true_iff, !Z.ltb_lt, Z.leb_le in Hcfg. lia. }
  { eapply Forall_impl; [exact Hown|]. by intros fd [? _]. }
  { intros j fd _ Hj. rewrite list_lookup_fmap in Hj. destruct (conns !! j) as [[fd' p]|] eqn:Ej; [|done].
    injection Hj as <-. destruct (Hconn _ _ _ Ej) as [[_ Hf]%aget_Some _]. by rewrite Nat2Z.id in Hf. }
  change (Z.of_nat 0) with 0 in Hrun. unfold zlen at 1. rewrite Nat2Z.id, Hrun. cbn [mbind option_bind cs_event_fd_ cs_epoll_fd_ cs_listen_fd_ cs_set_connections].
  rewrite !close_fd_open by done. eexists _, _. split; [done|].
  destruct (os_close_law w1 (cs_event_fd_ s)) as [Hc1 Hq2].
  destruct (os_close_law (os_close w1 (cs_event_fd_ s)) (cs_epoll_fd_ s)) as [Hc2 Hq3].
  destruct (os_close_law (os_close (os_close w1 (cs_event_fd_ s)) (cs_epoll_fd_ s)) (cs_listen_fd_ s)) as [Hc3 Hq4].
  split_and!; [|split; cbn; [done|done|congruence|done|done|lia]|by repeat (eapply quiet_trans; [done|])].
  rewrite Hc3, Hc2, Hc1, Ho1, Hopen, drop_0, !list_to_set_cons.
  assert (base ## list_to_set conns.*1) as Hdis.
  { intros fd Hb Hc%elem_of_list_to_set. rewrite Forall_forall in Hown. by destruct (Hown fd Hc). }
  revert Hdis. generalize (list_to_set conns.*1 : gset Z). intros L Hdis. clear -Hl' He' Hv' Hdis.
  apply set_eq. intros x. destruct (decide (x ∈ base)); set_solver.
Qed.

(** The destructor of an idle server has nothing to close. *)
Lemma shutdown_idle (w : World) s : srv_idle s -> exists s', cs_shutdown w s = Some (s', w) /\ srv_idle s'.
Proof.
  intros [Hi Hc Hf Hb Hbok (Hl & He & Hv)]. unfold cs_shutdown. rewrite Hc. cbn [Z.to_nat close_loop mbind option_bind].
  unfold close_fd. cbn [cs_set_connections cs_listen_fd_ cs_epoll_fd_ cs_event_fd_].
  rewrite (proj2 (Z.leb_gt _ _) Hl), (proj2 (Z.leb_gt _ _) He), (proj2 (Z.leb_gt _ _) Hv). eexists. by split; [|split].
Qed.

Lemma init_fresh base w s config core rules stats l e v :
  srv_idle s -> cpc_valid config = true -> plane_repr core rules stats ->
  0 <= l -> 0 <= e -> 0 <= v -> (l ∉ base) -> (e ∉ {[l]} ∪ base) -> (v ∉ {[e]} ∪ ({[l]} ∪ base)) ->
  os_open w = {[v]} ∪ ({[e]} ∪ ({[l]} ∪ base)) ->
  srv_rel base w (cs_set_fds (cs_set_config s config core) l e v true) [] rules stats.
Proof.
  intros [Hi Hc Hf Hb Hbok _] Hv Hp Hl0 He0 Hv0 Hl He Hv' Ho.
  assert (l <> e /\ l <> v /\ e <> v /\ (e ∉ base) /\ v ∉ base) as (? & ? & ? & ? & ?)
    by (clear -Hl He Hv'; set_solver).
  split; cbn; try done.
  - unfold cpc_valid in Hv. rewrite !andb_true_iff, !Z.ltb_lt, Z.leb_le in Hv. unfold zlen. cbn. lia.
  - rewrite !NoDup_cons, !not_elem_of_cons. split_and!; try done; try apply not_elem_of_nil. apply NoDup_nil_2.
  - by repeat constructor.
  - rewrite Ho. clear. set_solver.
Qed.

(** Since [w] nothing was sent, and the open descriptors are now [O]. *)
Definition since (w : World) (O : gset Z) (w' : World) : Prop := os_open w' = O /\ quiet w w'.

Lemma since_step w O w1 w2 : since w O w1 -> os_open w2 = os_open w1 /\ quiet w1 w2 -> since w O w2.
Proof. intros [<- Hq] [Ho Hq']. split; [done|]. by eapply quiet_trans. Qed.

Lemma since_opened w O w1 fd w2 :
  since w O w1 -> opened w1 fd w2 /\ quiet w1 w2 ->
  (fd < 0 /\ since w O w2) \/ (0 <= fd /\ (fd ∉ O) /\ since w ({[fd]} ∪ O) w2).
Proof.
  intros [<- Hq] [[[Hn Ho]|(H0 & Hf & Ho)] Hq']; [left|right]; split_and!; try done; (split; [done|by eapply quiet_trans]).
Qed.

Lemma since_close w O w1 fd : (fd ∉ O) -> since w ({[fd]} ∪ O) w1 -> since w O (os_close w1 fd).
Proof.
  intros Hf [Ho Hq]. destruct (os_close_law w1 fd) as [Hc Hq']. split; [|by eapply quiet_trans].
  rewrite Hc, Ho. clear -Hf. set_solver.
Qed.

(** The outcome of [init]: a running server, or all is as before. *)
Definition init_done (w : World) (rules : list ChaosRule) (stats : StatUpdate)
    (r : ControlPlaneStatus * ControlPlaneServer * World) : Prop :=
  let '(status, s', w') := r in
  quiet w w' /\
  if bool_decide (status = ControlPlaneStatus_Ok)
  then srv_rel (os_open w) w' s' [] rules stats else srv_idle s' /\ os_open w' = os_open w.

Lemma init_failed w rules stats status s w' config core l e v :
  srv_idle s -> status <> ControlPlaneStatus_Ok ->
  l < 0 -> e < 0 -> v < 0 -> since w (os_open w) w' ->
  init_done w rules stats (status, cs_set_fds (cs_set_config s config core) l e v false, w').
Proof.
  intros [Hi Hc Hf Hb Hbok _] Hst Hl He Hv [Ho Hq]. split; [done|]. rewrite bool_decide_false by done. split; [|done].
  by split.
Qed.

Lemma init_spec w s config core rules stats :
  srv_idle s -> plane_repr core rules stats -> init_done w rules stats (cs_init w s config core).
Proof.
  intros Hidle Hp. pose proof (si_init s Hidle) as Hi. destruct (si_closed s Hidle) as (Hl & He & Hv).
  unfold cs_init, add_to_epoll. cbn [cs_set_config cs_set_fds cs_listen_fd_ cs_epoll_fd_ cs_event_fd_ cs_initialized_]. rewrite Hi.
  destruct (cpc_valid config) eqn:Hcfg; cbn [negb]; [|by split; [|rewrite bool_decide_false]].
  assert (since w (os_open w) w) as H0 by done.
  destruct (os_socket w) as [l w1] eqn:E1.
  destruct (since_opened _ _ _ _ _ H0 (os_socket_law _ _ _ E1)) as [[Hl' H1]|(Hl' & Hlf & H1)];
    destruct (Z.ltb_spec l 0) as [Hls|Hls]; try lia; [by apply (init_failed w rules stats)|].
  apply (fun H => since_step _ _ _ _ H (os_setsockopt_law w1 l)) in H1. generalize dependent (os_setsockopt w1 l). clear w1 E1.
  intros w1 H1. destruct (os_bind w1 l (cpc_port config)) as [r w2] eqn:E2.
  pose proof (since_step _ _ _ _ H1 (os_bind_law _ _ _ _ _ E2)) as H2.
  rewrite close_fd_open by done. destruct (r <? 0); [by apply (init_failed w rules stats); [..|apply since_close]|].
  destruct (os_listen w2 l (cpc_listen_backlog config)) as [r3 w3] eqn:E3.
  pose proof (since_step _ _ _ _ H2 (os_listen_law _ _ _ _ _ E3)) as H3.
  rewrite close_fd_open by done. destruct (r3 <? 0); [by apply (init_failed w rules stats); [..|apply since_close]|].
  destruct (os_epoll_create1 w3) as [e w4] eqn:E4. rewrite close_fd_open by done.
  destruct (since_opened _ _ _ _ _ H3 (os_epoll_create1_law _ _ _ E4)) as [[He' H4]|(He' & Hef & H4)];
    destruct (Z.ltb_spec e 0) as [Hes|Hes]; try lia; [by apply (init_failed w rules stats); [..|apply since_close]|].
  destruct (os_eventfd w4) as [v w5] eqn:E5. rewrite close_fd_open by done. rewrite close_fd_open by done.
  destruct (since_opened _ _ _ _ _ H4 (os_eventfd_law _ _ _ E5)) as [[Hv' H5]|(Hv' & Hvf & H5)];
    destruct (Z.ltb_spec v 0) as [Hvs|Hvs]; try lia; [by apply (init_failed w rules stats); [..|apply since_close, since_close]|].
  destruct (os_epoll_ctl_add w5 e l) as [r6 w6] eqn:E6.
  pose proof (since_step _ _ _ _ H5 (os_epoll_ctl_add_law _ _ _ _ _ E6)) as H6.
  assert (forall w7, since w ({[v]} ∪ ({[e]} ∪ ({[l]} ∪ os_open w))) w7 ->
    since w (os_open w) (os_close (os_close (os_close w7 v) e) l)) as Hclose
    by (intros w7 H7; by repeat apply since_close).
  destruct (r6 =? 0).
  2: { cbn [negb]. rewrite close_fd_open by done. rewrite close_fd_open by done. rewrite close_fd_open by done.
       by apply (init_failed w rules stats); [..|apply Hclose]. }
  destruct (os_epoll_ctl_add w6 e v) as [r7 w7] eqn:E7.
  pose proof (since_step _ _ _ _ H6 (os_epoll_ctl_add_law _ _ _ _ _ E7)) as H7. destruct (r7 =? 0); cbn [negb].
  - destruct H7 as [Ho7 Hq7]. split; [done|]. rewrite bool_decide_true by done. by apply init_fresh.
  - rewrite close_fd_open by done. rewrite close_fd_open by done. rewrite close_fd_open by done.
    by apply (init_failed w rules stats); [..|apply Hclose].
Qed.

(** ** A server's life *)

Section life.
Context (padding : list Byte).
Hypothesis padding_bytes : Forall (fits 8) padding.
Hypothesis padding_size : length padding = 4%nat.

Lemma run_idle send_fuel (w : World) s running : srv_idle s -> cs_run padding send_fuel w s running = Some (s, w).
Proof.
  intros Hi. induction running as [|[] running IH]; cbn [cs_run]; [done| |done].
  unfold run_once. rewrite (si_init s Hi). cbn. exact IH.
Qed.

Lemma run_keeps send_fuel running base w s conns rules stats :
  srv_rel base w s conns rules stats -> (os_interrupts w + Z.to_nat kControlResponseBufferBytes <= send_fuel)%nat ->
  exists s' w' conns' rules', cs_run padding send_fuel w s running = Some (s', w') /\
    srv_rel base w' s' conns' rules' stats.
Proof.
  revert w s conns rules. induction running as [|[] running IH]; intros w s conns rules Hr Hfuel; cbn [cs_run];
    [by exists s, w, conns, rules| |by exists s, w, conns, rules].
  destruct (run_once_keeps padding padding_bytes padding_size _ _ _ _ _ _ _ Hr Hfuel) as (status & s1 & w1 & conns1 & rules1 & -> & Hr1 & Hint).
  cbn [mbind option_bind]. case_bool_decide; [by exists s1, w1, conns1, rules1|]. apply (IH _ _ _ _ Hr1). lia.
Qed.

(** ** A fragmented stream *)

Lemma answered_app stats rules ms bs rules1 ms' bs' rules2 :
  answered padding stats rules ms bs rules1 -> answered padding stats rules1 ms' bs' rules2 -> answered padding stats rules (ms ++ ms') (bs ++ bs') rules2.
Proof. intros H1 H2. induction H1; [done|]. cbn. econstructor; eauto. Qed.

(** [n] calls of [handle_client], one after the other. *)
Fixpoint handle_client_times (n send_fuel : nat) (w : World) (s : ControlPlaneServer) (fd : Z)
    : option (ControlPlaneServer * World) :=
  match n with
  | O => Some (s, w)
  | S n => '(s, w) ← handle_client padding send_fuel w s fd; handle_client_times n send_fuel w s fd
  end.

Context `{!OsInbox World}.

Lemma os_incoming_sends fd w w' : rtc (sends fd) w w' -> os_incoming w' fd = os_incoming w fd.
Proof. induction 1 as [|w1 w2 w3 (bytes & r & Hs) _ IH]; [done|]. rewrite IH. by eapply os_incoming_send. Qed.

(** A segment that fits is read, its complete messages are answered, and the rest is kept. *)
Lemma handle_client_segment send_fuel base w s conns rules stats i fd p c cs :
  srv_rel base w s conns rules stats -> conns !! i = Some (fd, p) -> os_incoming w fd = c :: cs -> ~ send_refused fd ->
  Forall (fits 8) c -> 0 < zlen c <= 4096 -> zlen (p ++ c) <= kControlReadBufferBytes ->
  (os_interrupts w + Z.to_nat kControlResponseBufferBytes <= send_fuel)%nat ->
  exists s' w' rules' replies, handle_client padding send_fuel w s fd = Some (s', w') /\
    answered padding stats rules (messages_of (p ++ c)).1 replies rules' /\
    srv_rel base w' s' (<[i := (fd, (messages_of (p ++ c)).2)]> conns) rules' stats /\
    os_incoming w' fd = cs /\ (os_interrupts w' <= os_interrupts w)%nat /\
    os_delivered w' fd = os_delivered w fd ++ mjoin replies /\ (forall fd', fd' <> fd -> os_delivered w' fd' = os_delivered w fd').
Proof.
  intros Hr Hi Hin Href Hf Hc Hroom Hfuel.
  destruct (os_incoming_recv w fd 4096 c cs Hin Hf Hc) as (data & errno & w1 & Hrecv & Htake & Hin1).
  destruct (os_recv_law _ _ _ _ _ _ _ Hrecv) as (_ & [Hq1 Hq1'] & _).
  pose proof (handle_client_data padding padding_bytes padding_size _ _ _ _ _ _ _ _ _ _ _ _ _ _ Hr Hi Hrecv (proj1 Hc) Hfuel) as H. cbv zeta in H.
  replace (Z.to_nat (zlen c)) with (length c) in H by (unfold zlen; lia). rewrite Htake, bool_decide_true in H by done.
  destruct H as (s' & w' & conns' & rules' & served & unserved & replies & -> & Hms & Hans & Hr' & Hint & Hoth & [(-> & -> & Hrtc & Hdel)|[? _]]); [|done].
  rewrite app_nil_r in Hms. rewrite Hms. exists s', w', rules', replies. split_and!; try done.
  - by rewrite (os_incoming_sends _ _ _ Hrtc).
  - lia.
  - by rewrite Hdel, Hq1'.
  - intros fd' Hne. by rewrite Hoth, Hq1'.
Qed.

Lemma stream_served chunks send_fuel base w s conns rules stats i fd p ms :
  srv_rel base w s conns rules stats -> conns !! i = Some (fd, p) -> os_incoming w fd = chunks -> ~ send_refused fd ->
  Forall (fun m => well_framed m /\ Forall (fits 8) m /\ zlen m <= 4097) ms -> mjoin ms = p ++ mjoin chunks ->
  next_message p = None -> zlen p <= 4096 ->
  Forall (fun c => 0 < zlen c <= 4096) chunks -> (os_interrupts w + Z.to_nat kControlResponseBufferBytes <= send_fuel)%nat ->
  exists s' w' rules' replies, handle_client_times (length chunks) send_fuel w s fd = Some (s', w') /\
    answered padding stats rules ms replies rules' /\ srv_rel base w' s' (<[i := (fd, [])]> conns) rules' stats /\
    os_delivered w' fd = os_delivered w fd ++ mjoin replies /\ (forall fd', fd' <> fd -> os_delivered w' fd' = os_delivered w fd').
Proof.
  revert w s conns rules p ms. induction chunks as [|c chunks IH]; intros w s conns rules p ms Hr Hi Hin Href Hms Hj Hp Hpz Hc Hfuel.
  { cbn in Hj. rewrite app_nil_r in Hj. destruct Hms as [|m ms (Hm & Hf & _) Hms].
    - cbn in Hj. subst p. exists s, w, rules, []. cbn. rewrite app_nil_r, list_insert_id by done. split_and!; try done. constructor.
    - change (mjoin (m :: ms)) with (m ++ mjoin ms) in Hj. rewrite <-Hj, next_message_framed in Hp by done. done. }
  apply Forall_cons in Hc as [Hc Hcs]. change (mjoin (c :: chunks)) with (c ++ mjoin chunks) in Hj. rewrite app_assoc in Hj.
  destruct (messages_split 4097 ms (p ++ c) (mjoin chunks) Hms Hj) as (ms1 & ms2 & r & -> & Hq & Hj2 & Hn & Hrz).
  assert (Forall (fits 8) (p ++ c)) as Hf.
  { enough (Forall (fits 8) (mjoin (ms1 ++ ms2))) as H by (rewrite Hj in H; by apply Forall_app in H as [? _]).
    apply Forall_join. eapply Forall_impl; [exact Hms|]. naive_solver. }
  apply Forall_app in Hf as [_ Hf]. apply Forall_app in Hms as [_ Hms2].
  destruct (handle_client_segment send_fuel _ _ _ _ _ _ _ _ _ _ _ Hr Hi Hin Href Hf Hc) as
    (s1 & w1 & rules1 & replies1 & Hrun & Hans & Hr1 & Hin1 & Hint & Hdel & Hoth); [|done|].
  { rewrite zlen_app. unfold kControlReadBufferBytes. lia. }
  rewrite Hq in Hans, Hr1. cbn [fst snd] in Hans, Hr1. cbn [length handle_client_times]. rewrite Hrun. cbn [mbind option_bind].
  destruct (IH w1 s1 _ rules1 r ms2 Hr1) as (s' & w' & rules' & replies & -> & Hans' & Hr' & Hdel' & Hoth'); try done.
  { apply list_lookup_insert_eq. by eapply lookup_lt_Some. }
  { destruct Hrz as [-> |]; [done|lia]. }
  { lia. }
  exists s', w', rules', (replies1 ++ replies). rewrite list_insert_insert_eq in Hr'. split_and!; try done.
  - by eapply answered_app.
  - by rewrite Hdel', Hdel, join_app, app_assoc.
  - intros fd' Hne. by rewrite Hoth', Hoth.
Qed.

End life.

End server.

(** ** Claims *)

(** C15: a client's requests are answered however TCP cuts them into segments: with
    messages of up to 4097 bytes that arrive in segments of up to 4096 bytes, cut at
    arbitrary places, as many calls of [handle_client] as there are segments decode every
    message exactly once and in order, apply each to the rules that the ones before it
    left, send the replies in this order on this connection only, and leave the
    connection open with an empty buffer.  [send] may be interrupted and may take only a
    part of the bytes, but not fail. *)
Theorem fragmented_requests_answered {World : Type} `{!Os World} `{!OsLaws World} `{!OsInbox World} (padding : list Byte)
    (send_fuel : nat) (base : gset Z) (w : World) s conns rules stats i fd (ms : list (list Byte)) :
  Forall (fits 8) padding -> length padding = 4%nat ->
  srv_rel base w s conns rules stats -> conns !! i = Some (fd, []) -> ~ send_refused fd ->
  Forall (fun m => well_framed m /\ Forall (fits 8) m /\ zlen m <= 4097) ms ->
  mjoin (os_incoming w fd) = mjoin ms -> Forall (fun c => 0 < zlen c <= 4096) (os_incoming w fd) ->
  (os_interrupts w + Z.to_nat kControlResponseBufferBytes <= send_fuel)%nat ->
  exists s' w' rules' replies,
    handle_client_times padding (length (os_incoming w fd)) send_fuel w s fd = Some (s', w') /\
    answered padding stats rules ms replies rules' /\ srv_rel base w' s' conns rules' stats /\
    os_delivered w' fd = os_delivered w fd ++ mjoin replies /\
    forall fd', fd' <> fd -> os_delivered w' fd' = os_delivered w fd'.
Proof.
  intros Hpad Hsize Hr Hi Href Hms Hj Hc Hfuel.
  destruct (stream_served padding Hpad Hsize _ send_fuel _ _ _ _ _ _ _ _ _ ms Hr Hi eq_refl Href Hms (eq_sym Hj))
    as (s' & w' & rules' & replies & Hrun & Hans & Hr' & Hdel & Hoth); [done|done|done|done|].
  rewrite list_insert_id in Hr' by done. by exists s', w', rules', replies.
Qed.

(** One call of [handle_client] on a connection that sends more than its buffer
    holds closes this connection, sends nothing, and leaves the other connections, the
    rules and the rest of the process's descriptors as they were. *)
Theorem oversized_stream_dropped {World : Type} `{!Os World} `{!OsLaws World} (padding : list Byte)
    (send_fuel : nat) (base : gset Z) (w w1 : World) s conns rules stats i fd p r data errno :
  Forall (fits 8) padding -> length padding = 4%nat ->
  srv_rel base w s conns rules stats -> conns !! i = Some (fd, p) -> os_recv w fd 4096 = ((r, data, errno), w1) -> 0 < r ->
  kControlReadBufferBytes < zlen p + r ->
  (os_interrupts w + Z.to_nat kControlResponseBufferBytes <= send_fuel)%nat ->
  exists s' w' conns', handle_client padding send_fuel w s fd = Some (s', w') /\ conns ≡ₚ (fd, p) :: conns' /\
    srv_rel base w' s' conns' rules stats /\ forall fd', os_delivered w' fd' = os_delivered w fd'.
Proof.
  intros Hpad Hsize Hr Hi Hrecv Hpos Hover Hfuel.
  pose proof (handle_client_data padding Hpad Hsize _ _ _ _ _ _ _ _ _ _ _ _ _ _ Hr Hi Hrecv Hpos Hfuel) as H. cbv zeta in H.
  destruct (os_recv_law _ _ _ _ _ _ _ Hrecv) as (_ & _ & Hdata). destruct (Hdata Hpos) as (_ & Hz & _).
  rewrite bool_decide_false in H.
  - destruct H as (s' & w' & Hrun & Hr' & [_ Hq]). exists s', w', (swap_out i conns). split_and!; try done. by apply swap_out_perm.
  - rewrite zlen_app. unfold zlen in *. rewrite length_take. lia.
Qed.

(** C16: whatever the operating system returns (interrupting finitely many calls of
    [send]) and however long the server runs, [init], any number of rounds and the
    destructor's [shutdown] all complete, and leave exactly the descriptors open that were
    open before: no connection, refused connection or failed start leaks one, and none of
    the rest of the process is closed. While it runs, the server has at most
    [max_connections] connections and its published snapshot is its rule table. *)
Theorem server_leaks_no_descriptor {World : Type} `{!Os World} `{!OsLaws World} (padding : list Byte)
    (send_fuel : nat) (w : World) s config core rules stats (running : list bool) :
  Forall (fits 8) padding -> length padding = 4%nat ->
  srv_idle s -> plane_repr core rules stats ->
  (os_interrupts w + Z.to_nat kControlResponseBufferBytes <= send_fuel)%nat ->
  let '(status, s1, w1) := cs_init w s config core in
  exists s2 w2 s3 w3,
    cs_run padding send_fuel w1 s1 running = Some (s2, w2) /\ cs_shutdown w2 s2 = Some (s3, w3) /\
    os_open w3 = os_open w /\ srv_idle s3 /\
    (status = ControlPlaneStatus_Ok -> 0 <= cs_connection_count_ s2 <= cpc_max_connections (cs_config_ s2) /\
       sn_rules_ (current_rules (cs_core_ s2)) = cc_rules (cp_control_ (cs_core_ s2))).
Proof.
  intros Hpad Hsize Hidle Hp Hfuel. pose proof (init_spec w s config core rules stats Hidle Hp) as Hi.
  destruct (cs_init w s config core) as [[status s1] w1]. destruct Hi as [[Hq _] Hi]. case_bool_decide as Hst.
  - destruct (run_keeps padding Hpad Hsize send_fuel running _ _ _ _ _ _ Hi) as (s2 & w2 & conns & rules' & Hrun & Hr); [lia|].
    destruct (shutdown_spec _ _ _ _ _ _ Hr) as (s3 & w3 & Hsd & Ho & Hidle3 & _). exists s2, w2, s3, w3. split_and!; try done.
    intros _. rewrite (sv_count _ _ _ _ _ _ Hr). destruct (sv_plane _ _ _ _ _ _ Hr) as [Hc Hsn].
    split; [split; [apply zlen_nonneg|apply Hr]|]. unfold current_rules, cc_rules.
    by rewrite Hsn, (rt_repr_rules kDefaultMaxRules _ _ (cr_table _ _ _ _ Hc)).
  - destruct Hi as [Hidle1 Ho]. destruct (shutdown_idle w1 s1 Hidle1) as (s3 & Hsd & Hidle3).
    exists s1, w1, s3, w1. rewrite run_idle by done. by split_and!.
Qed.

(** ** A concrete operating system

    [send] is interrupted [net_interrupts] times and then takes at most 10 bytes, [recv]
    returns the next segment, [epoll_wait] the next list of ready descriptors; a new
    descriptor is larger than all that are open. *)

Record Net := mkNet {
  net_open : gset Z;
  net_sent : Z -> list Byte;
  net_interrupts : nat;
  net_incoming : Z -> list (list Byte);
  net_ready : list (list Z);
}.

Definition net_set_open (w : Net) (o : gset Z) : Net :=
  mkNet o (net_sent w) (net_interrupts w) (net_incoming w) (net_ready w).

Definition net_fresh (o : gset Z) : Z := 1 + foldr Z.max 0 (elements o).

Definition net_new (w : Net) : Z * Net := (net_fresh (net_open w), net_set_open w ({[net_fresh (net_open w)]} ∪ net_open w)).

Definition net_recv (w : Net) (fd n : Z) : (Z * list Byte * Errno) * Net :=
  match net_incoming w fd with
  | c :: cs =>
      if bool_decide (Forall (fits 8) c /\ 0 < zlen c <= n)
      then ((zlen c, c, EAGAIN),
            mkNet (net_open w) (net_sent w) (net_interrupts w) (fun fd' => if fd' =? fd then cs else net_incoming w fd') (net_ready w))
      else ((-1, [], EAGAIN), w)
  | [] => ((-1, [], EAGAIN), w)
  end.

Definition net_send (w : Net) (fd : Z) (bytes : list Byte) : (Z * Errno) * Net :=
  match net_interrupts w with
  | S n => ((-1, EINTR), mkNet (net_open w) (net_sent w) n (net_incoming w) (net_ready w))
  | O =>
      let sent := Z.min 10 (zlen bytes) in
      ((sent, EAGAIN),
       mkNet (net_open w) (fun fd' => if fd' =? fd then net_sent w fd ++ take (Z.to_nat sent) bytes else net_sent w fd') O
         (net_incoming w) (net_ready w))
  end.

Definition net_epoll_wait (w : Net) : (Z * list Z * Errno) * Net :=
  match net_ready w with
  | [] => ((-1, [], EINTR), w)
  | r :: ready => ((zlen r, r, EAGAIN), mkNet (net_open w) (net_sent w) (net_interrupts w) (net_incoming w) ready)
  end.

#[export] Instance Net_os : Os Net := {|
  os_socket := net_new; os_setsockopt w _ := w; os_bind w _ _ := (0, w); os_listen w _ _ := (0, w);
  os_epoll_create1 := net_new; os_eventfd := net_new; os_epoll_ctl_add w _ _ := (0, w);
  os_epoll_wait w _ _ := net_epoll_wait w; os_accept4 w _ := net_new w; os_recv := net_recv; os_send := net_send;
  os_write_eventfd w _ := w; os_close w fd := net_set_open w (net_open w ∖ {[fd]});
  os_open := net_open; os_delivered := net_sent; os_interrupts := net_interrupts;
|}.

Lemma net_fresh_spec o : 0 <= net_fresh o /\ net_fresh o ∉ o.
Proof.
  assert (forall l x, 0 <= foldr Z.max 0 l /\ (x ∈ l -> x <= foldr Z.max 0 l)) as H.
  { intros l x. induction l as [|y l IH]; cbn; [split; [lia|by intros ?%not_elem_of_nil]|]. rewrite elem_of_cons. naive_solver lia. }
  unfold net_fresh. split; [destruct (H (elements o) 0); lia|]. intros Hin%elem_of_elements.
  destruct (H (elements o) (1 + foldr Z.max 0 (elements o))) as [_ Hle]. specialize (Hle Hin). lia.
Qed.

Lemma net_new_law w fd w' : net_new w = (fd, w') -> opened w fd w' /\ quiet w w'.
Proof.
  intros [= <- <-]. destruct (net_fresh_spec (net_open w)). split; [right; by split_and!|done].
Qed.

#[export] Instance Net_laws : OsLaws Net.
Proof.
  split; cbn [os_socket os_epoll_create1 os_eventfd os_accept4 Net_os]; try (intros; by eapply net_new_law);
    try (intros; simplify_eq/=; by split).
  - intros w e n r w' H. cbn in H. unfold net_epoll_wait in H. destruct (net_ready w); by simplify_eq.
  - intros w fd n r data errno w' H. cbn in H. unfold net_recv in H.
    destruct (net_incoming w fd); [|case_bool_decide]; simplify_eq; split_and!; try done; intros; try lia; naive_solver lia.
  - intros w fd bytes sent errno w' H. cbn in H. unfold net_send in H. destruct (net_interrupts w) eqn:E; simplify_eq; cbn.
    + split_and!; try done; try lia. { by rewrite Z.eqb_refl. } intros fd' Hne. by rewrite (proj2 (Z.eqb_neq _ _) Hne).
    + rewrite app_nil_r. pose proof (zlen_nonneg bytes). split_and!; try done; lia.
Qed.

#[export] Instance Net_inbox : OsInbox Net.
Proof.
  refine {| os_incoming := net_incoming |}.
  - intros w fd n c cs Hin Hf Hc. cbn. unfold net_recv. rewrite Hin, bool_decide_true by done.
    eexists _, _, _. split; [done|]. cbn. rewrite take_ge, Z.eqb_refl by done. done.
  - intros w fd bytes r w' H. cbn in H. unfold net_send in H. by destruct (net_interrupts w); simplify_eq.
Defined.

Lemma net_not_refused fd : ~ send_refused (World := Net) fd.
Proof.
  intros (w & bytes & sent & errno & w' & Hs & Hne & Hle & He). cbn in Hs. unfold net_send in Hs.
  destruct (net_interrupts w); simplify_eq; [|by apply He].
  destruct bytes as [|b bytes]; [done|]. rewrite zlen_cons in Hle. pose proof (zlen_nonneg bytes). lia.
Qed.

(** A server with one connection, on which two requests arrive in three segments. *)
Definition example_stream : list Byte := example_clear_request ++ example_add_request.

Definition example_net (chunks : list (list Byte)) : Net :=
  mkNet (list_to_set [0; 1; 2; 3; 4; 5; 6]) (fun _ => []) 2 (fun fd => if fd =? 6 then chunks else []) [].

Definition example_server : ControlPlaneServer :=
  cs_set_connections (cs_set_fds (ControlPlaneServer_default ControlPlaneCore_new) 3 4 5 true)
    (6 :: replicate 15 0) (replicate 16 ConnectionBuffer_default) 1.

Lemma example_server_rel chunks :
  srv_rel (list_to_set [0; 1; 2]) (example_net chunks) example_server [(6, [])] [] StatUpdate_default.
Proof.
  split; try done.
  - by apply Forall_replicate, ConnectionBuffer_default_repr.
  - intros [|i] fd p Hi; [|done]. injection Hi as <- <-. split; [done|]. exists ConnectionBuffer_default.
    split; [done|apply ConnectionBuffer_default_repr].
  - apply (bool_decide_unpack _). by vm_compute.
  - apply (bool_decide_unpack _). by vm_compute.
Qed.

Lemma answered_rules padding stats rules ms bs rules' :
  answered padding stats rules ms bs rules' -> rules' = rules_after padding rules stats ms.
Proof. induction 1 as [|rules m ms decoded b bs rules' Hd _ _ IH]; [done|]. cbn [rules_after]. by rewrite Hd. Qed.

Lemma fragmented_requests_answered_witness :
  exists s' w' rules' (replies : list (list Byte)),
    handle_client_times [0; 0; 0; 0] 3 9000
      (example_net [take 10 example_stream; take 40 (drop 10 example_stream); drop 50 example_stream]) example_server 6
    = Some (s', w') /\ rules' = [example_rule] /\ srv_rel (list_to_set [0; 1; 2]) w' s' [(6, [])] rules' StatUpdate_default /\
    length replies = 2%nat.
Proof.
  destruct (fragmented_requests_answered [0; 0; 0; 0] 9000 (list_to_set [0; 1; 2])
    (example_net [take 10 example_stream; take 40 (drop 10 example_stream); drop 50 example_stream])
    example_server [(6, [])] [] StatUpdate_default 0 6 [example_clear_request; example_add_request])
    as (s' & w' & rules' & replies & Hrun & Hans & Hr & _).
  - by repeat constructor.
  - done.
  - apply example_server_rel.
  - done.
  - apply net_not_refused.
  - repeat constructor; by vm_compute.
  - by vm_compute.
  - repeat constructor; by vm_compute.
  - apply Nat.leb_le. by vm_compute.
  - exists s', w', rules', replies. split; [exact Hrun|]. split; [|split; [exact Hr|]].
    + rewrite (answered_rules _ _ _ _ _ _ Hans). by vm_compute.
    + by inversion_clear Hans; inversion_clear H1; inversion_clear H4.
Defined.

Lemma oversized_stream_dropped_witness :
  exists s' w' conns', handle_client [0; 0; 0; 0] 9000 (example_net [replicate 4096 7])
      (cs_set_buffers example_server (mkConnectionBuffer (replicate 8192 0) 5000 false :: replicate 15 ConnectionBuffer_default)) 6
    = Some (s', w') /\ [(6, replicate 5000 0)] ≡ₚ (6, replicate 5000 0) :: conns'.
Proof.
  destruct (oversized_stream_dropped [0; 0; 0; 0] 9000 (list_to_set [0; 1; 2]) (example_net [replicate 4096 7])
    (net_recv (example_net [replicate 4096 7]) 6 4096).2
    (cs_set_buffers example_server (mkConnectionBuffer (replicate 8192 0) 5000 false :: replicate 15 ConnectionBuffer_default))
    [(6, replicate 5000 0)] [] StatUpdate_default 0 6 (replicate 5000 0) 4096 (replicate 4096 7) EAGAIN)
    as (s' & w' & conns' & Hrun & Hp & _).
  - by repeat constructor.
  - done.
  - assert (cb_repr (mkConnectionBuffer (replicate 8192 0) 5000 false) (replicate 5000 0)) as Hb.
    { split; [|done]. split; [done|]. split; [done|]. by apply Forall_replicate. }
    exact (proj2 (srv_rel_set_buffer _ _ _ _ _ _ 0 6 [] _ _ (example_server_rel _) eq_refl Hb)).
  - done.
  - done.
  - done.
  - done.
  - apply Nat.leb_le. by vm_compute.
  - exists s', w', conns'. split; [exact Hrun|exact Hp].
Defined.

(** A server that is started, accepts a connection, serves it, and is stopped. *)
Definition example_boot : Net :=
  mkNet (list_to_set [0; 1; 2]) (fun _ => []) 2 (fun fd => if fd =? 6 then [example_stream] else []) [[3]; [6]; [5]].

Lemma server_leaks_no_descriptor_witness :
  exists s1 w1 s2 w2 s3 w3,
    cs_init example_boot (ControlPlaneServer_default ControlPlaneCore_new) ControlPlaneConfig_default ControlPlaneCore_new
      = (ControlPlaneStatus_Ok, s1, w1) /\
    cs_run [0; 0; 0; 0] 9000 w1 s1 [true; true; true] = Some (s2, w2) /\
    cs_shutdown w2 s2 = Some (s3, w3) /\ os_open w3 = list_to_set [0; 1; 2].
Proof.
  pose proof (server_leaks_no_descriptor [0; 0; 0; 0] 9000 example_boot (ControlPlaneServer_default ControlPlaneCore_new)
    ControlPlaneConfig_default ControlPlaneCore_new [] StatUpdate_default [true; true; true] ltac:(by repeat constructor) eq_refl
    (ControlPlaneServer_default_idle _) ControlPlaneCore_new_repr ltac:(apply Nat.leb_le; by vm_compute)) as H.
  assert ((cs_init example_boot (ControlPlaneServer_default ControlPlaneCore_new) ControlPlaneConfig_default ControlPlaneCore_new).1.1
    = ControlPlaneStatus_Ok) as Hok by (by vm_compute).
  destruct (cs_init _ _ _ _) as [[status s1] w1] eqn:E. cbn [fst] in Hok. subst status.
  destruct H as (s2 & w2 & s3 & w3 & Hrun & Hsd & Ho & _).
  exists s1, w1, s2, w2, s3, w3. split_and!; [reflexivity|exact Hrun|exact Hsd|exact Ho].
Defined.
