(* ===== verification/Float64.v ===== *)
(** * [double] of C++: IEEE binary64

    The dashboard computes with [double].  A [double] is a [spec_float] of the standard
    library, which specifies the IEEE operations on sign, mantissa and exponent; this
    file names the operations that the code uses, with the conversions of C++ and the
    [%.nf] format of [snprintf], and bounds the results of quotients and products. *)

From Stdlib Require Import SpecFloat.
From stdpp Require Import pretty.
From S2P Require Import Prelude.

Abbreviation double := spec_float (only parsing).

Definition kDoublePrec : Z := 53.
Definition kDoubleEmax : Z := 1024.

(** [static_cast<double>] of an integer, and an integer literal with a point. *)
Definition double_of_Z (n : Z) : double := binary_normalize kDoublePrec kDoubleEmax n 0 false.

Definition dmul (x y : double) : double := SFmul kDoublePrec kDoubleEmax x y.
Definition ddiv (x y : double) : double := SFdiv kDoublePrec kDoubleEmax x y.
Definition dgt (x y : double) : bool := SFltb y x.

(** The integer part, rounding towards zero. *)
Definition trunc_double (x : double) : option Z :=
  match x with
  | S754_zero _ => Some 0
  | S754_finite sign m e =>
      let n := if 0 <=? e then Z.pos m * 2 ^ e else Z.pos m / 2 ^ (- e) in
      Some (if sign then - n else n)
  | _ => None
  end.

(** [static_cast<int>]: the behaviour is undefined when the integer part is no [int]. *)
Definition int_of_double (x : double) : option Z :=
  n ← trunc_double x; if bool_decide (- 2 ^ 31 <= n < 2 ^ 31) then Some n else None.

(** [snprintf] with [%.nf]: [|x| * 10^n] rounded to the nearest integer, ties to even,
    as the C library computes it in the default rounding mode. *)
Definition round_quotient (a b : Z) : Z :=
  let q := a / b in
  let r := a mod b in
  if (2 * r <? b) || ((2 * r =? b) && Z.even q) then q else q + 1.

Fixpoint repeat_string (n : nat) (s : string) : string :=
  match n with O => "" | S n => s +:+ repeat_string n s end.

Definition fixed_digits (n : nat) (scaled : Z) : string :=
  let fraction := pretty (scaled mod 10 ^ Z.of_nat n) in
  pretty (scaled / 10 ^ Z.of_nat n) +:+ "." +:+
  repeat_string (n - String.length fraction) "0" +:+ fraction.

Definition sign_string (sign : bool) : string := if sign then "-" else "".

Definition format_fixed (n : nat) (x : double) : string :=
  match x with
  | S754_nan => "nan"
  | S754_infinity sign => sign_string sign +:+ "inf"
  | S754_zero sign => sign_string sign +:+ fixed_digits n 0
  | S754_finite sign m e =>
      let scaled := if 0 <=? e then Z.pos m * 2 ^ e * 10 ^ Z.of_nat n
                    else round_quotient (Z.pos m * 10 ^ Z.of_nat n) (2 ^ (- e)) in
      sign_string sign +:+ fixed_digits n scaled
  end.

(** ** Rounding *)

Lemma iter_pos_nat {A} (f : A -> A) p x : SpecFloat.iter_pos f p x = Nat.iter (Pos.to_nat p) f x.
Proof.
  revert x. induction p as [p IH|p IH|]; intros x; cbn [SpecFloat.iter_pos]; [| |done].
  - rewrite !IH, Pos2Nat.inj_xI, Nat.iter_succ_r. replace (2 * Pos.to_nat p)%nat with (Pos.to_nat p + Pos.to_nat p)%nat by lia.
    by rewrite Nat.iter_add.
  - rewrite !IH, Pos2Nat.inj_xO. replace (2 * Pos.to_nat p)%nat with (Pos.to_nat p + Pos.to_nat p)%nat by lia. by rewrite Nat.iter_add.
Qed.

(** Bits were lost. *)
Definition shr_inexact (x : shr_record) : bool := shr_r x || shr_s x.

Lemma shr_1_spec x :
  0 <= shr_m x -> shr_m (shr_1 x) = shr_m x / 2 /\ shr_inexact (shr_1 x) = shr_inexact x || Z.odd (shr_m x).
Proof.
  destruct x as [[|[p|p|]|p] r s]; cbn [shr_m shr_1]; intros H; unfold shr_inexact; cbn; try lia;
    try (split; [reflexivity || (symmetry; Z.to_euclidean_division_equations; lia)|]; by destruct r, s).
Qed.

Lemma shr_iter_spec n x :
  0 <= shr_m x ->
  shr_m (Nat.iter n shr_1 x) = shr_m x / 2 ^ Z.of_nat n /\
  shr_inexact (Nat.iter n shr_1 x) = shr_inexact x || negb (shr_m x mod 2 ^ Z.of_nat n =? 0).
Proof.
  intros Hx. induction n as [|n [IHm IHi]].
  { cbn. rewrite Z.div_1_r, Z.mod_1_r. by rewrite orb_false_r. }
  pose proof (pow2_pos (Z.of_nat n) ltac:(lia)). rewrite Nat.iter_succ.
  destruct (shr_1_spec (Nat.iter n shr_1 x)) as [Hm Hi]; [rewrite IHm; apply Z.div_pos; lia|].
  rewrite Hm, Hi, IHm, IHi, Nat2Z.inj_succ, Z.pow_succ_r by lia. rewrite Z.div_div by lia.
  split; [f_equal; lia|]. rewrite <-orb_assoc. f_equal. rewrite Z.mul_comm, Z.rem_mul_r by lia.
  rewrite Zmod_odd. pose proof (Z.mod_pos_bound (shr_m x) (2 ^ Z.of_nat n) ltac:(lia)).
  destruct (Z.odd (shr_m x / 2 ^ Z.of_nat n)); repeat zcase; cbn; lia.
Qed.

(** What [x] is at most: zero or a positive number up to the integer [B]. *)
Definition double_upto (B : Z) (x : double) : Prop :=
  match x with
  | S754_zero false => True
  | S754_finite false m e => e <= 0 /\ Z.pos m <= B * 2 ^ (- e)
  | _ => False
  end.


Abbreviation exponent_of := (fexp kDoublePrec kDoubleEmax) (only parsing).

Lemma exponent_of_max e : exponent_of e = Z.max (e - 53) (-1074).
Proof. done. Qed.

Lemma Zdigits2_log2 m : 0 < m -> Zdigits2 m = Z.log2 m + 1.
Proof.
  destruct m as [|p|]; intros H; try lia. cbn [Zdigits2]. clear H.
  induction p as [p IH|p IH|]; [| |done]; cbn [digits2_pos]; rewrite Pos2Z.inj_succ, IH.
  - rewrite (Pos2Z.inj_xI p), Z.log2_succ_double by lia. lia.
  - rewrite (Pos2Z.inj_xO p), Z.log2_double by lia. lia.
Qed.

(** How far [m * 2^e] must be shifted for its mantissa to fit. *)
Definition shift_of (m e : Z) : Z := Z.max 0 (exponent_of (Zdigits2 m + e) - e).

Definition loc_inexact (l : location) : bool := match l with loc_Exact => false | _ => true end.

Lemma shr_fexp_spec m e l :
  0 <= m ->
  exists x, shr_fexp kDoublePrec kDoubleEmax m e l = (x, e + shift_of m e) /\ shr_m x = m / 2 ^ shift_of m e /\
    shr_inexact x = loc_inexact l || negb (m mod 2 ^ shift_of m e =? 0).
Proof.
  intros Hm. unfold shr_fexp, shr, shift_of. set (n := exponent_of (Zdigits2 m + e) - e).
  assert (shr_m (shr_record_of_loc m l) = m /\ shr_inexact (shr_record_of_loc m l) = loc_inexact l) as [Hx Hi]
    by by destruct l as [|[]].
  destruct n as [|p|p]; cbn [Z.max Z.compare].
  - eexists. rewrite Z.add_0_r, Z.div_1_r, Z.mod_1_r, orb_false_r. done.
  - eexists. rewrite iter_pos_nat. destruct (shr_iter_spec (Pos.to_nat p) (shr_record_of_loc m l)) as [H1 H2]; [by rewrite Hx|].
    rewrite Hx in H1, H2. rewrite Hi in H2. rewrite positive_nat_Z in H1, H2. done.
  - eexists. rewrite Z.add_0_r, Z.div_1_r, Z.mod_1_r, orb_false_r. done.
Qed.

Lemma round_nearest_even_bound x :
  let r := round_nearest_even (shr_m x) (loc_of_shr_record x) in
  shr_m x <= r <= shr_m x + if shr_inexact x then 1 else 0.
Proof.
  destruct x as [m [] []]; unfold shr_inexact; cbn; try lia. destruct (Z.even m); lia.
Qed.

(** [m * 2^e], plus a lost fraction, is at most [B]: so is the rounded number. *)
Lemma binary_round_aux_upto B m e l :
  0 < m -> e <= -1 -> Z.log2 m + 1 + e <= 52 -> m + (if loc_inexact l then 1 else 0) <= B * 2 ^ (- e) ->
  double_upto B (binary_round_aux kDoublePrec kDoubleEmax false m e l).
Proof.
  intros Hm He Hd HB. unfold binary_round_aux.
  destruct (shr_fexp_spec m e l ltac:(lia)) as (x & -> & Hx & Hi). pose proof (round_nearest_even_bound x) as Hr. cbv zeta in Hr.
  set (r := round_nearest_even _ _) in *. set (n := shift_of m e) in *.
  assert (0 <= n /\ e + n <= -1 /\ Z.max (Z.log2 m + 1 + e - 53) (-1074) <= e + n) as (Hn0 & Hn1 & Hn2).
  { subst n. unfold shift_of. rewrite exponent_of_max, Zdigits2_log2 by done. lia. }
  pose proof (pow2_pos n ltac:(lia)) as Hpn. assert (0 <= m / 2 ^ n) as Hq0 by (apply Z.div_pos; lia).
  assert (0 <= r) as Hr0 by lia.
  assert (r <= B * 2 ^ (- (e + n))) as HrB.
  { replace (- e) with (- (e + n) + n) in HB by lia. rewrite Z.pow_add_r in HB by lia.
    pose proof (Z.div_mod m (2 ^ n) ltac:(lia)). pose proof (Z.mod_pos_bound m (2 ^ n) ltac:(lia)).
    rewrite Hi in Hr. rewrite Hx in Hr. destruct (loc_inexact l), (Z.eqb_spec (m mod 2 ^ n) 0); cbn in Hr; nia. }
  assert (Z.log2 r <= Z.max 0 (Z.log2 m + 1 - n)) as Hlog.
  { destruct (decide (r = 0)) as [->|]; [cbn; lia|]. apply Z.lt_succ_r, Z.log2_lt_pow2; [lia|].
    assert (r <= m / 2 ^ n + 1) as Hr1 by (rewrite Hx in Hr; destruct (shr_inexact x); lia).
    pose proof (proj2 (Z.log2_spec m Hm)) as Hm2. destruct (decide (n <= Z.log2 m + 1)).
    - rewrite Z.max_r by lia. assert (m / 2 ^ n < 2 ^ (Z.log2 m + 1 - n)).
      { apply Z.div_lt_upper_bound; [lia|]. rewrite <-Z.pow_add_r by lia. by replace (n + (Z.log2 m + 1 - n)) with (Z.succ (Z.log2 m)) by lia. }
      rewrite Z.pow_succ_r by lia. lia.
    - rewrite Z.max_l by lia. rewrite Z.div_small in Hr1; [cbn; lia|]. split; [lia|].
      eapply Z.lt_le_trans; [done|]. apply Z.pow_le_mono_r; lia. }
  destruct (shr_fexp_spec r (e + n) loc_Exact Hr0) as (y & -> & Hy & _).
  set (k := shift_of r (e + n)) in *.
  assert (0 <= k <= 1) as Hk.
  { subst k. unfold shift_of. rewrite exponent_of_max. destruct (decide (r = 0)) as [->|].
    - cbn [Zdigits2]. lia.
    - rewrite Zdigits2_log2 by lia. lia. }
  pose proof (pow2_pos k ltac:(lia)) as Hpk.
  assert (0 <= shr_m y <= B * 2 ^ (- (e + n + k))) as HyB.
  { rewrite Hy. split; [apply Z.div_pos; lia|]. apply Z.div_le_upper_bound; [done|].
    replace (- (e + n)) with (- (e + n + k) + k) in HrB by lia. rewrite Z.pow_add_r in HrB by lia. lia. }
  destruct (shr_m y) as [|p|p]; [done| |lia]. unfold kDoubleEmax, kDoublePrec.
  destruct (Z.leb_spec (e + n + k) (1024 - 53)); [|lia]. cbn. split; lia.
Qed.

(** ** Conversions, quotients and products *)

Lemma iter_xO p k : Z.pos (Pos.iter xO p k) = Z.pos p * 2 ^ Z.pos k.
Proof.
  rewrite Pos2Nat.inj_iter, <-(positive_nat_Z k). induction (Pos.to_nat k) as [|n IH]; [cbn; lia|].
  cbn [nat_rect]. rewrite Pos2Z.inj_xO, IH, Nat2Z.inj_succ, Z.pow_succ_r by lia. lia.
Qed.

(** A small integer is converted without rounding. *)
Lemma double_of_Z_exact n :
  0 < n < 2 ^ 53 ->
  exists m, double_of_Z n = S754_finite false m (Z.log2 n - 52) /\ Z.pos m = n * 2 ^ (52 - Z.log2 n) /\
    2 ^ 52 <= Z.pos m < 2 ^ 53.
Proof.
  intros Hn. destruct n as [|p|]; try lia. pose proof (Z.log2_spec (Z.pos p) ltac:(lia)) as [Hlo Hhi].
  assert (0 <= Z.log2 (Z.pos p) <= 52) as Hl.
  { split; [apply Z.log2_nonneg|]. apply Z.lt_succ_r, Z.log2_lt_pow2; lia. }
  assert (forall m : positive, Z.pos m = Z.pos p * 2 ^ (52 - Z.log2 (Z.pos p)) -> 2 ^ 52 <= Z.pos m < 2 ^ 53) as Hm.
  { intros m ->. rewrite Z.pow_succ_r in Hhi by lia.
    replace (2 ^ 53) with (2 * 2 ^ 52) by done.
    replace 52 with (Z.log2 (Z.pos p) + (52 - Z.log2 (Z.pos p))) at 1 4 by lia. rewrite Z.pow_add_r by lia.
    pose proof (pow2_pos (52 - Z.log2 (Z.pos p)) ltac:(lia)). nia. }
  assert (exists m, shl_align p 0 (exponent_of (Z.pos (digits2_pos p) + 0)) = (m, Z.log2 (Z.pos p) - 52) /\
    Z.pos m = Z.pos p * 2 ^ (52 - Z.log2 (Z.pos p))) as (m & Hs & Em).
  { change (Z.pos (digits2_pos p)) with (Zdigits2 (Z.pos p)). rewrite Zdigits2_log2, exponent_of_max by lia.
    unfold shl_align. rewrite Z.sub_0_r, Z.max_l by lia. destruct (Z.log2 (Z.pos p) + 1 + 0 - 53) as [|q|q] eqn:E; try lia.
    - exists p. replace (Z.log2 (Z.pos p)) with 52 by lia. split; [done|lia].
    - eexists. rewrite iter_xO. split; [f_equal; lia|]. do 2 f_equal. lia. }
  exists m. specialize (Hm m Em). split; [|done]. unfold double_of_Z, binary_normalize, binary_round. rewrite Hs.
  assert (Z.log2 (Z.pos m) = 52) as Hlm by (apply Z.log2_unique; lia).
  unfold binary_round_aux, shr_fexp. rewrite Zdigits2_log2, Hlm, exponent_of_max, Z.max_l by lia.
  replace (52 + 1 + (Z.log2 (Z.pos p) - 52) - 53 - (Z.log2 (Z.pos p) - 52)) with 0 by lia. cbn [shr shr_m shr_record_of_loc loc_of_shr_record round_nearest_even].
  rewrite Zdigits2_log2, Hlm, exponent_of_max, Z.max_l by lia.
  replace (52 + 1 + (Z.log2 (Z.pos p) - 52) - 53 - (Z.log2 (Z.pos p) - 52)) with 0 by lia. cbn [shr shr_m shr_record_of_loc].
  unfold kDoubleEmax, kDoublePrec. destruct (Z.leb_spec (Z.log2 (Z.pos p) - 52) (1024 - 53)); [done|lia].
Qed.

Lemma double_of_Z_0 : double_of_Z 0 = S754_zero false.
Proof. done. Qed.

(** A fraction of a whole is at most one. *)
Lemma ddiv_upto c t : 0 <= c <= t -> 0 < t < 2 ^ 53 -> double_upto 1 (ddiv (double_of_Z c) (double_of_Z t)).
Proof.
  intros Hc Ht. destruct (double_of_Z_exact t Ht) as (m2 & -> & Em2 & Hm2).
  destruct (decide (c = 0)) as [->|]; [done|]. destruct (double_of_Z_exact c ltac:(lia)) as (m1 & -> & Em1 & Hm1).
  assert (0 <= Z.log2 c <= Z.log2 t) as Hlog by (split; [apply Z.log2_nonneg|apply Z.log2_le_mono; lia]).
  assert (Z.log2 t <= 52) by (apply Z.lt_succ_r, Z.log2_lt_pow2; lia).
  set (e := Z.log2 c - Z.log2 t) in *. unfold ddiv, SFdiv, SFdiv_core_binary.
  assert (Z.log2 (Z.pos m1) = 52 /\ Z.log2 (Z.pos m2) = 52) as [L1 L2] by (split; apply Z.log2_unique; lia).
  rewrite !Zdigits2_log2, L1, L2, exponent_of_max by lia.
  replace (52 + 1 + (Z.log2 c - 52) - (52 + 1 + (Z.log2 t - 52))) with e by lia.
  replace (Z.log2 c - 52 - (Z.log2 t - 52)) with e by lia.
  replace (Z.min (Z.max (e - 53) (-1074)) e) with (e - 53) by lia. replace (e - (e - 53)) with 53 by lia. cbv iota.
  rewrite Z.shiftl_mul_pow2 by lia. rewrite (surjective_pairing (Z.div_eucl _ _)).
  change (Z.div_eucl (Z.pos m1 * 2 ^ 53) (Z.pos m2)).1 with (Z.pos m1 * 2 ^ 53 / Z.pos m2).
  change (Z.div_eucl (Z.pos m1 * 2 ^ 53) (Z.pos m2)).2 with (Z.pos m1 * 2 ^ 53 mod Z.pos m2). cbn [xorb].
  set (q := Z.pos m1 * 2 ^ 53 / Z.pos m2). set (r := Z.pos m1 * 2 ^ 53 mod Z.pos m2).
  pose proof (Z.div_mod (Z.pos m1 * 2 ^ 53) (Z.pos m2) ltac:(lia)) as Hqr. fold q r in Hqr.
  pose proof (Z.mod_pos_bound (Z.pos m1 * 2 ^ 53) (Z.pos m2) ltac:(lia)) as Hr. fold r in Hr.
  assert (Z.pos m1 * 2 ^ 53 <= Z.pos m2 * 2 ^ (53 - e)) as Hle.
  { rewrite Em1, Em2. replace (53 - e) with (53 + (Z.log2 t - Z.log2 c)) by lia. rewrite Z.pow_add_r by lia.
    replace (52 - Z.log2 c) with ((52 - Z.log2 t) + (Z.log2 t - Z.log2 c)) by lia. rewrite Z.pow_add_r by lia.
    pose proof (pow2_pos (52 - Z.log2 t) ltac:(lia)). pose proof (pow2_pos (Z.log2 t - Z.log2 c) ltac:(lia)).
    assert (0 <= 2 ^ (52 - Z.log2 t) * 2 ^ (Z.log2 t - Z.log2 c) * 2 ^ 53) by nia. nia. }
  assert (q + (if r =? 0 then 0 else 1) <= 2 ^ (53 - e)) as Hq by (destruct (Z.eqb_spec r 0); nia).
  assert (0 < q) as Hq0 by nia.
  apply binary_round_aux_upto; [done|lia| |].
  - assert (Z.log2 q <= 53 - e); [|lia]. rewrite <-(Z.log2_pow2 (53 - e)) by lia. apply Z.log2_le_mono. destruct (r =? 0); lia.
  - replace (- (e - 53)) with (53 - e) by lia. rewrite Z.mul_1_l.
    replace (loc_inexact (new_location (Z.pos m2) r)) with (negb (r =? 0)); [by destruct (r =? 0)|].
    unfold new_location, new_location_even, new_location_odd. by destruct (Z.even _), (r =? 0).
Qed.

(** A fraction of [w] is at most [w]. *)
Lemma dmul_upto x w : double_upto 1 x -> 0 < w < 2 ^ 51 -> double_upto w (dmul x (double_of_Z w)).
Proof.
  intros Hx Hw. destruct (double_of_Z_exact w ltac:(lia)) as (m2 & -> & Em2 & Hm2).
  destruct x as [[]|[]| |[] m1 e1]; cbn [double_upto] in Hx; try done. destruct Hx as [He1 Hm1].
  assert (0 <= Z.log2 w <= 50) as Hl by (split; [apply Z.log2_nonneg|apply Z.lt_succ_r, Z.log2_lt_pow2; lia]).
  unfold dmul, SFmul. cbn [xorb]. rewrite Pos2Z.inj_mul.
  assert (Z.pos m1 * Z.pos m2 <= w * 2 ^ (- (e1 + (Z.log2 w - 52)))) as Hle.
  { replace (- (e1 + (Z.log2 w - 52))) with (- e1 + (52 - Z.log2 w)) by lia. rewrite Z.pow_add_r, Em2 by lia.
    pose proof (pow2_pos (52 - Z.log2 w) ltac:(lia)). assert (0 < w * 2 ^ (52 - Z.log2 w)) by nia. nia. }
  apply binary_round_aux_upto; [lia|lia| |cbn; lia].
  assert (Z.log2 (Z.pos m1 * Z.pos m2) < Z.succ (Z.log2 w) - (e1 + (Z.log2 w - 52))); [|lia].
  apply Z.log2_lt_pow2; [lia|]. eapply Z.le_lt_trans; [exact Hle|]. unfold Z.sub. rewrite Z.pow_add_r by lia.
  apply Z.mul_lt_mono_pos_r; [apply pow2_pos; lia|]. apply Z.log2_spec. lia.
Qed.

Lemma int_of_double_upto B x : double_upto B x -> 0 <= B < 2 ^ 31 -> exists n, int_of_double x = Some n /\ 0 <= n <= B.
Proof.
  intros Hx HB. unfold int_of_double. destruct x as [[]|[]| |[] m e]; cbn [double_upto] in Hx; try done.
  { exists 0. split; [done|lia]. }
  destruct Hx as [He Hm]. cbn [trunc_double mbind option_bind].
  set (n := if 0 <=? e then _ else _). assert (0 <= n <= B) as Hn.
  { subst n. destruct (Z.leb_spec 0 e).
    - replace e with 0 in * by lia. cbn in Hm. lia.
    - pose proof (pow2_pos (- e) ltac:(lia)). split; [apply Z.div_pos; lia|]. apply Z.div_le_upper_bound; lia. }
  exists n. rewrite bool_decide_true by lia. done.
Qed.
