(* ===== verification/Tui.v ===== *)
(** * [include/chronosx/tui.hpp]: the dashboard

    The latency histogram, the sparkline, the merge of queued statistics into the
    dashboard's state, and the text that the dashboard prints.  What is printed is the
    string that the stream receives. *)

From Stdlib Require Import SpecFloat.
From stdpp Require Import pretty.
From S2P Require Import Prelude Types Ring SpscQueue Float64.

Definition kHistogramBucketCount : Z := 16.
Definition kSparklineWindowSize : Z := 60.
Definition kTuiTargetFps : Z := 30.
Definition kTuiFrameIntervalNs : Z := 1000000000 / kTuiTargetFps.

(** ** [LatencyHistogram] *)

Record LatencyHistogram := mkLatencyHistogram {
  lh_counts_ : list Z;
  lh_total_count_ : Z;
  lh_total_sum_ns_ : Z;
  lh_min_ns_ : Z;
  lh_max_ns_ : Z;
}.

Definition LatencyHistogram_default : LatencyHistogram :=
  mkLatencyHistogram (replicate (Z.to_nat kHistogramBucketCount) 0) 0 0 0 0.

Definition bucket_for (ns : Z) : Z :=
  if ns <? 1000 then 0
  else if ns <? 10000 then 1
  else if ns <? 100000 then 2
  else if ns <? 1000000 then 3
  else if ns <? 10000000 then 4
  else if ns <? 100000000 then 5
  else if ns <? 1000000000 then 6
  else 7.

Definition lh_record (h : LatencyHistogram) (latency_ns : Z) : option LatencyHistogram :=
  let bucket := bucket_for latency_ns in
  count ← (lh_counts_ h).[bucket];
  counts ← (lh_counts_ h).[bucket <- u64 (count + 1)];
  let total_count := u64 (lh_total_count_ h + 1) in
  let total_sum_ns := u64 (lh_total_sum_ns_ h + latency_ns) in
  let min_ns := if (latency_ns <? lh_min_ns_ h) || (total_count =? 1) then latency_ns else lh_min_ns_ h in
  let max_ns := if lh_max_ns_ h <? latency_ns then latency_ns else lh_max_ns_ h in
  Some (mkLatencyHistogram counts total_count total_sum_ns min_ns max_ns).

Definition lh_count (h : LatencyHistogram) (bucket : Z) : option Z :=
  if bucket <? kHistogramBucketCount then (lh_counts_ h).[bucket] else Some 0.

Definition lh_total (h : LatencyHistogram) : Z := lh_total_count_ h.

Definition average_ns (h : LatencyHistogram) : Z :=
  if 0 <? lh_total_count_ h then lh_total_sum_ns_ h / lh_total_count_ h else 0.

Definition bucket_fraction (h : LatencyHistogram) (bucket : Z) : option spec_float :=
  if (lh_total_count_ h =? 0) || (kHistogramBucketCount <=? bucket) then Some (double_of_Z 0)
  else
    count ← (lh_counts_ h).[bucket];
    Some (ddiv (double_of_Z count) (double_of_Z (lh_total_count_ h))).

Definition bucket_labels : list string :=
  ["<1us"; "<10us"; "<100us"; "<1ms"; "<10ms"; "<100ms"; "<1s"; "1s+"; ""; ""; ""; ""; ""; ""; ""; ""].

Definition bucket_label (bucket : Z) : option string :=
  if bucket <? kHistogramBucketCount then bucket_labels.[bucket] else Some "".

Definition lh_reset (h : LatencyHistogram) : LatencyHistogram := LatencyHistogram_default.

(** ** [Sparkline] *)

Record Sparkline := mkSparkline {
  sp_values_ : list spec_float;
  sp_write_pos_ : Z;
  sp_count_ : Z;
}.

Definition Sparkline_default : Sparkline :=
  mkSparkline (replicate (Z.to_nat kSparklineWindowSize) (double_of_Z 0)) 0 0.

Definition sp_push (s : Sparkline) (value : spec_float) : option Sparkline :=
  values ← (sp_values_ s).[sp_write_pos_ s mod kSparklineWindowSize <- value];
  Some (mkSparkline values (u64 (sp_write_pos_ s + 1))
          (if sp_count_ s <? kSparklineWindowSize then u64 (sp_count_ s + 1) else sp_count_ s)).

Definition sp_at (s : Sparkline) (index : Z) : option spec_float :=
  if sp_count_ s <=? index then Some (double_of_Z 0)
  else
    let start := if sp_count_ s <=? sp_write_pos_ s then u64 (sp_write_pos_ s - sp_count_ s) else 0 in
    (sp_values_ s).[u64 (start + index) mod kSparklineWindowSize].

Definition sp_latest (s : Sparkline) : option spec_float :=
  if sp_count_ s =? 0 then Some (double_of_Z 0)
  else (sp_values_ s).[u64 (sp_write_pos_ s - 1) mod kSparklineWindowSize].

(** The loop of [max_value] from [index] on, with [n] samples left. *)
Fixpoint max_value_loop (n : nat) (s : Sparkline) (index : Z) (max : spec_float) : option spec_float :=
  match n with
  | O => Some max
  | S n =>
      value ← sp_at s index;
      max_value_loop n s (index + 1) (if dgt value max then value else max)
  end.

Definition sp_max_value (s : Sparkline) : option spec_float :=
  max_value_loop (Z.to_nat (sp_count_ s)) s 0 (double_of_Z 0).

Definition sp_reset (s : Sparkline) : Sparkline := Sparkline_default.

(** ** [DashboardState] *)

Record DashboardState := mkDashboardState {
  ds_packets_seen : Z;
  ds_packets_dropped : Z;
  ds_bytes_seen : Z;
  ds_average_latency_ns : Z;
  ds_last_action : PacketAction;
  ds_throughput_mpps : spec_float;
  ds_throughput_gbps : spec_float;
  ds_drop_rate_percent : spec_float;
  ds_histogram : LatencyHistogram;
  ds_throughput_sparkline : Sparkline;
  ds_drop_rate_sparkline : Sparkline;
  ds_rule_count : Z;
  ds_update_count : Z;
}.

Definition DashboardState_default : DashboardState :=
  mkDashboardState 0 0 0 0 PacketAction_Pass (double_of_Z 0) (double_of_Z 0) (double_of_Z 0)
    LatencyHistogram_default Sparkline_default Sparkline_default 0 0.

(** The body of the loop of [drain_stats_queue]. *)
Definition merge_update (state : DashboardState) (update : StatUpdate) : option DashboardState :=
  histogram ← lh_record (ds_histogram state) (su_average_latency_ns update);
  Some (mkDashboardState (su_packets_seen update) (su_packets_dropped update) (su_bytes_seen update)
    (su_average_latency_ns update) (su_last_action update) (ds_throughput_mpps state) (ds_throughput_gbps state)
    (ds_drop_rate_percent state) histogram (ds_throughput_sparkline state) (ds_drop_rate_sparkline state)
    (ds_rule_count state) (u64 (ds_update_count state + 1))).

Section drain.
Context {Q : Type} `{!BoundedFifo Q StatUpdate}.

(** [fuel] bounds the number of calls of [try_pop]; the loop ends at the first empty one. *)
Fixpoint drain_stats_queue (fuel : nat) (queue : Q) (state : DashboardState) : option (Q * DashboardState) :=
  match fuel with
  | O => None
  | S fuel =>
      '(update, queue) ← bf_pop queue;
      match update with
      | None => Some (queue, state)
      | Some update => state ← merge_update state update; drain_stats_queue fuel queue state
      end
  end.

End drain.

(** ** [TextDashboard] *)

(** The cells from [index] on, with [n] left. *)
Fixpoint print_cells (n : nat) (index filled : Z) (full empty : string) : string :=
  match n with
  | O => ""
  | S n => (if index <? filled then full else empty) +:+ print_cells n (index + 1) filled full empty
  end.

Definition print_gauge (value max_val : spec_float) (width : Z) : option string :=
  let fraction := if dgt max_val (double_of_Z 0) then ddiv value max_val else double_of_Z 0 in
  filled ← int_of_double (dmul fraction (double_of_Z width));
  Some ("[" +:+ print_cells (Z.to_nat width) 0 filled "█" "░" +:+ "]").

Definition print_bar (fraction : spec_float) (width : Z) : option string :=
  filled ← int_of_double (dmul fraction (double_of_Z width));
  Some (print_cells (Z.to_nat width) 0 filled "▓" "░").

Fixpoint pad_left_loop (n : nat) (str : string) (width : Z) : string :=
  match n with
  | O => str
  | S n => if Z.of_nat (String.length str) <? width then pad_left_loop n (" " +:+ str) width else str
  end.

Definition pad_left (value width : Z) : string := pad_left_loop (Z.to_nat width) (pretty value) width.

Fixpoint pad_right_loop (n : nat) (str : string) (width : Z) : string :=
  match n with
  | O => str
  | S n => if Z.of_nat (String.length str) <? width then pad_right_loop n (str +:+ " ") width else str
  end.

Definition pad_right (text : string) (width : Z) : string := pad_right_loop (Z.to_nat width) text width.

(** [snprintf] writes at most 31 characters into the buffer of 32. *)
Definition fixed2 (value : spec_float) : string := String.substring 0 31 (format_fixed 2 value).

Definition fixed1 (value : spec_float) : string := String.substring 0 31 (format_fixed 1 value).

Definition newline : string := String (Ascii.ascii_of_nat 10) "".
Definition escape : string := String (Ascii.ascii_of_nat 27) "".

(** The rows of the histogram from [bucket] on, with [n] left. *)
Fixpoint render_buckets (n : nat) (h : LatencyHistogram) (bucket : Z) : option string :=
  match n with
  | O => Some ""
  | S n =>
      fraction ← bucket_fraction h bucket;
      label ← bucket_label bucket;
      bar ← print_bar fraction 25;
      rows ← render_buckets n h (bucket + 1);
      Some ("║  " +:+ pad_right label 8 +:+ bar +:+
            "  " +:+ fixed1 (dmul fraction (double_of_Z 100)) +:+ "%      ║" +:+ newline +:+ rows)
  end.

Definition render (state : DashboardState) : option string :=
  throughput ← print_gauge (ds_throughput_mpps state) (double_of_Z 10) 20;
  drop_rate ← print_gauge (ds_drop_rate_percent state) (double_of_Z 100) 20;
  buckets ← render_buckets 8 (ds_histogram state) 0;
  Some (escape +:+ "[2J" +:+ escape +:+ "[H" +:+
    "╔══════════════════════════════════════════════════╗" +:+ newline +:+
    "║         Chronos-X  —  Network Chaos Engine      ║" +:+ newline +:+
    "╠══════════════════════════════════════════════════╣" +:+ newline +:+
    "║  Packets Seen:    " +:+ pad_left (ds_packets_seen state) 12 +:+ "                 ║" +:+ newline +:+
    "║  Packets Dropped: " +:+ pad_left (ds_packets_dropped state) 12 +:+ "                 ║" +:+ newline +:+
    "║  Bytes Seen:      " +:+ pad_left (ds_bytes_seen state) 12 +:+ "                 ║" +:+ newline +:+
    "║  Avg Latency:     " +:+ pad_left (ds_average_latency_ns state) 12 +:+ " ns            ║" +:+ newline +:+
    "╠══════════════════════════════════════════════════╣" +:+ newline +:+
    "║  Throughput:  " +:+ throughput +:+ "  " +:+ fixed2 (ds_throughput_mpps state) +:+ " Mpps   ║" +:+ newline +:+
    "║  Drop Rate:   " +:+ drop_rate +:+ "  " +:+ fixed2 (ds_drop_rate_percent state) +:+ " %      ║" +:+ newline +:+
    "╠══════════════════════════════════════════════════╣" +:+ newline +:+
    "║  Latency Histogram                              ║" +:+ newline +:+
    buckets +:+
    "╠══════════════════════════════════════════════════╣" +:+ newline +:+
    "║  Rules: " +:+ pretty (ds_rule_count state) +:+ "  |  Updates: " +:+ pretty (ds_update_count state) +:+
    "                        ║" +:+ newline +:+
    "╚══════════════════════════════════════════════════╝" +:+ newline).

(** ** The histogram counts every sample once *)

(** [record] of one sample after the other. *)
Fixpoint lh_records (h : LatencyHistogram) (l : list Z) : option LatencyHistogram :=
  match l with
  | [] => Some h
  | ns :: l => h ← lh_record h ns; lh_records h l
  end.

(** The interval of bucket [b], a decade of nanoseconds; the first and the last are open. *)
Definition in_bucket (b ns : Z) : Prop := (b = 0 \/ 10 ^ (b + 2) <= ns) /\ (b = 7 \/ ns < 10 ^ (b + 3)).

#[export] Instance in_bucket_dec b ns : Decision (in_bucket b ns).
Proof. unfold in_bucket. apply _. Defined.

Lemma bucket_for_range ns : 0 <= bucket_for ns <= 7.
Proof. unfold bucket_for. repeat zcase; lia. Qed.

Lemma bucket_for_iff b ns : 0 <= b <= 7 -> bucket_for ns = b <-> in_bucket b ns.
Proof.
  intros Hb. assert (b = 0 \/ b = 1 \/ b = 2 \/ b = 3 \/ b = 4 \/ b = 5 \/ b = 6 \/ b = 7) as Hcases by lia.
  unfold bucket_for, in_bucket. destruct Hcases as [->|[->|[->|[->|[->|[->|[->| ->]]]]]]]; cbn -[Z.lt Z.le]; repeat zcase; lia.
Qed.

Definition Zsum (l : list Z) : Z := foldr Z.add 0 l.

Lemma Zsum_app l k : Zsum (l ++ k) = Zsum l + Zsum k.
Proof. unfold Zsum. induction l as [|x l IH]; cbn; [lia|]. rewrite IH. lia. Qed.

(** The smallest and the largest sample; both are zero without samples. *)
Definition extremes (l : list Z) (min max : Z) : Prop :=
  match l with [] => min = 0 /\ max = 0 | _ => min ∈ l /\ max ∈ l /\ Forall (fun x => min <= x <= max) l end.

Definition samples_in (b : Z) (l : list Z) : list Z := filter (fun ns => bucket_for ns = b) l.

(** The histogram of the samples [l]. *)
Record lh_repr (h : LatencyHistogram) (l : list Z) : Prop := {
  lr_size : zlen (lh_counts_ h) = kHistogramBucketCount;
  lr_counts : forall b, 0 <= b < kHistogramBucketCount -> (lh_counts_ h).[b] = Some (zlen (samples_in b l));
  lr_total : lh_total_count_ h = zlen l;
  lr_sum : lh_total_sum_ns_ h = u64 (Zsum l);
  lr_extremes : extremes l (lh_min_ns_ h) (lh_max_ns_ h);
}.

Lemma samples_in_app b l k : samples_in b (l ++ k) = samples_in b l ++ samples_in b k.
Proof. apply filter_app. Qed.

Lemma samples_in_le b l : zlen (samples_in b l) <= zlen l.
Proof. unfold zlen, samples_in. pose proof (length_filter (fun ns => bucket_for ns = b) l). lia. Qed.

Lemma LatencyHistogram_default_repr : lh_repr LatencyHistogram_default [].
Proof.
  split; try done. intros b Hb. unfold kHistogramBucketCount in Hb. cbn. unfold aget. rewrite decide_True by lia.
  assert (Z.to_nat b < 16)%nat as Hn by lia. by rewrite lookup_replicate_2.
Qed.

Lemma extremes_snoc l min max x :
  extremes l min max -> Forall (fun y => 0 <= y) (l ++ [x]) ->
  extremes (l ++ [x]) (if (x <? min) || (zlen (l ++ [x]) =? 1) then x else min) (if max <? x then x else max).
Proof.
  intros He Hpos. destruct l as [|y l].
  - destruct He as [-> ->]. cbn. apply Forall_cons in Hpos as [Hx _]. rewrite orb_true_r.
    assert ((if 0 <? x then x else 0) = x) as -> by (zcase; lia). split_and!; [by apply list_elem_of_singleton|by apply list_elem_of_singleton|].
    repeat constructor; lia.
  - destruct He as (Hmin & Hmax & Hall). set (k := y :: l) in *.
    assert ((zlen (k ++ [x]) =? 1) = false) as ->.
    { apply Z.eqb_neq. rewrite zlen_app. unfold k. rewrite !zlen_cons, zlen_nil. pose proof (zlen_nonneg l). lia. }
    assert (min <= max) by (rewrite Forall_forall in Hall; apply (Hall _ Hmin)).
    rewrite orb_false_r. change (extremes (k ++ [x])) with (fun min max =>
      min ∈ k ++ [x] /\ max ∈ k ++ [x] /\ Forall (fun x => min <= x <= max) (k ++ [x])).
    cbv beta. rewrite !elem_of_app, !list_elem_of_singleton, Forall_app, Forall_singleton.
    destruct (Z.ltb_spec x min), (Z.ltb_spec max x); split_and!; auto; try lia; (eapply Forall_impl; [exact Hall|]; cbn; lia).
Qed.

Lemma lh_record_spec h l x :
  lh_repr h l -> zlen l + 1 < 2 ^ 64 -> Forall (fun y => 0 <= y) (l ++ [x]) ->
  exists h', lh_record h x = Some h' /\ lh_repr h' (l ++ [x]).
Proof.
  intros [Hs Hc Ht Hsum He] Hlen Hpos. pose proof (bucket_for_range x) as Hb. pose proof (zlen_nonneg l).
  unfold lh_record, kHistogramBucketCount in *. rewrite Hc by lia. cbn [mbind option_bind].
  rewrite aset_in_range by lia. cbn [mbind option_bind]. rewrite Ht, Hsum, wrap_add_l by lia.
  rewrite (wrap_small 64 (zlen l + 1)) by (unfold fits; lia).
  replace (zlen l + 1) with (zlen (l ++ [x])) by (by rewrite zlen_app).
  pose proof (samples_in_le (bucket_for x) l). pose proof (zlen_nonneg (samples_in (bucket_for x) l)).
  rewrite wrap_small by (unfold fits; lia).
  eexists. split; [done|]. split; cbn [lh_counts_ lh_total_count_ lh_total_sum_ns_ lh_min_ns_ lh_max_ns_]; try done.
  - unfold zlen in *. rewrite length_insert. done.
  - intros b Hbr. rewrite samples_in_app, zlen_app. unfold kHistogramBucketCount in Hbr.
    assert (aset (lh_counts_ h) (bucket_for x) (zlen (samples_in (bucket_for x) l) + 1) =
      Some (<[Z.to_nat (bucket_for x) := zlen (samples_in (bucket_for x) l) + 1]> (lh_counts_ h))) as Hset
      by (apply aset_in_range; lia).
    destruct (decide (bucket_for x = b)) as [<-|Hne].
    + rewrite (aget_aset_eq _ _ _ _ Hset). unfold samples_in at 3. rewrite filter_cons_True by done. done.
    + rewrite (aget_aset_ne _ _ _ _ _ Hset Hne), Hc by lia. unfold samples_in at 3. rewrite filter_cons_False by done.
      rewrite filter_nil, zlen_nil. f_equal. lia.
  - rewrite Zsum_app. do 2 f_equal. cbn. lia.
  - by apply extremes_snoc.
Qed.

Lemma lh_records_spec k h l :
  lh_repr h l -> zlen (l ++ k) < 2 ^ 64 -> Forall (fun y => 0 <= y) (l ++ k) ->
  exists h', lh_records h k = Some h' /\ lh_repr h' (l ++ k).
Proof.
  revert h l. induction k as [|x k IH]; intros h l Hr Hlen Hpos; cbn [lh_records].
  { rewrite app_nil_r. eauto. }
  replace (l ++ x :: k) with ((l ++ [x]) ++ k) in * by by rewrite <-app_assoc.
  destruct (lh_record_spec h l x Hr) as (h1 & -> & Hr1).
  - rewrite !zlen_app in Hlen. pose proof (zlen_nonneg k). change (zlen [x]) with 1 in Hlen. lia.
  - by apply Forall_app in Hpos as [? _].
  - cbn [mbind option_bind]. by apply IH.
Qed.

Lemma lh_records_default l :
  zlen l < 2 ^ 64 -> Forall (fits 64) l -> exists h, lh_records LatencyHistogram_default l = Some h /\ lh_repr h l.
Proof.
  intros Hlen Hf. apply (lh_records_spec l _ [] LatencyHistogram_default_repr); [done|].
  eapply Forall_impl; [exact Hf|]. unfold fits. lia.
Qed.

(** ** The bars stay in range *)

Lemma bucket_fraction_upto h l b :
  lh_repr h l -> zlen l < 2 ^ 53 -> 0 <= b < kHistogramBucketCount ->
  exists f, bucket_fraction h b = Some f /\ double_upto 1 f.
Proof.
  intros [Hs Hc Ht _ _] Hlen Hb. unfold bucket_fraction. rewrite Ht. pose proof (zlen_nonneg l).
  destruct (Z.leb_spec kHistogramBucketCount b); [lia|]. destruct (Z.eqb_spec (zlen l) 0); cbn [orb].
  { eexists. split; [done|]. by rewrite double_of_Z_0. }
  rewrite Hc by done. cbn [mbind option_bind]. eexists. split; [done|]. apply ddiv_upto; [|lia].
  split; [apply zlen_nonneg|apply samples_in_le].
Qed.

Lemma print_bar_defined f w : double_upto 1 f -> 0 < w < 2 ^ 31 -> exists bar, print_bar f w = Some bar.
Proof.
  intros Hf Hw. unfold print_bar.
  destruct (int_of_double_upto w (dmul f (double_of_Z w))) as (n & -> & _); [apply dmul_upto; [done|lia]|lia|]. eauto.
Qed.

Lemma render_buckets_defined n h l b :
  lh_repr h l -> zlen l < 2 ^ 53 -> 0 <= b -> b + Z.of_nat n <= kHistogramBucketCount ->
  exists rows, render_buckets n h b = Some rows.
Proof.
  intros Hr Hlen. revert b. induction n as [|n IH]; intros b Hb Hn; cbn [render_buckets]; [eauto|].
  destruct (bucket_fraction_upto h l b Hr Hlen) as (f & -> & Hf); [lia|]. cbn [mbind option_bind].
  unfold bucket_label. destruct (Z.ltb_spec b kHistogramBucketCount); [|lia].
  destruct (aget_in_range bucket_labels b) as [label ->]; [done|]. cbn [mbind option_bind].
  destruct (print_bar_defined f 25 Hf) as [bar ->]; [lia|]. cbn [mbind option_bind].
  destruct (IH (b + 1)) as [rows ->]; [lia|lia|]. cbn [mbind option_bind]. eauto.
Qed.

(** ** The sparkline is a window on the latest samples *)

Fixpoint sp_pushes (s : Sparkline) (vs : list spec_float) : option Sparkline :=
  match vs with
  | [] => Some s
  | v :: vs => s ← sp_push s v; sp_pushes s vs
  end.

(** The latest samples, oldest first. *)
Definition window (vs : list spec_float) : list spec_float := drop (length vs - Z.to_nat kSparklineWindowSize) vs.

Record sp_repr (s : Sparkline) (vs : list spec_float) : Prop := {
  spr_size : zlen (sp_values_ s) = kSparklineWindowSize;
  spr_pos : sp_write_pos_ s = zlen vs;
  spr_count : sp_count_ s = Z.min kSparklineWindowSize (zlen vs);
  spr_values : forall i : nat, Z.of_nat i < zlen vs -> zlen vs - Z.of_nat i <= kSparklineWindowSize ->
    (sp_values_ s).[Z.of_nat i mod kSparklineWindowSize] = vs !! i;
}.

Lemma Sparkline_default_repr : sp_repr Sparkline_default [].
Proof. split; try done. intros i Hi. rewrite zlen_nil in Hi. lia. Qed.

Lemma sp_push_spec s vs v :
  sp_repr s vs -> zlen vs + 1 < 2 ^ 64 -> exists s', sp_push s v = Some s' /\ sp_repr s' (vs ++ [v]).
Proof.
  intros [Hs Hp Hc Hv] Hlen. pose proof (zlen_nonneg vs). unfold sp_push, kSparklineWindowSize in *. rewrite Hp, Hc.
  pose proof (Z.mod_pos_bound (zlen vs) 60 ltac:(lia)) as Hm. destruct ((sp_values_ s).[zlen vs mod 60 <- v]) as [values|] eqn:Hset.
  2: { rewrite aset_in_range in Hset by lia. done. }
  cbn [mbind option_bind]. rewrite (wrap_small 64 (zlen vs + 1)) by (unfold fits; lia).
  eexists. split; [done|]. split; unfold kSparklineWindowSize; cbn [sp_values_ sp_write_pos_ sp_count_]; rewrite ?zlen_app; change (zlen [v]) with 1.
  - by rewrite (aset_zlen _ _ _ _ Hset).
  - done.
  - zcase; [rewrite wrap_small by (unfold fits; lia)|]; lia.
  - intros i Hi Hw. destruct (decide (Z.of_nat i = zlen vs)) as [E|Hne].
    + rewrite E, (aget_aset_eq _ _ _ _ Hset). unfold zlen in E. rewrite lookup_app_r by lia.
      by replace (i - length vs)%nat with 0%nat by lia.
    + rewrite (aget_aset_ne _ _ _ _ _ Hset).
      * rewrite Hv by lia. rewrite lookup_app_l by (unfold zlen in *; lia). done.
      * intros E. apply mod_window_inj in E; lia.
Qed.

Lemma sp_pushes_spec ws s vs :
  sp_repr s vs -> zlen (vs ++ ws) < 2 ^ 64 -> exists s', sp_pushes s ws = Some s' /\ sp_repr s' (vs ++ ws).
Proof.
  revert s vs. induction ws as [|w ws IH]; intros s vs Hr Hlen; cbn [sp_pushes].
  { rewrite app_nil_r. eauto. }
  replace (vs ++ w :: ws) with ((vs ++ [w]) ++ ws) in * by by rewrite <-app_assoc.
  destruct (sp_push_spec s vs w Hr) as (s1 & -> & Hr1).
  - rewrite !zlen_app in Hlen. pose proof (zlen_nonneg ws). change (zlen [w]) with 1 in Hlen. lia.
  - cbn [mbind option_bind]. by apply IH.
Qed.

Lemma window_length vs : zlen (window vs) = Z.min kSparklineWindowSize (zlen vs).
Proof. unfold window, zlen, kSparklineWindowSize. rewrite length_drop. lia. Qed.

Lemma sp_at_spec s vs (i : nat) :
  sp_repr s vs -> zlen vs < 2 ^ 64 ->
  sp_at s (Z.of_nat i) = Some (default (double_of_Z 0) (window vs !! i)).
Proof.
  intros [Hs Hp Hc Hv] Hlen. pose proof (window_length vs) as Hw. unfold sp_at. rewrite Hc, Hp, <-Hw.
  unfold kSparklineWindowSize in *. destruct (Z.leb_spec (zlen (window vs)) (Z.of_nat i)) as [Hge|Hlt].
  { rewrite lookup_ge_None_2 by (unfold zlen in Hge; lia). done. }
  destruct (Z.leb_spec (zlen (window vs)) (zlen vs)); [|lia]. rewrite (wrap_small 64 (zlen vs - zlen (window vs))) by (unfold fits; lia).
  rewrite wrap_small by (unfold fits; lia).
  replace (zlen vs - zlen (window vs) + Z.of_nat i) with (Z.of_nat (length vs - 60 + i)) by (unfold zlen in *; lia).
  rewrite Hv by (unfold zlen in *; lia). unfold window. rewrite lookup_drop. change (Z.to_nat kSparklineWindowSize) with 60%nat.
  destruct (lookup_lt_is_Some_2 vs (length vs - 60 + i)) as [v ->]; [unfold zlen in *; lia|done].
Qed.

Lemma max_value_loop_spec n s vs (i : nat) max :
  sp_repr s vs -> zlen vs < 2 ^ 64 -> (i + n)%nat = length (window vs) ->
  max_value_loop n s (Z.of_nat i) max
  = Some (foldl (fun max value => if dgt value max then value else max) max (drop i (window vs))).
Proof.
  intros Hr Hlen. revert i max. induction n as [|n IH]; intros i max Hi; cbn [max_value_loop].
  { by rewrite drop_ge by lia. }
  destruct (lookup_lt_is_Some_2 (window vs) i) as [v Hv]; [lia|].
  rewrite (sp_at_spec s vs i Hr Hlen), Hv. cbn [default mbind option_bind]. rewrite (drop_S _ _ _ Hv). cbn [foldl].
  replace (Z.of_nat i + 1) with (Z.of_nat (S i)) by lia. apply IH. lia.
Qed.

Lemma sp_latest_spec s vs :
  sp_repr s vs -> zlen vs < 2 ^ 64 -> sp_latest s = Some (default (double_of_Z 0) (last vs)).
Proof.
  intros [Hs Hp Hc Hv] Hlen. pose proof (zlen_nonneg vs). unfold sp_latest. rewrite Hc, Hp. unfold kSparklineWindowSize in *.
  destruct (Z.eqb_spec (Z.min 60 (zlen vs)) 0) as [E|Hne].
  { assert (zlen vs = 0) as E0 by lia. by destruct vs. }
  rewrite wrap_small by (unfold fits; lia). replace (zlen vs - 1) with (Z.of_nat (pred (length vs))) by (unfold zlen in *; lia).
  rewrite Hv, last_lookup by (unfold zlen in *; lia).
  destruct (lookup_lt_is_Some_2 vs (pred (length vs))) as [v ->]; [unfold zlen in *; lia|done].
Qed.

(** ** Draining the queue *)

Fixpoint merge_updates (state : DashboardState) (updates : list StatUpdate) : option DashboardState :=
  match updates with
  | [] => Some state
  | update :: updates => state ← merge_update state update; merge_updates state updates
  end.

Lemma drain_spec {Q} `{!BoundedFifo Q StatUpdate} fuel (queue : Q) l state :
  bf_repr queue l -> (length l < fuel)%nat -> is_Some (merge_updates state l) ->
  exists queue', drain_stats_queue fuel queue state = ((fun state' => (queue', state')) <$> merge_updates state l) /\
    bf_repr queue' [].
Proof.
  revert queue l state. induction fuel as [|fuel IH]; intros queue l state Hq Hfuel Hm; [lia|]. cbn [drain_stats_queue].
  destruct l as [|update l].
  { rewrite bf_pop_nil by done. cbn. eauto. }
  destruct (bf_pop_cons queue update l Hq) as (queue' & -> & Hq'). cbn [mbind option_bind merge_updates] in *.
  destruct (merge_update state update) as [state1|]; [|by destruct Hm]. cbn [mbind option_bind] in *.
  cbn [length] in Hfuel. apply IH; [done|lia|done].
Qed.

(** Merging [l]: the counters are those of the latest update, the histogram has one more
    sample per update, and the rest of the state is kept. *)
Lemma merge_updates_spec l state samples :
  lh_repr (ds_histogram state) samples -> Forall (fun u => fits 64 (su_average_latency_ns u)) l ->
  Forall (fun y => 0 <= y) samples -> zlen samples + zlen l < 2 ^ 64 -> fits 64 (ds_update_count state) ->
  exists h, lh_repr h (samples ++ (su_average_latency_ns <$> l)) /\
    merge_updates state l = Some (mkDashboardState
      (default (ds_packets_seen state) (su_packets_seen <$> last l))
      (default (ds_packets_dropped state) (su_packets_dropped <$> last l))
      (default (ds_bytes_seen state) (su_bytes_seen <$> last l))
      (default (ds_average_latency_ns state) (su_average_latency_ns <$> last l))
      (default (ds_last_action state) (su_last_action <$> last l))
      (ds_throughput_mpps state) (ds_throughput_gbps state) (ds_drop_rate_percent state) h
      (ds_throughput_sparkline state) (ds_drop_rate_sparkline state) (ds_rule_count state)
      (u64 (ds_update_count state + zlen l))).
Proof.
  revert state samples. induction l as [|u l IH]; intros state samples Hr Hl Hs Hlen Hc; cbn [merge_updates].
  { exists (ds_histogram state). rewrite app_nil_r. split; [done|]. cbn. rewrite Z.add_0_r, wrap_small by done. by destruct state. }
  apply Forall_cons in Hl as [Hu Hl]. rewrite zlen_cons in Hlen. pose proof (zlen_nonneg l).
  assert (Forall (fun y => 0 <= y) (samples ++ [su_average_latency_ns u])) as Hs'.
  { apply Forall_app. split; [done|]. apply Forall_singleton. apply Hu. }
  unfold merge_update. destruct (lh_record_spec _ _ (su_average_latency_ns u) Hr) as (h1 & -> & Hr1); [lia|done|].
  cbn [mbind option_bind]. match goal with |- context [merge_updates ?st l] => set (st1 := st) end.
  destruct (IH st1 (samples ++ [su_average_latency_ns u]) Hr1 Hl Hs') as (h & Hh & Hm).
  { rewrite zlen_app. change (zlen [su_average_latency_ns u]) with 1. lia. }
  { by apply wrap_fits. }
  exists h. rewrite fmap_cons, <-app_assoc in *. split; [done|]. rewrite Hm. subst st1. cbn -[zlen last]. rewrite zlen_cons.
  rewrite wrap_add_l by lia. replace (ds_update_count state + 1 + zlen l) with (ds_update_count state + (1 + zlen l)) by lia.
  rewrite last_cons. by destruct (last l).
Qed.

(** ** Claims *)

(** C37: after any sequence of up to [2^64 - 1] samples the histogram's buckets hold
    exactly the numbers of samples in their decades (and the eight spare buckets
    nothing), the total is the number of samples, the extremes are those of the samples,
    and the average is the sum of the samples modulo [2^64] (the sum is kept in 64 bits and
    wraps), divided by their number and rounded down: their mean whenever their sum is below
    [2^64]. *)
Theorem histogram_exact (l : list Z) :
  zlen l < 2 ^ 64 -> Forall (fits 64) l ->
  exists h, lh_records LatencyHistogram_default l = Some h /\
    (forall b, 0 <= b <= 7 -> lh_count h b = Some (zlen (filter (in_bucket b) l))) /\
    (forall b, 8 <= b -> lh_count h b = Some 0) /\
    lh_total h = zlen l /\ extremes l (lh_min_ns_ h) (lh_max_ns_ h) /\
    average_ns h = Zsum l mod 2 ^ 64 / zlen l /\
    (Zsum l < 2 ^ 64 -> average_ns h = Zsum l / zlen l).
Proof.
  intros Hlen Hf. destruct (lh_records_default l Hlen Hf) as (h & Hrun & [Hs Hc Ht Hsum He]).
  exists h. unfold lh_count, kHistogramBucketCount in *. split_and!; try done.
  - intros b Hb. destruct (Z.ltb_spec b 16); [|lia]. rewrite Hc by lia. do 2 f_equal. apply list_filter_iff.
    intros x. by apply bucket_for_iff.
  - intros b Hb. destruct (Z.ltb_spec b 16); [|done]. rewrite Hc by lia. f_equal.
    enough (samples_in b l = []) as -> by done. unfold samples_in. clear -Hb. induction l as [|x l IH]; [done|].
    rewrite filter_cons_False; [done|]. pose proof (bucket_for_range x). lia.
  - unfold average_ns. rewrite Hsum, Ht. pose proof (zlen_nonneg l). destruct (Z.ltb_spec 0 (zlen l)); [done|].
    replace (zlen l) with 0 by lia. by rewrite Z.div_0_r.
  - intros Hfit. unfold average_ns. rewrite Hsum, Ht. pose proof (zlen_nonneg l). destruct (Z.ltb_spec 0 (zlen l)).
    + rewrite wrap_small; [done|]. split; [|done]. clear -Hf. induction Hf as [|x l Hx _ IH]; [done|].
      unfold Zsum in *. cbn [foldr]. unfold fits in Hx. lia.
    + replace (zlen l) with 0 by lia. by rewrite Z.div_0_r.
Qed.

Lemma histogram_exact_witness :
  exists h, lh_records LatencyHistogram_default [500; 5000; 2000000000; 9999; 0] = Some h /\
    lh_count h 1 = Some 2 /\ lh_total h = 5 /\ average_ns h = 400003099.
Proof.
  destruct (histogram_exact [500; 5000; 2000000000; 9999; 0]) as (h & Hrun & Hc & _ & Ht & _ & _ & Ha).
  - reflexivity.
  - repeat constructor; done.
  - exists h. split; [exact Hrun|]. split; [rewrite (Hc 1 ltac:(lia)); reflexivity|]. split; [exact Ht|].
    rewrite (Ha ltac:(reflexivity)). reflexivity.
Defined.

(** Rendering the histogram of up to [2^53] samples never converts a number to [int]
    that is out of range: in binary64 arithmetic, with its roundings, every bucket's
    fraction of a bar of any width comes out between 0 and the bar's width, and all rows
    are printed. *)
Theorem histogram_bars_in_range (l : list Z) (h : LatencyHistogram) (bucket width : Z) :
  zlen l < 2 ^ 53 -> Forall (fits 64) l -> lh_records LatencyHistogram_default l = Some h ->
  0 <= bucket < kHistogramBucketCount -> 0 < width < 2 ^ 31 ->
  (exists fraction filled, bucket_fraction h bucket = Some fraction /\
     int_of_double (dmul fraction (double_of_Z width)) = Some filled /\ 0 <= filled <= width) /\
  exists rows, render_buckets 8 h 0 = Some rows.
Proof.
  intros Hlen Hf Hrun Hb Hw. destruct (lh_records_default l ltac:(lia) Hf) as (h' & Hrun' & Hr).
  assert (h' = h) as -> by congruence. split.
  - destruct (bucket_fraction_upto h l bucket Hr Hlen Hb) as (f & Hfr & Hup). exists f.
    destruct (int_of_double_upto width (dmul f (double_of_Z width))) as (n & Hn & Hr'); [apply dmul_upto; [done|lia]|lia|].
    by exists n.
  - by apply (render_buckets_defined 8 h l 0 Hr Hlen).
Qed.

Lemma histogram_bars_in_range_witness :
  exists h fraction filled, lh_records LatencyHistogram_default [500; 5000; 7000] = Some h /\
    bucket_fraction h 1 = Some fraction /\ int_of_double (dmul fraction (double_of_Z 25)) = Some filled /\ 0 <= filled <= 25.
Proof.
  destruct (lh_records LatencyHistogram_default [500; 5000; 7000]) as [h|] eqn:E; [|discriminate E].
  destruct (histogram_bars_in_range [500; 5000; 7000] h 1 25) as [(fraction & filled & Hf & Hn & Hr) _].
  - reflexivity.
  - repeat constructor; done.
  - exact E.
  - done.
  - done.
  - exists h, fraction, filled. split_and!; [done|exact Hf|exact Hn|lia|lia].
Defined.

(** The sparkline is the window of the latest 60 samples: [at] reads them oldest
    first and zero beyond, [latest] is the newest, [max_value] the largest of the window
    and zero, and no access leaves the array, however many samples were pushed. *)
Theorem sparkline_window (vs : list spec_float) :
  zlen vs < 2 ^ 64 ->
  exists s, sp_pushes Sparkline_default vs = Some s /\
    sp_count_ s = Z.min kSparklineWindowSize (zlen vs) /\
    (forall i : nat, sp_at s (Z.of_nat i) = Some (default (double_of_Z 0) (window vs !! i))) /\
    sp_latest s = Some (default (double_of_Z 0) (last vs)) /\
    sp_max_value s
    = Some (foldl (fun max value => if dgt value max then value else max) (double_of_Z 0) (window vs)).
Proof.
  intros Hlen. destruct (sp_pushes_spec vs _ [] Sparkline_default_repr Hlen) as (s & Hrun & Hr).
  exists s. split_and!; [done|apply Hr|intros i; by apply sp_at_spec|by apply sp_latest_spec|].
  unfold sp_max_value. rewrite (spr_count _ _ Hr), <-window_length.
  apply (max_value_loop_spec _ s vs 0 (double_of_Z 0) Hr Hlen). unfold zlen. cbn [app]. lia.
Qed.

Lemma sparkline_window_witness :
  exists s, sp_pushes Sparkline_default (double_of_Z <$> seqZ 1 100) = Some s /\
    sp_at s 0 = Some (double_of_Z 41) /\ sp_latest s = Some (double_of_Z 100) /\ sp_max_value s = Some (double_of_Z 100).
Proof.
  destruct (sparkline_window (double_of_Z <$> seqZ 1 100)) as (s & Hrun & _ & Hat & Hl & Hm).
  - reflexivity.
  - exists s. split; [exact Hrun|]. split; [exact (Hat 0%nat)|]. rewrite Hl, Hm. split; vm_compute; reflexivity.
Defined.

(** C38: draining the queue ends when the queue is empty, after one more call of
    [try_pop] than there were updates: every update is merged exactly once and in order,
    so the counters shown are those of the newest update, the histogram has one more
    sample per update and the number of updates grows accordingly; throughput, drop rate
    and rules are not touched.  The queue is any bounded FIFO; [SPSCQueue] is one. *)
Theorem drain_merges_queue {Q : Type} `{!BoundedFifo Q StatUpdate} (queue : Q) (l : list StatUpdate) (fuel : nat)
    (state : DashboardState) (samples : list Z) :
  bf_repr queue l -> (length l < fuel)%nat ->
  lh_repr (ds_histogram state) samples -> Forall (fun y => 0 <= y) samples ->
  Forall (fun u => fits 64 (su_average_latency_ns u)) l -> zlen samples + zlen l < 2 ^ 64 -> fits 64 (ds_update_count state) ->
  exists queue' h, bf_repr queue' [] /\ lh_repr h (samples ++ (su_average_latency_ns <$> l)) /\
    drain_stats_queue fuel queue state = Some (queue', mkDashboardState
      (default (ds_packets_seen state) (su_packets_seen <$> last l))
      (default (ds_packets_dropped state) (su_packets_dropped <$> last l))
      (default (ds_bytes_seen state) (su_bytes_seen <$> last l))
      (default (ds_average_latency_ns state) (su_average_latency_ns <$> last l))
      (default (ds_last_action state) (su_last_action <$> last l))
      (ds_throughput_mpps state) (ds_throughput_gbps state) (ds_drop_rate_percent state) h
      (ds_throughput_sparkline state) (ds_drop_rate_sparkline state) (ds_rule_count state)
      (u64 (ds_update_count state + zlen l))).
Proof.
  intros Hq Hfuel Hr Hs Hl Hlen Hc. destruct (merge_updates_spec l state samples Hr Hl Hs Hlen Hc) as (h & Hh & Hm).
  destruct (drain_spec fuel queue l state Hq Hfuel) as (queue' & Hd & Hq'); [by rewrite Hm|].
  exists queue', h. rewrite Hm in Hd. done.
Qed.

#[export] Instance StatUpdate_inhabited : Inhabited StatUpdate := populate StatUpdate_default.

(** Two updates in a queue of four cells. *)
Definition example_updates : list StatUpdate :=
  [mkStatUpdate 1 10 2 640 500 PacketAction_Drop 0 0; mkStatUpdate 2 30 5 1920 7000 PacketAction_Delay 0 0].

Lemma drain_merges_queue_witness :
  exists (queue' : SPSCQueue StatUpdate) state',
    drain_stats_queue (BoundedFifo0 := SPSCQueue_fifo 2 ltac:(lia)) 3
      (mkSPSCQueue 0 2 (example_updates ++ [StatUpdate_default; StatUpdate_default])) DashboardState_default
    = Some (queue', state') /\ spsc_repr 4 queue' [] /\ ds_packets_seen state' = 30 /\ ds_update_count state' = 2.
Proof.
  destruct (drain_merges_queue (BoundedFifo0 := SPSCQueue_fifo 2 ltac:(lia))
    (mkSPSCQueue 0 2 (example_updates ++ [StatUpdate_default; StatUpdate_default])) example_updates 3 DashboardState_default [])
    as (queue' & h & Hq & _ & Hd).
  - split_and!; [done|done|]. split_and!; [done|done|]. intros [|[|i]] x; [by intros [= <-]|by intros [= <-]|done].
  - cbn. lia.
  - apply LatencyHistogram_default_repr.
  - constructor.
  - repeat constructor; done.
  - reflexivity.
  - done.
  - eexists queue', _. split; [exact Hd|]. split; [exact Hq|]. split; reflexivity.
Defined.
