(* ===== verification/XdpRedirect.v ===== *)
(** * [bpf/xdp_redirect.bpf.c]: the program in the driver's receive path

    The XDP program decides which frames reach the AF_XDP socket.  The frame is the list
    of the bytes from [ctx->data] to [ctx->data_end]; the two BPF maps are this CPU's
    counters and the sockets by queue.  [bpf_redirect_map] is code of the kernel and a
    parameter. *)

From stdpp Require Import gmap.
From S2P Require Import Prelude Types PacketParser.

Definition CHRONOS_STAT_TOTAL : Z := 0.
Definition CHRONOS_STAT_REDIRECT : Z := 1.
Definition CHRONOS_STAT_PASS : Z := 2.
Definition CHRONOS_STAT_DROP : Z := 3.

(** The [xdp_action] values and [ETH_P_IP] of the kernel's headers. *)
Definition XDP_DROP : Z := 1.
Definition XDP_PASS : Z := 2.
Definition XDP_REDIRECT : Z := 4.
Definition ETH_P_IP : Z := 0x0800.

(** [bpf_htons] on a little-endian host. *)
Definition bpf_htons (x : Z) : Z := Z.lor (u16 (Z.shiftl x 8)) (Z.shiftr x 8).

(** [struct ethhdr] and [struct iphdr] have 14 and 20 bytes. *)
Definition sizeof_ethhdr : Z := 14.
Definition sizeof_iphdr : Z := 20.

Record XdpMaps := mkXdpMaps {
  xm_xsks_map : gmap Z Z;
  xm_packet_count : list Z;
}.

Definition bump_stat (maps : XdpMaps) (index : Z) : XdpMaps :=
  match (xm_packet_count maps).[index] with
  | Some counter => mkXdpMaps (xm_xsks_map maps) (<[Z.to_nat index := u64 (counter + 1)]> (xm_packet_count maps))
  | None => maps
  end.

Section xdp.
Context (bpf_redirect_map : gmap Z Z -> Z -> Z -> Z).

Definition xdp_chronos_redirect (maps : XdpMaps) (data : list Byte) (rx_queue_index : Z) : option (Z * XdpMaps) :=
  if zlen data <? sizeof_ethhdr then Some (XDP_DROP, bump_stat maps CHRONOS_STAT_DROP)
  else
    let maps := bump_stat maps CHRONOS_STAT_TOTAL in
    h_proto_low ← data.[12];
    h_proto_high ← data.[13];
    if negb (h_proto_low + 256 * h_proto_high =? bpf_htons ETH_P_IP)
    then Some (XDP_PASS, bump_stat maps CHRONOS_STAT_PASS)
    else
      version_ihl ← (if zlen data <? sizeof_ethhdr + sizeof_iphdr then Some 0 else data.[sizeof_ethhdr]);
      if (zlen data <? sizeof_ethhdr + sizeof_iphdr) || (Z.land version_ihl 0x0F <? 5)
      then Some (XDP_DROP, bump_stat maps CHRONOS_STAT_DROP)
      else match xm_xsks_map maps !! rx_queue_index with
      | Some _ =>
          let maps := bump_stat maps CHRONOS_STAT_REDIRECT in
          Some (bpf_redirect_map (xm_xsks_map maps) rx_queue_index XDP_PASS, maps)
      | None => Some (XDP_PASS, bump_stat maps CHRONOS_STAT_PASS)
      end.

(** ** What the program decides *)

(** The kernel's documentation: the frame is redirected when the queue has a socket, and
    otherwise the action in the low bits of the flags is taken. *)
Hypothesis bpf_redirect_map_found : forall (m : gmap Z Z) key flags, is_Some (m !! key) -> bpf_redirect_map m key flags = XDP_REDIRECT.

Inductive Verdict := Runt | NotIPv4 | BadIPv4 | ToSocket | NoSocket.

#[global] Instance Verdict_eq_dec : EqDecision Verdict.
Proof. solve_decision. Defined.

Definition verdict (sockets : gmap Z Z) (frame : list Byte) (queue : Z) : Verdict :=
  if bool_decide (zlen frame < 14) then Runt
  else if bool_decide (be16_at frame 0 12 <> kEtherTypeIPv4) then NotIPv4
  else if bool_decide (zlen frame < 34 \/ ip_header_length frame 0 < 20) then BadIPv4
  else if bool_decide (is_Some (sockets !! queue)) then ToSocket
  else NoSocket.

Definition verdict_action (v : Verdict) : Z :=
  match v with
  | Runt | BadIPv4 => XDP_DROP
  | NotIPv4 | NoSocket => XDP_PASS
  | ToSocket => XDP_REDIRECT
  end.

(** The counters that a frame increments. *)
Definition verdict_stats (v : Verdict) : list Z :=
  match v with
  | Runt => [CHRONOS_STAT_DROP]
  | NotIPv4 | NoSocket => [CHRONOS_STAT_TOTAL; CHRONOS_STAT_PASS]
  | BadIPv4 => [CHRONOS_STAT_TOTAL; CHRONOS_STAT_DROP]
  | ToSocket => [CHRONOS_STAT_TOTAL; CHRONOS_STAT_REDIRECT]
  end.

Lemma bump_stat_sockets maps index : xm_xsks_map (bump_stat maps index) = xm_xsks_map maps.
Proof. unfold bump_stat. by destruct ((xm_packet_count maps).[index]). Qed.

Lemma h_proto_ipv4 low high : fits 8 low -> fits 8 high -> (low + 256 * high =? bpf_htons ETH_P_IP) = (256 * low + high =? kEtherTypeIPv4).
Proof.
  unfold fits. intros. change (bpf_htons ETH_P_IP) with 8. change kEtherTypeIPv4 with 2048.
  destruct (Z.eqb_spec (low + 256 * high) 8), (Z.eqb_spec (256 * low + high) 2048); try done; lia.
Qed.

Lemma xdp_verdict maps frame queue :
  mem_ok frame ->
  xdp_chronos_redirect maps frame queue
  = Some (verdict_action (verdict (xm_xsks_map maps) frame queue),
          foldl bump_stat maps (verdict_stats (verdict (xm_xsks_map maps) frame queue))).
Proof.
  intros Hf. unfold xdp_chronos_redirect, verdict, sizeof_ethhdr, sizeof_iphdr. change (14 + 20) with 34.
  destruct (Z.ltb_spec (zlen frame) 14) as [Hs|Hs]; [by rewrite bool_decide_true|]. rewrite bool_decide_false by lia.
  assert (forall i, 0 <= i < zlen frame -> frame.[i] = Some (byte_at frame 0 i)) as Hget.
  { intros i Hi. pose proof (load_safe frame 0 (zlen frame) ltac:(lia) ltac:(lia) i Hi) as Hl. exact Hl. }
  rewrite (Hget 12), (Hget 13) by lia. cbn [mbind option_bind]. rewrite h_proto_ipv4 by by apply byte_at_fits.
  change (256 * byte_at frame 0 12 + byte_at frame 0 13) with (be16_at frame 0 12).
  destruct (Z.eqb_spec (be16_at frame 0 12) kEtherTypeIPv4) as [E|E]; cbn [negb].
  2: { by rewrite bool_decide_true. }
  rewrite bool_decide_false by naive_solver. destruct (Z.ltb_spec (zlen frame) 34); cbn [mbind option_bind].
  { rewrite bool_decide_true by lia. done. }
  rewrite Hget by lia. cbn [mbind option_bind].
  replace (Z.land (byte_at frame 0 14) 15 <? 5) with (bool_decide (zlen frame < 34 \/ ip_header_length frame 0 < 20)).
  2: { unfold ip_header_length. pose proof (ipv4_ihl_words_mod (byte_at frame 0 14)) as Hw. unfold ipv4_ihl_words in Hw.
       rewrite (Z.land_ones _ 4) in * by lia. change (2 ^ 4) with 16 in *.
       destruct (Z.ltb_spec (byte_at frame 0 14 mod 16) 5); [apply bool_decide_true|apply bool_decide_false]; lia. }
  case_bool_decide; [done|]. rewrite bump_stat_sockets. destruct (xm_xsks_map maps !! queue) as [x|] eqn:Eq.
  - rewrite bool_decide_true by eauto. rewrite bpf_redirect_map_found by (by rewrite !bump_stat_sockets, Eq). done.
  - rewrite bool_decide_false by (intros [? ?]; done). done.
Qed.

(** ** A run of frames *)

Fixpoint xdp_run (maps : XdpMaps) (frames : list (list Byte * Z)) : option (list Z * XdpMaps) :=
  match frames with
  | [] => Some ([], maps)
  | (frame, queue) :: frames =>
      '(action, maps) ← xdp_chronos_redirect maps frame queue;
      '(actions, maps) ← xdp_run maps frames;
      Some (action :: actions, maps)
  end.

Definition verdicts (sockets : gmap Z Z) (frames : list (list Byte * Z)) : list Verdict :=
  (fun f => verdict sockets f.1 f.2) <$> frames.

Definition bumps (vs : list Verdict) : list Z := vs ≫= verdict_stats.

Lemma xdp_run_verdicts maps frames :
  Forall (fun f => mem_ok f.1) frames ->
  xdp_run maps frames
  = Some (verdict_action <$> verdicts (xm_xsks_map maps) frames, foldl bump_stat maps (bumps (verdicts (xm_xsks_map maps) frames))).
Proof.
  intros Hf. revert maps. induction Hf as [|[frame queue] frames Hok _ IH]; intros maps; [done|]. cbn [xdp_run].
  rewrite xdp_verdict by done. cbn [mbind option_bind]. rewrite IH.
  assert (forall l m, xm_xsks_map (foldl bump_stat m l) = xm_xsks_map m) as ->.
  { induction l as [|i l IHl]; intros m; cbn; [done|]. by rewrite IHl, bump_stat_sockets. }
  cbn [mbind option_bind]. unfold verdicts, bumps. cbn [fmap list_fmap fst snd]. rewrite bind_cons, foldl_app. done.
Qed.

Lemma foldl_bump_stat l maps :
  length (xm_packet_count maps) = 4%nat -> Forall (fun i => 0 <= i < 4) l ->
  forall i c, (xm_packet_count maps).[i] = Some c -> fits 64 c ->
  (xm_packet_count (foldl bump_stat maps l)).[i] = Some (u64 (c + Z.of_nat (occurrences l i))).
Proof.
  intros Hlen Hl. revert maps Hlen. induction Hl as [|j l Hj _ IH]; intros maps Hlen i c Hi Hc; cbn [foldl].
  { rewrite Z.add_0_r, wrap_small by done. done. }
  destruct (aget_in_range (xm_packet_count maps) j) as [x Hx]; [unfold zlen; lia|]. unfold bump_stat at 2. rewrite Hx.
  set (maps1 := mkXdpMaps _ _). assert (length (xm_packet_count maps1) = 4%nat) as Hlen1 by (cbn; by rewrite length_insert).
  destruct (decide (i = j)) as [->|Hne].
  - rewrite (IH maps1 Hlen1 j (u64 (x + 1))).
    + assert (x = c) as -> by congruence. unfold occurrences. cbn. rewrite decide_True by done. rewrite wrap_add_l by lia. do 2 f_equal. lia.
    + cbn. apply aget_Some. split; [lia|]. apply list_lookup_insert_eq. lia.
    + by apply wrap_fits.
  - rewrite (IH maps1 Hlen1 i c); [|cbn|done].
    + unfold occurrences. cbn. by rewrite decide_False by done.
    + apply aget_Some in Hi as [Hi0 Hi]. apply aget_Some. split; [done|]. rewrite list_lookup_insert_ne by lia. done.
Qed.

Lemma occurrences_bumps vs i :
  occurrences (bumps vs) i = length (filter (fun v => i ∈ verdict_stats v) vs).
Proof.
  induction vs as [|v vs IH]; [done|]. unfold bumps in *. rewrite bind_cons, occurrences_app, IH.
  destruct (decide (i ∈ verdict_stats v)) as [Hin|Hout].
  - rewrite filter_cons_True by done. cbn [length].
    enough (occurrences (verdict_stats v) i = 1%nat) by lia.
    destruct v; cbn in *; unfold CHRONOS_STAT_TOTAL, CHRONOS_STAT_PASS, CHRONOS_STAT_DROP, CHRONOS_STAT_REDIRECT in *;
      set_unfold; unfold occurrences; cbn; repeat case_decide; naive_solver lia.
  - rewrite filter_cons_False by done. enough (occurrences (verdict_stats v) i = 0%nat) by lia.
    apply count_occ_not_In. by rewrite <-list_elem_of_In.
Qed.

Lemma occurrences_actions vs a :
  occurrences (verdict_action <$> vs) a = length (filter (fun v => verdict_action v = a) vs).
Proof.
  induction vs as [|v vs IH]; [done|]. unfold occurrences in *. cbn [fmap list_fmap count_occ]. rewrite IH.
  destruct (decide (verdict_action v = a)); [rewrite filter_cons_True|rewrite filter_cons_False]; done.
Qed.

Lemma counter_actions vs :
  (occurrences (bumps vs) CHRONOS_STAT_REDIRECT = occurrences (verdict_action <$> vs) XDP_REDIRECT) /\
  (occurrences (bumps vs) CHRONOS_STAT_PASS = occurrences (verdict_action <$> vs) XDP_PASS) /\
  (occurrences (bumps vs) CHRONOS_STAT_DROP = occurrences (verdict_action <$> vs) XDP_DROP) /\
  (occurrences (bumps vs) CHRONOS_STAT_TOTAL = length (filter (fun v => v <> Runt) vs)) /\
  (occurrences (verdict_action <$> vs) XDP_REDIRECT + occurrences (verdict_action <$> vs) XDP_PASS +
   occurrences (verdict_action <$> vs) XDP_DROP = length vs)%nat.
Proof.
  split_and!; [rewrite occurrences_bumps, ?occurrences_actions..|].
  1-4: f_equal; apply list_filter_iff; intros []; cbn; unfold CHRONOS_STAT_TOTAL, CHRONOS_STAT_PASS, CHRONOS_STAT_DROP,
    CHRONOS_STAT_REDIRECT, XDP_PASS, XDP_DROP, XDP_REDIRECT; set_solver by lia.
  induction vs as [|v vs IH]; [done|]. unfold occurrences in *. cbn [fmap list_fmap count_occ length]. rewrite <-IH.
  unfold XDP_REDIRECT, XDP_PASS, XDP_DROP in *. destruct v; cbn [verdict_action]; repeat case_decide; done || lia.
Qed.

Lemma bumps_range vs : Forall (fun i => 0 <= i < 4) (bumps vs).
Proof. apply Forall_bind, Forall_forall. intros [] _; by repeat constructor. Qed.

(** C28: every frame that the user-space parser accepts reaches it: when the receive
    queue has a socket, the XDP program redirects the frame, and without one it is left
    to the kernel's stack; it is never dropped.  Conversely the program redirects only
    frames of at least 34 bytes with the EtherType of IPv4 and a header length field of at
    least 20 bytes (the frame may still be shorter than the header or the packet it
    announces, which the parser then refuses), on a queue with a socket.  It reads no byte
    outside of the frame. *)
Theorem xdp_delivers_parsable (maps : XdpMaps) (frame : list Byte) (queue : Z) (v : PacketView) :
  mem_ok frame -> parse_packet frame (Some 0) (zlen frame) = Some v ->
  exists action maps', xdp_chronos_redirect maps frame queue = Some (action, maps') /\
    (pv_ok v = true ->
       action = if bool_decide (is_Some (xm_xsks_map maps !! queue)) then XDP_REDIRECT else XDP_PASS) /\
    (action = XDP_REDIRECT ->
       is_Some (xm_xsks_map maps !! queue) /\ be16_at frame 0 12 = kEtherTypeIPv4 /\
       34 <= zlen frame /\ 20 <= ip_header_length frame 0).
Proof.
  intros Hf Hp. rewrite xdp_verdict by done. eexists _, _. split; [done|].
  destruct (parse_packet_spec frame 0 (zlen frame) Hf ltac:(lia) ltac:(lia) (zlen_nonneg frame)) as (v' & Hv' & Hok & _).
  assert (v' = v) as -> by congruence. unfold verdict. split.
  - intros (Hlen & Het & _ & Hihl & _)%Hok. rewrite !bool_decide_false by (done || lia || naive_solver lia).
    by case_bool_decide.
  - repeat case_bool_decide; cbn; try done. intros _. split_and!; [done| |lia|lia]. by destruct (decide (be16_at frame 0 12 = kEtherTypeIPv4)).
Qed.

(** The counters are exact: after any run of frames on a CPU, REDIRECT, PASS and DROP
    hold the numbers of frames that were given that action, so they add up to the number
    of frames, and TOTAL holds the number of those with a complete Ethernet header. *)
Theorem xdp_counts_frames (sockets : gmap Z Z) (frames : list (list Byte * Z)) :
  Forall (fun f => mem_ok f.1) frames -> zlen frames < 2 ^ 64 ->
  exists actions maps redirected passed dropped,
    xdp_run (mkXdpMaps sockets [0; 0; 0; 0]) frames = Some (actions, maps) /\ length actions = length frames /\
    xm_packet_count maps = [zlen (filter (fun f => 14 <= zlen f.1) frames); redirected; passed; dropped] /\
    redirected = Z.of_nat (occurrences actions XDP_REDIRECT) /\ passed = Z.of_nat (occurrences actions XDP_PASS) /\
    dropped = Z.of_nat (occurrences actions XDP_DROP) /\ redirected + passed + dropped = zlen frames.
Proof.
  intros Hf Hlen. rewrite xdp_run_verdicts by done. cbn [xm_xsks_map]. set (vs := verdicts sockets frames).
  assert (length vs = length frames) as Hvs by (unfold vs, verdicts; by rewrite length_fmap).
  destruct (counter_actions vs) as (H1 & H2 & H3 & H0 & Hsum).
  assert (length (filter (fun v => v <> Runt) vs) = length (filter (fun f => 14 <= zlen f.1) frames)) as Htot.
  { unfold vs, verdicts. clear. induction frames as [|[frame queue] frames IH]; [done|]. cbn [fmap list_fmap fst snd].
    destruct (decide (14 <= zlen frame)).
    - rewrite !filter_cons_True; [cbn; by rewrite IH|done|]. unfold verdict. repeat case_bool_decide; done || lia.
    - rewrite !filter_cons_False; [done|done|]. unfold verdict. rewrite bool_decide_true by lia. naive_solver. }
  pose proof (length_filter (fun v => v <> Runt) vs) as Hle0. unfold zlen in Hlen.
  assert (forall i, 0 <= i < 4 -> (xm_packet_count (foldl bump_stat (mkXdpMaps sockets [0; 0; 0; 0]) (bumps vs))).[i]
    = Some (u64 (Z.of_nat (occurrences (bumps vs) i)))) as Hget.
  { intros i Hi. rewrite (foldl_bump_stat _ (mkXdpMaps sockets [0; 0; 0; 0]) eq_refl (bumps_range vs) i 0); [done| |done].
    assert (i = 0 \/ i = 1 \/ i = 2 \/ i = 3) as [->|[->|[->| ->]]] by lia; done. }
  exists (verdict_action <$> vs), (foldl bump_stat (mkXdpMaps sockets [0; 0; 0; 0]) (bumps vs)).
  eexists _, _, _. split_and!; [done|by rewrite length_fmap| |reflexivity|reflexivity|reflexivity|unfold zlen; lia].
  apply aget_ext. intros i. destruct (decide (0 <= i < 4)) as [Hi|Hi].
  - rewrite Hget by done. rewrite <-H1, <-H2, <-H3.
    assert (zlen (filter (fun f => 14 <= zlen f.1) frames) = Z.of_nat (occurrences (bumps vs) CHRONOS_STAT_TOTAL)) as ->
      by (rewrite H0, Htot; done).
    assert (i = 0 \/ i = 1 \/ i = 2 \/ i = 3) as [->|[->|[->| ->]]] by lia; apply (f_equal Some), wrap_small;
      unfold fits; unfold CHRONOS_STAT_TOTAL, CHRONOS_STAT_PASS, CHRONOS_STAT_DROP, CHRONOS_STAT_REDIRECT in *; lia.
  - assert (forall l m, length (xm_packet_count (foldl bump_stat m l)) = length (xm_packet_count m)) as Hl.
    { induction l as [|j l IHl]; intros m; cbn; [done|]. rewrite IHl. unfold bump_stat.
      destruct ((xm_packet_count m).[j]); [|done]. cbn. by rewrite length_insert. }
    rewrite (proj2 (aget_None _ i)) by (unfold zlen; rewrite Hl; cbn; lia). symmetry. apply aget_None. unfold zlen. cbn. lia.
Qed.

End xdp.

(** ** A kernel that redirects *)

Definition example_redirect_map (m : gmap Z Z) (key flags : Z) : Z :=
  if bool_decide (is_Some (m !! key)) then XDP_REDIRECT else Z.land flags 3.

Lemma example_redirect_map_found (m : gmap Z Z) key flags :
  is_Some (m !! key) -> example_redirect_map m key flags = XDP_REDIRECT.
Proof. intros H. unfold example_redirect_map. by rewrite bool_decide_true. Qed.

Lemma xdp_delivers_parsable_witness :
  exists maps', xdp_chronos_redirect example_redirect_map (mkXdpMaps {[0 := 7]} [0; 0; 0; 0]) example_udp_frame 0
    = Some (XDP_REDIRECT, maps').
Proof.
  destruct (parse_packet example_udp_frame (Some 0) (zlen example_udp_frame)) as [v|] eqn:E; [|discriminate E].
  assert (pv_ok v = true) as Hok by (vm_compute in E; by simplify_eq).
  destruct (xdp_delivers_parsable example_redirect_map example_redirect_map_found (mkXdpMaps {[0 := 7]} [0; 0; 0; 0])
    example_udp_frame 0 v example_udp_frame_ok E) as (action & maps' & Hrun & Haction & _).
  exists maps'. rewrite (Haction Hok) in Hrun. exact Hrun.
Defined.

Lemma xdp_counts_frames_witness :
  exists actions maps, xdp_run example_redirect_map (mkXdpMaps {[0 := 7]} [0; 0; 0; 0])
      [(example_udp_frame, 0); (example_udp_frame, 5); (replicate 10 0, 0)] = Some (actions, maps) /\
    actions = [XDP_REDIRECT; XDP_PASS; XDP_DROP] /\ xm_packet_count maps = [2; 1; 1; 1].
Proof.
  destruct (xdp_counts_frames example_redirect_map example_redirect_map_found {[0 := 7]}
    [(example_udp_frame, 0); (example_udp_frame, 5); (replicate 10 0, 0)])
    as (actions & maps & redirected & passed & dropped & Hrun & _ & Hc & H1 & H2 & H3 & _).
  - repeat constructor; try apply example_udp_frame_ok; done.
  - reflexivity.
  - exists actions, maps. split; [exact Hrun|].
    assert (actions = [XDP_REDIRECT; XDP_PASS; XDP_DROP]) as Ha by (vm_compute in Hrun; by simplify_eq).
    split; [exact Ha|]. rewrite Hc, H1, H2, H3, Ha. vm_compute. reflexivity.
Defined.
