(* ===== verification/LibxdpSocket.v ===== *)
(** * [include/chronosx/libxdp_socket.hpp]: the socket over libxdp

    [LibxdpSocket] maps the UMEM, creates the kernel's rings with libxdp and moves
    descriptors between spans and rings.  libxdp and the system calls are not part of the
    repository: the classes [ProdRing], [ConsRing] and [Libxdp] have the calls that the
    code makes, [ProdRingLaws], [ConsRingLaws] and [LibxdpLaws] what their documentation
    says.  With them the socket is an implementation of the interface [XskSocket] of the
    runtime adapter. *)

From stdpp Require Import gmap.
From S2P Require Import Prelude Types Ring SocketManager Runtime.

(** [struct xdp_desc] of the kernel. *)
Record xdp_desc := mkXdpDesc {
  xd_addr : Z;
  xd_len : Z;
  xd_options : Z;
}.

Inductive KickErrno := KickEAGAIN | KickEBUSY | KickENOBUFS | KickEOTHER.

#[export] Instance KickErrno_eq_dec : EqDecision KickErrno.
Proof. solve_decision. Defined.

(** The fields of [xsk_umem_config] and [xsk_socket_config] that the code sets. *)
Record xsk_umem_config := mkXskUmemConfig {
  xuc_fill_size : Z;
  xuc_comp_size : Z;
  xuc_frame_size : Z;
}.

Record xsk_socket_config := mkXskSocketConfig {
  xsc_rx_size : Z;
  xsc_tx_size : Z;
  xsc_xdp_flags : Z;
  xsc_bind_flags : Z;
}.

(** The rings of libxdp: a producer ring is reserved, written at indices and submitted, a
    consumer ring is peeked at, read at indices and released. *)
Class ProdRing (Prod : Set -> Set) := {
  xsk_ring_prod__reserve : forall {A : Set}, Prod A -> Z -> Z * Z * Prod A;
  xsk_ring_prod__write : forall {A : Set}, Prod A -> Z -> A -> Prod A;
  xsk_ring_prod__submit : forall {A : Set}, Prod A -> Z -> Prod A;
}.

Class ConsRing (Cons : Set -> Set) := {
  xsk_ring_cons__peek : forall {A : Set}, Cons A -> Z -> Z * Z * Cons A;
  xsk_ring_cons__read : forall {A : Set}, Cons A -> Z -> option A;
  xsk_ring_cons__release : forall {A : Set}, Cons A -> Z -> Cons A;
}.

(** The calls of libxdp and of the operating system that create and delete objects.
    Pointers are numbers, [None] is [MAP_FAILED]; creating calls return 0 and the object;
    deleting a UMEM returns 0, or an error when sockets use it. *)
Class Libxdp (Prod Cons : Set -> Set) (World : Type) := {
  lx_mmap : World -> Z -> option Z * World;
  lx_munmap : World -> Z -> Z -> World;
  xsk_umem__create : World -> Z -> Z -> Prod Z -> Cons Z -> xsk_umem_config -> Z * Z * Prod Z * Cons Z * World;
  xsk_umem__delete : World -> Z -> Z * World;
  xsk_socket__create : World -> string -> Z -> Z -> Cons xdp_desc -> Prod xdp_desc -> xsk_socket_config ->
    Z * Z * Cons xdp_desc * Prod xdp_desc * World;
  xsk_socket__delete : World -> Z -> World;
  lx_sendto : World -> Z -> (Z * KickErrno) * World;
}.
#[global] Hint Mode Libxdp - - ! : typeclass_instances.

Record LibxdpSocket (Prod Cons : Set -> Set) := mkLibxdpSocket {
  lx_fill_ : Prod Z;
  lx_completion_ : Cons Z;
  lx_rx_ : Cons xdp_desc;
  lx_tx_ : Prod xdp_desc;
  lx_umem_ : option Z;
  lx_socket_ : option Z;
  lx_umem_area_ : option Z;
  lx_umem_size_ : Z;
  lx_tx_kick_count_ : Z;
  lx_initialized_ : bool;
}.
Arguments mkLibxdpSocket {Prod Cons}.
Arguments lx_fill_ {Prod Cons}.
Arguments lx_completion_ {Prod Cons}.
Arguments lx_rx_ {Prod Cons}.
Arguments lx_tx_ {Prod Cons}.
Arguments lx_umem_ {Prod Cons}.
Arguments lx_socket_ {Prod Cons}.
Arguments lx_umem_area_ {Prod Cons}.
Arguments lx_umem_size_ {Prod Cons}.
Arguments lx_tx_kick_count_ {Prod Cons}.
Arguments lx_initialized_ {Prod Cons}.

Section LibxdpSocket.
Context {Prod Cons : Set -> Set} {World : Type} `{!ProdRing Prod} `{!ConsRing Cons} `{!Libxdp Prod Cons World}.
Abbreviation Socket := (LibxdpSocket Prod Cons).

Definition lx_set_umem_area (s : Socket) (area : option Z) (size : Z) : Socket :=
  mkLibxdpSocket (lx_fill_ s) (lx_completion_ s) (lx_rx_ s) (lx_tx_ s) (lx_umem_ s) (lx_socket_ s) area size
    (lx_tx_kick_count_ s) (lx_initialized_ s).
Definition lx_set_umem (s : Socket) (fill : Prod Z) (completion : Cons Z) (umem : option Z) : Socket :=
  mkLibxdpSocket fill completion (lx_rx_ s) (lx_tx_ s) umem (lx_socket_ s) (lx_umem_area_ s) (lx_umem_size_ s)
    (lx_tx_kick_count_ s) (lx_initialized_ s).
Definition lx_set_socket (s : Socket) (rx : Cons xdp_desc) (tx : Prod xdp_desc) (socket : option Z) : Socket :=
  mkLibxdpSocket (lx_fill_ s) (lx_completion_ s) rx tx (lx_umem_ s) socket (lx_umem_area_ s) (lx_umem_size_ s)
    (lx_tx_kick_count_ s) (lx_initialized_ s).
Definition lx_set_initialized (s : Socket) (b : bool) : Socket :=
  mkLibxdpSocket (lx_fill_ s) (lx_completion_ s) (lx_rx_ s) (lx_tx_ s) (lx_umem_ s) (lx_socket_ s) (lx_umem_area_ s)
    (lx_umem_size_ s) (lx_tx_kick_count_ s) b.
Definition lx_inc_kick_count (s : Socket) : Socket :=
  mkLibxdpSocket (lx_fill_ s) (lx_completion_ s) (lx_rx_ s) (lx_tx_ s) (lx_umem_ s) (lx_socket_ s) (lx_umem_area_ s)
    (lx_umem_size_ s) (u64 (lx_tx_kick_count_ s + 1)) (lx_initialized_ s).

(** The three blocks of [shutdown]. *)
Definition lx_delete_socket (s : Socket) (w : World) : Socket * World :=
  match lx_socket_ s with
  | Some socket => (lx_set_socket s (lx_rx_ s) (lx_tx_ s) None, xsk_socket__delete w socket)
  | None => (s, w)
  end.

Definition lx_delete_umem (s : Socket) (w : World) : Socket * World :=
  match lx_umem_ s with
  | Some umem => (lx_set_umem s (lx_fill_ s) (lx_completion_ s) None, (xsk_umem__delete w umem).2)
  | None => (s, w)
  end.

Definition lx_unmap_area (s : Socket) (w : World) : Socket * World :=
  match lx_umem_area_ s with
  | Some area => (lx_set_umem_area s None 0, lx_munmap w area (lx_umem_size_ s))
  | None => (s, w)
  end.

Definition lx_shutdown (s : Socket) (w : World) : Socket * World :=
  let '(s, w) := lx_delete_socket s w in
  let '(s, w) := lx_delete_umem s w in
  let '(s, w) := lx_unmap_area s w in
  (lx_set_initialized s false, w).

(** [interface_name] is [None] for [nullptr]. *)
Definition lx_init (s : Socket) (w : World) (interface_name : option string) (umem_config : UmemConfig)
    (socket_config : SocketConfig) : SocketStatus * Socket * World :=
  if lx_initialized_ s then (SocketStatus_AlreadyInitialized, s, w)
  else match interface_name with
  | None => (SocketStatus_InvalidConfig, s, w)
  | Some interface_name =>
      if negb (uc_valid umem_config) || negb (sc_valid socket_config) then (SocketStatus_InvalidConfig, s, w)
      else
        let umem_size := uc_total_bytes umem_config in
        let '(area, w) := lx_mmap w umem_size in
        let s := lx_set_umem_area s area umem_size in
        match area with
        | None => (SocketStatus_UmemAllocationFailed, s, w)
        | Some area =>
            let xumem_config := mkXskUmemConfig (u32 (uc_fill_ring_size umem_config))
              (u32 (uc_completion_ring_size umem_config)) (u32 (uc_frame_size umem_config)) in
            let '(r, umem, fill, completion, w) :=
              xsk_umem__create w area umem_size (lx_fill_ s) (lx_completion_ s) xumem_config in
            if negb (r =? 0) then
              let '(s, w) := lx_shutdown (lx_set_umem s fill completion None) w in
              (SocketStatus_UmemCreateFailed, s, w)
            else
              let s := lx_set_umem s fill completion (Some umem) in
              let xsocket_config := mkXskSocketConfig (u32 (sc_rx_ring_size socket_config))
                (u32 (sc_tx_ring_size socket_config)) (sc_xdp_flags socket_config) (u16 (sc_bind_flags socket_config)) in
              let '(r, socket, rx, tx, w) :=
                xsk_socket__create w interface_name (sc_queue_id socket_config) umem (lx_rx_ s) (lx_tx_ s) xsocket_config in
              if negb (r =? 0) then
                let '(s, w) := lx_shutdown (lx_set_socket s rx tx None) w in
                (SocketStatus_SocketCreateFailed, s, w)
              else (SocketStatus_Ok, lx_set_initialized (lx_set_socket s rx tx (Some socket)) true, w)
        end
  end.

(** The loop that writes the first [n] of the items left into a producer ring. *)
Fixpoint write_loop {A : Set} (n : nat) (ring : Prod A) (index offset : Z) (items : list A) : option (Prod A) :=
  match n with
  | O => Some ring
  | S n =>
      item ← items.[offset];
      write_loop n (xsk_ring_prod__write ring (u32 (index + offset)) item) index (u32 (offset + 1)) items
  end.

(** [refill] and [submit_tx] on their ring. *)
Definition prod_put {A : Set} (ring : Prod A) (items : list A) : option (RingResult * Prod A) :=
  let requested := u32 (zlen items) in
  let '(reserved, index, ring) := xsk_ring_prod__reserve ring requested in
  ring ← write_loop (Z.to_nat reserved) ring index 0 items;
  let ring := if 0 <? reserved then xsk_ring_prod__submit (Prod := Prod) ring reserved else ring in
  Some (mkRingResult reserved (if reserved =? requested then SocketStatus_Ok else SocketStatus_RingFull), ring).

(** The loop that reads [n] more items from a consumer ring. *)
Fixpoint read_loop {A B : Set} (n : nat) (convert : A -> B) (ring : Cons A) (index offset : Z) (output : list B)
    : option (list B) :=
  match n with
  | O => Some output
  | S n =>
      item ← xsk_ring_cons__read ring (u32 (index + offset));
      output ← output.[offset <- convert item];
      read_loop n convert ring index (u32 (offset + 1)) output
  end.

(** [drain_completions] and [consume_rx] on their ring. *)
Definition cons_get {A B : Set} (convert : A -> B) (ring : Cons A) (output : list B) : option (RingResult * list B * Cons A) :=
  let '(available, index, ring) := xsk_ring_cons__peek ring (u32 (zlen output)) in
  output ← read_loop (Z.to_nat available) convert ring index 0 output;
  let ring := if 0 <? available then xsk_ring_cons__release (Cons := Cons) ring available else ring in
  Some (mkRingResult available (if available =? zlen output then SocketStatus_Ok else SocketStatus_RingEmpty), output, ring).

Definition lx_refill (s : Socket) (addresses : list Z) : option (RingResult * Socket) :=
  '(result, ring) ← prod_put (lx_fill_ s) addresses;
  Some (result, lx_set_umem s ring (lx_completion_ s) (lx_umem_ s)).

Definition lx_drain_completions (s : Socket) (output : list Z) : option (RingResult * list Z * Socket) :=
  '(result, output, ring) ← cons_get id (lx_completion_ s) output;
  Some (result, output, lx_set_umem s (lx_fill_ s) ring (lx_umem_ s)).

Definition rx_of_desc (desc : xdp_desc) : RxDescriptor := mkRxDescriptor (xd_addr desc) (xd_len desc) (xd_options desc).

Definition lx_consume_rx (s : Socket) (output : list RxDescriptor) : option (RingResult * list RxDescriptor * Socket) :=
  '(result, output, ring) ← cons_get rx_of_desc (lx_rx_ s) output;
  Some (result, output, lx_set_socket s ring (lx_tx_ s) (lx_socket_ s)).

Definition desc_of_tx (d : TxDescriptor) : xdp_desc := mkXdpDesc (tx_address d) (tx_length d) (tx_options d).

Definition lx_submit_tx (s : Socket) (descriptors : list TxDescriptor) : option (RingResult * Socket) :=
  '(result, ring) ← prod_put (lx_tx_ s) (desc_of_tx <$> descriptors);
  Some (result, lx_set_socket s (lx_rx_ s) ring (lx_socket_ s)).

Definition lx_kick_tx (s : Socket) (w : World) : SocketStatus * Socket * World :=
  match lx_socket_ s with
  | None => (SocketStatus_NotInitialized, s, w)
  | Some socket =>
      let '((r, errno), w) := lx_sendto w socket in
      if (r <? 0) && negb (errno =?? KickEAGAIN) && negb (errno =?? KickEBUSY) && negb (errno =?? KickENOBUFS)
      then (SocketStatus_KickFailed, s, w)
      else (SocketStatus_Ok, lx_inc_kick_count s, w)
  end.

End LibxdpSocket.

(** ** What the documentation of libxdp says

    A producer ring has the entries that were submitted and that the kernel has not taken,
    and the reserved cells with what was written to them; reserving takes all cells or
    none.  A consumer ring has the entries that the kernel produced, and how many of them
    were peeked at. *)

Class ProdRingLaws (Prod : Set -> Set) `{!ProdRing Prod} := {
  pr_submitted : forall {A : Set}, Prod A -> list A;
  pr_reserved : forall {A : Set}, Prod A -> list (option A);
  pr_index : forall {A : Set}, Prod A -> Z;
  pr_size : forall {A : Set}, Prod A -> Z;
  pr_reserve_law : forall {A : Set} (r : Prod A) n k index r', pr_reserved r = [] -> fits 32 n ->
    xsk_ring_prod__reserve r n = (k, index, r') ->
    k = (if bool_decide (zlen (pr_submitted r) + n <= pr_size r) then n else 0) /\
    pr_submitted r' = pr_submitted r /\ pr_reserved r' = replicate (Z.to_nat k) None /\ pr_index r' = index /\ pr_size r' = pr_size r;
  pr_write_law : forall {A : Set} (r : Prod A) (j : nat) x, (j < length (pr_reserved r))%nat -> Z.of_nat j < 2 ^ 32 ->
    let r' := xsk_ring_prod__write r (u32 (pr_index r + Z.of_nat j)) x in
    pr_submitted r' = pr_submitted r /\ pr_reserved r' = <[j := Some x]> (pr_reserved r) /\ pr_index r' = pr_index r /\
    pr_size r' = pr_size r;
  pr_submit_law : forall {A : Set} (r : Prod A) (l : list A), pr_reserved r = Some <$> l ->
    let r' := xsk_ring_prod__submit r (zlen l) in
    pr_submitted r' = pr_submitted r ++ l /\ pr_reserved r' = [] /\ pr_size r' = pr_size r;
}.

Class ConsRingLaws (Cons : Set -> Set) `{!ConsRing Cons} := {
  cr_entries : forall {A : Set}, Cons A -> list A;
  cr_peeked : forall {A : Set}, Cons A -> nat;
  cr_index : forall {A : Set}, Cons A -> Z;
  cr_peek_law : forall {A : Set} (r : Cons A) n k index r', cr_peeked r = 0%nat -> fits 32 n ->
    xsk_ring_cons__peek r n = (k, index, r') ->
    k = Z.min n (zlen (cr_entries r)) /\ cr_entries r' = cr_entries r /\ cr_peeked r' = Z.to_nat k /\ cr_index r' = index;
  cr_read_law : forall {A : Set} (r : Cons A) (j : nat), (j < cr_peeked r)%nat -> Z.of_nat j < 2 ^ 32 ->
    xsk_ring_cons__read r (u32 (cr_index r + Z.of_nat j)) = cr_entries r !! j;
  cr_release_law : forall {A : Set} (r : Cons A),
    let r' := xsk_ring_cons__release r (Z.of_nat (cr_peeked r)) in
    cr_entries r' = drop (cr_peeked r) (cr_entries r) /\ cr_peeked r' = 0%nat;
}.

(** ** The rings are queues *)

Section rings.
Context {Prod Cons : Set -> Set} `{!ProdRing Prod} `{!ConsRing Cons} `{!ProdRingLaws Prod} `{!ConsRingLaws Cons}.

(** The ring holds [l], and no cell is reserved. *)
Definition prod_holds {A : Set} (Size : Z) (r : Prod A) (l : list A) : Prop :=
  pr_submitted r = l /\ pr_reserved r = [] /\ pr_size r = Size.

Definition cons_holds {A : Set} (r : Cons A) (l : list A) : Prop := cr_entries r = l /\ cr_peeked r = 0%nat.

Lemma write_loop_spec {A : Set} n (r : Prod A) index (items : list A) (j : nat) :
  (j + n = length items)%nat -> zlen items < 2 ^ 32 -> pr_index r = index ->
  pr_reserved r = (Some <$> take j items) ++ replicate n None ->
  exists r', write_loop n r index (Z.of_nat j) items = Some r' /\ pr_reserved r' = Some <$> items /\
    pr_submitted r' = pr_submitted r /\ pr_size r' = pr_size r.
Proof.
  intros Hj Hlen. revert r j Hj. induction n as [|n IH]; intros r j Hj Hi Hr; cbn [write_loop].
  { exists r. rewrite take_ge, app_nil_r in Hr by lia. done. }
  destruct (lookup_lt_is_Some_2 items j) as [x Hx]; [lia|].
  assert (items.[Z.of_nat j] = Some x) as -> by (apply aget_Some; rewrite Nat2Z.id; split; [lia|done]). cbn [mbind option_bind].
  assert (length (Some <$> take j items) = j) as Htj by (rewrite length_fmap, length_take; lia).
  destruct (pr_write_law r j x) as (Hs & Hw & Hi' & Hz).
  { rewrite Hr, length_app, Htj, length_replicate. lia. }
  { unfold zlen in Hlen. lia. }
  rewrite Hi in *. rewrite (wrap_small 32 (Z.of_nat j + 1)) by (unfold fits, zlen in *; lia).
  replace (Z.of_nat j + 1) with (Z.of_nat (S j)) by lia.
  destruct (IH (xsk_ring_prod__write r (u32 (index + Z.of_nat j)) x) (S j)) as (r' & Hrun & H1 & H2 & H3); [lia|done| |].
  { rewrite Hw, Hr. rewrite (take_S_r _ _ _ Hx), fmap_app, <-app_assoc. cbn [replicate fmap list_fmap app].
    by rewrite <-Htj at 1; rewrite insert_app_r_alt, Nat.sub_diag by lia. }
  exists r'. by rewrite H2, H3.
Qed.

(** A producing call puts all items on the ring, or none when they do not all fit. *)
Lemma prod_put_spec {A : Set} Size (r : Prod A) l (items : list A) :
  prod_holds Size r l -> zlen items < 2 ^ 32 ->
  let k := if bool_decide (zlen l + zlen items <= Size) then length items else 0%nat in
  exists status r', prod_put r items = Some (mkRingResult (Z.of_nat k) status, r') /\ prod_holds Size r' (l ++ take k items) /\
    status = if bool_decide (k = length items) then SocketStatus_Ok else SocketStatus_RingFull.
Proof.
  intros (Hl & Hr & Hz) Hlen k. pose proof (zlen_nonneg items). unfold prod_put.
  rewrite (wrap_small 32 (zlen items)) by (unfold fits; lia).
  destruct (xsk_ring_prod__reserve r (zlen items)) as [[reserved index] r1] eqn:E.
  destruct (pr_reserve_law r (zlen items) _ _ _ Hr ltac:(unfold fits; lia) E) as (Hk & Hs1 & Hr1 & Hi1 & Hz1).
  rewrite Hl, Hz in Hk. assert (reserved = Z.of_nat k) as -> by (subst k reserved; case_bool_decide; unfold zlen; lia).
  rewrite Nat2Z.id in *. assert (k = length items \/ k = 0%nat) as Hcase by (subst k; case_bool_decide; auto).
  assert ((Z.of_nat k =? zlen items) = bool_decide (k = length items)) as ->.
  { apply Bool.eq_iff_eq_true. rewrite Z.eqb_eq, bool_decide_eq_true. unfold zlen. lia. }
  clearbody k. destruct (decide (k = 0%nat)) as [->|Hne].
  - cbn [write_loop mbind option_bind]. rewrite take_0, app_nil_r. eexists _, r1. split; [done|]. split; [|done].
    cbn in Hr1. unfold prod_holds. by rewrite Hs1, Hz1.
  - destruct Hcase as [->|]; [|done].
    destruct (write_loop_spec (length items) r1 index items 0) as (r2 & Hrun & H1 & H2 & H3); [done|done|done| |].
    { by rewrite Hr1, take_0. }
    change (Z.of_nat 0) with 0 in Hrun. rewrite Hrun. cbn [mbind option_bind]. destruct (Z.ltb_spec 0 (Z.of_nat (length items))); [|lia].
    destruct (pr_submit_law r2 items H1) as (H4 & H5 & H6). eexists _, _. split; [done|]. split; [|done].
    rewrite take_ge by done. unfold zlen in H4, H5, H6. split_and!; [by rewrite H4, H2, Hs1, Hl|done|by rewrite H6, H3, Hz1].
Qed.

Lemma read_loop_spec {A B : Set} n (convert : A -> B) (r : Cons A) index (j : nat) (output : list B) :
  (j + n <= cr_peeked r)%nat -> (cr_peeked r <= length (cr_entries r))%nat -> (j + n <= length output)%nat -> zlen output < 2 ^ 32 ->
  cr_index r = index ->
  read_loop n convert r index (Z.of_nat j) output
  = Some (take j output ++ (convert <$> take n (drop j (cr_entries r))) ++ drop (j + n) output).
Proof.
  intros Hp Hle. revert j output Hp. induction n as [|n IH]; intros j output Hp Ho Hlen Hi; cbn [read_loop].
  { rewrite take_0, Nat.add_0_r. cbn. by rewrite take_drop. }
  pose proof (cr_read_law r j ltac:(lia) ltac:(unfold zlen in *; lia)) as Hread. rewrite Hi in Hread. rewrite Hread.
  destruct (lookup_lt_is_Some_2 (cr_entries r) j) as [x Hx]; [lia|]. rewrite Hx.
  cbn [mbind option_bind]. rewrite aset_in_range by (unfold zlen; lia). cbn [mbind option_bind]. rewrite Nat2Z.id.
  rewrite (wrap_small 32 (Z.of_nat j + 1)) by (unfold fits, zlen in *; lia). replace (Z.of_nat j + 1) with (Z.of_nat (S j)) by lia.
  rewrite IH by (rewrite ?length_insert; unfold zlen in *; rewrite ?length_insert; done || lia). f_equal.
  rewrite (drop_S _ _ _ Hx), firstn_cons, fmap_cons. rewrite drop_insert_lt by lia.
  rewrite (take_S_r _ j (convert x)) by (apply list_lookup_insert_eq; lia). rewrite take_insert_ge by lia.
  rewrite <-app_assoc. cbn. by rewrite Nat.add_succ_r.
Qed.

(** A consuming call takes as many entries as there are and as the span has room for. *)
Lemma cons_get_spec {A B : Set} (convert : A -> B) (r : Cons A) l (output : list B) :
  cons_holds r l -> zlen output < 2 ^ 32 ->
  let k := Nat.min (length output) (length l) in
  exists status r', cons_get convert r output
      = Some (mkRingResult (Z.of_nat k) status, (convert <$> take k l) ++ drop k output, r') /\ cons_holds r' (drop k l).
Proof.
  intros [Hl Hp] Hlen k. pose proof (zlen_nonneg output). unfold cons_get. rewrite (wrap_small 32) by (unfold fits; lia).
  destruct (xsk_ring_cons__peek r (zlen output)) as [[available index] r1] eqn:E.
  destruct (cr_peek_law r (zlen output) _ _ _ Hp ltac:(unfold fits; lia) E) as (Hk & Hl1 & Hp1 & Hi1).
  assert (available = Z.of_nat k) as -> by (subst k available; rewrite Hl; unfold zlen; lia). rewrite Nat2Z.id in *.
  assert (k <= length output /\ k <= length l)%nat as [Hko Hkl] by lia. clearbody k.
  pose proof (read_loop_spec k convert r1 index 0 output) as Hread. change (Z.of_nat 0) with 0 in Hread.
  rewrite Hread by (rewrite ?Hp1, ?Hl1, ?Hl; done || lia). cbn [mbind option_bind]. rewrite drop_0, take_0, Hl1, Hl. cbn [app].
  eexists _, _. split; [done|]. destruct (Z.ltb_spec 0 (Z.of_nat k)).
  - destruct (cr_release_law r1) as [H1 H2]. rewrite Hp1 in *. split; [|done]. by rewrite H1, Hl1, Hl.
  - replace k with 0%nat in * by lia. rewrite drop_0. by split; [rewrite Hl1|].
Qed.

End rings.

(** ** The socket implements the adapter's interface *)

#[export] Instance desc_of_tx_inj : Inj (=) (=) desc_of_tx.
Proof. intros [] []. unfold desc_of_tx. cbn. naive_solver. Qed.

Section socket.
Context {Prod Cons : Set -> Set} {World : Type}.
Context `{!ProdRing Prod} `{!ConsRing Cons} `{!Libxdp Prod Cons World} `{!ProdRingLaws Prod} `{!ConsRingLaws Cons}.
Context (FillSize TxSize : Z).

(** The socket's rings hold the queues [q]. *)
Record lx_repr (s : LibxdpSocket Prod Cons) (q : Queues) : Prop := {
  lxr_fill : prod_holds FillSize (lx_fill_ s) (q_fill q);
  lxr_completion : cons_holds (lx_completion_ s) (q_completion q);
  lxr_rx : rx_of_desc <$> cr_entries (lx_rx_ s) = q_rx q /\ cr_peeked (lx_rx_ s) = 0%nat;
  lxr_tx : prod_holds TxSize (lx_tx_ s) (desc_of_tx <$> q_tx q);
  lxr_kicks : lx_tx_kick_count_ s = q_kicks q;
}.

Lemma lx_repr_inj s q q' : lx_repr s q -> lx_repr s q' -> q = q'.
Proof.
  intros [(Hf & _) [Hc _] [Hx _] (Ht & _) Hk] [(Hf' & _) [Hc' _] [Hx' _] (Ht' & _) Hk'].
  destruct q as [f c x t k], q' as [f' c' x' t' k']. cbn in *. f_equal; try congruence.
  apply (inj (fmap (M := list) desc_of_tx)). congruence.
Qed.

Lemma lx_refill_spec s q l :
  lx_repr s q -> zlen l < 2 ^ 32 ->
  let k := if bool_decide (zlen (q_fill q) + zlen l <= FillSize) then length l else 0%nat in
  exists status s', lx_refill s l = Some (mkRingResult (Z.of_nat k) status, s') /\
    lx_repr s' (mkQueues (q_fill q ++ take k l) (q_completion q) (q_rx q) (q_tx q) (q_kicks q)) /\
    status = if bool_decide (k = length l) then SocketStatus_Ok else SocketStatus_RingFull.
Proof.
  intros [Hf Hc Hx Ht Hk] Hl k. destruct (prod_put_spec FillSize _ _ l Hf Hl) as (status & ring & Hrun & Hring & Hst).
  unfold lx_refill. rewrite Hrun. cbn [mbind option_bind]. eexists _, _. split; [done|]. by split.
Qed.

Lemma lx_submit_tx_spec s q l :
  lx_repr s q -> zlen l < 2 ^ 32 ->
  let k := if bool_decide (zlen (q_tx q) + zlen l <= TxSize) then length l else 0%nat in
  exists status s', lx_submit_tx s l = Some (mkRingResult (Z.of_nat k) status, s') /\
    lx_repr s' (mkQueues (q_fill q) (q_completion q) (q_rx q) (q_tx q ++ take k l) (q_kicks q)) /\
    status = if bool_decide (k = length l) then SocketStatus_Ok else SocketStatus_RingFull.
Proof.
  intros [Hf Hc Hx Ht Hk] Hl k. assert (forall m : list TxDescriptor, zlen (desc_of_tx <$> m) = zlen m) as Hz by (intros; unfold zlen; by rewrite length_fmap).
  destruct (prod_put_spec TxSize _ _ (desc_of_tx <$> l) Ht) as (status & ring & Hrun & Hring & Hst); [by rewrite Hz|].
  unfold lx_submit_tx. rewrite Hrun. cbn [mbind option_bind]. rewrite !Hz, length_fmap in *. fold k in Hst, Hring, Hrun |- *.
  eexists _, _. split; [done|]. split; [|done]. split; try done. cbn. by rewrite fmap_app, fmap_take.
Qed.

Lemma lx_drain_completions_spec s q out :
  lx_repr s q -> zlen out < 2 ^ 32 ->
  let k := Nat.min (length out) (length (q_completion q)) in
  exists status s', lx_drain_completions s out = Some (mkRingResult (Z.of_nat k) status, take k (q_completion q) ++ drop k out, s') /\
    lx_repr s' (mkQueues (q_fill q) (drop k (q_completion q)) (q_rx q) (q_tx q) (q_kicks q)).
Proof.
  intros [Hf Hc Hx Ht Hk] Hl k. destruct (cons_get_spec id _ _ out Hc Hl) as (status & ring & Hrun & Hring).
  unfold lx_drain_completions. rewrite Hrun. cbn [mbind option_bind]. rewrite list_fmap_id. eexists _, _. split; [done|]. by split.
Qed.

Lemma lx_consume_rx_spec s q out :
  lx_repr s q -> zlen out < 2 ^ 32 ->
  let k := Nat.min (length out) (length (q_rx q)) in
  exists status s', lx_consume_rx s out = Some (mkRingResult (Z.of_nat k) status, take k (q_rx q) ++ drop k out, s') /\
    lx_repr s' (mkQueues (q_fill q) (q_completion q) (drop k (q_rx q)) (q_tx q) (q_kicks q)).
Proof.
  intros [Hf Hc [Hx Hp] Ht Hk] Hl k.
  destruct (cons_get_spec rx_of_desc (lx_rx_ s) (cr_entries (lx_rx_ s)) out ltac:(done) Hl) as (status & ring & Hrun & Hring).
  assert (length (cr_entries (lx_rx_ s)) = length (q_rx q)) as Hlen by (rewrite <-Hx; by rewrite length_fmap).
  rewrite Hlen in Hrun, Hring. fold k in Hrun, Hring.
  unfold lx_consume_rx. rewrite Hrun. cbn [mbind option_bind]. rewrite fmap_take, Hx. eexists _, _. split; [done|].
  split; try done. cbn. destruct Hring as [-> ->]. by rewrite fmap_drop, Hx.
Qed.

(** The socket and the operating system behind it, as one object. *)
#[refine] Definition LibxdpSocket_socket : XskSocket (LibxdpSocket Prod Cons * World) := {|
  xs_refill '(s, w) l := '(r, s) ← lx_refill s l; Some (r, (s, w));
  xs_drain_completions '(s, w) out := '(r, out, s) ← lx_drain_completions s out; Some (r, out, (s, w));
  xs_consume_rx '(s, w) out := '(r, out, s) ← lx_consume_rx s out; Some (r, out, (s, w));
  xs_submit_tx '(s, w) l := '(r, s) ← lx_submit_tx s l; Some (r, (s, w));
  xs_kick_tx '(s, w) := let '(status, s, w) := lx_kick_tx s w in Some (status, (s, w));
  xs_fill_capacity := FillSize;
  xs_tx_capacity := TxSize;
  xs_repr s := lx_repr s.1;
|}.
Proof.
  - intros [s w] q q'. apply lx_repr_inj.
  - intros [s w] q l Hr Hl. destruct (lx_refill_spec s q l Hr Hl) as (status & s' & -> & Hr' & _).
    eexists _, _, _. split; [done|]. split; [|split; [|done]]; case_bool_decide; lia.
  - intros [s w] q out Hr Hl k. destruct (lx_drain_completions_spec s q out Hr Hl) as (status & s' & -> & Hr').
    eexists _, _. split; [done|]. done.
  - intros [s w] q out Hr Hl k. destruct (lx_consume_rx_spec s q out Hr Hl) as (status & s' & -> & Hr').
    eexists _, _. split; [done|]. done.
  - intros [s w] q l Hr Hl. destruct (lx_submit_tx_spec s q l Hr Hl) as (status & s' & -> & Hr' & _).
    eexists _, _, _. split; [done|]. split; [|split; [|done]]; case_bool_decide; lia.
  - intros [s w] q [Hf Hc Hx Ht Hk]. unfold lx_kick_tx. cbn [fst] in *. destruct (lx_socket_ s).
    2: { eexists _, (q_kicks q), _. split; [done|]. by split. }
    destruct (lx_sendto w z) as [[r errno] w'].
    destruct ((r <? 0) && negb (errno =?? KickEAGAIN) && negb (errno =?? KickEBUSY) && negb (errno =?? KickENOBUFS)).
    + eexists _, (q_kicks q), _. split; [done|]. by split.
    + eexists _, _, _. split; [done|]. by split.
Defined.

End socket.

(** ** Creation and deletion *)

(** What the process has of the kernel: mappings with their sizes, UMEMs, and sockets with
    the UMEM each uses.  A UMEM that a socket uses is not deleted: the call fails, with
    [-EBUSY], and nothing changes. *)
Class LibxdpLaws (Prod Cons : Set -> Set) (World : Type)
    `{!ProdRing Prod} `{!ConsRing Cons} `{!ProdRingLaws Prod} `{!ConsRingLaws Cons} `{!Libxdp Prod Cons World} := {
  lx_maps : World -> gset (Z * Z);
  lx_umems : World -> gset Z;
  lx_sockets : World -> gset (Z * Z);
  lx_mmap_law : forall w n area w', lx_mmap w n = (area, w') -> lx_umems w' = lx_umems w /\ lx_sockets w' = lx_sockets w /\
    match area with
    | Some a => ((a, n) ∉ lx_maps w) /\ lx_maps w' = {[(a, n)]} ∪ lx_maps w
    | None => lx_maps w' = lx_maps w
    end;
  lx_munmap_law : forall w a n, let w' := lx_munmap w a n in
    lx_maps w' = lx_maps w ∖ {[(a, n)]} /\ lx_umems w' = lx_umems w /\ lx_sockets w' = lx_sockets w;
  lx_umem_create_law : forall w area n fill0 completion0 config r umem fill completion w',
    xsk_umem__create w area n fill0 completion0 config = (r, umem, fill, completion, w') ->
    lx_maps w' = lx_maps w /\ lx_sockets w' = lx_sockets w /\
    if bool_decide (r = 0)
    then (umem ∉ lx_umems w) /\ (forall socket, (socket, umem) ∉ lx_sockets w) /\ lx_umems w' = {[umem]} ∪ lx_umems w /\
         prod_holds (xuc_fill_size config) fill [] /\ cons_holds completion []
    else lx_umems w' = lx_umems w;
  lx_umem_delete_law : forall w umem r w', xsk_umem__delete w umem = (r, w') ->
    lx_maps w' = lx_maps w /\ lx_sockets w' = lx_sockets w /\
    ((forall socket, (socket, umem) ∉ lx_sockets w) -> lx_umems w' = lx_umems w ∖ {[umem]}) /\
    (forall socket, (socket, umem) ∈ lx_sockets w -> r <> 0 /\ lx_umems w' = lx_umems w);
  lx_socket_create_law : forall w name queue umem rx0 tx0 config r socket rx tx w',
    xsk_socket__create w name queue umem rx0 tx0 config = (r, socket, rx, tx, w') ->
    lx_maps w' = lx_maps w /\ lx_umems w' = lx_umems w /\
    if bool_decide (r = 0)
    then (forall umem, (socket, umem) ∉ lx_sockets w) /\ lx_sockets w' = {[(socket, umem)]} ∪ lx_sockets w /\
         cons_holds rx [] /\ prod_holds (xsc_tx_size config) tx []
    else lx_sockets w' = lx_sockets w;
  lx_socket_delete_law : forall w socket, let w' := xsk_socket__delete w socket in
    lx_sockets w' = filter (fun '(x, _) => x <> socket) (lx_sockets w) /\ lx_maps w' = lx_maps w /\ lx_umems w' = lx_umems w;
  lx_sendto_law : forall w socket r w', lx_sendto w socket = (r, w') ->
    lx_maps w' = lx_maps w /\ lx_umems w' = lx_umems w /\ lx_sockets w' = lx_sockets w;
}.

Section lifecycle.
Context {Prod Cons : Set -> Set} {World : Type}.
Context `{!ProdRing Prod} `{!ConsRing Cons} `{!ProdRingLaws Prod} `{!ConsRingLaws Cons} `{!Libxdp Prod Cons World}.
Context `{!LibxdpLaws Prod Cons World}.

(** The socket has no object of the kernel. *)
Definition lx_idle (s : LibxdpSocket Prod Cons) : Prop :=
  lx_umem_ s = None /\ lx_socket_ s = None /\ lx_umem_area_ s = None /\ lx_initialized_ s = false.

(** What [w'] has is what [w] has, and the objects of [s]. *)
Definition lx_owns (w : World) (s : LibxdpSocket Prod Cons) (w' : World) : Prop :=
  (match lx_umem_area_ s with
   | Some a => ((a, lx_umem_size_ s) ∉ lx_maps w) /\ lx_maps w' = {[(a, lx_umem_size_ s)]} ∪ lx_maps w
   | None => lx_maps w' = lx_maps w end) /\
  (match lx_umem_ s with
   | Some u => (u ∉ lx_umems w) /\ (forall x, (x, u) ∉ lx_sockets w) /\ lx_umems w' = {[u]} ∪ lx_umems w
   | None => lx_umems w' = lx_umems w end) /\
  (match lx_socket_ s with
   | Some x => exists u, lx_umem_ s = Some u /\ (forall u', (x, u') ∉ lx_sockets w) /\ lx_sockets w' = {[(x, u)]} ∪ lx_sockets w
   | None => lx_sockets w' = lx_sockets w end).

Lemma add_remove `{Countable A} (x : A) (X : gset A) : (x ∉ X) -> ({[x]} ∪ X) ∖ {[x]} = X.
Proof. set_solver. Qed.

Lemma add_remove_socket (x u : Z) (X : gset (Z * Z)) :
  (forall u', (x, u') ∉ X) -> filter (fun '(y, _) => y <> x) ({[(x, u)]} ∪ X) = X.
Proof.
  intros Hx. apply set_eq. intros [y v]. rewrite elem_of_filter, elem_of_union, elem_of_singleton. split.
  - intros [Hy [[= -> _]|?]]; done.
  - intros Hin. split; [|by right]. intros ->. by apply (Hx v).
Qed.

Lemma lx_delete_socket_spec w s w1 :
  lx_owns w s w1 -> let '(s', w') := lx_delete_socket s w1 in lx_owns w s' w' /\ lx_socket_ s' = None.
Proof.
  intros (Hm & Hu & Hs). unfold lx_delete_socket. destruct (lx_socket_ s) as [x|] eqn:E.
  - destruct (lx_socket_delete_law w1 x) as (S1 & S2 & S3). destruct Hs as (u & _ & Hx & Hs). rewrite Hs, add_remove_socket in S1 by done.
    split; [|done]. unfold lx_owns. cbn [lx_set_socket lx_umem_ lx_umem_area_ lx_socket_ lx_umem_size_]. by rewrite S2, S3.
  - split; [|done]. unfold lx_owns. by rewrite E.
Qed.

(** Only once its socket is gone the UMEM can be deleted. *)
Lemma lx_delete_umem_spec w s w1 :
  lx_owns w s w1 -> lx_socket_ s = None -> let '(s', w') := lx_delete_umem s w1 in
  lx_owns w s' w' /\ lx_umem_ s' = None /\ lx_socket_ s' = None.
Proof.
  intros (Hm & Hu & Hs) Hn. unfold lx_delete_umem. rewrite Hn in Hs. destruct (lx_umem_ s) as [x|] eqn:E.
  - destruct (xsk_umem__delete w1 x) as [r w2] eqn:Ed. destruct (lx_umem_delete_law w1 x r w2 Ed) as (S2 & S3 & S1 & _).
    destruct Hu as (Hx & Hfree & Hu). rewrite Hs, Hu, add_remove in S1 by done. specialize (S1 Hfree).
    split; [|done]. unfold lx_owns. cbn [lx_set_umem lx_umem_ lx_umem_area_ lx_socket_ lx_umem_size_ snd]. rewrite Hn. by rewrite S2, S3.
  - split; [|done]. unfold lx_owns. by rewrite E, Hn.
Qed.

Lemma lx_unmap_area_spec w s w1 :
  lx_owns w s w1 -> let '(s', w') := lx_unmap_area s w1 in
  lx_owns w s' w' /\ lx_umem_area_ s' = None /\ lx_umem_ s' = lx_umem_ s /\ lx_socket_ s' = lx_socket_ s.
Proof.
  intros (Hm & Hu & Hs). unfold lx_unmap_area. destruct (lx_umem_area_ s) as [x|] eqn:E.
  - destruct (lx_munmap_law w1 x (lx_umem_size_ s)) as (S1 & S2 & S3). destruct Hm as [Hx Hm]. rewrite Hm, add_remove in S1 by done.
    split; [|done]. unfold lx_owns. cbn [lx_set_umem_area lx_umem_ lx_umem_area_ lx_socket_ lx_umem_size_]. by rewrite S2, S3.
  - split; [|done]. unfold lx_owns. by rewrite E.
Qed.

Definition same_resources (w w' : World) : Prop :=
  lx_maps w' = lx_maps w /\ lx_umems w' = lx_umems w /\ lx_sockets w' = lx_sockets w.

Lemma lx_shutdown_spec w s w1 :
  lx_owns w s w1 -> let '(s', w') := lx_shutdown s w1 in lx_idle s' /\ same_resources w w'.
Proof.
  intros H. unfold lx_shutdown. pose proof (lx_delete_socket_spec w s w1 H) as H1.
  destruct (lx_delete_socket s w1) as [s1 w2]. destruct H1 as [H1 E1]. pose proof (lx_delete_umem_spec w s1 w2 H1 E1) as H2.
  destruct (lx_delete_umem s1 w2) as [s2 w3]. destruct H2 as (H2 & E2 & E2'). pose proof (lx_unmap_area_spec w s2 w3 H2) as H3.
  destruct (lx_unmap_area s2 w3) as [s3 w4]. destruct H3 as (H3 & E3 & E3' & E3''). unfold lx_owns in H3.
  rewrite E3, E3', E2, E3'', E2' in H3. split; [|done]. unfold lx_idle. cbn. by rewrite E3, E3', E2, E3'', E2'.
Qed.

(** The outcome of [init]: all four rings exist and are empty, or nothing is left behind. *)
Definition lx_init_done (w : World) (umem_config : UmemConfig) (socket_config : SocketConfig)
    (r : SocketStatus * LibxdpSocket Prod Cons * World) : Prop :=
  let '(status, s', w') := r in
  if bool_decide (status = SocketStatus_Ok)
  then lx_owns w s' w' /\ lx_initialized_ s' = true /\
       lx_repr (u32 (uc_fill_ring_size umem_config)) (u32 (sc_tx_ring_size socket_config)) s' (mkQueues [] [] [] [] (lx_tx_kick_count_ s')) /\
       exists area umem socket, lx_umem_area_ s' = Some area /\ lx_umem_ s' = Some umem /\ lx_socket_ s' = Some socket
  else lx_idle s' /\ same_resources w w'.

Lemma lx_init_aborted w umem_config socket_config status s w1 :
  lx_owns w s w1 -> status <> SocketStatus_Ok ->
  lx_init_done w umem_config socket_config (let '(s, w) := lx_shutdown s w1 in (status, s, w)).
Proof.
  intros Ho Hst. pose proof (lx_shutdown_spec w s w1 Ho) as H. destruct (lx_shutdown s w1). unfold lx_init_done.
  by rewrite bool_decide_false.
Qed.

Lemma lx_init_spec s w interface_name umem_config socket_config :
  lx_idle s -> lx_init_done w umem_config socket_config (lx_init s w interface_name umem_config socket_config).
Proof.
  intros Hi. pose proof Hi as (Hu & Hs & Ha & Hin). unfold lx_init. rewrite Hin.
  assert (forall status, status <> SocketStatus_Ok -> lx_init_done w umem_config socket_config (status, s, w)) as Hrefused
    by (intros status Hst; unfold lx_init_done; by rewrite bool_decide_false).
  destruct interface_name as [name|]; [|by apply Hrefused].
  destruct (negb (uc_valid umem_config) || negb (sc_valid socket_config)); [by apply Hrefused|].
  destruct (lx_mmap w (uc_total_bytes umem_config)) as [[area|] w1] eqn:Em; destruct (lx_mmap_law _ _ _ _ Em) as (M1 & M2 & M3).
  2: { unfold lx_init_done, lx_idle. rewrite bool_decide_false by done. cbn. done. }
  destruct M3 as [Mf M3]. cbn [lx_set_umem_area lx_fill_ lx_completion_ lx_rx_ lx_tx_].
  destruct (xsk_umem__create w1 area (uc_total_bytes umem_config) (lx_fill_ s) (lx_completion_ s) _)
    as [[[[r umem] fill] completion] w2] eqn:Eu. destruct (lx_umem_create_law _ _ _ _ _ _ _ _ _ _ _ Eu) as (U1 & U2 & U3).
  destruct (Z.eqb_spec r 0) as [->|Hr]; cbn [negb].
  2: { apply lx_init_aborted; [|done]. rewrite bool_decide_false in U3 by done. unfold lx_owns. cbn.
       rewrite Hs, U1, U2, U3, M1, M2, M3. done. }
  rewrite bool_decide_true in U3 by done. destruct U3 as (Uf & Uu & U3 & Hfill & Hcomp). cbn [lx_set_umem lx_rx_ lx_tx_].
  match goal with |- context [xsk_socket__create ?a ?b ?c ?d ?e ?f ?g] =>
    destruct (xsk_socket__create a b c d e f g) as [[[[r socket] rx] tx] w3] eqn:Es end.
  destruct (lx_socket_create_law _ _ _ _ _ _ _ _ _ _ _ _ Es) as (S1 & S2 & S3).
  rewrite M1 in U3, Uf. rewrite M2 in U2, Uu. rewrite M3 in U1.
  destruct (Z.eqb_spec r 0) as [->|Hr]; cbn [negb].
  2: { apply lx_init_aborted; [|done]. rewrite bool_decide_false in S3 by done. unfold lx_owns. cbn. by rewrite S1, S2, S3, U1, U2, U3. }
  rewrite bool_decide_true in S3 by done. destruct S3 as (Sf & S3 & [Hrx Hrp] & Htx). rewrite U2 in S3, Sf.
  unfold lx_init_done. rewrite bool_decide_true by done. split; [unfold lx_owns; cbn; rewrite S1, S2, S3, U1, U3; split_and!; try done; by exists umem|].
  split; [done|]. split; [|by eexists _, _, _]. split; try done. cbn. by rewrite Hrx.
Qed.

(** A socket that was created has a UMEM of the configured size. *)
Lemma lx_init_size (s : LibxdpSocket Prod Cons) (w : World) interface_name umem_config socket_config s' w' :
  lx_init s w interface_name umem_config socket_config = (SocketStatus_Ok, s', w') ->
  lx_umem_size_ s' = uc_total_bytes umem_config.
Proof.
  unfold lx_init. destruct (lx_initialized_ s); [done|]. destruct interface_name; [|done]. case_match; [done|].
  destruct (lx_mmap _ _) as [[area|] w1]; [|done].
  destruct (xsk_umem__create _ _ _ _ _ _) as [[[[r umem] fill] completion] w2]. destruct (negb (r =? 0)).
  { by destruct (lx_shutdown _ _). }
  destruct (xsk_socket__create _ _ _ _ _ _ _) as [[[[r' socket] rx] tx] w3]. destruct (negb (r' =? 0)).
  { by destruct (lx_shutdown _ _). }
  intros [= <- _]. done.
Qed.

End lifecycle.

(** ** Claims *)

(** C20: over libxdp's rings the socket behaves as four queues.  [refill] and [submit_tx]
    put all items on the ring in order, or none when they do not all fit, and report
    which; [drain_completions] and [consume_rx] move as many entries as there are and as
    the span takes, oldest first, and keep the rest of the span.  Indices wrap at 32
    bits, and no ring is left with a cell reserved or peeked at. *)
Theorem libxdp_socket_moves_queues {Prod Cons : Set -> Set} `{!ProdRing Prod} `{!ConsRing Cons} `{!ProdRingLaws Prod}
    `{!ConsRingLaws Cons} (FillSize TxSize : Z) (s : LibxdpSocket Prod Cons) (q : Queues)
    (addresses completed : list Z) (received : list RxDescriptor) (descriptors : list TxDescriptor) :
  lx_repr FillSize TxSize s q -> zlen addresses < 2 ^ 32 -> zlen completed < 2 ^ 32 -> zlen received < 2 ^ 32 ->
  zlen descriptors < 2 ^ 32 ->
  (let k := if bool_decide (zlen (q_fill q) + zlen addresses <= FillSize) then length addresses else 0%nat in
   exists status s', lx_refill s addresses = Some (mkRingResult (Z.of_nat k) status, s') /\
     lx_repr FillSize TxSize s' (mkQueues (q_fill q ++ take k addresses) (q_completion q) (q_rx q) (q_tx q) (q_kicks q)) /\
     status = if bool_decide (k = length addresses) then SocketStatus_Ok else SocketStatus_RingFull) /\
  (let k := Nat.min (length completed) (length (q_completion q)) in
   exists status s', lx_drain_completions s completed
       = Some (mkRingResult (Z.of_nat k) status, take k (q_completion q) ++ drop k completed, s') /\
     lx_repr FillSize TxSize s' (mkQueues (q_fill q) (drop k (q_completion q)) (q_rx q) (q_tx q) (q_kicks q))) /\
  (let k := Nat.min (length received) (length (q_rx q)) in
   exists status s', lx_consume_rx s received
       = Some (mkRingResult (Z.of_nat k) status, take k (q_rx q) ++ drop k received, s') /\
     lx_repr FillSize TxSize s' (mkQueues (q_fill q) (q_completion q) (drop k (q_rx q)) (q_tx q) (q_kicks q))) /\
  (let k := if bool_decide (zlen (q_tx q) + zlen descriptors <= TxSize) then length descriptors else 0%nat in
   exists status s', lx_submit_tx s descriptors = Some (mkRingResult (Z.of_nat k) status, s') /\
     lx_repr FillSize TxSize s' (mkQueues (q_fill q) (q_completion q) (q_rx q) (q_tx q ++ take k descriptors) (q_kicks q)) /\
     status = if bool_decide (k = length descriptors) then SocketStatus_Ok else SocketStatus_RingFull).
Proof.
  intros Hr H1 H2 H3 H4. split_and!; [by apply lx_refill_spec|by apply lx_drain_completions_spec|
    by apply lx_consume_rx_spec|by apply lx_submit_tx_spec].
Qed.

(** C21: [init] either succeeds, with four empty rings of the configured sizes, or fails at
    any of its steps without leaving a mapping, UMEM or socket behind; and after a
    successful [init], whatever was done with the rings, [shutdown] gives back exactly
    what [init] took, by deleting the socket, then the UMEM (which the library refuses to
    delete while its socket exists), then the mapping. *)
Theorem libxdp_socket_lifecycle {Prod Cons : Set -> Set} {World : Type} `{!ProdRing Prod} `{!ConsRing Cons}
    `{!ProdRingLaws Prod} `{!ConsRingLaws Cons} `{!Libxdp Prod Cons World} `{!LibxdpLaws Prod Cons World}
    (s : LibxdpSocket Prod Cons) (w : World) (interface_name : option string) (umem_config : UmemConfig)
    (socket_config : SocketConfig) :
  lx_idle s ->
  let '(status, s1, w1) := lx_init s w interface_name umem_config socket_config in
  if bool_decide (status = SocketStatus_Ok)
  then lx_repr (u32 (uc_fill_ring_size umem_config)) (u32 (sc_tx_ring_size socket_config)) s1
         (mkQueues [] [] [] [] (lx_tx_kick_count_ s1)) /\ lx_initialized_ s1 = true /\
       forall fill completion rx tx,
         let s2 := lx_set_socket (lx_set_umem s1 fill completion (lx_umem_ s1)) rx tx (lx_socket_ s1) in
         lx_idle (lx_shutdown s2 w1).1 /\ same_resources w (lx_shutdown s2 w1).2 /\
         exists area umem socket, lx_umem_area_ s1 = Some area /\ lx_umem_ s1 = Some umem /\ lx_socket_ s1 = Some socket /\
           (lx_shutdown s2 w1).2
           = lx_munmap (xsk_umem__delete (xsk_socket__delete w1 socket) umem).2 area (uc_total_bytes umem_config)
  else lx_idle s1 /\ same_resources w w1.
Proof.
  intros Hi. pose proof (lx_init_spec s w interface_name umem_config socket_config Hi) as H.
  destruct (lx_init s w interface_name umem_config socket_config) as [[status s1] w1] eqn:E. unfold lx_init_done in H.
  assert (status = SocketStatus_Ok -> lx_init s w interface_name umem_config socket_config = (SocketStatus_Ok, s1, w1)) as Hinit
    by (by intros <-).
  case_bool_decide as Hok; [|done]. destruct H as (Ho & Hin & Hr & area & umem & socket & Ea & Eu & Es).
  split_and!; [done|done|]. intros fill completion rx tx s2.
  pose proof (lx_shutdown_spec w s2 w1 Ho) as H2. pose proof (lx_init_size _ _ _ _ _ _ _ (Hinit Hok)) as Hsize.
  assert (lx_idle (lx_shutdown s2 w1).1 /\ same_resources w (lx_shutdown s2 w1).2) as [H3 H4] by (by destruct (lx_shutdown s2 w1)).
  split; [done|]. split; [done|]. exists area, umem, socket. split_and!; [done..|].
  subst s2. unfold lx_shutdown, lx_delete_socket. cbn [lx_set_socket lx_set_umem lx_socket_]. rewrite Es.
  unfold lx_delete_umem. cbn [lx_set_socket lx_set_umem lx_umem_]. rewrite Eu.
  unfold lx_unmap_area. cbn [lx_set_socket lx_set_umem lx_umem_area_]. rewrite Ea. cbn. by rewrite Hsize.
Qed.

(** ** Concrete rings and a concrete kernel *)

Record ListProd (A : Set) : Set := mkListProd {
  lp_queue : list A;
  lp_cells : list (option A);
  lp_start : Z;
  lp_size : Z;
}.
Arguments mkListProd {A}.
Arguments lp_queue {A}.
Arguments lp_cells {A}.
Arguments lp_start {A}.
Arguments lp_size {A}.

#[export] Instance ListProd_ring : ProdRing ListProd := {|
  xsk_ring_prod__reserve A r n :=
    let k := if bool_decide (zlen (lp_queue r) + n <= lp_size r) then n else 0 in
    (k, lp_start r, mkListProd (lp_queue r) (replicate (Z.to_nat k) None) (lp_start r) (lp_size r));
  xsk_ring_prod__write A r i x :=
    mkListProd (lp_queue r) (<[Z.to_nat (u32 (i - lp_start r)) := Some x]> (lp_cells r)) (lp_start r) (lp_size r);
  xsk_ring_prod__submit A r n := mkListProd (lp_queue r ++ omap id (lp_cells r)) [] (u32 (lp_start r + n)) (lp_size r);
|}.

Record ListCons (A : Set) : Set := mkListCons {
  lc_queue : list A;
  lc_peeked : nat;
  lc_start : Z;
}.
Arguments mkListCons {A}.
Arguments lc_queue {A}.
Arguments lc_peeked {A}.
Arguments lc_start {A}.

#[export] Instance ListCons_ring : ConsRing ListCons := {|
  xsk_ring_cons__peek A r n :=
    let k := Z.min n (zlen (lc_queue r)) in (k, lc_start r, mkListCons (lc_queue r) (Z.to_nat k) (lc_start r));
  xsk_ring_cons__read A r i := lc_queue r !! Z.to_nat (u32 (i - lc_start r));
  xsk_ring_cons__release A r n := mkListCons (drop (Z.to_nat n) (lc_queue r)) 0 (u32 (lc_start r + n));
|}.

Lemma ring_offset start j : 0 <= j < 2 ^ 32 -> u32 (u32 (start + j) - start) = j.
Proof. intros. rewrite wrap_sub_l. replace (start + j - start) with j by lia. by apply wrap_small. Qed.

#[export] Instance ListProd_laws : ProdRingLaws ListProd.
Proof.
  refine {| pr_submitted A := lp_queue; pr_reserved A := lp_cells; pr_index A := lp_start; pr_size A := lp_size |}.
  - intros A r n k index r' Hr Hn [= <- <- <-]. done.
  - intros A r j x Hj Hj'. cbn. rewrite ring_offset, Nat2Z.id by lia. done.
  - intros A r l Hr. cbn. rewrite Hr. split; [|done]. f_equal. clear. induction l as [|x l IH]; cbn; [done|]. by f_equal.
Defined.

#[export] Instance ListCons_laws : ConsRingLaws ListCons.
Proof.
  refine {| cr_entries A := lc_queue; cr_peeked A := lc_peeked; cr_index A := lc_start |}.
  - intros A r n k index r' Hr Hn [= <- <- <-]. done.
  - intros A r j Hj Hj'. cbn. rewrite ring_offset, Nat2Z.id by lia. done.
  - intros A r. cbn. by rewrite Nat2Z.id.
Defined.

(** A kernel that has what it has; the socket can be refused. *)
Record XskKernel := mkXskKernel {
  xk_maps : gset (Z * Z);
  xk_umems : gset Z;
  xk_sockets : gset (Z * Z);
  xk_refuse_socket : bool;
}.

Definition fresh_id (X : gset Z) : Z := fresh X.

#[export] Instance XskKernel_libxdp : Libxdp ListProd ListCons XskKernel := {|
  lx_mmap w n := let a := fresh_id (set_map fst (xk_maps w)) in
    (Some a, mkXskKernel ({[(a, n)]} ∪ xk_maps w) (xk_umems w) (xk_sockets w) (xk_refuse_socket w));
  lx_munmap w a n := mkXskKernel (xk_maps w ∖ {[(a, n)]}) (xk_umems w) (xk_sockets w) (xk_refuse_socket w);
  xsk_umem__create w area n fill completion config := let u := fresh_id (xk_umems w ∪ set_map snd (xk_sockets w)) in
    (0, u, mkListProd [] [] 0 (xuc_fill_size config), mkListCons [] 0 0,
     mkXskKernel (xk_maps w) ({[u]} ∪ xk_umems w) (xk_sockets w) (xk_refuse_socket w));
  xsk_umem__delete w u :=
    if bool_decide (u ∈ (set_map snd (xk_sockets w) : gset Z)) then (-16, w)
    else (0, mkXskKernel (xk_maps w) (xk_umems w ∖ {[u]}) (xk_sockets w) (xk_refuse_socket w));
  xsk_socket__create w name queue umem rx tx config := let x := fresh_id (set_map fst (xk_sockets w)) in
    if xk_refuse_socket w then (-1, 0, rx, tx, w)
    else (0, x, mkListCons [] 0 0, mkListProd [] [] 0 (xsc_tx_size config),
      mkXskKernel (xk_maps w) (xk_umems w) ({[(x, umem)]} ∪ xk_sockets w) (xk_refuse_socket w));
  xsk_socket__delete w x := mkXskKernel (xk_maps w) (xk_umems w) (filter (fun '(y, _) => y <> x) (xk_sockets w)) (xk_refuse_socket w);
  lx_sendto w socket := ((0, KickEOTHER), w);
|}.

#[export] Instance XskKernel_laws : LibxdpLaws ListProd ListCons XskKernel.
Proof.
  refine {| lx_maps := xk_maps; lx_umems := xk_umems; lx_sockets := xk_sockets |}; try done.
  - intros w n area w' [= <- <-]. split_and!; [done|done| |done]. intros Hin.
    apply (is_fresh (set_map (D := gset Z) fst (xk_maps w))). apply elem_of_map. by eexists (_, _).
  - intros w area n fill0 completion0 config r umem fill completion w' [= <- <- <- <- <-]. split_and!; try done.
    rewrite bool_decide_true by done. unfold fresh_id.
    pose proof (is_fresh (xk_umems w ∪ set_map snd (xk_sockets w))) as Hf. apply not_elem_of_union in Hf as [Hf1 Hf2].
    split_and!; try done. intros x Hin. apply Hf2, elem_of_map. by exists (x, fresh (xk_umems w ∪ set_map snd (xk_sockets w))).
  - intros w umem r w'. cbn. case_bool_decide as Hin; intros [= <- <-]; split_and!; try done.
    + intros Hno. apply elem_of_map in Hin as ([x u] & -> & Hin). by apply Hno in Hin.
    + intros x Hx. destruct Hin. apply elem_of_map. by exists (x, umem).
  - intros w name queue umem rx0 tx0 config r socket rx tx w' H. cbn in H. destruct (xk_refuse_socket w); injection H as <- <- <- <- <-.
    + done.
    + split_and!; try done. rewrite bool_decide_true by done. split_and!; try done. intros u Hin.
      apply (is_fresh (set_map (D := gset Z) fst (xk_sockets w))), elem_of_map. by eexists (_, _).
  - intros w socket r w' [= _ <-]. done.
Defined.

Definition example_socket : LibxdpSocket ListProd ListCons :=
  mkLibxdpSocket (mkListProd [0; 4096] [] (2 ^ 32 - 1) 4) (mkListCons [8192] 0 7) (mkListCons [mkXdpDesc 12288 60 0] 0 0)
    (mkListProd [] [] 0 4) (Some 1) (Some 2) (Some 3) 16384 0 true.

Lemma libxdp_socket_moves_queues_witness :
  exists s1 s2, lx_refill example_socket [16384; 20480] = Some (mkRingResult 2 SocketStatus_Ok, s1) /\
    pr_submitted (lx_fill_ s1) = [0; 4096; 16384; 20480] /\
    lx_drain_completions example_socket [1; 2] = Some (mkRingResult 1 SocketStatus_RingEmpty, [8192; 2], s2).
Proof.
  destruct (libxdp_socket_moves_queues 4 4 example_socket (mkQueues [0; 4096] [8192] [mkRxDescriptor 12288 60 0] [] 0)
    [16384; 20480] [1; 2] [mkRxDescriptor 0 0 0] [mkTxDescriptor 5 6 7])
    as ((status & s1 & Hrun & [Hf _ _ _ _] & Hst) & (status2 & s2 & Hrun2 & _) & _ & _).
  - by split.
  - reflexivity.
  - reflexivity.
  - reflexivity.
  - reflexivity.
  - cbn in Hst. subst status. exists s1, s2. split; [exact Hrun|]. split; [apply Hf|].
    assert (status2 = SocketStatus_RingEmpty) as <- by (vm_compute in Hrun2; by simplify_eq). exact Hrun2.
Defined.

Definition example_idle : LibxdpSocket ListProd ListCons :=
  mkLibxdpSocket (mkListProd [] [] 0 0) (mkListCons [] 0 0) (mkListCons [] 0 0) (mkListProd [] [] 0 0) None None None 0 0 false.

(** A creation that fails at its last step. *)
Lemma libxdp_socket_lifecycle_witness :
  exists s1 w1, lx_init example_idle (mkXskKernel ∅ ∅ ∅ true) (Some "eth0") UmemConfig_default SocketConfig_default
      = (SocketStatus_SocketCreateFailed, s1, w1) /\ lx_idle s1 /\ xk_maps w1 = ∅ /\ xk_umems w1 = ∅ /\ xk_sockets w1 = ∅.
Proof.
  pose proof (libxdp_socket_lifecycle example_idle (mkXskKernel ∅ ∅ ∅ true) (Some "eth0") UmemConfig_default SocketConfig_default
    ltac:(done)) as H.
  assert ((lx_init example_idle (mkXskKernel ∅ ∅ ∅ true) (Some "eth0") UmemConfig_default SocketConfig_default).1.1
    = SocketStatus_SocketCreateFailed) as Hst by (vm_compute; reflexivity).
  destruct (lx_init _ _ _ _ _) as [[status s1] w1]. cbn [fst] in Hst. subst status. rewrite bool_decide_false in H by done.
  exists s1, w1. split; [reflexivity|exact H].
Defined.
