(* ===== verification/Live.v ===== *)
(** * [src/main.cpp]: live mode

    [run_live] creates a [LibxdpSocket], fills the fill ring and forwards frames until it
    is stopped.  It does the runtime adapter's work with code of its own: it puts frames on
    the fill ring in batches, ignores refused frames, uses no rules and never ticks its
    wheel.  The class [UmemSocket] says what it needs of the socket besides [XskSocket].
    The kernel works on the rings and on the UMEM at the same time: the loops take a list of
    its turns, what it does between one iteration and the next. *)

From stdpp Require Import gmap relations.
From S2P Require Import Prelude Types Ring TimingWheel FrameAllocator PacketParser ChaosEngine DataPlane SocketManager Runtime.
From S2P Require Import LibxdpSocket.

Definition kLiveFrameCount : Z := kDefaultFrameCount.
Definition kLiveFrameSize : Z := kDefaultFrameSizeBytes.

(** The socket's calls keep the size of the UMEM, and [refill] takes all or nothing. *)
Class UmemSocket (SocketT : Type) `{!XskSocket SocketT} := {
  us_umem_size_bytes : SocketT -> Z;
  us_refill_size : forall s l r s', xs_refill s l = Some (r, s') -> us_umem_size_bytes s' = us_umem_size_bytes s;
  us_drain_completions_size : forall s out r out' s',
    xs_drain_completions s out = Some (r, out', s') -> us_umem_size_bytes s' = us_umem_size_bytes s;
  us_consume_rx_size : forall s out r out' s',
    xs_consume_rx s out = Some (r, out', s') -> us_umem_size_bytes s' = us_umem_size_bytes s;
  us_submit_tx_size : forall s l r s', xs_submit_tx s l = Some (r, s') -> us_umem_size_bytes s' = us_umem_size_bytes s;
  us_kick_tx_size : forall s r s', xs_kick_tx s = Some (r, s') -> us_umem_size_bytes s' = us_umem_size_bytes s;
  us_refill_full : forall s q l, xs_repr s q -> zlen l < 2 ^ 32 -> xs_fill_capacity < zlen (q_fill q) + zlen l ->
    exists status s', xs_refill s l = Some (mkRingResult 0 status, s') /\ xs_repr s' q;
}.

(** The variables of [run_live]; [lv_umem] are the bytes at [socket.umem_area()]. *)
Record LiveState (SocketT W : Type) := mkLiveState {
  lv_socket : SocketT;
  lv_umem : Memory;
  lv_allocator : FrameAllocator;
  lv_timing_wheel : W;
  lv_rx : list RxDescriptor;
  lv_descriptors : list PacketDescriptor;
  lv_tx : list ProcessedFrame;
  lv_recycle : list ProcessedFrame;
  lv_completions : list Z;
  lv_packets_seen : Z;
  lv_packets_dropped : Z;
  lv_tx_submitted : Z;
  lv_completed : Z;
}.
Arguments mkLiveState {SocketT W}.
Arguments lv_socket {SocketT W}.
Arguments lv_umem {SocketT W}.
Arguments lv_allocator {SocketT W}.
Arguments lv_timing_wheel {SocketT W}.
Arguments lv_rx {SocketT W}.
Arguments lv_descriptors {SocketT W}.
Arguments lv_tx {SocketT W}.
Arguments lv_recycle {SocketT W}.
Arguments lv_completions {SocketT W}.
Arguments lv_packets_seen {SocketT W}.
Arguments lv_packets_dropped {SocketT W}.
Arguments lv_tx_submitted {SocketT W}.
Arguments lv_completed {SocketT W}.

(** The elements that a loop over [index < count] reads. *)
Definition first_of {A} (array : list A) (count : Z) : option (list A) :=
  if count <=? zlen array then Some (take (Z.to_nat count) array) else None.

Section Live.
Context {SocketT W : Type} `{!XskSocket SocketT} `{!UmemSocket SocketT} `{!DelayQueue W} (FrameCount FrameSize : Z).
Abbreviation State := (LiveState SocketT W).

(** ** The initial fill *)

(** The inner loop with [n] frames left to allocate. *)
Fixpoint live_allocate_loop (n : nat) (allocator : FrameAllocator) (initial_frames : list FrameHandle) (allocated : Z)
    : option (Z * list FrameHandle * FrameAllocator) :=
  match n with
  | O => Some (allocated, initial_frames, allocator)
  | S n =>
      '(allocation, allocator) ← allocate FrameSize allocator FrameOwner_FillRing;
      if negb (fal_ok allocation) then Some (allocated, initial_frames, allocator)
      else
        initial_frames ← initial_frames.[allocated <- fal_frame allocation];
        live_allocate_loop n allocator initial_frames (allocated + 1)
  end.

(** The loop that copies the addresses, with [n] left. *)
Fixpoint live_addresses_loop (n : nat) (index : Z) (initial_frames : list FrameHandle) (addresses : list Z)
    : option (list Z) :=
  match n with
  | O => Some addresses
  | S n =>
      frame ← initial_frames.[index];
      addresses ← addresses.[index <- fh_address frame];
      live_addresses_loop n (index + 1) initial_frames addresses
  end.

(** What the program shares with the kernel: the socket's rings and the bytes of the UMEM;
    with them the buffers that the kernel has taken off the fill ring and the frames it has
    taken off the transmit ring.  A turn is what the kernel does with them. *)
Abbreviation Shared := (SocketT * Memory * list Z * list Z)%type.
Abbreviation Turn := (Shared -> Shared).

(** The outer loop, with a turn of the kernel after each iteration; the turns bound the
    number of iterations. *)
Fixpoint live_fill_loop (turns : list Turn) (filled : Z) (initial_frames : list FrameHandle) (allocator : FrameAllocator)
    (shared : Shared) : option (Z * FrameAllocator * Shared) :=
  match turns with
  | [] => None
  | turn :: turns =>
      if FrameCount <=? filled then Some (filled, allocator, shared)
      else
        let request := if FrameCount - filled <? zlen initial_frames then FrameCount - filled else zlen initial_frames in
        '(allocated, initial_frames, allocator) ← live_allocate_loop (Z.to_nat request) allocator initial_frames 0;
        addresses ← live_addresses_loop (Z.to_nat allocated) 0 initial_frames (replicate (Z.to_nat kDataPlaneBatchSize) 0);
        addresses ← first_of addresses allocated;
        let '(socket, umem, krx, ktx) := shared in
        '(refill, socket) ← xs_refill socket addresses;
        if rr_count refill =? 0 then Some (filled, allocator, (socket, umem, krx, ktx))
        else live_fill_loop turns (u64 (filled + rr_count refill)) initial_frames allocator (turn (socket, umem, krx, ktx))
  end.

(** From the allocator on to the main loop; [umem] are the bytes that were mapped, and at
    first the kernel has nothing. *)
Definition live_start (turns : list Turn) (socket : SocketT) (umem : Memory) (timing_wheel : W)
    : option (State * list Z * list Z) :=
  let initial_frames := replicate (Z.to_nat kDataPlaneBatchSize) FrameHandle_default in
  '(_, allocator, (socket, umem, krx, ktx)) ←
    live_fill_loop turns 0 initial_frames (FrameAllocator_new FrameCount) (socket, umem, [], []);
  let n := Z.to_nat kDataPlaneBatchSize in
  Some (mkLiveState socket umem allocator timing_wheel (replicate n inhabitant) (replicate n (mkPacketDescriptor 0 0 0))
          (replicate n inhabitant) (replicate n inhabitant) (replicate n 0) 0 0 0 0, krx, ktx).

(** ** One round of the main loop *)

(** A frame back to the fill ring, if it is [owner]'s; whether the ring takes it is ignored. *)
Definition live_refill_one (allocator : FrameAllocator) (socket : SocketT) (address : Z) (owner : FrameOwner)
    : option (bool * FrameAllocator * SocketT) :=
  let frame := handle_from_address FrameCount FrameSize address in
  if negb (fal_ok frame) then Some (false, allocator, socket)
  else
    '(status, allocator) ← transition FrameCount FrameSize allocator (fal_frame frame) owner FrameOwner_FillRing;
    if status =?? FrameStatus_Ok then
      '(_, socket) ← xs_refill socket [fh_address (fal_frame frame)];
      Some (true, allocator, socket)
    else Some (false, allocator, socket).

Fixpoint live_complete (allocator : FrameAllocator) (socket : SocketT) (addresses : list Z) (completed : Z)
    : option (Z * FrameAllocator * SocketT) :=
  match addresses with
  | [] => Some (completed, allocator, socket)
  | address :: addresses =>
      '(ok, allocator, socket) ← live_refill_one allocator socket address FrameOwner_TxRing;
      live_complete allocator socket addresses (if ok : bool then u64 (completed + 1) else completed)
  end.

Fixpoint live_recycle (allocator : FrameAllocator) (socket : SocketT) (frames : list ProcessedFrame)
    : option (FrameAllocator * SocketT) :=
  match frames with
  | [] => Some (allocator, socket)
  | frame :: frames =>
      '(_, allocator, socket) ← live_refill_one allocator socket (pf_frame_address frame) FrameOwner_DataPlane;
      live_recycle allocator socket frames
  end.

Fixpoint live_collect (rx : list RxDescriptor) (allocator : FrameAllocator) (descriptors : list PacketDescriptor)
    (descriptor_count : Z) : option (Z * list PacketDescriptor * FrameAllocator) :=
  match rx with
  | [] => Some (descriptor_count, descriptors, allocator)
  | d :: rx =>
      let frame := handle_from_address FrameCount FrameSize (rx_address d) in
      if negb (fal_ok frame) then live_collect rx allocator descriptors descriptor_count
      else
        owner ← owner_of FrameCount allocator (fh_index (fal_frame frame));
        '(status, allocator) ← transition FrameCount FrameSize allocator (fal_frame frame) owner FrameOwner_DataPlane;
        if negb (status =?? FrameStatus_Ok) then live_collect rx allocator descriptors descriptor_count
        else
          descriptors ← descriptors.[descriptor_count <- mkPacketDescriptor (rx_address d) (rx_length d) (rx_options d)];
          live_collect rx allocator descriptors (u64 (descriptor_count + 1))
  end.

Fixpoint live_transmit (allocator : FrameAllocator) (socket : SocketT) (frames : list ProcessedFrame) (tx_submitted : Z)
    : option (Z * FrameAllocator * SocketT) :=
  match frames with
  | [] => Some (tx_submitted, allocator, socket)
  | f :: frames =>
      let frame := handle_from_address FrameCount FrameSize (pf_frame_address f) in
      if negb (fal_ok frame) then live_transmit allocator socket frames tx_submitted
      else
        '(status, allocator) ← transition FrameCount FrameSize allocator (fal_frame frame) FrameOwner_DataPlane FrameOwner_TxRing;
        if negb (status =?? FrameStatus_Ok) then live_transmit allocator socket frames tx_submitted
        else
          '(result, socket) ← xs_submit_tx socket [mkTxDescriptor (pf_frame_address f) (pf_frame_length f) 0];
          if rr_count result =? 1 then
            '(_, socket) ← xs_kick_tx socket;
            live_transmit allocator socket frames (u64 (tx_submitted + 1))
          else live_transmit allocator socket frames tx_submitted
  end.

Definition live_round (st : State) : option State :=
  '(completion_result, completions, socket) ← xs_drain_completions (lv_socket st) (lv_completions st);
  addresses ← first_of completions (rr_count completion_result);
  '(completed, allocator, socket) ← live_complete (lv_allocator st) socket addresses (lv_completed st);
  '(rx_result, rx, socket) ← xs_consume_rx socket (lv_rx st);
  if rr_count rx_result =? 0 then
    Some (mkLiveState socket (lv_umem st) allocator (lv_timing_wheel st) rx (lv_descriptors st) (lv_tx st) (lv_recycle st)
            completions (lv_packets_seen st) (lv_packets_dropped st) (lv_tx_submitted st) completed)
  else
    received ← first_of rx (rr_count rx_result);
    '(descriptor_count, descriptors, allocator) ← live_collect received allocator (lv_descriptors st) 0;
    batch_descriptors ← first_of descriptors descriptor_count;
    batch ← process_packet_batch (lv_umem st) (Some 0) (us_umem_size_bytes socket) batch_descriptors [] (lv_timing_wheel st)
              (lv_tx st) (lv_recycle st) kDefaultTimingWheelTickNs;
    let stats := br_stats (ba_result batch) in
    recycled ← first_of (ba_recycle_output batch) (br_recycle_count (ba_result batch));
    '(allocator, socket) ← live_recycle allocator socket recycled;
    sent ← first_of (ba_tx_output batch) (br_tx_count (ba_result batch));
    '(tx_submitted, allocator, socket) ← live_transmit allocator socket sent (lv_tx_submitted st);
    Some (mkLiveState socket (ba_mem batch) allocator (ba_wheel batch) rx descriptors (ba_tx_output batch)
            (ba_recycle_output batch) completions (u64 (lv_packets_seen st + bs_packets_seen stats))
            (u64 (lv_packets_dropped st + bs_packets_dropped stats)) tx_submitted completed).

(** The rings and the UMEM as the kernel left them. *)
Definition lv_set_shared (st : State) (socket : SocketT) (umem : Memory) : State :=
  mkLiveState socket umem (lv_allocator st) (lv_timing_wheel st) (lv_rx st) (lv_descriptors st) (lv_tx st)
    (lv_recycle st) (lv_completions st) (lv_packets_seen st) (lv_packets_dropped st) (lv_tx_submitted st) (lv_completed st).

(** The main loop; [running] are the values that [g_running.load()] returns, each with the
    turn of the kernel before the round. *)
Fixpoint live_loop (running : list (bool * Turn)) (st : State) (krx ktx : list Z) : option (State * list Z * list Z) :=
  match running with
  | (true, turn) :: running =>
      let '(socket, umem, krx, ktx) := turn (lv_socket st, lv_umem st, krx, ktx) in
      st ← live_round (lv_set_shared st socket umem);
      live_loop running st krx ktx
  | _ => Some (st, krx, ktx)
  end.

End Live.

(** ** Without rules nothing is delayed *)

Lemma recycle_frame_delayed {W} (st st' : BatchState (W := W)) pf f :
  (forall s, bs_packets_delayed (f s) = bs_packets_delayed s) -> recycle_frame st pf f = Some st' ->
  bs_packets_delayed (br_stats (ba_result st')) = bs_packets_delayed (br_stats (ba_result st)).
Proof.
  intros Hf. unfold recycle_frame, append_recycle. cbn. case_match; cbn.
  - intros [= <-]. apply Hf.
  - destruct (aset _ _ _); cbn; [|done]. intros [= <-]. apply Hf.
Qed.

Lemma process_descriptor_delayed {W} `{!DelayQueue W} base size tick (st st' : BatchState (W := W)) d :
  process_descriptor base size [] tick st d = Some st' ->
  bs_packets_delayed (br_stats (ba_result st')) = bs_packets_delayed (br_stats (ba_result st)).
Proof.
  unfold process_descriptor. cbn zeta. destruct (parse_packet _ _ _) as [packet|]; cbn [mbind option_bind]; [|done].
  assert ((if pv_ok packet then decide_packet_fast packet [] else pass_decision) = pass_decision) as -> by (by case_match).
  case_match.
  - intros H2%recycle_frame_delayed; [exact H2|]. intros s. cbn. by case_match.
  - change (should_drop pass_decision) with false. change (should_delay pass_decision) with false. unfold forward_frame.
    change (should_corrupt pass_decision) with false. cbn iota. cbn [mbind option_bind ba_mem].
    match goal with |- (?o ≫= _) = _ -> _ => destruct o as [[? mem]|]; cbn [mbind option_bind]; [|done] end.
    case_match.
    + cbn [ba_tx_output]. destruct (aset _ _ _); cbn; [|done]. by intros [= <-].
    + intros H2%recycle_frame_delayed; [exact H2|done].
Qed.

Lemma batch_nothing_delayed {W} `{!DelayQueue W} mem base size ds (wheel : W) tx recycle tick st :
  process_packet_batch mem base size ds [] wheel tx recycle tick = Some st ->
  bs_packets_delayed (br_stats (ba_result st)) = 0.
Proof.
  unfold process_packet_batch.
  assert (forall ds (st0 st1 : BatchState (W := W)), process_descriptors base size [] tick st0 ds = Some st1 ->
    bs_packets_delayed (br_stats (ba_result st1)) = bs_packets_delayed (br_stats (ba_result st0))) as H.
  { clear. induction ds as [|d ds IH]; intros st0 st1; cbn [process_descriptors]; [by intros [= <-]|].
    intros (st2 & H2%process_descriptor_delayed & H3%IH)%bind_Some. congruence. }
  by intros ->%H.
Qed.

(** ** The frames of live mode *)

Section live_proofs.
Context {SocketT W : Type} `{!XskSocket SocketT} `{!UmemSocket SocketT} `{!TimedQueue W} (FrameCount FrameSize : Z).
Hypothesis FrameCount_bounds : 0 < FrameCount <= 2 ^ 32.
Hypothesis FrameSize_pos : 0 < FrameSize.
Hypothesis umem_fits : FrameCount * FrameSize < 2 ^ 64.

(** The rings hold [q]; [others] are the frames in use that are in no ring. *)
Record lv_rel (a : FrameAllocator) (s : SocketT) (q : Queues) (others : list (FrameOwner * Z)) : Prop := {
  lvr_owns : owns FrameCount FrameSize a (queue_claims FrameSize q [] ++ others);
  lvr_socket : xs_repr s q;
  lvr_size : us_umem_size_bytes s = FrameCount * FrameSize;
}.

Lemma lv_rel_perm a s q others others' : others ≡ₚ others' -> lv_rel a s q others -> lv_rel a s q others'.
Proof. intros Hp [Ho ? ?]. split; try done. by rewrite <-Hp. Qed.

Lemma lv_rel_take a s q o address others :
  lv_rel a s q ((o, address) :: others) -> owns FrameCount FrameSize a ((o, address) :: queue_claims FrameSize q [] ++ others).
Proof. intros [Ho _ _]. by rewrite <-Permutation_middle in Ho. Qed.

(** A frame in nobody's ring: its handle, its owner, and that it can be handed over. *)
Lemma live_transition a s q o next address others :
  lv_rel a s q ((o, address) :: others) -> next <> FrameOwner_Free ->
  exists i a', 0 <= i < FrameCount /\ address = i * FrameSize /\
    handle_from_address FrameCount FrameSize address = mkFrameAllocation (make_handle FrameSize i) FrameStatus_Ok /\
    owner_of FrameCount a i = Some o /\
    transition FrameCount FrameSize a (make_handle FrameSize i) o next = Some (FrameStatus_Ok, a') /\
    lv_rel a' s q ((next, address) :: others).
Proof.
  intros Hrel Hnext. pose proof (lv_rel_take _ _ _ _ _ _ Hrel) as Hown.
  destruct (owns_cons FrameCount FrameSize FrameCount_bounds FrameSize_pos umem_fits _ _ _ _ Hown)
    as (i & Hi & -> & _ & Ho & Hh & _).
  destruct (owns_transition FrameCount FrameSize FrameCount_bounds FrameSize_pos umem_fits _ o next i _ Hown Hi)
    as (a' & Htr & Hown'). rewrite decide_False in Hown' by done.
  exists i, a'. split_and!; try done; try lia.
  - unfold owner_of. destruct (Z.ltb_spec i FrameCount); [done|lia].
  - destruct Hrel. split; try done. by rewrite <-Permutation_middle.
Qed.

(** A frame that the fill ring refuses is [FillRing]'s, but in no ring. *)
Lemma live_refill_one_spec a s q o address others :
  lv_rel a s q ((o, address) :: others) ->
  exists (ok : bool) a' s', live_refill_one FrameCount FrameSize a s address o = Some (true, a', s') /\
    lv_rel a' s' (push_fill q (if ok then [address] else [])) (if ok then others else (FrameOwner_FillRing, address) :: others) /\
    (zlen (q_fill q) + 1 <= xs_fill_capacity -> ok = true).
Proof.
  intros Hrel. destruct (live_transition _ _ _ _ FrameOwner_FillRing _ _ Hrel) as (i & a' & Hi & Ha & Hh & _ & Htr & [Ho Hs Hz]); [done|].
  unfold live_refill_one. rewrite Hh. change (fal_ok _) with true. cbn [negb fal_frame]. rewrite Htr. cbn [mbind option_bind].
  rewrite bool_decide_true, (fh_address_make FrameCount), <-Ha by done.
  destruct (xs_refill_law s q [address] Hs) as (k & status & s' & Hrun & Hk & Hroom & Hs'); [done|].
  pose proof (us_refill_size _ _ _ _ Hrun) as Hz'. rewrite Hrun. cbn [mbind option_bind].
  assert (k = 0%nat \/ k = 1%nat) as [-> | ->] by (simpl in Hk; lia).
  - exists false, a', s'. split_and!; [done| |].
    + split; [|by unfold push_fill|congruence]. unfold push_fill. rewrite app_nil_r. by destruct q.
    + intros Hc. specialize (Hroom Hc). done.
  - exists true, a', s'. split_and!; [done| |done]. split; [|done|congruence].
    eapply owns_proper; [done| |exact Ho]. claims_solver.
Qed.

Lemma push_fill_push q l k : push_fill (push_fill q l) k = push_fill q (l ++ k).
Proof. unfold push_fill. cbn. by rewrite app_assoc. Qed.

Lemma push_fill_nil q : push_fill q [] = q.
Proof. unfold push_fill. rewrite app_nil_r. by destruct q. Qed.

(** Each frame goes to the fill ring or, when that is full, is stranded. *)
Lemma live_complete_spec addresses a s q others completed :
  lv_rel a s q (claims_of FrameOwner_TxRing addresses ++ others) -> fits 64 completed ->
  exists refilled stuck a' s', live_complete FrameCount FrameSize a s addresses completed
      = Some (u64 (completed + zlen addresses), a', s') /\
    refilled `sublist_of` addresses /\ addresses ≡ₚ refilled ++ stuck /\
    lv_rel a' s' (push_fill q refilled) (claims_of FrameOwner_FillRing stuck ++ others) /\
    (zlen (q_fill q) + zlen addresses <= xs_fill_capacity -> stuck = []).
Proof.
  revert a s q others completed. induction addresses as [|address addresses IH]; intros a s q others completed Hrel Hc; cbn [live_complete].
  { exists [], [], a, s. rewrite push_fill_nil, Z.add_0_r, wrap_small by done. done. }
  rewrite zlen_cons. pose proof (zlen_nonneg addresses).
  destruct (live_refill_one_spec a s q FrameOwner_TxRing address (claims_of FrameOwner_TxRing addresses ++ others) Hrel)
    as (ok & a1 & s1 & -> & Hrel1 & Hok). cbn [mbind option_bind].
  destruct (IH a1 s1 (push_fill q (if ok then [address] else [])) (if ok then others else (FrameOwner_FillRing, address) :: others)
    (u64 (completed + 1))) as (refilled & stuck & a' & s' & -> & Hsub & Hp & Hrel' & Hcap).
  { eapply lv_rel_perm; [|exact Hrel1]. destruct ok; claims_solver. }
  { by apply wrap_fits. }
  exists (if ok then address :: refilled else refilled), (if ok then stuck else address :: stuck), a', s'. split_and!.
  - do 3 f_equal. rewrite wrap_add_l by lia. f_equal. lia.
  - destruct ok; by constructor.
  - destruct ok; rewrite Hp; perm_solver.
  - rewrite push_fill_push in Hrel'. destruct ok; (eapply lv_rel_perm; [|exact Hrel']); claims_solver.
  - intros Hroom. rewrite (Hok ltac:(lia)) in *. apply Hcap. unfold push_fill. cbn [q_fill]. rewrite zlen_app, zlen_cons, zlen_nil. lia.
Qed.

Lemma live_recycle_spec frames a s q others :
  lv_rel a s q (tx_claims frames ++ others) ->
  exists refilled stuck a' s', live_recycle FrameCount FrameSize a s frames = Some (a', s') /\
    refilled `sublist_of` (pf_frame_address <$> frames) /\ (pf_frame_address <$> frames) ≡ₚ refilled ++ stuck /\
    lv_rel a' s' (push_fill q refilled) (claims_of FrameOwner_FillRing stuck ++ others) /\
    (zlen (q_fill q) + zlen frames <= xs_fill_capacity -> stuck = []).
Proof.
  revert a s q others. induction frames as [|f frames IH]; intros a s q others Hrel; cbn [live_recycle].
  { exists [], [], a, s. by rewrite push_fill_nil. }
  rewrite zlen_cons, fmap_cons. pose proof (zlen_nonneg frames).
  destruct (live_refill_one_spec a s q FrameOwner_DataPlane (pf_frame_address f) (tx_claims frames ++ others) Hrel)
    as (ok & a1 & s1 & -> & Hrel1 & Hok). cbn [mbind option_bind].
  destruct (IH a1 s1 (push_fill q (if ok then [pf_frame_address f] else []))
    (if ok then others else (FrameOwner_FillRing, pf_frame_address f) :: others)) as (refilled & stuck & a' & s' & -> & Hsub & Hp & Hrel' & Hcap).
  { eapply lv_rel_perm; [|exact Hrel1]. unfold tx_claims. destruct ok; claims_solver. }
  exists (if ok then pf_frame_address f :: refilled else refilled), (if ok then stuck else pf_frame_address f :: stuck), a', s'. split_and!.
  - done.
  - destruct ok; by constructor.
  - destruct ok; rewrite Hp; perm_solver.
  - rewrite push_fill_push in Hrel'. destruct ok; (eapply lv_rel_perm; [|exact Hrel']); claims_solver.
  - intros Hroom. rewrite (Hok ltac:(lia)) in *. apply Hcap. unfold push_fill. cbn [q_fill]. rewrite zlen_app, zlen_cons, zlen_nil. lia.
Qed.

Lemma push_tx_push q l k kicks kicks' : push_tx (push_tx q l kicks) k kicks' = push_tx q (l ++ k) kicks'.
Proof. unfold push_tx. cbn. by rewrite app_assoc. Qed.

(** A frame that the transmit ring refuses is [TxRing]'s, but in no ring. *)
Lemma live_transmit_spec frames a s q others submitted :
  lv_rel a s q (tx_claims frames ++ others) -> fits 64 submitted ->
  exists sent stuck kicks a' s', live_transmit FrameCount FrameSize a s frames submitted
      = Some (u64 (submitted + zlen sent), a', s') /\
    sent `sublist_of` frames /\ (pf_frame_address <$> frames) ≡ₚ (pf_frame_address <$> sent) ++ stuck /\
    lv_rel a' s' (push_tx q (tx_of <$> sent) kicks) (claims_of FrameOwner_TxRing stuck ++ others) /\
    (zlen (q_tx q) + zlen frames <= xs_tx_capacity -> stuck = []).
Proof.
  revert a s q others submitted. induction frames as [|f frames IH]; intros a s q others submitted Hrel Hc; cbn [live_transmit].
  { exists [], [], (q_kicks q), a, s. rewrite Z.add_0_r, wrap_small by done. split_and!; try done. unfold push_tx. cbn.
    rewrite app_nil_r. by destruct q. }
  rewrite zlen_cons, fmap_cons. pose proof (zlen_nonneg frames).
  destruct (live_transition a s q FrameOwner_DataPlane FrameOwner_TxRing (pf_frame_address f) (tx_claims frames ++ others) Hrel)
    as (i & a1 & Hi & Ha & Hh & _ & Htr & [Ho Hs Hz]); [done|].
  rewrite Hh. change (fal_ok _) with true. cbn [negb fal_frame]. rewrite Htr. cbn [mbind option_bind].
  rewrite bool_decide_true by done. cbn [negb]. fold (tx_of f).
  destruct (xs_submit_tx_law s q [tx_of f] Hs) as (k & status & s1 & Hrun & Hk & Hroom & Hs1); [done|].
  pose proof (us_submit_tx_size _ _ _ _ Hrun) as Hz1. rewrite Hrun. cbn [mbind option_bind rr_count].
  assert (k = 0%nat \/ k = 1%nat) as [-> | ->] by (simpl in Hk; lia).
  - change (Z.of_nat 0 =? 1) with false. cbn iota.
    destruct (IH a1 s1 q ((FrameOwner_TxRing, pf_frame_address f) :: others) submitted)
      as (sent & stuck & kicks & a' & s' & -> & Hsub & Hp & Hrel' & _); [|done|].
    { rewrite take_0, app_nil_r in Hs1. split; [|by destruct q|congruence]. eapply owns_proper; [done| |exact Ho].
      unfold tx_claims. claims_solver. }
    exists sent, (pf_frame_address f :: stuck), kicks, a', s'. split_and!; [done|by constructor|rewrite Hp; perm_solver| |].
    + eapply lv_rel_perm; [|exact Hrel']. claims_solver.
    + intros Hc'. enough (0%nat = length [tx_of f]) by done. apply Hroom. rewrite zlen_cons, zlen_nil. lia.
  - cbn [length take] in *. destruct (xs_kick_tx_law s1 _ Hs1) as (ks & kicks1 & s2 & Hkick & Hs2).
    pose proof (us_kick_tx_size _ _ _ Hkick) as Hz2. change (Z.of_nat 1 =? 1) with true. cbn iota. rewrite Hkick. cbn [mbind option_bind].
    destruct (IH a1 s2 (push_tx q [tx_of f] kicks1) others (u64 (submitted + 1)))
      as (sent & stuck & kicks & a' & s' & -> & Hsub & Hp & Hrel' & Hcap).
    { split; [|done|congruence]. eapply owns_proper; [done| |exact Ho].
      change (pf_frame_address f) with (tx_address (tx_of f)). claims_solver. }
    { by apply wrap_fits. }
    exists (f :: sent), stuck, kicks, a', s'. rewrite zlen_cons, !fmap_cons. split_and!.
    + do 3 f_equal. rewrite wrap_add_l by lia. f_equal. lia.
    + by constructor.
    + by rewrite Hp.
    + by rewrite push_tx_push in Hrel'.
    + intros Hroom'. apply Hcap. unfold push_tx. cbn [q_tx]. rewrite zlen_app, zlen_cons, zlen_nil. lia.
Qed.

(** Packets that do not start at the start of their frame are passed over. *)
Lemma live_collect_spec l a s q others descriptors count :
  lv_rel a s q (rx_claims FrameSize FrameOwner_FillRing l ++ others) ->
  0 <= count -> count + zlen l <= zlen descriptors -> zlen descriptors < 2 ^ 64 ->
  exists ds' a', live_collect FrameCount FrameSize l a descriptors count = Some (count + zlen (well_placed FrameSize l), ds', a') /\
    take (Z.to_nat (count + zlen (well_placed FrameSize l))) ds' = take (Z.to_nat count) descriptors ++ (pd_of <$> well_placed FrameSize l) /\
    zlen ds' = zlen descriptors /\
    lv_rel a' s q (rx_claims FrameSize FrameOwner_DataPlane (well_placed FrameSize l) ++
      rx_claims FrameSize FrameOwner_FillRing (misplaced FrameSize l) ++ others).
Proof.
  revert a others descriptors count. induction l as [|d l IH]; intros a others descriptors count Hrel Hc Hd Hbig; cbn [live_collect].
  { exists descriptors, a. cbn. by rewrite Z.add_0_r, app_nil_r. }
  rewrite zlen_cons in *. pose proof (zlen_nonneg l).
  destruct (decide (placed FrameSize d)) as [Hpl|Hpl].
  2: { rewrite (misplaced_handle FrameCount FrameSize) by done. cbn [negb]. destruct (misplaced_cons FrameSize d l Hpl) as [-> ->].
       destruct (IH a ((FrameOwner_FillRing, rx_chunk FrameSize d) :: others) descriptors count) as (ds' & a' & -> & Hds & Hz' & Hrel'); [|lia..|].
       { eapply lv_rel_perm; [|exact Hrel]. unfold rx_claims. claims_solver. }
       exists ds', a'. split_and!; try done. eapply lv_rel_perm; [|exact Hrel']. unfold rx_claims. claims_solver. }
  destruct (placed_cons FrameSize d l Hpl) as [-> ->].
  change (rx_claims FrameSize FrameOwner_FillRing (d :: l) ++ others)
    with ((FrameOwner_FillRing, rx_chunk FrameSize d) :: rx_claims FrameSize FrameOwner_FillRing l ++ others) in Hrel.
  rewrite (placed_chunk FrameSize) in Hrel by done.
  destruct (live_transition a s q FrameOwner_FillRing FrameOwner_DataPlane (rx_address d) (rx_claims FrameSize FrameOwner_FillRing l ++ others) Hrel)
    as (i & a1 & Hi & Ha & Hh & Howner & Htr & Hrel1); [done|].
  rewrite Hh. change (fal_ok _) with true. cbn [negb fal_frame]. change (fh_index _) with i. rewrite Howner. cbn [mbind option_bind].
  rewrite Htr. cbn [mbind option_bind]. rewrite bool_decide_true by done. cbn [negb]. fold (pd_of d).
  rewrite aset_in_range by lia. cbn [mbind option_bind]. rewrite wrap_small by (unfold fits; lia).
  assert (zlen (<[Z.to_nat count := pd_of d]> descriptors) = zlen descriptors) as Hz by (unfold zlen; by rewrite length_insert).
  destruct (IH a1 ((FrameOwner_DataPlane, rx_address d) :: others) (<[Z.to_nat count := pd_of d]> descriptors) (count + 1))
    as (ds' & a' & -> & Hds & Hz' & Hrel'); [|lia..|].
  { eapply lv_rel_perm; [|exact Hrel1]. unfold rx_claims. claims_solver. }
  exists ds', a'. rewrite zlen_cons.
  replace (count + (1 + zlen (well_placed FrameSize l))) with (count + 1 + zlen (well_placed FrameSize l)) by lia. split_and!; [done| |lia|].
  - rewrite Hds. replace (Z.to_nat (count + 1)) with (S (Z.to_nat count)) by lia.
    rewrite (take_S_r _ _ (pd_of d)) by (apply list_lookup_insert_eq; unfold zlen in *; lia).
    by rewrite take_insert_ge, <-app_assoc by lia.
  - eapply lv_rel_perm; [|exact Hrel']. unfold rx_claims. rewrite fmap_cons, (placed_chunk FrameSize d) by done. claims_solver.
Qed.

(** ** A round *)

Record live_ok (st : LiveState SocketT W) (q : Queues) (others : list (FrameOwner * Z)) : Prop := {
  lvo_rel : lv_rel (lv_allocator st) (lv_socket st) q others;
  lvo_wheel : dq_holds (lv_timing_wheel st) [];
  lvo_umem : zlen (lv_umem st) = FrameCount * FrameSize;
  lvo_bytes : mem_ok (lv_umem st);
  lvo_arrays : zlen (lv_rx st) = 64 /\ zlen (lv_descriptors st) = 64 /\ zlen (lv_tx st) = 64 /\ zlen (lv_recycle st) = 64 /\
    zlen (lv_completions st) = 64;
  lvo_counters : fits 64 (lv_tx_submitted st) /\ fits 64 (lv_completed st);
  lvo_lengths : Forall (fun d => fits 32 (rx_length d)) (q_rx q);
}.

(** What a round does: of the completed frames, [returned] go back to the fill ring; the
    packets that start at the start of their frame are [forwarded] or [recycled], and of
    these [sent] go to the transmit ring and [refilled] to the fill ring; the rest, refused by
    a full ring, is [refused]; and the counters follow. *)
Record live_effect (st st' : LiveState SocketT W) (q q' : Queues) (returned : list Z) (forwarded sent recycled : list ProcessedFrame)
    (refilled : list Z) (refused : list (FrameOwner * Z)) : Prop := {
  lve_completion : q_completion q' = drop 64 (q_completion q);
  lve_rx : q_rx q' = drop 64 (q_rx q);
  lve_fill : q_fill q' = q_fill q ++ returned ++ refilled;
  lve_tx : q_tx q' = q_tx q ++ (tx_of <$> sent);
  lve_returned : returned `sublist_of` take 64 (q_completion q);
  lve_sent : sent `sublist_of` forwarded;
  lve_refilled : refilled `sublist_of` (pf_frame_address <$> recycled);
  lve_all : zlen forwarded + zlen recycled = zlen (well_placed FrameSize (take 64 (q_rx q)));
  lve_refused : zlen returned + zlen sent + zlen refilled + zlen refused
    = zlen (take 64 (q_completion q)) + zlen forwarded + zlen recycled;
  lve_completed : lv_completed st' = u64 (lv_completed st + zlen (take 64 (q_completion q)));
  lve_submitted : lv_tx_submitted st' = u64 (lv_tx_submitted st + zlen sent);
}.

(** [drain_completions] and the loop after it. *)
Lemma live_drain_spec st q others :
  live_ok st q others ->
  exists returned stuck result completions addresses s1 a2 s2,
    xs_drain_completions (lv_socket st) (lv_completions st) = Some (result, completions, s1) /\
    zlen completions = 64 /\ first_of completions (rr_count result) = Some addresses /\
    live_complete FrameCount FrameSize (lv_allocator st) s1 addresses (lv_completed st)
      = Some (u64 (lv_completed st + zlen (take 64 (q_completion q))), a2, s2) /\
    returned `sublist_of` take 64 (q_completion q) /\ take 64 (q_completion q) ≡ₚ returned ++ stuck /\
    lv_rel a2 s2 (push_fill (mkQueues (q_fill q) (drop 64 (q_completion q)) (q_rx q) (q_tx q) (q_kicks q)) returned)
      (claims_of FrameOwner_FillRing stuck ++ others) /\
    (zlen (queue_claims FrameSize q []) <= xs_fill_capacity -> stuck = []).
Proof.
  intros [[Ho Hs Hz] _ _ _ (_ & _ & _ & _ & Hc) [_ Hcount] _].
  assert (length (lv_completions st) = 64%nat) as Hlen by (unfold zlen in Hc; lia).
  destruct (xs_drain_completions_law _ _ (lv_completions st) Hs) as (status & s1 & Hrun & Hs1); [rewrite Hc; lia|].
  rewrite Hlen in *. rewrite take_min in Hrun. rewrite drop_min in Hs1.
  set (completed := take 64 (q_completion q)) in *.
  assert (length completed = Nat.min 64 (length (q_completion q))) as Hk by apply length_take. rewrite <-Hk in Hrun.
  pose proof (us_drain_completions_size _ _ _ _ _ Hrun) as Hz1.
  assert (zlen (completed ++ drop (length completed) (lv_completions st)) = 64) as Hc1
    by (unfold zlen; rewrite length_app, length_drop, Hlen; lia).
  destruct (live_complete_spec completed (lv_allocator st) s1
    (mkQueues (q_fill q) (drop 64 (q_completion q)) (q_rx q) (q_tx q) (q_kicks q)) others (lv_completed st))
    as (returned & stuck & a2 & s2 & Hcomp & Hsub & Hp & Hrel2 & Hcap); [split; [|done|congruence]|done|].
  { eapply owns_proper; [done| |exact Ho]. pose proof (take_drop 64 (q_completion q)) as Htd. fold completed in Htd.
    unfold queue_claims. cbn [q_fill q_completion q_rx q_tx]. set (rest := drop 64 (q_completion q)) in *. rewrite <-Htd. claims_solver. }
  eexists returned, stuck, _, _, completed, s1, a2, s2. split_and!; [done|done| |done|done|done|done|].
  - unfold first_of. cbn [rr_count]. destruct (Z.leb_spec (Z.of_nat (length completed)) (zlen (completed ++ drop (length completed) (lv_completions st)))); [|unfold zlen in *; lia].
    by rewrite Nat2Z.id, take_app_length.
  - rewrite queue_claims_length. pose proof (zlen_nonneg (q_rx q)). pose proof (zlen_nonneg (q_tx q)).
    change (zlen (@nil (Z * Z * Z))) with 0. intros Hroom. apply Hcap. cbn [q_fill]. unfold zlen in *. lia.
Qed.

(** [consume_rx] and the loop that collects the packets. *)
Lemma live_receive_spec (st : LiveState SocketT W) a s q others :
  lv_rel a s q others -> zlen (lv_rx st) = 64 -> zlen (lv_descriptors st) = 64 ->
  let l := take 64 (q_rx q) in
  let good := well_placed FrameSize l in
  let bad := rx_claims FrameSize FrameOwner_FillRing (misplaced FrameSize l) in
  let q1 := mkQueues (q_fill q) (q_completion q) (drop 64 (q_rx q)) (q_tx q) (q_kicks q) in
  exists result rx s1 descriptors a1,
    xs_consume_rx s (lv_rx st) = Some (result, rx, s1) /\ rr_count result = zlen l /\ zlen rx = 64 /\
    first_of rx (zlen l) = Some l /\
    live_collect FrameCount FrameSize l a (lv_descriptors st) 0 = Some (zlen good, descriptors, a1) /\
    zlen descriptors = 64 /\ first_of descriptors (zlen good) = Some (pd_of <$> good) /\
    lv_rel a1 s1 q1 (rx_claims FrameSize FrameOwner_DataPlane good ++ bad ++ others) /\ (l = [] -> lv_rel a s1 q1 others).
Proof.
  intros [Ho Hs Hz] Hrx Hd l good bad q1. assert (length (lv_rx st) = 64%nat) as Hlen by (unfold zlen in Hrx; lia).
  destruct (xs_consume_rx_law _ _ (lv_rx st) Hs) as (status & s1 & Hrun & Hs1); [rewrite Hrx; lia|].
  rewrite Hlen in *. rewrite take_min in Hrun. rewrite drop_min in Hs1. fold l in Hrun. fold q1 in Hs1.
  assert (length l = Nat.min 64 (length (q_rx q))) as Hk by apply length_take. rewrite <-Hk in Hrun.
  pose proof (us_consume_rx_size _ _ _ _ _ Hrun) as Hz1. rewrite Hz in Hz1.
  assert (owns FrameCount FrameSize a (queue_claims FrameSize q1 [] ++ rx_claims FrameSize FrameOwner_FillRing l ++ others)) as Ho1.
  { eapply owns_proper; [done| |exact Ho]. subst q1. pose proof (take_drop 64 (q_rx q)) as Htd. fold l in Htd.
    unfold queue_claims, rx_claims. cbn [q_fill q_completion q_rx q_tx]. set (rest := drop 64 (q_rx q)) in *. rewrite <-Htd. claims_solver. }
  pose proof (placed_split FrameSize l) as Hsplit. fold good in Hsplit. pose proof (zlen_nonneg (misplaced FrameSize l)).
  destruct (live_collect_spec l a s1 q1 others (lv_descriptors st) 0) as (ds & a1 & Hcol & Hds & Hzd & Hrel1); [by split|lia|unfold zlen in *; lia|lia|].
  fold good in Hcol, Hds, Hrel1. rewrite Z.add_0_l in *. cbn [Z.to_nat take app] in Hds.
  assert (zlen (l ++ drop (length l) (lv_rx st)) = 64) as Hz2 by (unfold zlen; rewrite length_app, length_drop, Hlen; lia).
  eexists _, _, s1, ds, a1. split_and!; [exact Hrun|done|done| |done|lia| |done|].
  - unfold first_of. destruct (Z.leb_spec (zlen l) (zlen (l ++ drop (length l) (lv_rx st)))); [|unfold zlen in *; lia].
    unfold zlen. by rewrite Nat2Z.id, take_app_length.
  - unfold first_of. destruct (Z.leb_spec (zlen good) (zlen ds)); [by rewrite Hds|unfold zlen in *; lia].
  - intros El. split; [|done|done]. by rewrite El in Ho1.
Qed.

(** The batch and what becomes of its frames. *)
Lemma live_forward_spec (st : LiveState SocketT W) a s q others l submitted :
  lv_rel a s q (rx_claims FrameSize FrameOwner_DataPlane l ++ others) -> dq_holds (lv_timing_wheel st) [] ->
  zlen (lv_umem st) = FrameCount * FrameSize -> mem_ok (lv_umem st) -> zlen (lv_tx st) = 64 -> zlen (lv_recycle st) = 64 ->
  Forall (placed FrameSize) l -> Forall (fun d => fits 32 (rx_length d)) l -> zlen l <= 64 -> fits 64 submitted ->
  exists batch forwarded sent recycled refilled stuck kicks a1 s1 a2 s2,
    process_packet_batch (lv_umem st) (Some 0) (us_umem_size_bytes s) (pd_of <$> l) [] (lv_timing_wheel st)
      (lv_tx st) (lv_recycle st) kDefaultTimingWheelTickNs = Some batch /\
    first_of (ba_recycle_output batch) (br_recycle_count (ba_result batch)) = Some recycled /\
    live_recycle FrameCount FrameSize a s recycled = Some (a1, s1) /\
    first_of (ba_tx_output batch) (br_tx_count (ba_result batch)) = Some forwarded /\
    live_transmit FrameCount FrameSize a1 s1 forwarded submitted = Some (u64 (submitted + zlen sent), a2, s2) /\
    zlen forwarded + zlen recycled = zlen l /\ sent `sublist_of` forwarded /\ refilled `sublist_of` (pf_frame_address <$> recycled) /\
    zlen sent + zlen refilled + zlen stuck = zlen l /\
    lv_rel a2 s2 (push_tx (push_fill q refilled) (tx_of <$> sent) kicks) (stuck ++ others) /\
    (zlen (q_fill q) + zlen l <= xs_fill_capacity -> zlen (q_tx q) + zlen l <= xs_tx_capacity -> stuck = []) /\
    dq_holds (ba_wheel batch) [] /\ zlen (ba_mem batch) = FrameCount * FrameSize /\ mem_ok (ba_mem batch) /\
    zlen (ba_tx_output batch) = 64 /\ zlen (ba_recycle_output batch) = 64.
Proof.
  intros [Ho Hs Hz] Hw Hu Hm Htx Hrec Hpl Hl Hlen Hsub.
  set (rt := mkAfXdpRuntimeAdapter (lv_umem st) a s (lv_timing_wheel st) true).
  destruct (batch_rel FrameCount FrameSize FrameCount_bounds FrameSize_pos umem_fits (lv_umem st) rt q [] others [] l (lv_tx st) (lv_recycle st))
    as (batch & forwarded & recycled & delayed & Hrun & Hz1 & Hz2 & Hs1 & Hr1 & Hdel & Hsum & Hu' & Hm' & [Ho' _ Hw' _]); try done.
  subst rt. cbn [ra_umem_ ra_timing_wheel_ ra_allocator_ ra_set_wheel ra_set_umem] in *.
  pose proof (batch_nothing_delayed _ _ _ _ _ _ _ _ _ Hrun) as H0. rewrite Hdel in H0. rewrite Hu, <-Hz in Hrun.
  assert (delayed = []) as -> by (destruct delayed; [done|rewrite zlen_cons in H0; pose proof (zlen_nonneg delayed); lia]).
  cbn [fmap list_fmap app] in Ho', Hw'. change (reverse []) with (@nil (Z * Z * Z)) in Ho', Hw'.
  rewrite zlen_nil in Hsum. pose proof (zlen_nonneg forwarded). pose proof (zlen_nonneg recycled).
  destruct (live_recycle_spec recycled a s q (tx_claims forwarded ++ others)) as (refilled & stuck1 & a1 & s1 & Hrc & Hsub1 & Hp1 & Hrel1 & Hcap1).
  { split; [|done|done]. eapply owns_proper; [done| |exact Ho']. unfold tx_claims. claims_solver. }
  destruct (live_transmit_spec forwarded a1 s1 (push_fill q refilled) (claims_of FrameOwner_FillRing stuck1 ++ others) submitted)
    as (sent & stuck2 & kicks & a2 & s2 & Hst & Hsub2 & Hp2 & Hrel2 & Hcap2);
    [eapply lv_rel_perm; [|exact Hrel1]; unfold tx_claims; claims_solver|done|].
  apply perm_app_zlen in Hp1, Hp2. rewrite !fmap_zlen in *.
  exists batch, forwarded, sent, recycled, refilled, (claims_of FrameOwner_TxRing stuck2 ++ claims_of FrameOwner_FillRing stuck1), kicks, a1, s1, a2, s2.
  split_and!; try done.
  - unfold first_of. destruct Hr1 as [? ->]. zcase; [done|lia].
  - unfold first_of. destruct Hs1 as [? ->]. zcase; [done|lia].
  - lia.
  - unfold claims_of. rewrite zlen_app, !fmap_zlen. lia.
  - by rewrite <-app_assoc.
  - intros Hc1 Hc2. rewrite Hcap1, Hcap2 by (cbn [q_tx push_fill]; lia). done.
Qed.

(** Frames that the rings have room for are not refused. *)
Lemma live_room (q : Queues) returned :
  returned `sublist_of` take 64 (q_completion q) -> zlen (queue_claims FrameSize q []) <= Z.min xs_fill_capacity xs_tx_capacity ->
  let l := well_placed FrameSize (take 64 (q_rx q)) in
  zlen (q_fill q ++ returned) + zlen l <= xs_fill_capacity /\ zlen (q_tx q) + zlen l <= xs_tx_capacity.
Proof.
  intros Hsub%sublist_length Hcap l. pose proof (placed_split FrameSize (take 64 (q_rx q))) as Hsplit. fold l in Hsplit.
  pose proof (zlen_nonneg (misplaced FrameSize (take 64 (q_rx q)))).
  rewrite queue_claims_length in Hcap. change (zlen (@nil (Z * Z * Z))) with 0 in Hcap. rewrite length_take in Hsub.
  assert (zlen (take 64 (q_rx q)) <= zlen (q_rx q)) by (unfold zlen; rewrite length_take; lia).
  pose proof (zlen_nonneg (q_fill q)). pose proof (zlen_nonneg (q_tx q)). pose proof (zlen_nonneg (q_completion q)).
  rewrite zlen_app. unfold zlen in *. lia.
Qed.

Lemma live_round_spec (st : LiveState SocketT W) q others :
  live_ok st q others ->
  exists st' q' returned forwarded sent recycled refilled refused, live_round FrameCount FrameSize st = Some st' /\
    live_ok st' q' (refused ++ rx_claims FrameSize FrameOwner_FillRing (misplaced FrameSize (take 64 (q_rx q))) ++ others) /\
    live_effect st st' q q' returned forwarded sent recycled refilled refused /\
    (zlen (queue_claims FrameSize q []) <= Z.min xs_fill_capacity xs_tx_capacity -> refused = []).
Proof.
  intros Hok. destruct (live_drain_spec st q others Hok)
    as (returned & stuck1 & result & completions & addresses & s1 & a2 & s2 & Hd & Hzc & Hf & Hc & Hsub1 & Hp1 & Hrel & Hcap1).
  destruct Hok as [_ Hw Hu Hm (Hrx & Hds & Htx & Hrec & Hcs) [Hsub Hcomp] Hlen].
  unfold live_round. rewrite Hd. cbn [mbind option_bind]. rewrite Hf. cbn [mbind option_bind]. rewrite Hc. cbn [mbind option_bind].
  set (q1 := push_fill _ _) in Hrel. apply perm_app_zlen in Hp1.
  destruct (live_receive_spec st a2 s2 q1 _ Hrel Hrx Hds)
    as (rresult & rx & s3 & ds & a3 & -> & Hcount & Hzr & Hfr & Hcol & Hzd & Hfd & Hrel3 & Hempty).
  change (q_rx q1) with (q_rx q) in *. set (l := take 64 (q_rx q)) in *. cbn [mbind option_bind]. rewrite Hcount.
  set (q2 := mkQueues (q_fill q1) (q_completion q1) (drop 64 (q_rx q)) (q_tx q1) (q_kicks q1)) in *.
  destruct (Z.eqb_spec (zlen l) 0) as [Hl0|Hl0].
  { assert (l = []) as El by (destruct l; [done|rewrite zlen_cons in Hl0; pose proof (zlen_nonneg l); lia]).
    eexists _, q2, returned, [], [], [], [], (claims_of FrameOwner_FillRing stuck1). split; [done|]. rewrite El.
    split_and!; [split; cbn; try done|split; cbn; try done|].
    - by apply Hempty.
    - by split; [|apply wrap_fits].
    - by apply Forall_drop.
    - by rewrite app_nil_r.
    - by rewrite app_nil_r.
    - fold l. by rewrite El.
    - unfold claims_of. rewrite fmap_zlen. change (zlen (@nil ProcessedFrame)) with 0. change (zlen (@nil Z)) with 0. lia.
    - by rewrite Z.add_0_r, wrap_small.
    - intros Hcap. by rewrite Hcap1 by lia. }
  rewrite Hfr. cbn [mbind option_bind]. rewrite Hcol. cbn [mbind option_bind]. rewrite Hfd. cbn [mbind option_bind].
  set (good := well_placed FrameSize l) in *. set (bad := rx_claims FrameSize FrameOwner_FillRing (misplaced FrameSize l)) in *.
  pose proof (placed_split FrameSize l) as Hsplit. fold good in Hsplit. pose proof (zlen_nonneg (misplaced FrameSize l)).
  assert (zlen l <= 64) as Hl1 by (subst l; unfold zlen; rewrite length_take; lia).
  destruct (live_forward_spec st a3 s3 _ _ good (lv_tx_submitted st) Hrel3 Hw Hu Hm Htx Hrec)
    as (batch & forwarded & sent & recycled & refilled & stuck2 & kicks & a4 & s4 & a5 & s5 & -> & Hfr' & Hrc & Hfs & Htr & Hsum &
        Hsub2 & Hsub3 & Hstuck & Hrel5 & Hcap2 & Hw' & Hu' & Hm' & Hz1 & Hz2);
    [apply well_placed_all|by apply well_placed_Forall, Forall_take|lia|done|].
  cbn [mbind option_bind]. rewrite Hfr'. cbn [mbind option_bind]. rewrite Hrc. cbn [mbind option_bind]. rewrite Hfs.
  cbn [mbind option_bind]. rewrite Htr. cbn [mbind option_bind].
  eexists _, (push_tx (push_fill q2 refilled) (tx_of <$> sent) kicks), returned, forwarded, sent, recycled, refilled,
    (stuck2 ++ claims_of FrameOwner_FillRing stuck1).
  split; [done|]. split_and!; [split|split|]; cbn [lv_allocator lv_socket lv_timing_wheel lv_umem lv_rx lv_descriptors
    lv_tx lv_recycle lv_completions lv_tx_submitted lv_completed q_rx q_fill q_tx q_completion push_tx push_fill]; try done.
  - eapply lv_rel_perm; [|exact Hrel5]. perm_solver.
  - by split; apply wrap_fits.
  - by apply Forall_drop.
  - by rewrite app_assoc.
  - unfold claims_of. rewrite zlen_app, fmap_zlen. lia.
  - intros Hcap. rewrite Hcap1 by lia. destruct (live_room q returned Hsub1 Hcap) as [H1 H2]. fold l good in H1, H2. by rewrite Hcap2.
Qed.

(** Frames leave the rings only by being refused. *)
Lemma live_effect_count st st' q q' returned forwarded sent recycled refilled refused :
  live_effect st st' q q' returned forwarded sent recycled refilled refused ->
  zlen (queue_claims FrameSize q' []) + zlen refused + zlen (misplaced FrameSize (take 64 (q_rx q))) = zlen (queue_claims FrameSize q []).
Proof.
  intros [Hc Hx Hf Ht _ _ _ Hall Href _ _]. rewrite !queue_claims_length, Hc, Hx, Hf, Ht, !zlen_app, !fmap_zlen.
  pose proof (placed_split FrameSize (take 64 (q_rx q))).
  pose proof (take_drop 64 (q_completion q)) as E1. pose proof (take_drop 64 (q_rx q)) as E2.
  apply (f_equal zlen) in E1, E2. rewrite zlen_app in E1. rewrite zlen_app in E2. lia.
Qed.

(** ** The initial fill *)

Lemma live_allocate_spec n a claims frames allocated :
  owns FrameCount FrameSize a claims -> zlen claims + Z.of_nat n <= FrameCount ->
  0 <= allocated -> allocated + Z.of_nat n <= zlen frames ->
  exists l frames' a', live_allocate_loop FrameSize n a frames allocated = Some (allocated + Z.of_nat n, frames', a') /\
    length l = n /\ zlen frames' = zlen frames /\
    take (Z.to_nat (allocated + Z.of_nat n)) (fh_address <$> frames') = take (Z.to_nat allocated) (fh_address <$> frames) ++ l /\
    owns FrameCount FrameSize a' (claims_of FrameOwner_FillRing l ++ claims).
Proof.
  revert a claims frames allocated. induction n as [|n IH]; intros a claims frames allocated Ho Hroom Ha Hn; cbn [live_allocate_loop].
  { exists [], frames, a. rewrite Z.add_0_r, app_nil_r. done. }
  destruct (owns_allocate FrameCount FrameSize FrameCount_bounds FrameSize_pos umem_fits a FrameOwner_FillRing claims Ho)
    as (i & a1 & -> & Hi & Ho1); [done|lia|].
  cbn [mbind option_bind]. change (fal_ok _) with true. cbn [negb fal_frame]. rewrite aset_in_range by lia. cbn [mbind option_bind].
  set (frames1 := <[_ := _]> frames). assert (zlen frames1 = zlen frames) as Hz by (unfold frames1, zlen; by rewrite length_insert).
  destruct (IH a1 ((FrameOwner_FillRing, i * FrameSize) :: claims) frames1 (allocated + 1)) as (l & frames' & a' & -> & Hl & Hz' & Ht & Ho');
    [done|rewrite zlen_cons; lia|lia|lia|].
  exists (i * FrameSize :: l), frames', a'. replace (allocated + Z.of_nat (S n)) with (allocated + 1 + Z.of_nat n) by lia.
  split_and!; [done|cbn; lia|lia| |].
  - rewrite Ht. replace (Z.to_nat (allocated + 1)) with (S (Z.to_nat allocated)) by lia. unfold frames1.
    rewrite list_fmap_insert, (fh_address_make FrameCount) by done.
    rewrite (take_S_r _ _ (i * FrameSize)) by (apply list_lookup_insert_eq; rewrite length_fmap; unfold zlen in *; lia).
    by rewrite take_insert_ge, <-app_assoc by lia.
  - eapply owns_proper; [done| |exact Ho']. claims_solver.
Qed.

Lemma live_addresses_spec n index frames (addresses : list Z) :
  0 <= index -> index + Z.of_nat n <= zlen frames -> index + Z.of_nat n <= zlen addresses ->
  take (Z.to_nat index) addresses = take (Z.to_nat index) (fh_address <$> frames) ->
  exists addresses', live_addresses_loop n index frames addresses = Some addresses' /\ zlen addresses' = zlen addresses /\
    take (Z.to_nat (index + Z.of_nat n)) addresses' = take (Z.to_nat (index + Z.of_nat n)) (fh_address <$> frames).
Proof.
  revert index addresses. induction n as [|n IH]; intros index addresses Hi Hf Ha Ht; cbn [live_addresses_loop].
  { exists addresses. rewrite Z.add_0_r. done. }
  destruct (aget_in_range frames index) as [frame Hg]; [lia|]. rewrite Hg. cbn [mbind option_bind].
  rewrite aset_in_range by lia. cbn [mbind option_bind]. apply aget_Some in Hg as [_ Hg].
  destruct (IH (index + 1) (<[Z.to_nat index := fh_address frame]> addresses)) as (addresses' & -> & Hz & Ht');
    [lia|lia|unfold zlen in *; rewrite length_insert; lia| |].
  - replace (Z.to_nat (index + 1)) with (S (Z.to_nat index)) by lia.
    rewrite (take_S_r _ _ (fh_address frame)) by (apply list_lookup_insert_eq; unfold zlen in *; lia).
    rewrite (take_S_r (fh_address <$> frames) _ (fh_address frame)) by (by rewrite list_lookup_fmap, Hg).
    by rewrite take_insert_ge, Ht by lia.
  - exists addresses'. replace (index + Z.of_nat (S n)) with (index + 1 + Z.of_nat n) by lia. split_and!; [done| |done].
    rewrite Hz. unfold zlen. by rewrite length_insert.
Qed.

(** The frames of one iteration. *)
Lemma live_batch_spec (n : nat) a claims frames :
  owns FrameCount FrameSize a claims -> zlen claims + Z.of_nat n <= FrameCount -> zlen frames = 64 -> (n <= 64)%nat ->
  exists l frames' a' addresses, live_allocate_loop FrameSize n a frames 0 = Some (Z.of_nat n, frames', a') /\ zlen frames' = 64 /\
    live_addresses_loop n 0 frames' (replicate 64 0) = Some addresses /\ first_of addresses (Z.of_nat n) = Some l /\ length l = n /\
    owns FrameCount FrameSize a' (claims_of FrameOwner_FillRing l ++ claims).
Proof.
  intros Ho Hroom Hz Hn. destruct (live_allocate_spec n a claims frames 0 Ho) as (l & frames' & a' & Hrun & Hl & Hz' & Ht & Ho'); [lia..|].
  destruct (live_addresses_spec n 0 frames' (replicate 64 0)) as (addresses & Hrun' & Hza & Ht'); [lia|lia|rewrite zlen_replicate; lia|done|].
  rewrite zlen_replicate in Hza. rewrite Z.add_0_l, Nat2Z.id in *.
  exists l, frames', a', addresses. split_and!; try done; [lia|].
  unfold first_of. destruct (Z.leb_spec (Z.of_nat n) (zlen addresses)); [|lia]. f_equal. by rewrite Nat2Z.id, Ht', Ht.
Qed.

(** ** Live mode and the kernel *)

Context `{!RingKernel FrameSize}.
Abbreviation Shared := (SocketT * Memory * list Z * list Z)%type.

(** What a turn of the kernel does: moves on the rings, and writes to the UMEM. *)
Definition kernel_turn (x y : Shared) : Prop :=
  let '(s, umem, krx, ktx) := x in let '(s', umem', krx', ktx') := y in
  us_umem_size_bytes s' = us_umem_size_bytes s /\ zlen umem' = zlen umem /\ (mem_ok umem -> mem_ok umem') /\
  forall q, xs_repr s q -> exists q', xs_repr s' q' /\ rtc kernel_move (q, krx, ktx) (q', krx', ktx').

Definition turn_ok (turn : Shared -> Shared) : Prop := forall x, kernel_turn x (turn x).

(** A kernel that does nothing. *)
Definition idle (turn : Shared -> Shared) : Prop := forall x, turn x = x.

Lemma kernel_moves_claims a (x y : KernelState) others :
  rtc kernel_move x y ->
  owns FrameCount FrameSize a (queue_claims FrameSize x.1.1 [] ++ kernel_claims x.1.2 x.2 ++ others) ->
  queue_claims FrameSize x.1.1 [] ++ kernel_claims x.1.2 x.2 ≡ₚ queue_claims FrameSize y.1.1 [] ++ kernel_claims y.1.2 y.2 /\
  (Forall (fun d => fits 32 (rx_length d)) (q_rx x.1.1) -> Forall (fun d => fits 32 (rx_length d)) (q_rx y.1.1)) /\
  (no_headroom FrameSize -> Forall (placed FrameSize) (q_rx x.1.1) -> Forall (placed FrameSize) (q_rx y.1.1)).
Proof.
  induction 1 as [x|[[q krx] ktx] [[q1 krx1] ktx1] y Hmove _ IH]; [done|]. cbn [fst snd] in *. intros Ho.
  destruct (kernel_move_claims FrameCount FrameSize FrameSize_pos a _ _ _ _ _ _ [] others Hmove Ho) as (Hp & Hl & Hpl).
  destruct IH as (Hp' & Hl' & Hpl').
  { rewrite !app_assoc in *. by rewrite <-Hp. }
  split_and!; [by rewrite Hp|by auto|by auto].
Qed.

(** What the program and the kernel share, with the frames in it. *)
Record shared_ok (a : FrameAllocator) (x : Shared) (q : Queues) (others : list (FrameOwner * Z)) : Prop := {
  sh_rel : lv_rel a x.1.1.1 q (kernel_claims x.1.2 x.2 ++ others);
  sh_umem : zlen x.1.1.2 = FrameCount * FrameSize;
  sh_bytes : mem_ok x.1.1.2;
  sh_lengths : Forall (fun d => fits 32 (rx_length d)) (q_rx q);
  sh_placed : no_headroom FrameSize -> Forall (placed FrameSize) (q_rx q);
}.

(** The frames in circulation. *)
Definition circulating (q : Queues) (krx ktx : list Z) : Z := zlen (queue_claims FrameSize q []) + zlen (kernel_claims krx ktx).

Lemma kernel_turn_ok a x y q others :
  shared_ok a x q others -> kernel_turn x y ->
  exists q', shared_ok a y q' others /\ circulating q' y.1.2 y.2 = circulating q x.1.2 x.2.
Proof.
  destruct x as [[[s u] krx] ktx], y as [[[s' u'] krx'] ktx']. intros [[Ho Hs Hz] Hu Hb Hl Hpl] (Hz' & Hu' & Hb' & Hmoves).
  cbn [fst snd] in *. destruct (Hmoves q Hs) as (q' & Hs' & Hrtc).
  destruct (kernel_moves_claims a _ _ others Hrtc Ho) as (Hp & Hl' & Hpl'). cbn [fst snd] in *.
  exists q'. split.
  - split; cbn [fst snd]; try (done || lia || auto). split; [|done|congruence].
    rewrite !app_assoc in *. by rewrite <-Hp.
  - unfold circulating. apply Permutation_length in Hp. rewrite !length_app in Hp. unfold zlen. lia.
Qed.

(** The initial fill ends: all frames are on the ring, or the ring has refused a batch. *)
Lemma live_fill_spec turns filled frames a x q :
  Forall turn_ok turns -> FrameCount - filled <= 64 * (Z.of_nat (length turns) - 1) -> 0 <= filled <= FrameCount ->
  zlen frames = 64 -> shared_ok a x q [] -> circulating q x.1.2 x.2 = filled ->
  exists filled' stranded a' y q', live_fill_loop FrameCount FrameSize turns filled frames a x = Some (filled', a', y) /\
    shared_ok a' y q' (claims_of FrameOwner_FillRing stranded) /\ circulating q' y.1.2 y.2 = filled' /\
    (filled' = FrameCount /\ stranded = [] \/ filled' < FrameCount /\ zlen stranded = Z.min 64 (FrameCount - filled')) /\
    (Forall idle turns -> zlen (q_fill q) = filled -> (64 | filled) -> (64 | xs_fill_capacity) ->
     filled <= xs_fill_capacity -> xs_fill_capacity + 64 <= FrameCount -> filled' = xs_fill_capacity).
Proof.
  revert filled frames a x q. induction turns as [|turn turns IH]; intros filled frames a x q Hturns Hmany Hfilled Hz Hsh Hcirc.
  { change (Z.of_nat (length [])) with 0 in Hmany. lia. }
  apply Forall_cons in Hturns as [Hturn Hturns]. change (Z.of_nat (length (turn :: turns))) with (Z.of_nat (S (length turns))) in Hmany.
  cbn [live_fill_loop]. destruct (Z.leb_spec FrameCount filled) as [Hdone|Hless].
  { exists filled, [], a, x, q. split_and!; try done; [left; split; [lia|done]|lia]. }
  rewrite Hz. assert ((if FrameCount - filled <? 64 then FrameCount - filled else 64) = Z.min 64 (FrameCount - filled)) as -> by (zcase; lia).
  set (n := Z.to_nat (Z.min 64 (FrameCount - filled))). assert (Z.of_nat n = Z.min 64 (FrameCount - filled)) as Hn by lia.
  destruct x as [[[s u] krx] ktx]. destruct Hsh as [[Ho Hs Hsz] Hu Hb Hl Hpl]. cbn [fst snd] in *.
  destruct (live_batch_spec n a _ frames Ho) as (l & frames' & a' & addresses & -> & Hz' & Hadd & Hfst & Hll & Ho');
    [unfold circulating in Hcirc; rewrite app_nil_r, zlen_app; lia|done|lia|].
  cbn [mbind option_bind]. rewrite Nat2Z.id. change (Z.to_nat kDataPlaneBatchSize) with 64%nat. rewrite Hadd. cbn [mbind option_bind]. rewrite Hfst. cbn [mbind option_bind].
  assert (zlen l = Z.min 64 (FrameCount - filled)) as Hzl by (unfold zlen; lia).
  destruct (decide (zlen (q_fill q) + zlen l <= xs_fill_capacity)) as [Hroom|Hfull].
  - destruct (xs_refill_law s _ l Hs) as (k & status & s' & Hrun & _ & Hk & Hs'); [lia|].
    rewrite Hk in * by done. rewrite take_ge in Hs' by lia. pose proof (us_refill_size _ _ _ _ Hrun) as Hsz'.
    rewrite Hrun. cbn [mbind option_bind rr_count]. change (Z.of_nat (length l)) with (zlen l).
    destruct (Z.eqb_spec (zlen l) 0); [lia|]. rewrite wrap_small by (unfold fits; lia).
    assert (shared_ok a' (s', u, krx, ktx) (push_fill q l) []) as Hsh.
    { split; cbn [fst snd]; try done. split; [|done|congruence]. eapply owns_proper; [done| |exact Ho']. unfold kernel_claims. claims_solver. }
    destruct (kernel_turn_ok a' _ (turn (s', u, krx, ktx)) _ _ Hsh (Hturn _)) as (q1 & Hsh1 & Hcirc1).
    assert (circulating (push_fill q l) krx ktx = filled + zlen l) as Hc2.
    { unfold circulating in *. rewrite !queue_claims_length in *. unfold push_fill. cbn [q_fill q_rx q_tx q_completion]. rewrite zlen_app. lia. }
    destruct (IH (filled + zlen l) frames' a' (turn (s', u, krx, ktx)) q1) as (filled' & stranded & a2 & y & q' & -> & Hsh2 & Hc' & Hend & Hidle);
      [done|lia|lia|done|done|cbn [fst snd] in Hcirc1; lia|].
    exists filled', stranded, a2, y, q'. split_and!; try done. intros [Hid Hids]%Forall_cons Hq Hd1 Hd2 Hle Hbig.
    apply Hidle; try done.
    + pose proof (sh_rel _ _ _ _ Hsh1) as [_ Hs1 _]. rewrite Hid in Hs1. cbn [fst] in Hs1.
      rewrite (xs_repr_inj _ _ _ Hs1 Hs'). cbn [q_fill]. rewrite zlen_app. lia.
    + rewrite Hzl, Z.min_l by lia. apply Z.divide_add_r; [done|]. by exists 1.
    + lia.
  - destruct (us_refill_full s _ l Hs) as (status & s' & Hrun & Hs'); [lia|lia|].
    pose proof (us_refill_size _ _ _ _ Hrun) as Hsz'. rewrite Hrun. cbn [mbind option_bind rr_count]. change (0 =? 0) with true. cbn iota.
    exists filled, l, a', (s', u, krx, ktx), q. split_and!; try done.
    + split; cbn [fst snd]; try done. split; [|done|congruence]. eapply owns_proper; [done| |exact Ho']. rewrite app_nil_r. perm_solver.
    + right. split; [lia|done].
    + intros _ Hq [i Hi] [j Hj] Hle Hbig. lia.
Qed.

Inductive live_step : LiveState SocketT W * list Z * list Z -> LiveState SocketT W * list Z * list Z -> Prop :=
| live_step_round st st' krx ktx :
    live_round FrameCount FrameSize st = Some st' -> live_step (st, krx, ktx) (st', krx, ktx)
| live_step_kernel st s' umem' krx ktx krx' ktx' :
    kernel_turn (lv_socket st, lv_umem st, krx, ktx) (s', umem', krx', ktx') ->
    live_step (st, krx, ktx) (lv_set_shared st s' umem', krx', ktx').

(** [filled] frames are in circulation or have been stranded since the start, where
    [stranded0] were; none if the rings have room for them all and the kernel leaves no
    headroom. *)
Definition live_inv (filled : Z) (stranded0 : list Z) (state : LiveState SocketT W * list Z * list Z) : Prop :=
  let '(st, krx, ktx) := state in
  exists q stranded, live_ok st q (kernel_claims krx ktx ++ stranded ++ claims_of FrameOwner_FillRing stranded0) /\
    circulating q krx ktx + zlen stranded = filled /\ (no_headroom FrameSize -> Forall (placed FrameSize) (q_rx q)) /\
    (filled <= Z.min xs_fill_capacity xs_tx_capacity -> no_headroom FrameSize -> stranded = []).

Lemma live_turn_inv filled stranded0 st krx ktx s' umem' krx' ktx' :
  live_inv filled stranded0 (st, krx, ktx) -> kernel_turn (lv_socket st, lv_umem st, krx, ktx) (s', umem', krx', ktx') ->
  live_inv filled stranded0 (lv_set_shared st s' umem', krx', ktx').
Proof.
  intros (q & stranded & [Hrel Hw Hu Hb Ha Hc Hl] & Hcount & Hpl & Hstr) Hturn.
  destruct (kernel_turn_ok (lv_allocator st) (lv_socket st, lv_umem st, krx, ktx) (s', umem', krx', ktx') q
    (stranded ++ claims_of FrameOwner_FillRing stranded0)) as (q' & [Hrel' Hu' Hb' Hl' Hpl'] & Hcirc); [by split|done|]. cbn [fst snd] in *.
  exists q', stranded. split_and!; try done. lia.
Qed.

Lemma live_round_inv filled stranded0 st krx ktx :
  live_inv filled stranded0 (st, krx, ktx) ->
  exists st', live_round FrameCount FrameSize st = Some st' /\ live_inv filled stranded0 (st', krx, ktx).
Proof.
  intros (q & stranded & Hok & Hcount & Hpl & Hstr). pose proof (zlen_nonneg stranded). pose proof (zlen_nonneg (kernel_claims krx ktx)).
  destruct (live_round_spec st q _ Hok) as (st' & q' & returned & forwarded & sent & recycled & refilled & refused & Hrun & Hok' & Heff & Href).
  exists st'. split; [done|]. set (bad := misplaced FrameSize (take 64 (q_rx q))) in *.
  pose proof (live_effect_count _ _ _ _ _ _ _ _ _ _ Heff) as Hc. fold bad in Hc.
  exists q', (refused ++ rx_claims FrameSize FrameOwner_FillRing bad ++ stranded). unfold circulating in *. split_and!.
  - destruct Hok'. split; try done. eapply lv_rel_perm; [|done]. perm_solver.
  - unfold rx_claims, claims_of. rewrite !zlen_app, !fmap_zlen. lia.
  - intros Hno. rewrite (lve_rx _ _ _ _ _ _ _ _ _ _ Heff). by apply Forall_drop, Hpl.
  - intros Hcap Hno. rewrite Hstr, Href by (done || lia).
    destruct (placed_all FrameSize (take 64 (q_rx q))) as [_ E]; [by apply Forall_take, Hpl|]. subst bad. by rewrite E.
Qed.

Lemma live_inv_reachable filled stranded0 state state' :
  rtc live_step state state' -> live_inv filled stranded0 state -> live_inv filled stranded0 state'.
Proof.
  induction 1 as [|x y z Hstep _ IH]; [done|]. intros Hinv. apply IH. clear IH.
  destruct Hstep as [st st' krx ktx Hrun|st s' umem' krx ktx krx' ktx' Hturn]; [|by eapply live_turn_inv].
  destruct (live_round_inv _ _ _ _ _ Hinv) as (st1 & Hrun1 & Hinv'). rewrite Hrun in Hrun1. by injection Hrun1 as <-.
Qed.

Lemma live_start_spec turns socket umem wheel kicks :
  xs_repr socket (mkQueues [] [] [] [] kicks) -> us_umem_size_bytes socket = FrameCount * FrameSize ->
  zlen umem = FrameCount * FrameSize -> mem_ok umem -> dq_holds wheel [] ->
  Forall turn_ok turns -> FrameCount <= 64 * (Z.of_nat (length turns) - 1) ->
  exists st krx ktx filled stranded, live_start FrameCount FrameSize turns socket umem wheel = Some (st, krx, ktx) /\
    live_inv filled stranded (st, krx, ktx) /\
    (filled = FrameCount /\ stranded = [] \/ filled < FrameCount /\ zlen stranded = Z.min 64 (FrameCount - filled)) /\
    (Forall idle turns -> (64 | xs_fill_capacity) -> 0 <= xs_fill_capacity -> xs_fill_capacity + 64 <= FrameCount -> filled = xs_fill_capacity).
Proof.
  intros Hs Hsz Hu Hm Hw Hturns Hmany. unfold live_start.
  destruct (live_fill_spec turns 0 (replicate (Z.to_nat kDataPlaneBatchSize) FrameHandle_default) (FrameAllocator_new FrameCount)
    (socket, umem, [], []) (mkQueues [] [] [] [] kicks)) as (filled & stranded & a & [[[s u] krx] ktx] & q & -> & Hsh & Hcirc & Hend & Hidle); try done; try lia.
  { split; try done. split; [|done|done]. by apply owns_new. }
  cbn [mbind option_bind]. eexists _, krx, ktx, filled, stranded. split_and!; [done| |done|].
  - destruct Hsh as [Hrel Hu' Hb' Hl Hpl]. cbn [fst snd] in *. exists q, []. change (zlen (@nil (FrameOwner * Z))) with 0.
    split_and!; [|lia|done|done]. split; cbn -[replicate]; done.
  - intros Hid Hd H0 Hbig. apply Hidle; try done. by exists 0.
Qed.


End live_proofs.

(** ** What the socket's calls keep, live mode keeps *)

Section preserved.
Context {SocketT W : Type} `{!XskSocket SocketT} `{!UmemSocket SocketT} `{!DelayQueue W} (FrameCount FrameSize : Z).
Context (P : SocketT -> Prop).
Hypothesis keep_refill : forall s l r s', xs_refill s l = Some (r, s') -> P s -> P s'.
Hypothesis keep_drain : forall s out r out' s', xs_drain_completions s out = Some (r, out', s') -> P s -> P s'.
Hypothesis keep_rx : forall s out r out' s', xs_consume_rx s out = Some (r, out', s') -> P s -> P s'.
Hypothesis keep_tx : forall s l r s', xs_submit_tx s l = Some (r, s') -> P s -> P s'.
Hypothesis keep_kick : forall s r s', xs_kick_tx s = Some (r, s') -> P s -> P s'.

(** The turns of the kernel do, too. *)
Definition turn_keeps (turn : SocketT * Memory * list Z * list Z -> SocketT * Memory * list Z * list Z) : Prop :=
  forall x, P x.1.1.1 -> P (turn x).1.1.1.

Lemma live_fill_keeps turns filled frames a x filled' a' y :
  Forall turn_keeps turns ->
  live_fill_loop FrameCount FrameSize turns filled frames a x = Some (filled', a', y) -> P x.1.1.1 -> P y.1.1.1.
Proof.
  intros Hturns. revert filled frames a x. induction Hturns as [|turn turns Hturn Hturns IH]; intros filled frames a x; cbn [live_fill_loop]; [done|].
  case_match; [by intros [= <- <- <-]|]. destruct x as [[[s umem] krx] ktx].
  intros ([[allocated frames1] a1] & _ & (addresses & _ & (addresses1 & _ & ([r s1] & Hrun & Hrest)%bind_Some)%bind_Some)%bind_Some)%bind_Some Hs.
  case_match; [injection Hrest as <- <- <-; cbn in *; eauto|]. eapply IH; [exact Hrest|]. apply Hturn. cbn in *. eauto.
Qed.

Lemma live_start_keeps turns s umem (wheel : W) st krx ktx :
  Forall turn_keeps turns -> live_start FrameCount FrameSize turns s umem wheel = Some (st, krx, ktx) -> P s -> P (lv_socket st).
Proof.
  intros Hturns ([[filled a] [[[s' umem'] krx'] ktx']] & Hfill & [= <- _ _])%bind_Some Hs.
  exact (live_fill_keeps _ _ _ _ _ _ _ _ Hturns Hfill Hs).
Qed.

Lemma live_refill_one_keeps a s address o ok a' s' :
  live_refill_one FrameCount FrameSize a s address o = Some (ok, a', s') -> P s -> P s'.
Proof.
  unfold live_refill_one. case_match; [by intros [= <- <- <-]|]. intros ([status a1] & _ & Hrest)%bind_Some.
  case_match; [|by simplify_eq]. apply bind_Some in Hrest as ([r s1] & Hrun & [= <- <- <-]). eauto.
Qed.

Lemma live_complete_keeps addresses a s c c' a' s' :
  live_complete FrameCount FrameSize a s addresses c = Some (c', a', s') -> P s -> P s'.
Proof.
  revert a s c. induction addresses as [|address addresses IH]; intros a s c; cbn [live_complete]; [by intros [= <- <- <-]|].
  intros ([[ok a1] s1] & Hone & Hrest)%bind_Some Hs. eauto using live_refill_one_keeps.
Qed.

Lemma live_recycle_keeps frames a s a' s' :
  live_recycle FrameCount FrameSize a s frames = Some (a', s') -> P s -> P s'.
Proof.
  revert a s. induction frames as [|f frames IH]; intros a s; cbn [live_recycle]; [by intros [= <- <-]|].
  intros ([[ok a1] s1] & Hone & Hrest)%bind_Some Hs. eauto using live_refill_one_keeps.
Qed.

Lemma live_transmit_keeps frames a s c c' a' s' :
  live_transmit FrameCount FrameSize a s frames c = Some (c', a', s') -> P s -> P s'.
Proof.
  revert a s c. induction frames as [|f frames IH]; intros a s c; cbn [live_transmit]; [by intros [= <- <- <-]|].
  case_match; [eauto|]. intros ([status a1] & _ & Hrest)%bind_Some. case_match; [eauto|].
  apply bind_Some in Hrest as ([r s1] & Hrun & Hrest). case_match; [|eauto].
  apply bind_Some in Hrest as ([r2 s2] & Hkick & Hrest). eauto.
Qed.

Lemma live_round_keeps (st st' : LiveState SocketT W) :
  live_round FrameCount FrameSize st = Some st' -> P (lv_socket st) -> P (lv_socket st').
Proof.
  unfold live_round.
  intros ([[r1 completions] s1] & H1 & (addresses & _ & ([[completed a2] s2] & H2 & Hrest)%bind_Some)%bind_Some)%bind_Some Hs.
  apply keep_drain in H1; [|done]. apply live_complete_keeps in H2; [|done].
  apply bind_Some in Hrest as ([[r3 rx] s3] & H3 & Hrest). apply keep_rx in H3; [|done]. case_match; [by injection Hrest as <-|].
  apply bind_Some in Hrest as (received & _ & ([[count ds] a4] & _ & (descriptors & _ & (batch & _ & Hrest)%bind_Some)%bind_Some)%bind_Some).
  apply bind_Some in Hrest as (recycled & _ & ([a5 s5] & H5 & (sent & _ & Hrest)%bind_Some)%bind_Some).
  apply bind_Some in Hrest as ([[submitted a6] s6] & H6 & [= <-]). eauto using live_recycle_keeps, live_transmit_keeps.
Qed.

Lemma live_loop_keeps running (st st' : LiveState SocketT W) krx ktx krx' ktx' :
  Forall turn_keeps running.*2 ->
  live_loop FrameCount FrameSize running st krx ktx = Some (st', krx', ktx') -> P (lv_socket st) -> P (lv_socket st').
Proof.
  revert st krx ktx. induction running as [|[[] turn] running IH]; intros st krx ktx Hturns; cbn [live_loop]; [by intros [= <- _ _]| |by intros [= <- _ _]].
  rewrite fmap_cons in Hturns. apply Forall_cons in Hturns as [Hturn Hturns].
  pose proof (Hturn (lv_socket st, lv_umem st, krx, ktx)) as Hone. cbn [fst snd] in Hone.
  destruct (turn (lv_socket st, lv_umem st, krx, ktx)) as [[[s1 umem1] krx1] ktx1]. cbn [fst snd] in Hone.
  intros (st1 & H1 & Hrest)%bind_Some Hs. eapply IH; [done|exact Hrest|]. eapply live_round_keeps; [exact H1|]. by apply Hone.
Qed.

End preserved.

(** ** [run_live] over libxdp *)

Section run_live.
Context {Prod Cons : Set -> Set} {World : Type}.
Context `{!ProdRing Prod} `{!ConsRing Cons} `{!Libxdp Prod Cons World} `{!ProdRingLaws Prod} `{!ConsRingLaws Cons}.
(** [XDP_FLAGS_SKB_MODE] of [linux/if_link.h] and [XDP_COPY] of [linux/if_xdp.h]. *)
Definition XDP_FLAGS_SKB_MODE : Z := 2.
Definition XDP_COPY : Z := 2.

Definition live_umem_config : UmemConfig :=
  mkUmemConfig kLiveFrameSize kLiveFrameCount kDefaultFillRingSize kDefaultCompletionRingSize.

Definition live_socket_config (queue_id : Z) : SocketConfig :=
  mkSocketConfig queue_id XDP_FLAGS_SKB_MODE kDefaultRxRingSize kDefaultTxRingSize 0 XDP_COPY.

Lemma lx_kick_tx_size (s : LibxdpSocket Prod Cons) (w : World) :
  lx_umem_size_ (lx_kick_tx s w).1.2 = lx_umem_size_ s.
Proof. unfold lx_kick_tx. destruct (lx_socket_ s); [|done]. destruct (lx_sendto w z) as [[r errno] w']. by case_match. Qed.

#[refine] Definition LibxdpSocket_umem (FillSize TxSize : Z) : UmemSocket (LibxdpSocket Prod Cons * World) (XskSocket0 := LibxdpSocket_socket FillSize TxSize) := {|
  us_umem_size_bytes s := lx_umem_size_ s.1;
|}.
Proof.
  - intros [s w] l r [s' w'] ([r1 s1] & ([r2 ring] & _ & [= <- <-])%bind_Some & [= _ <- _])%bind_Some. done.
  - intros [s w] out r out' [s' w'] ([[r1 out1] s1] & ([[r2 out2] ring] & _ & [= <- <- <-])%bind_Some & [= _ _ <- _])%bind_Some. done.
  - intros [s w] out r out' [s' w'] ([[r1 out1] s1] & ([[r2 out2] ring] & _ & [= <- <- <-])%bind_Some & [= _ _ <- _])%bind_Some. done.
  - intros [s w] l r [s' w'] ([r1 s1] & ([r2 ring] & _ & [= <- <-])%bind_Some & [= _ <- _])%bind_Some. done.
  - intros [s w] r [s' w']. cbn. pose proof (lx_kick_tx_size s w) as H. destruct (lx_kick_tx s w) as [[r1 s1] w1].
    intros [= _ <- _]. done.
  - intros [s w] q l Hr Hl Hfull. cbn in Hr, Hfull. destruct (lx_refill_spec FillSize TxSize s q l Hr Hl) as (status & s' & Hrun & Hr' & _).
    rewrite bool_decide_false in Hrun, Hr' by lia. eexists _, _. split; [cbn; by rewrite Hrun|].
    cbn in *. rewrite app_nil_r in Hr'. by destruct q.
Defined.

Definition live_xsk : XskSocket (LibxdpSocket Prod Cons * World) := LibxdpSocket_socket kDefaultFillRingSize kDefaultTxRingSize.
Definition live_umem_socket : UmemSocket (LibxdpSocket Prod Cons * World) (XskSocket0 := live_xsk) :=
  LibxdpSocket_umem kDefaultFillRingSize kDefaultTxRingSize.
Definition live_timed_queue : TimedQueue TimingWheel :=
  TimingWheel_timed_queue 1024 64 ltac:(done) ltac:(done) ltac:(done) ltac:(done).

Abbreviation LiveTurn :=
  (LibxdpSocket Prod Cons * World * Memory * list Z * list Z -> LibxdpSocket Prod Cons * World * Memory * list Z * list Z).

(** [socket] is [LibxdpSocket{}]; the mapped UMEM is zero.  The socket's destructor runs at
    the end, also when [init] fails. *)
Definition run_live (fill_turns : list LiveTurn) (socket : LibxdpSocket Prod Cons) (w : World) (interface_name : string) (queue_id : Z)
    (running : list (bool * LiveTurn))
    : option (SocketStatus * option (LiveState (LibxdpSocket Prod Cons * World) TimingWheel) * World) :=
  let '(init_status, socket, w) := lx_init socket w (Some interface_name) live_umem_config (live_socket_config queue_id) in
  if negb (init_status =?? SocketStatus_Ok) then Some (init_status, None, (lx_shutdown socket w).2)
  else
    '(st, krx, ktx) ← live_start (XskSocket0 := live_xsk) kLiveFrameCount kLiveFrameSize fill_turns (socket, w)
           (replicate (Z.to_nat (kLiveFrameCount * kLiveFrameSize)) 0) (TimingWheel_default 1024 64);
    '(st, _, _) ← live_loop (XskSocket0 := live_xsk) (UmemSocket0 := live_umem_socket)
           (DelayQueue0 := tq_queue (TimedQueue := live_timed_queue)) kLiveFrameCount kLiveFrameSize running st krx ktx;
    let '(socket, w) := lv_socket st in
    Some (init_status, Some st, (lx_shutdown socket w).2).

Context `{!LibxdpLaws Prod Cons World}.

(** The socket's objects stay what they are while frames move. *)
Abbreviation objects w0 := (fun s : LibxdpSocket Prod Cons * World => lx_owns w0 s.1 s.2).

Lemma refill_keeps_objects w0 s l r s' : xs_refill (XskSocket := live_xsk) s l = Some (r, s') -> objects w0 s -> objects w0 s'.
Proof.
  destruct s as [s w], s' as [s' w']. intros ([r1 s1] & ([r2 ring] & _ & [= <- <-])%bind_Some & [= _ <- <-])%bind_Some. done.
Qed.

Lemma drain_keeps_objects w0 s out r out' s' :
  xs_drain_completions (XskSocket := live_xsk) s out = Some (r, out', s') -> objects w0 s -> objects w0 s'.
Proof.
  destruct s as [s w], s' as [s' w'].
  intros ([[r1 out1] s1] & ([[r2 out2] ring] & _ & [= <- <- <-])%bind_Some & [= _ _ <- <-])%bind_Some. done.
Qed.

Lemma rx_keeps_objects w0 s out r out' s' :
  xs_consume_rx (XskSocket := live_xsk) s out = Some (r, out', s') -> objects w0 s -> objects w0 s'.
Proof.
  destruct s as [s w], s' as [s' w'].
  intros ([[r1 out1] s1] & ([[r2 out2] ring] & _ & [= <- <- <-])%bind_Some & [= _ _ <- <-])%bind_Some. done.
Qed.

Lemma tx_keeps_objects w0 s l r s' : xs_submit_tx (XskSocket := live_xsk) s l = Some (r, s') -> objects w0 s -> objects w0 s'.
Proof.
  destruct s as [s w], s' as [s' w']. intros ([r1 s1] & ([r2 ring] & _ & [= <- <-])%bind_Some & [= _ <- <-])%bind_Some. done.
Qed.

Lemma kick_keeps_objects w0 s r s' : xs_kick_tx (XskSocket := live_xsk) s = Some (r, s') -> objects w0 s -> objects w0 s'.
Proof.
  destruct s as [s w]. cbn. unfold lx_kick_tx. destruct (lx_socket_ s) as [socket|] eqn:E; [|by intros [= _ <-]].
  destruct (lx_sendto w socket) as [[r1 errno] w1] eqn:Es. destruct (lx_sendto_law _ _ _ _ Es) as (H1 & H2 & H3).
  assert (lx_owns w0 s w -> lx_owns w0 s w1 /\ lx_owns w0 (lx_inc_kick_count s) w1) as Hk
    by (unfold lx_owns; cbn; rewrite H1, H2, H3; done).
  destruct ((r1 <? 0) && negb (errno =?? KickEAGAIN) && negb (errno =?? KickEBUSY) && negb (errno =?? KickENOBUFS));
    intros [= _ <-] Ho; apply (Hk Ho).
Qed.

Lemma live_wheel_empty : dq_holds (DelayQueue := tq_queue (TimedQueue := live_timed_queue)) (TimingWheel_default 1024 64) [].
Proof. by apply TimingWheel_default_holds. Qed.

(** A turn of the kernel leaves the socket's objects alone: it changes only the rings. *)
Definition turn_leaves_objects (turn : LiveTurn) : Prop :=
  forall s w umem krx ktx, let '(s', w', _, _, _) := turn (s, w, umem, krx, ktx) in
  lx_umem_ s' = lx_umem_ s /\ lx_socket_ s' = lx_socket_ s /\ lx_umem_area_ s' = lx_umem_area_ s /\
  lx_umem_size_ s' = lx_umem_size_ s /\ same_resources w w'.

Lemma turn_keeps_objects w0 turn : turn_leaves_objects turn -> turn_keeps (objects w0) turn.
Proof.
  intros Ht [[[[s w] umem] krx] ktx]. specialize (Ht s w umem krx ktx).
  destruct (turn (s, w, umem, krx, ktx)) as [[[[s' w'] umem'] krx'] ktx']. destruct Ht as (E1 & E2 & E3 & E4 & E5 & E6 & E7). cbn [fst snd].
  unfold lx_owns. by rewrite E1, E2, E3, E4, E5, E6, E7.
Qed.

Section kernel.
Context `{!RingKernel kLiveFrameSize}.

(** A turn that the kernel may take: moves on the rings, writes to the UMEM. *)
Definition live_turn_ok (turn : LiveTurn) : Prop :=
  turn_ok (XskSocket0 := live_xsk) (UmemSocket0 := live_umem_socket) kLiveFrameSize turn /\ turn_leaves_objects turn.

(** No round fails, whatever the kernel does. *)
Lemma live_loop_runs filled stranded running (st : LiveState (LibxdpSocket Prod Cons * World) TimingWheel) krx ktx :
  Forall live_turn_ok running.*2 ->
  live_inv (XskSocket0 := live_xsk) (UmemSocket0 := live_umem_socket) (TimedQueue0 := live_timed_queue)
    kLiveFrameCount kLiveFrameSize filled stranded (st, krx, ktx) ->
  exists st' krx' ktx', live_loop (XskSocket0 := live_xsk) (UmemSocket0 := live_umem_socket)
    (DelayQueue0 := tq_queue (TimedQueue := live_timed_queue)) kLiveFrameCount kLiveFrameSize running st krx ktx = Some (st', krx', ktx').
Proof.
  revert st krx ktx. induction running as [|[[] turn] running IH]; intros st krx ktx Hturns Hinv; cbn [live_loop]; [by eexists _, _, _| |by eexists _, _, _].
  rewrite fmap_cons in Hturns. apply Forall_cons in Hturns as [[Hturn _] Hturns].
  pose proof (Hturn (lv_socket st, lv_umem st, krx, ktx)) as Hone. cbn [snd] in Hone.
  destruct (turn (lv_socket st, lv_umem st, krx, ktx)) as [[[s1 umem1] krx1] ktx1].
  apply (live_turn_inv (XskSocket0 := live_xsk) (UmemSocket0 := live_umem_socket) (TimedQueue0 := live_timed_queue)
    kLiveFrameCount kLiveFrameSize ltac:(done) filled stranded st krx ktx) in Hone; [|exact Hinv].
  destruct (live_round_inv (XskSocket0 := live_xsk) (UmemSocket0 := live_umem_socket) (TimedQueue0 := live_timed_queue)
    kLiveFrameCount kLiveFrameSize ltac:(done) ltac:(done) ltac:(done) filled stranded _ _ _ Hone) as (st' & Hrun & Hinv').
  rewrite Hrun. cbn [mbind option_bind]. by apply IH.
Qed.

(** C22: live mode leaves nothing behind.  Whatever libxdp answers when the socket is
    created, for however many rounds the loop is left running, and whatever the kernel does
    with the rings and the UMEM meanwhile (packets arrive, are forwarded and completed),
    [run_live] comes to its end without undefined behaviour, with the status of [init] as
    its answer, and has then given back the mapping, the UMEM and the socket it had created;
    it ran the loop exactly if [init] succeeded.  (The 65 turns during the initial fill are
    the iterations that loop takes at most.) *)
Theorem run_live_releases fill_turns socket (w : World) interface_name queue_id running :
  lx_idle socket -> Forall live_turn_ok fill_turns -> (64 < length fill_turns)%nat -> Forall live_turn_ok running.*2 ->
  exists status result w', run_live fill_turns socket w interface_name queue_id running = Some (status, result, w') /\
    status = (lx_init socket w (Some interface_name) live_umem_config (live_socket_config queue_id)).1.1 /\
    same_resources w w' /\ (status = SocketStatus_Ok <-> is_Some result).
Proof.
  intros Hidle Hfill Hmany Hturns. unfold run_live.
  pose proof (lx_init_spec socket w (Some interface_name) live_umem_config (live_socket_config queue_id) Hidle) as Hinit.
  destruct (lx_init socket w (Some interface_name) live_umem_config (live_socket_config queue_id)) as [[status s1] w1] eqn:E.
  unfold lx_init_done in Hinit. case_bool_decide as Hst; cbn [negb].
  2: { destruct Hinit as [(Hu & Hs & Ha & Hi) Hw]. eexists _, None, _. split; [done|]. unfold lx_shutdown, lx_delete_socket, lx_delete_umem, lx_unmap_area.
       rewrite Hs, Hu, Ha. split; [done|]. split; [done|]. split; [done|by intros [? ?]]. }
  destruct Hinit as (Howns & _ & Hrepr & _). subst status. pose proof (lx_init_size _ _ _ _ _ _ _ E) as Hsize.
  destruct (live_start_spec (XskSocket0 := live_xsk) (UmemSocket0 := live_umem_socket) (TimedQueue0 := live_timed_queue)
    kLiveFrameCount kLiveFrameSize ltac:(done) ltac:(done) ltac:(done) fill_turns (s1, w1)
    (replicate (Z.to_nat (kLiveFrameCount * kLiveFrameSize)) 0) (TimingWheel_default 1024 64) (lx_tx_kick_count_ s1))
    as (st & krx & ktx & filled & stranded & Hstart & Hinv & _); [exact Hrepr|exact Hsize|rewrite zlen_replicate; by apply Z2Nat.id|
      by apply Forall_replicate|exact live_wheel_empty|eapply Forall_impl; [exact Hfill|by intros turn [? _]]|
      unfold kLiveFrameCount, kDefaultFrameCount; lia|].
  rewrite Hstart. cbn [mbind option_bind]. destruct (live_loop_runs filled stranded running st krx ktx Hturns Hinv) as (st' & krx' & ktx' & Hloop).
  rewrite Hloop. cbn [mbind option_bind].
  assert (forall l, Forall live_turn_ok l -> Forall (turn_keeps (objects w)) l) as Hkeeps.
  { intros l Hl. eapply Forall_impl; [exact Hl|]. intros turn [_ Ht]. by apply turn_keeps_objects. }
  assert (objects w (lv_socket st')) as Ho.
  { eapply (live_loop_keeps kLiveFrameCount kLiveFrameSize (objects w));
      eauto using refill_keeps_objects, drain_keeps_objects, rx_keeps_objects, tx_keeps_objects, kick_keeps_objects.
    exact (live_start_keeps kLiveFrameCount kLiveFrameSize (objects w) (refill_keeps_objects w) _ _ _ _ _ _ _ (Hkeeps _ Hfill) Hstart Howns). }
  destruct (lv_socket st') as [s2 w2]. pose proof (lx_shutdown_spec w s2 w2 Ho) as Hdown. destruct (lx_shutdown s2 w2) as [s3 w3].
  eexists _, _, _. split; [done|]. split; [done|]. split; [apply Hdown|]. split; [intros _; by eexists|done].
Qed.

End kernel.
End run_live.

(** ** A kernel at work

    In a turn this kernel takes the oldest buffer off the fill ring and delivers a packet of
    44 bytes in it, without headroom. *)

Abbreviation ListSocket := (LibxdpSocket ListProd ListCons).

Definition deliver_turn (x : ListSocket * XskKernel * Memory * list Z * list Z) : ListSocket * XskKernel * Memory * list Z * list Z :=
  let '(s, w, umem, krx, ktx) := x in
  match lp_queue (lx_fill_ s) with
  | [] => x
  | address :: fill =>
      let ring := lx_fill_ s in
      let rx := lx_rx_ s in
      let s := lx_set_umem s (mkListProd fill (lp_cells ring) (lp_start ring) (lp_size ring)) (lx_completion_ s) (lx_umem_ s) in
      let s := lx_set_socket s (mkListCons (lc_queue rx ++ [mkXdpDesc address 44 0]) (lc_peeked rx) (lc_start rx)) (lx_tx_ s) (lx_socket_ s) in
      (s, w, umem, krx, ktx)
  end.

Lemma deliver_turn_ok FillSize TxSize FrameSize (Hroom : 0 <= 0 < FrameSize) :
  turn_ok (XskSocket0 := LibxdpSocket_socket FillSize TxSize) (UmemSocket0 := LibxdpSocket_umem FillSize TxSize)
    (RingKernel0 := headroom_kernel FrameSize 0 Hroom) FrameSize deliver_turn.
Proof.
  intros [[[[s w] umem] krx] ktx]. unfold kernel_turn, deliver_turn. destruct (lp_queue (lx_fill_ s)) as [|address fill] eqn:E.
  { split_and!; try done. intros q Hq. by exists q. }
  split_and!; try done. intros [f c x t k] [(Hf & Hfr & Hfz) Hc [Hx Hp] Ht Hk]. cbn in *.
  exists (mkQueues fill c (x ++ [mkRxDescriptor address 44 0]) t k). split.
  - split; try done. cbn. split; [|done]. by rewrite fmap_app, Hx.
  - rewrite E in Hf. subst f. eapply rtc_l; [apply kernel_take_fill|]. apply rtc_once.
    rewrite <-(Z.add_0_r address) at 2. by apply (kernel_deliver (fun offset => offset = 0) address 0 44 0 fill c x t k [] krx ktx).
Qed.

Lemma deliver_turn_leaves_objects : turn_leaves_objects deliver_turn.
Proof. intros s w umem krx ktx. unfold deliver_turn. by destruct (lp_queue (lx_fill_ s)). Qed.

(** ** A small live mode: 192 frames of 64 bytes, rings of 64 entries *)

Definition small_live_xsk : XskSocket (ListSocket * XskKernel) := LibxdpSocket_socket 64 64.
Definition small_live_umem : UmemSocket (ListSocket * XskKernel) (XskSocket0 := small_live_xsk) := LibxdpSocket_umem 64 64.

Definition small_live_socket : ListSocket * XskKernel :=
  (mkLibxdpSocket (mkListProd [] [] 0 64) (mkListCons [] 0 0) (mkListCons [] 0 0) (mkListProd [] [] 0 64)
     (Some 1) (Some 2) (Some 3) 12288 0 true, mkXskKernel ∅ ∅ ∅ false).


(** A socket is created, packets arrive before and during two rounds. *)
Lemma run_live_releases_witness :
  exists result w',
    run_live (replicate 65 deliver_turn) example_idle (mkXskKernel ∅ ∅ ∅ false) "eth0" 0 [(true, deliver_turn); (true, deliver_turn); (false, deliver_turn)]
      = Some (SocketStatus_Ok, result, w') /\ is_Some result /\
    xk_maps w' = ∅ /\ xk_umems w' = ∅ /\ xk_sockets w' = ∅.
Proof.
  assert (live_turn_ok (RingKernel0 := headroom_kernel kLiveFrameSize 0 ltac:(done)) deliver_turn) as Hturn
    by (split; [apply deliver_turn_ok|apply deliver_turn_leaves_objects]).
  destruct (run_live_releases (RingKernel0 := headroom_kernel kLiveFrameSize 0 ltac:(done)) (replicate 65 deliver_turn) example_idle
    (mkXskKernel ∅ ∅ ∅ false) "eth0" 0 [(true, deliver_turn); (true, deliver_turn); (false, deliver_turn)])
    as (status & result & w' & Hrun & Hst & (H1 & H2 & H3) & Hres).
  - done.
  - by apply Forall_replicate.
  - rewrite length_replicate. lia.
  - exact (Forall_cons_2 _ _ _ Hturn (Forall_cons_2 _ _ _ Hturn (Forall_cons_2 _ _ _ Hturn (Forall_nil_2 _)))).
  - assert (status = SocketStatus_Ok) as -> by (rewrite Hst; vm_compute; reflexivity).
    exists result, w'. split; [exact Hrun|]. split; [by apply Hres|]. split; [exact H1|]. split; [exact H2|exact H3].
Defined.
