(* ===== verification/Demo.v ===== *)
(** * [src/main.cpp]: the test packet and the demonstrations

    [build_test_packet] writes an Ethernet, IPv4 and TCP frame into memory; [run_demo] and
    [run_runtime_demo] take such frames through the control plane, the data plane and the
    runtime adapter.  What is printed on the way is what the functions return. *)

From Stdlib Require Import SpecFloat.
From S2P Require Import Prelude Types Ring TimingWheel FrameAllocator PacketParser ChaosEngine DataPlane Protocol.
From S2P Require Import ControlCore SocketManager Runtime ControlPlane Float64 Tui.

Definition kDemoControlPort : Z := 9090.
Definition kDemoBatchSize : Z := 4.
Definition kDemoFrameCount : Z := 16.
Definition kDemoTimingSlots : Z := 64.
Definition kDemoMaxFramesPerSlot : Z := 16.

(** ** [build_test_packet] *)

(** [memset] of the [n] bytes from [index] on. *)
Fixpoint memset (n : nat) (mem : Memory) (p : Ptr) (index : Z) (value : Byte) : option Memory :=
  match n with
  | O => Some mem
  | S n => mem ← store mem p index value; memset n mem p (index + 1) value
  end.

(** The loop over the payload from [i] on, with [n] bytes left. *)
Fixpoint payload_loop (n : nat) (mem : Memory) (payload : Ptr) (i : Z) : option Memory :=
  match n with
  | O => Some mem
  | S n => mem ← store mem payload i (u8 (Z.land i 0xFF)); payload_loop n mem payload (i + 1)
  end.

Definition build_test_packet (mem : Memory) (frame : Ptr) (dst_port payload_size : Z) : option Memory :=
  let total_frame := u64 (kEthernetHeaderBytes + kIPv4BaseHeaderBytes + kTCPBaseHeaderBytes + payload_size) in
  mem ← memset (Z.to_nat total_frame) mem frame 0 0;
  mem ← store mem frame 12 0x08;
  mem ← store mem frame 13 0x00;
  let ip := (fun p => p + kEthernetHeaderBytes) <$> frame in
  mem ← store mem ip 0 0x45;
  let total_len := u16 (kIPv4BaseHeaderBytes + kTCPBaseHeaderBytes + payload_size) in
  mem ← store mem ip 2 (u8 (Z.shiftr total_len 8));
  mem ← store mem ip 3 (u8 (Z.land total_len 0xFF));
  mem ← store mem ip 8 64;
  mem ← store mem ip 9 kIPv4ProtocolTCP;
  let tcp := (fun p => p + kIPv4BaseHeaderBytes) <$> ip in
  mem ← store mem tcp 0 (u8 (Z.shiftr 12345 8));
  mem ← store mem tcp 1 (u8 (Z.land 12345 0xFF));
  mem ← store mem tcp 2 (u8 (Z.shiftr dst_port 8));
  mem ← store mem tcp 3 (u8 (Z.land dst_port 0xFF));
  mem ← store mem tcp 12 0x50;
  let payload := (fun p => p + kTCPBaseHeaderBytes) <$> tcp in
  payload_loop (Z.to_nat payload_size) mem payload 0.

(** ** [run_demo] *)

Definition demo_drop_rule : ChaosRule :=
  mkChaosRule 0xBEEF 0 1 0 0 0 8080 kProbabilityScale kIPv4ProtocolTCP PacketAction_Drop 1 [0; 0; 0].

Definition demo_delay_rule : ChaosRule :=
  mkChaosRule 0xCAFE 100000 2 0 0 0 9090 (kProbabilityScale / 2) kIPv4ProtocolTCP PacketAction_Delay 1 [0; 0; 0].

(** The lambda [install_rule]; [padding] are the padding bytes of [StatUpdate] on the wire. *)
Definition install_rule (padding : list Byte) (control_core : ControlPlaneCore) (rule : ChaosRule) : option ControlPlaneCore :=
  let request := replicate 512 0 in
  let response := replicate 512 0 in
  let header := mkMessageHeader kProtocolMagic kProtocolVersion Opcode_AddRule (cr_id rule) 0 0 0 in
  '(enc, request) ← encode_message header (bytes_of_rule rule) request;
  '(_, _, control_core) ← handle_request padding control_core (take (Z.to_nat (er_bytes_written enc)) request) response;
  Some control_core.

(** The first loop: a frame for every test packet. *)
Fixpoint demo_allocate (n : nat) (allocator : FrameAllocator) : option (list FrameHandle * FrameAllocator) :=
  match n with
  | O => Some ([], allocator)
  | S n =>
      '(alloc, allocator) ← allocate kDefaultFrameSizeBytes allocator FrameOwner_DataPlane;
      '(handles, allocator) ← demo_allocate n allocator;
      Some (fal_frame alloc :: handles, allocator)
  end.

Definition demo_payload_size : Z := 32.

Definition demo_frame_len : Z :=
  u32 (kEthernetHeaderBytes + kIPv4BaseHeaderBytes + kTCPBaseHeaderBytes + demo_payload_size).

Definition demo_test_ports : list Z := [8080; 9090; 443; 8080].

(** The second loop: a packet in every frame, and its descriptor. *)
Fixpoint demo_build (umem : Memory) (handles : list FrameHandle) (ports : list Z) : option (Memory * list PacketDescriptor) :=
  match handles, ports with
  | handle :: handles, port :: ports =>
      let addr := fh_address handle in
      umem ← build_test_packet umem (Some (0 + addr)) port demo_payload_size;
      '(umem, descriptors) ← demo_build umem handles ports;
      Some (umem, mkPacketDescriptor addr demo_frame_len 0 :: descriptors)
  | _, _ => Some (umem, [])
  end.

Definition demo_delay_queue : DelayQueue TimingWheel :=
  TimingWheel_delay_queue kDemoTimingSlots kDemoMaxFramesPerSlot ltac:(done) ltac:(done) ltac:(done) ltac:(done).

Definition demo_dashboard (stats : DataPlaneBatchStats) (rule_count : Z) : option DashboardState :=
  histogram ← lh_record LatencyHistogram_default 500;
  histogram ← lh_record histogram 5000;
  histogram ← lh_record histogram 50000;
  histogram ← lh_record histogram 500000;
  Some (mkDashboardState (bs_packets_seen stats) (bs_packets_dropped stats) (bs_bytes_seen stats) 0 PacketAction_Drop
    (ddiv (double_of_Z 3) (double_of_Z 2)) (ddiv (double_of_Z 16) (double_of_Z 5))
    (if 0 <? bs_packets_seen stats
     then ddiv (dmul (double_of_Z 100) (double_of_Z (bs_packets_dropped stats))) (double_of_Z (bs_packets_seen stats))
     else double_of_Z 0)
    histogram Sparkline_default Sparkline_default rule_count 1).

Record DemoResult := mkDemoResult {
  dr_rules : list ChaosRule;
  dr_batch : DataPlaneBatchResult;
  dr_tx : list ProcessedFrame;
  dr_recycled : list ProcessedFrame;
  dr_pending : Z;
  dr_screen : string;
}.

(** From the batch on. *)
Definition demo_process (control_core : ControlCore) (umem : Memory) (rx_descriptors : list PacketDescriptor) : option DemoResult :=
  let timing_wheel := TimingWheel_default kDemoTimingSlots kDemoMaxFramesPerSlot in
  let output := replicate (Z.to_nat kDemoBatchSize) inhabitant in
  batch ← process_packet_batch_unbounded (DelayQueue0 := demo_delay_queue) umem (Some 0) rx_descriptors
            (cc_rules control_core) timing_wheel output output kDefaultTimingWheelTickNs;
  let result := ba_result batch in
  dashboard ← demo_dashboard (br_stats result) (cc_rule_count control_core);
  screen ← render dashboard;
  Some (mkDemoResult (cc_rules control_core) result
          (take (Z.to_nat (br_tx_count result)) (ba_tx_output batch))
          (take (Z.to_nat (br_recycle_count result)) (ba_recycle_output batch))
          (tw_pending_count_ (ba_wheel batch)) screen).

Definition run_demo (padding : list Byte) : option DemoResult :=
  control_core ← install_rule padding ControlPlaneCore_new demo_drop_rule;
  control_core ← install_rule padding control_core demo_delay_rule;
  '(handles, _) ← demo_allocate (Z.to_nat kDemoBatchSize) (FrameAllocator_new kDemoFrameCount);
  let umem := replicate (Z.to_nat (kDemoFrameCount * kDefaultFrameSizeBytes)) 0 in
  '(umem, rx_descriptors) ← demo_build umem handles demo_test_ports;
  demo_process (cp_control_ control_core) umem rx_descriptors.

(** ** [run_runtime_demo] *)

Definition demo_socket : XskSocket SimulatedXskSocket :=
  SimulatedXskSocket_socket 16 16 16 16 ltac:(done) ltac:(done) ltac:(done) ltac:(done)
    ltac:(done) ltac:(done) ltac:(done) ltac:(done).

Definition demo_timed_queue : TimedQueue TimingWheel :=
  TimingWheel_timed_queue 64 16 ltac:(done) ltac:(done) ltac:(done) ltac:(done).

Definition runtime_drop_rule : ChaosRule :=
  mkChaosRule 0xD00D 0 100 0 0 0 8080 kProbabilityScale kIPv4ProtocolTCP PacketAction_Drop 1 [0; 0; 0].

Inductive RuntimeDemoResult :=
| RuntimeDemo_InitFailed (status : RuntimeStatus)
| RuntimeDemo_NoFrames
| RuntimeDemo_Complete (first second : RuntimePollResult) (fill_pending : Z).

Abbreviation DemoRuntime := (AfXdpRuntimeAdapter SimulatedXskSocket TimingWheel).

(** From the received packets on. *)
Definition runtime_demo_polls (runtime : DemoRuntime) (address0 address1 : Z) : option RuntimeDemoResult :=
  let rx := [mkRxDescriptor address0 demo_frame_len 0; mkRxDescriptor address1 demo_frame_len 0] in
  '(_, socket) ← inject_rx 16 (ra_socket_ runtime) rx;
  let runtime := ra_set_socket runtime socket in
  let rules := [runtime_drop_rule] in
  '(first, runtime) ← ra_poll_once (XskSocket0 := demo_socket) (TimedQueue0 := demo_timed_queue) 16
                        kDefaultFrameSizeBytes runtime rules;
  '(_, socket) ← complete_tx 16 (ra_socket_ runtime) [address0];
  let runtime := ra_set_socket runtime socket in
  '(second, runtime) ← ra_poll_once (XskSocket0 := demo_socket) (TimedQueue0 := demo_timed_queue) 16
                         kDefaultFrameSizeBytes runtime rules;
  Some (RuntimeDemo_Complete first second (fill_ring_pending (ra_socket_ runtime))).

Definition run_runtime_demo : option RuntimeDemoResult :=
  let runtime := ra_default 16 kDefaultFrameSizeBytes (SimulatedXskSocket_default 16 16 16 16) (TimingWheel_default 64 16) in
  '(init_status, runtime) ← ra_init (XskSocket0 := demo_socket) 16 kDefaultFrameSizeBytes runtime (mkRuntimeConfig 4);
  if negb (init_status =?? RuntimeStatus_Ok) then Some (RuntimeDemo_InitFailed init_status)
  else
    '(fill_count, rx_addresses, socket) ← consume_fill 16 (ra_socket_ runtime) [0; 0];
    let runtime := ra_set_socket runtime socket in
    if negb (fill_count =? zlen rx_addresses) then Some RuntimeDemo_NoFrames
    else
      address0 ← rx_addresses.[0];
      address1 ← rx_addresses.[1];
      umem ← build_test_packet (ra_umem_ runtime) (Some (0 + address0)) 443 demo_payload_size;
      umem ← build_test_packet umem (Some (0 + address1)) 8080 demo_payload_size;
      runtime_demo_polls (ra_set_umem runtime umem) address0 address1.

(** ** The frame it builds *)

(** The bytes of the frame, as one list. *)
Definition test_headers (dst_port payload_size : Z) : list Byte :=
  let total_len := 40 + payload_size in
  [0; 0; 0; 0; 0; 0; 0; 0; 0; 0; 0; 0; 8; 0] ++
  [0x45; 0; total_len / 256; total_len mod 256; 0; 0; 0; 0; 64; 6; 0; 0; 0; 0; 0; 0; 0; 0; 0; 0] ++
  [48; 57; dst_port / 256; dst_port mod 256; 0; 0; 0; 0; 0; 0; 0; 0; 0x50; 0; 0; 0; 0; 0; 0; 0].

Definition test_payload (n : nat) : list Byte := (fun i => Z.of_nat i mod 256) <$> seq 0 n.

Definition test_packet (dst_port : Z) (n : nat) : list Byte := test_headers dst_port (Z.of_nat n) ++ test_payload n.

Lemma store_mid (pre l post : list Byte) i x b :
  0 <= i < zlen l -> b = zlen pre ->
  store (pre ++ l ++ post) (Some b) i x = Some (pre ++ <[Z.to_nat i := x]> l ++ post).
Proof.
  intros Hi ->. unfold store. rewrite aset_in_range by (autorewrite with zlen; pose proof (zlen_nonneg pre); pose proof (zlen_nonneg post); lia).
  f_equal. unfold zlen in *. rewrite insert_app_r_alt by lia. f_equal. rewrite insert_app_l by lia. do 2 f_equal. lia.
Qed.

Lemma memset_mid (pre l post : list Byte) (x : Byte) (done : list Byte) :
  memset (length l) (pre ++ done ++ l ++ post) (Some (zlen pre)) (zlen done) x
  = Some (pre ++ done ++ replicate (length l) x ++ post).
Proof.
  revert done. induction l as [|y l IH]; intros done; [reflexivity|]. cbn [length memset].
  change (pre ++ done ++ (y :: l) ++ post) with (pre ++ done ++ ([y] ++ l) ++ post).
  rewrite <-(app_assoc [y]), (app_assoc done), store_mid; [|autorewrite with zlen; pose proof (zlen_nonneg done); lia|done].
  cbn [mbind option_bind]. rewrite insert_app_r_alt by (unfold zlen; lia).
  replace (Z.to_nat (zlen done) - length done)%nat with 0%nat by (unfold zlen; lia). cbn [list_insert insert].
  change (<[0%nat:=x]> [y]) with [x]. rewrite <-app_assoc.
  specialize (IH (done ++ [x])). rewrite <-!app_assoc in IH. autorewrite with zlen in IH. rewrite Z.add_0_r in IH. by rewrite IH.
Qed.

Lemma payload_loop_mid (pre hdr post : list Byte) (n k : nat) b :
  b = zlen pre + zlen hdr ->
  payload_loop n (pre ++ (hdr ++ test_payload k ++ replicate n 0) ++ post) (Some b) (Z.of_nat k)
  = Some (pre ++ (hdr ++ test_payload (k + n)) ++ post).
Proof.
  intros ->. revert k. induction n as [|n IH]; intros k; cbn [payload_loop].
  { by rewrite app_nil_r, Nat.add_0_r. }
  assert (length (test_payload k) = k) as Hk by (unfold test_payload; by rewrite length_fmap, length_seq).
  replace (pre ++ (hdr ++ test_payload k ++ replicate (S n) 0) ++ post)
    with ((pre ++ hdr) ++ (test_payload k ++ replicate (S n) 0) ++ post) by (by rewrite <-!app_assoc).
  rewrite store_mid; [|autorewrite with zlen; unfold zlen; rewrite Hk; lia|by rewrite zlen_app].
  cbn [mbind option_bind]. rewrite Nat2Z.id, insert_app_r_alt, Hk, Nat.sub_diag by lia. cbn [replicate list_insert insert].
  change (Z.of_nat k + 1) with (Z.succ (Z.of_nat k)). rewrite <-Nat2Z.inj_succ. specialize (IH (S k)).
  replace (S k + n)%nat with (k + S n)%nat in IH by lia. rewrite <-IH. f_equal. unfold test_payload.
  rewrite seq_S, fmap_app. cbn [fmap list_fmap]. rewrite <-!app_assoc. cbn [app].
  change 0xFF with (Z.ones 8). rewrite Z.land_ones by lia. unfold wrap. rewrite Zmod_mod. reflexivity.
Qed.

Lemma u8_high x : fits 16 x -> u8 (Z.shiftr x 8) = x / 256.
Proof.
  intros Hx. unfold fits in Hx. rewrite Z.shiftr_div_pow2 by lia. apply wrap_small. unfold fits. change (2 ^ 8) with 256.
  split; [apply Z.div_pos; lia|apply Z.div_lt_upper_bound; lia].
Qed.

Lemma u8_low x : u8 (Z.land x 0xFF) = x mod 256.
Proof. change 0xFF with (Z.ones 8). rewrite Z.land_ones by lia. unfold wrap. by rewrite Zmod_mod. Qed.

Lemma store_header (pre hdr rest post : list Byte) p a i x :
  p = zlen pre + a -> 0 <= a + i < zlen hdr ->
  store (pre ++ (hdr ++ rest) ++ post) (Some p) i x
  = Some (pre ++ (<[Z.to_nat (a + i) := x]> hdr ++ rest) ++ post).
Proof.
  intros -> Hi. rewrite <-(insert_app_l hdr) by (unfold zlen in *; lia).
  rewrite <-store_mid with (b := zlen pre); [by unfold store; rewrite Z.add_assoc| |done].
  rewrite zlen_app. pose proof (zlen_nonneg rest). lia.
Qed.

(** [build_test_packet] puts the frame where it is told and nothing else. *)
Lemma build_test_packet_spec (pre l post : list Byte) dst_port (n : nat) :
  fits 16 dst_port -> Z.of_nat n <= 65495 -> length l = (54 + n)%nat ->
  build_test_packet (pre ++ l ++ post) (Some (zlen pre)) dst_port (Z.of_nat n) = Some (pre ++ test_packet dst_port n ++ post).
Proof.
  intros Hd Hn Hl. unfold build_test_packet, kEthernetHeaderBytes, kIPv4BaseHeaderBytes, kTCPBaseHeaderBytes.
  rewrite (wrap_small 64), (wrap_small 16) by (unfold fits; lia).
  replace (Z.to_nat (14 + 20 + 20 + Z.of_nat n)) with (length l) by lia.
  pose proof (memset_mid pre l post 0 []) as Hzero. cbn [app] in Hzero. change (zlen (@nil Byte)) with 0 in Hzero.
  rewrite Hzero, Hl, replicate_add. cbn [mbind option_bind fmap option_fmap option_map].
  rewrite (u8_high dst_port), (u8_high (20 + 20 + _)), !u8_low by (unfold fits in *; lia).
  assert (forall k, 0 <= k < 54 -> forall hdr : list Byte, length hdr = 54%nat -> 0 <= k < zlen hdr) as Hk
    by (intros k Hk hdr Hhdr; unfold zlen; lia).
  do 2 (rewrite (store_header _ _ _ _ _ 0); [|lia|apply Hk; [lia|by rewrite ?length_insert, length_replicate]]; cbn [mbind option_bind]).
  do 5 (rewrite (store_header _ _ _ _ _ 14); [|lia|apply Hk; [lia|by rewrite ?length_insert, length_replicate]]; cbn [mbind option_bind]).
  do 5 (rewrite (store_header _ _ _ _ _ 34); [|lia|apply Hk; [lia|by rewrite ?length_insert, length_replicate]]; cbn [mbind option_bind]).
  change (<[Z.to_nat (34 + 12):=80]> _) with (test_headers dst_port (Z.of_nat n)). rewrite Nat2Z.id.
  apply (payload_loop_mid pre (test_headers dst_port (Z.of_nat n)) post n 0). unfold test_headers, zlen. cbn. lia.
Qed.

Lemma test_packet_length dst_port n : zlen (test_packet dst_port n) = 54 + Z.of_nat n.
Proof. unfold test_packet, test_payload, zlen. rewrite length_app, length_fmap, length_seq. cbn [length test_headers app]. lia. Qed.

Lemma test_packet_ok dst_port n : fits 16 dst_port -> Z.of_nat n <= 65495 -> mem_ok (test_packet dst_port n).
Proof.
  intros Hd Hn. unfold fits in Hd. apply Forall_app. split.
  - assert (forall x, 0 <= x < 65536 -> fits 8 (x / 256) /\ fits 8 (x mod 256)) as Hx.
    { intros x Hx. unfold fits. split; [split; [apply Z.div_pos; lia|apply Z.div_lt_upper_bound; lia]|apply Z.mod_pos_bound; lia]. }
    destruct (Hx dst_port), (Hx (40 + Z.of_nat n)); try lia. unfold test_headers. cbn [app].
    rewrite !Forall_cons. split_and!; done.
  - apply Forall_fmap, Forall_forall. intros i _. apply Z.mod_pos_bound. lia.
Qed.

(** Reading the frame back. *)
Lemma packet_byte_at (pre l post : list Byte) (i : nat) :
  (i < length l)%nat -> byte_at (pre ++ l ++ post) (zlen pre) (Z.of_nat i) = default 0 (l !! i).
Proof.
  intros Hi. unfold byte_at, aget. f_equal. unfold zlen. rewrite decide_True by lia.
  rewrite lookup_app_r, lookup_app_l by lia. f_equal. lia.
Qed.

Lemma test_packet_view (pre post : list Byte) dst_port (n : nat) :
  mem_ok pre -> mem_ok post -> fits 16 dst_port -> Z.of_nat n <= 65495 ->
  let mem := pre ++ test_packet dst_port n ++ post in
  parse_packet mem (Some (zlen pre)) (54 + Z.of_nat n)
  = Some (mkPacketView (Some (zlen pre)) (54 + Z.of_nat n) ParseStatus_Ok kEtherTypeIPv4 kIPv4ProtocolTCP
      20 (40 + Z.of_nat n) 0 0 14 34 54 (Z.of_nat n) 20 12345 dst_port).
Proof.
  intros Hpre Hpost Hd Hn mem. pose proof (test_packet_length dst_port n) as Hlen.
  assert (forall i : nat, (i < 54)%nat -> byte_at mem (zlen pre) (Z.of_nat i) = default 0 (test_headers dst_port (Z.of_nat n) !! i)) as B.
  { intros i Hi. unfold mem. rewrite packet_byte_at by (unfold zlen in Hlen; lia). unfold test_packet.
    by rewrite lookup_app_l by (cbn; lia). }
  destruct (parse_packet_spec mem (zlen pre) (54 + Z.of_nat n)) as (v & Hv & Hok & Hview).
  { unfold mem. apply Forall_app. split; [done|]. apply Forall_app. split; [by apply test_packet_ok|done]. }
  { apply zlen_nonneg. }
  { unfold mem. autorewrite with zlen. rewrite Hlen. pose proof (zlen_nonneg post). lia. }
  { lia. }
  assert (forall (i : nat) a b, (i < 53)%nat -> test_headers dst_port (Z.of_nat n) !! i = Some a ->
    test_headers dst_port (Z.of_nat n) !! S i = Some b -> be16_at mem (zlen pre) (Z.of_nat i) = 256 * a + b) as W.
  { intros i a b Hi Ha Hb. unfold be16_at. rewrite B, Ha by lia. change (Z.of_nat i + 1) with (Z.succ (Z.of_nat i)).
    by rewrite <-Nat2Z.inj_succ, B, Hb by lia. }
  assert (byte_at mem (zlen pre) 14 = 0x45) as B14 by exact (B 14%nat ltac:(lia)).
  assert (byte_at mem (zlen pre) 23 = kIPv4ProtocolTCP) as B23 by exact (B 23%nat ltac:(lia)).
  assert (byte_at mem (zlen pre) (34 + 12) = 0x50) as B46 by exact (B 46%nat ltac:(lia)).
  assert (be16_at mem (zlen pre) 12 = kEtherTypeIPv4) as W12 by exact (W 12%nat _ _ ltac:(lia) eq_refl eq_refl).
  assert (be16_at mem (zlen pre) 16 = 40 + Z.of_nat n) as W16
    by (rewrite (W 16%nat _ _ ltac:(lia) eq_refl eq_refl : be16_at mem (zlen pre) 16 = _); symmetry; apply Z.div_mod; lia).
  assert (be16_at mem (zlen pre) 20 = 0) as W20 by exact (W 20%nat _ _ ltac:(lia) eq_refl eq_refl).
  assert (be32_at mem (zlen pre) 26 = 0 /\ be32_at mem (zlen pre) 30 = 0) as [W26 W30].
  { unfold be32_at. rewrite (W 26%nat _ _ ltac:(lia) eq_refl eq_refl : be16_at mem (zlen pre) 26 = _),
      (W 28%nat _ _ ltac:(lia) eq_refl eq_refl : be16_at mem (zlen pre) (26 + 2) = _),
      (W 30%nat _ _ ltac:(lia) eq_refl eq_refl : be16_at mem (zlen pre) 30 = _),
      (W 32%nat _ _ ltac:(lia) eq_refl eq_refl : be16_at mem (zlen pre) (30 + 2) = _). done. }
  assert (be16_at mem (zlen pre) 34 = 12345) as W34 by exact (W 34%nat _ _ ltac:(lia) eq_refl eq_refl).
  assert (be16_at mem (zlen pre) (34 + 2) = dst_port) as W36
    by (rewrite (W 36%nat _ _ ltac:(lia) eq_refl eq_refl : be16_at mem (zlen pre) (34 + 2) = _); symmetry; apply Z.div_mod; lia).
  assert (ip_header_length mem (zlen pre) = 20) as Hihl by (unfold ip_header_length; by rewrite B14).
  assert (l4_start mem (zlen pre) = 34) as Hl4 by (unfold l4_start; by rewrite Hihl).
  assert (tcp_length_at mem (zlen pre) 34 = 20) as Htcp by (unfold tcp_length_at; by rewrite B46).
  assert (transport_length mem (zlen pre) = 20 + Z.of_nat n) as Htl
    by (unfold transport_length, ip_total_length; rewrite Hihl, W16; lia).
  rewrite Hv, Hview.
  - f_equal. unfold frame_view, transport_header_length, transport_payload_length, ip_total_length.
    rewrite B23, Hl4, Hihl, Htcp, Htl, W16, W26, W30, W34, W36. rewrite Z.eqb_refl. f_equal. lia.
  - apply Hok. unfold well_formed_frame, valid_transport, ip_total_length. rewrite W12, B14, Hihl, W16, W20, B23, Hl4, Htcp, Htl.
    split_and!; try done; try lia.
Qed.

(** ** The claim on the test packet *)

(** The demonstrations work on real packets: wherever [build_test_packet] is called
    with room for the frame, it writes the frame's [54 + payload_size] bytes and nothing
    else, and the parser accepts what it wrote, as a TCP packet from port 12345 to
    [dst_port] whose payload are the bytes [0, 1, 2, ...] modulo 256 behind 54 bytes of
    headers; the packet's length fits its 16-bit field up to 65495 bytes of payload. *)
Theorem test_packet_parses mem base dst_port payload_size :
  mem_ok mem -> fits 16 dst_port -> 0 <= payload_size <= 65495 -> 0 <= base -> base + 54 + payload_size <= zlen mem ->
  exists mem' view, build_test_packet mem (Some base) dst_port payload_size = Some mem' /\
    zlen mem' = zlen mem /\ mem_ok mem' /\
    (forall i, ~ base <= i < base + 54 + payload_size -> mem'.[i] = mem.[i]) /\
    parse_packet mem' (Some base) (54 + payload_size) = Some view /\
    pv_is_tcp view = true /\ pv_src_port view = 12345 /\ pv_dst_port view = dst_port /\
    pv_payload_offset view = 54 /\ pv_payload_length view = payload_size /\
    (forall k, 0 <= k < payload_size -> mem'.[base + 54 + k] = Some (k mod 256)).
Proof.
  intros Hm Hd Hp Hb Hroom. assert (exists n : nat, payload_size = Z.of_nat n) as [n ->] by (exists (Z.to_nat payload_size); lia).
  set (pre := take (Z.to_nat base) mem). set (l := take (54 + n) (drop (Z.to_nat base) mem)).
  set (post := drop (54 + n) (drop (Z.to_nat base) mem)).
  assert (mem = pre ++ l ++ post) as Hmem by (subst pre l post; by rewrite !take_drop).
  assert (zlen pre = base) as Hpre by (unfold pre, zlen in *; rewrite length_take; lia).
  assert (length l = (54 + n)%nat) as Hl by (unfold l, zlen in *; rewrite length_take, length_drop; lia).
  clearbody pre l post. subst mem base. rewrite build_test_packet_spec by (done || lia).
  assert (mem_ok pre /\ mem_ok post) as [Hpre Hpost].
  { apply Forall_app in Hm as [? Hm]. apply Forall_app in Hm as [_ ?]. done. }
  pose proof (test_packet_length dst_port n) as Hlen.
  eexists _, _. split; [done|]. split_and!; [| | |apply test_packet_view; [done..|lia]|done..|].
  - autorewrite with zlen. unfold zlen in *. lia.
  - apply Forall_app. split; [done|]. apply Forall_app. split; [apply test_packet_ok; [done|lia]|done].
  - intros i Hi. unfold aget. case_decide; [|done]. destruct (decide (i < zlen pre)).
    + unfold zlen in *. by rewrite !lookup_app_l by lia.
    + unfold zlen in *. rewrite !(lookup_app_r pre), !lookup_app_r by lia. f_equal. lia.
  - intros k Hk. unfold aget. pose proof (zlen_nonneg pre). rewrite decide_True by lia. unfold zlen in *.
    rewrite lookup_app_r, lookup_app_l by lia. unfold test_packet.
    rewrite lookup_app_r by (cbn; lia). change (length (test_headers dst_port (Z.of_nat n))) with 54%nat.
    unfold test_payload. rewrite list_lookup_fmap, lookup_seq_lt by lia. cbn. do 2 f_equal. lia.
Qed.

Lemma test_packet_parses_witness :
  exists mem' view, build_test_packet (replicate 100 7) (Some 3) 8080 32 = Some mem' /\ mem'.[0] = Some 7 /\
    parse_packet mem' (Some 3) 86 = Some view /\ pv_dst_port view = 8080.
Proof.
  destruct (test_packet_parses (replicate 100 7) 3 8080 32) as (mem' & view & Hb & _ & _ & Hi & Hv & _ & _ & Hd & _).
  - by apply Forall_replicate.
  - done.
  - done.
  - done.
  - done.
  - exists mem', view. split; [exact Hb|]. split; [rewrite (Hi 0 ltac:(lia)); reflexivity|]. split; [exact Hv|exact Hd].
Defined.

(** ** The demonstrations, run *)

Definition demo_umem (ports : list Z) (rest : Memory) : Memory :=
  foldr (fun port m => test_packet port 32 ++ replicate 4010 0 ++ m) rest ports.

Definition demo_descriptor (k : nat) : PacketDescriptor := mkPacketDescriptor (4096 * Z.of_nat k) 86 0.

(** A test packet at the start of an empty frame. *)
Lemma build_frame port (pre rest : Memory) :
  fits 16 port ->
  build_test_packet (pre ++ replicate 4096 0 ++ rest) (Some (zlen pre)) port demo_payload_size
  = Some (pre ++ test_packet port 32 ++ replicate 4010 0 ++ rest).
Proof.
  intros Hport. change demo_payload_size with (Z.of_nat 32).
  change (replicate 4096 0) with (replicate ((54 + 32) + 4010) 0). rewrite replicate_add, <-app_assoc.
  apply build_test_packet_spec; [done|done|apply length_replicate].
Qed.

(** The test packets lie at the starts of consecutive frames. *)
Lemma demo_build_spec ports (k : nat) pre rest :
  Forall (fits 16) ports -> zlen pre = 4096 * Z.of_nat k -> Z.of_nat (k + length ports) <= 16 ->
  demo_build (pre ++ replicate (length ports * 4096) 0 ++ rest)
    ((fun i => make_handle 4096 (Z.of_nat i)) <$> seq k (length ports)) ports
  = Some (pre ++ demo_umem ports rest, demo_descriptor <$> seq k (length ports)).
Proof.
  revert k pre. induction ports as [|port ports IH]; intros k pre Hf Hpre Hk; [done|].
  apply Forall_cons in Hf as [Hport Hf]. cbn [length seq fmap list_fmap demo_build].
  assert (fh_address (make_handle 4096 (Z.of_nat k)) = zlen pre) as Ha.
  { rewrite Hpre. cbn. rewrite wrap_small; [lia|]. unfold fits. cbn [length] in Hk. lia. }
  rewrite Ha, Z.add_0_l. cbn [Nat.mul]. rewrite replicate_add, <-app_assoc, build_frame by done. cbn [mbind option_bind].
  specialize (IH (S k) (pre ++ test_packet port 32 ++ replicate 4010 0)). rewrite <-!app_assoc in IH.
  rewrite IH; [|done| |cbn [length] in Hk; lia].
  - cbn [mbind option_bind]. rewrite Hpre. done.
  - autorewrite with zlen. rewrite test_packet_length. lia.
Qed.

Lemma demo_umem_zero (ports : list Z) : (length ports <= 16)%nat ->
  replicate (Z.to_nat (16 * 4096)) 0
  = [] ++ replicate (length ports * 4096) 0 ++ replicate (Z.to_nat (16 * 4096 - 4096 * zlen ports)) 0.
Proof. intros. cbn [app]. rewrite <-replicate_add. f_equal. unfold zlen. lia. Qed.

(** The control core that has both rules. *)
Definition demo_rules_core : ControlCore :=
  mkControlCore (mkRuleTable (demo_drop_rule :: demo_delay_rule :: replicate 126 ChaosRule_default) 2) StatUpdate_default false.

Definition demo_final_umem : Memory := demo_umem demo_test_ports (replicate (Z.to_nat (16 * 4096 - 4096 * zlen demo_test_ports)) 0).

Definition demo_result : DemoResult :=
  Eval vm_compute in
  match demo_process demo_rules_core demo_final_umem (demo_descriptor <$> seq 0 (length demo_test_ports)) with
  | Some r => r
  | None => mkDemoResult [] (mkDataPlaneBatchResult DataPlaneBatchStats_default 0 0) [] [] 0 ""
  end.

Lemma demo_process_result :
  demo_process demo_rules_core demo_final_umem (demo_descriptor <$> seq 0 (length demo_test_ports)) = Some demo_result.
Proof. vm_compute. reflexivity. Qed.

Lemma demo_installed padding :
  exists core core', install_rule padding ControlPlaneCore_new demo_drop_rule = Some core /\
    install_rule padding core demo_delay_rule = Some core' /\ cp_control_ core' = demo_rules_core.
Proof. eexists _, _. split; [vm_compute; reflexivity|]. split; [vm_compute; reflexivity|]. vm_compute. reflexivity. Qed.

Lemma demo_allocated :
  exists a, demo_allocate (Z.to_nat kDemoBatchSize) (FrameAllocator_new kDemoFrameCount)
    = Some ((fun i => make_handle 4096 (Z.of_nat i)) <$> seq 0 (length demo_test_ports), a).
Proof. eexists. vm_compute. reflexivity. Qed.

Lemma demo_built :
  demo_build (replicate (Z.to_nat (kDemoFrameCount * kDefaultFrameSizeBytes)) 0)
    ((fun i => make_handle 4096 (Z.of_nat i)) <$> seq 0 (length demo_test_ports)) demo_test_ports
  = Some (demo_final_umem, demo_descriptor <$> seq 0 (length demo_test_ports)).
Proof.
  unfold kDemoFrameCount, kDefaultFrameSizeBytes. rewrite (demo_umem_zero demo_test_ports) by (cbn; lia).
  apply (demo_build_spec demo_test_ports 0 []); [by repeat constructor|reflexivity|cbn; lia].
Qed.

(** The demonstration drops what it says.  Both rules reach the table over the wire
    protocol; of the four packets the two for port 8080 are dropped and their frames
    recycled, the one for port 443 matches no rule and is transmitted, and so is the one
    for port 9090, for which the coin of the 50%-rule falls on pass; nothing is left
    waiting in the wheel. *)
Theorem demo_outcome padding :
  exists r, run_demo padding = Some r /\ dr_rules r = [demo_drop_rule; demo_delay_rule] /\
    dr_tx r = [mkProcessedFrame 4096 86 2 PacketAction_Pass; mkProcessedFrame 8192 86 0 PacketAction_Pass] /\
    dr_recycled r = [mkProcessedFrame 0 86 1 PacketAction_Drop; mkProcessedFrame 12288 86 1 PacketAction_Drop] /\
    bs_packets_seen (br_stats (dr_batch r)) = 4 /\ bs_packets_dropped (br_stats (dr_batch r)) = 2 /\ dr_pending r = 0.
Proof.
  exists demo_result. split; [|split_and!; reflexivity].
  destruct (demo_installed padding) as (core & core' & H1 & H2 & Hcore). destruct demo_allocated as [a Ha].
  unfold run_demo. apply bind_Some. exists core. split; [exact H1|]. apply bind_Some. exists core'. split; [exact H2|].
  apply bind_Some. eexists. split; [exact Ha|]. apply bind_Some. eexists. split; [exact demo_built|].
  rewrite Hcore. exact demo_process_result.
Qed.

Definition runtime_demo_ports : list Z := [443; 8080].

Definition runtime_demo_umem : Memory :=
  demo_umem runtime_demo_ports (replicate (Z.to_nat (16 * 4096 - 4096 * zlen runtime_demo_ports)) 0).

(** The allocator and the socket after [init], and the socket after [consume_fill]. *)
Definition runtime_demo_ready : FrameAllocator * SimulatedXskSocket * SimulatedXskSocket :=
  Eval vm_compute in
  default (FrameAllocator_new 16, SimulatedXskSocket_default 16 16 16 16, SimulatedXskSocket_default 16 16 16 16)
    ('(_, rt) ← ra_init (XskSocket0 := demo_socket) 16 4096 (mkAfXdpRuntimeAdapter [] (FrameAllocator_new 16)
       (SimulatedXskSocket_default 16 16 16 16) tt false) (mkRuntimeConfig 4);
     '(_, _, socket) ← consume_fill 16 (ra_socket_ rt) [0; 0];
     Some (ra_allocator_ rt, ra_socket_ rt, socket)).

Definition runtime_demo_adapter (umem : Memory) (socket : SimulatedXskSocket) : DemoRuntime :=
  mkAfXdpRuntimeAdapter umem runtime_demo_ready.1.1 socket (TimingWheel_default 64 16) true.

Lemma runtime_demo_started :
  ra_init (XskSocket0 := demo_socket) 16 kDefaultFrameSizeBytes
    (ra_default 16 kDefaultFrameSizeBytes (SimulatedXskSocket_default 16 16 16 16) (TimingWheel_default 64 16)) (mkRuntimeConfig 4)
  = Some (RuntimeStatus_Ok, runtime_demo_adapter (replicate (Z.to_nat (16 * 4096)) 0) runtime_demo_ready.1.2) /\
  consume_fill 16 runtime_demo_ready.1.2 [0; 0] = Some (2, [0; 4096], runtime_demo_ready.2).
Proof.
  split; [|vm_compute; reflexivity]. unfold ra_default, runtime_demo_adapter.
  change (Z.to_nat (u64 (16 * kDefaultFrameSizeBytes))) with (Z.to_nat (16 * 4096)).
  generalize (replicate (Z.to_nat (16 * 4096)) 0) (TimingWheel_default 64 16). intros umem wheel. vm_compute. reflexivity.
Qed.

Lemma runtime_demo_built :
  exists umem, build_test_packet (replicate (Z.to_nat (16 * 4096)) 0) (Some (0 + 0)) 443 demo_payload_size = Some umem /\
    build_test_packet umem (Some (0 + 4096)) 8080 demo_payload_size = Some runtime_demo_umem.
Proof.
  rewrite (demo_umem_zero runtime_demo_ports) by (cbn; lia). set (rest := replicate (Z.to_nat _) 0).
  cbn [app]. change (length runtime_demo_ports * 4096)%nat with (4096 + 4096)%nat. rewrite replicate_add, <-app_assoc.
  eexists. split; [exact (build_frame 443 [] _ ltac:(done))|]. cbn [app]. rewrite app_assoc.
  assert (0 + 4096 = zlen (test_packet 443 32 ++ replicate 4010 0)) as ->
    by (rewrite zlen_app, test_packet_length; reflexivity).
  rewrite build_frame by done. by rewrite <-app_assoc.
Qed.

Definition runtime_demo_result : option RuntimeDemoResult :=
  Eval vm_compute in runtime_demo_polls (runtime_demo_adapter runtime_demo_umem runtime_demo_ready.2) 0 4096.

Lemma runtime_demo_polled :
  runtime_demo_polls (runtime_demo_adapter runtime_demo_umem runtime_demo_ready.2) 0 4096 = runtime_demo_result.
Proof. vm_compute. reflexivity. Qed.

(** The runtime demonstration moves its frames as it says: of the two packets
    received, the one for port 443 is transmitted and, once completed, refilled, the one
    for port 8080 is dropped and its frame refilled at once; no ring is full, no owner
    wrong, and in the end all four frames are on the fill ring again. *)
Theorem runtime_demo_outcome :
  exists first second, run_runtime_demo = Some (RuntimeDemo_Complete
      (mkRuntimePollResult RuntimeStatus_Ok (mkRuntimePollStats 2 1 0 1 0 0 first))
      (mkRuntimePollResult RuntimeStatus_Ok (mkRuntimePollStats 0 0 1 1 0 0 second)) 4) /\
    bs_packets_seen first = 2 /\ bs_packets_dropped first = 1 /\ bs_packets_seen second = 0.
Proof.
  eexists _, _. enough (forall r, runtime_demo_result = Some r -> run_runtime_demo = Some r) as H
    by (split; [apply H; reflexivity|split_and!; reflexivity]). intros r Hr.
  destruct runtime_demo_started as [Hinit Hfill]. destruct runtime_demo_built as (umem & H1 & H2).
  unfold run_runtime_demo. apply bind_Some. eexists. split; [exact Hinit|]. apply bind_Some. eexists. split; [exact Hfill|].
  apply bind_Some. exists 0. split; [reflexivity|]. apply bind_Some. exists 4096. split; [reflexivity|].
  apply bind_Some. exists umem. split; [exact H1|]. apply bind_Some. eexists. split; [exact H2|].
  rewrite <-Hr. exact runtime_demo_polled.
Qed.
