(* ===== verification/RuleEffect.v ===== *)
(** * From the wire to the packets

    The control plane and the data plane together, as [main.cpp] composes them: a rule is
    encoded, sent to the control plane, published as a snapshot, and the next batch of
    packets is processed under that snapshot. *)

From S2P Require Import Prelude Types TimingWheel PacketParser ChaosEngine DataPlane Protocol ControlCore ControlPlane Demo.

(** ** Installing a rule *)

Lemma handle_requests_repr padding requests results core :
  Forall (fits 8) padding -> Forall request_ok requests ->
  handle_requests padding ControlPlaneCore_new requests = Some (results, core) ->
  plane_repr core (sn_rules_ (current_rules core)) StatUpdate_default.
Proof.
  intros Hpad Hok Hrun.
  destruct (handle_requests_spec padding Hpad _ _ _ _ ControlPlaneCore_new_repr Hok) as (results' & core' & Hrun' & _ & Hc & Hs).
  rewrite Hrun in Hrun'. apply (inj Some), pair_equal_spec in Hrun' as [_ <-]. split; [|done]. unfold current_rules. by rewrite Hs.
Qed.

Lemma install_rule_spec padding core rules stats rule :
  Forall (fits 8) padding -> plane_repr core rules stats -> rule_ok rule ->
  exists core', install_rule padding core rule = Some core' /\
    plane_repr core' (if bool_decide (zlen rules < kDefaultMaxRules) then rules ++ [rule] else rules) stats.
Proof.
  intros Hpad Hc Hr. unfold install_rule. set (header := mkMessageHeader _ _ _ _ _ _ _).
  assert (zlen (bytes_of_rule rule) = 40) as Hz by (apply (zlen_length _ 40), bytes_of_rule_length, Hr).
  assert (header_ok header) as Hh by (split; try done; apply Hr).
  pose proof (bytes_of_rule_fits _ Hr) as Hb.
  rewrite encode_message_spec by (done || rewrite Hz; done). cbn [mbind option_bind er_bytes_written].
  assert (zlen (message_bytes (sent_header header (bytes_of_rule rule)) (bytes_of_rule rule)) = kProtocolHeaderBytes + zlen (bytes_of_rule rule)) as Hm.
  { unfold message_bytes. by rewrite zlen_app, (zlen_length _ 24) by apply header_bytes_length. }
  rewrite take_app_zlen by done. set (request := message_bytes _ _) in *.
  assert (decode_message request = Some (mkDecodeResult ProtocolStatus_Ok
    (mkDecodedMessage (sent_header header (bytes_of_rule rule)) (bytes_of_rule rule)))) as Hd.
  { rewrite <-(app_nil_r request). apply decode_sent; try done. by rewrite Hz. }
  destruct (handle_request_spec padding Hpad core rules stats request (replicate 512 0) Hc) as (decoded & rsp & response' & core' & Hd' & Hrun & Hc' & _).
  { unfold request, message_bytes. apply Forall_app. split; [|done]. apply header_bytes_fits, sent_header_ok; try done; by rewrite Hz. }
  { by apply Forall_replicate. }
  { done. }
  rewrite Hd in Hd'. apply (inj Some) in Hd' as <-. rewrite Hrun. cbn [mbind option_bind]. exists core'. split; [done|].
  revert Hc'. unfold plane_reply, core_reply. cbn [dr_status dr_message dm_payload dm_header].
  rewrite bool_decide_false by tauto. change (mh_opcode (sent_header header (bytes_of_rule rule))) with Opcode_AddRule. cbn iota.
  rewrite bool_decide_false by (rewrite Hz; tauto). rewrite rule_of_bytes_of_rule by done. by case_bool_decide.
Qed.

(** ** What a packet meets *)

(** The fate of a frame whose packet gets [action], when the spans have room. *)
Definition fate_of_action (action : PacketAction) (k : Fate) : Prop :=
  match action with
  | PacketAction_Drop => k = Recycled
  | PacketAction_Delay => k = Delayed \/ k = Recycled
  | _ => k = Transmitted
  end.

(** What [rule], at the end of [rules], does to a frame.  A frame that is not a valid packet
    is recycled; a packet that an older rule takes, or that [rule] does not match, meets
    the older rules alone; any other gets the action of [rule] when the roll of its flow is
    below the probability, and passes otherwise. *)
Definition rule_effect (umem_base : Ptr) (umem_size : Z) (rules : list ChaosRule) (rule : ChaosRule) (mem : Memory)
    (d : PacketDescriptor) (e : ProcessedFrame * Fate) : Prop :=
  match received_view umem_base umem_size mem d with
  | None => e = (mkProcessedFrame (pd_frame_address d) (pd_frame_length d) 0 PacketAction_Pass, Recycled)
  | Some view =>
      if bool_decide (Forall (fun r => rule_matches_packet r view = false) rules) && rule_matches_packet rule view then
        let action := rolled_action rule (flow_roll rule view) in
        e.1 = mkProcessedFrame (pd_frame_address d) (pd_frame_length d) (cr_id rule) action /\ fate_of_action action e.2
      else
        let decision := decide_packet_fast view rules in
        e.1 = mkProcessedFrame (pd_frame_address d) (pd_frame_length d) (cd_rule_id decision) (cd_action decision) /\ fate_of_action (cd_action decision) e.2
  end.

(** What [fate_step] gives a frame with room in both spans. *)
Lemma fate_step_action {W : Type} `{!DelayQueue W} tick_ns d decision tx_room recycle_room (wheel wheel' : W) k :
  fate_step tick_ns d decision tx_room recycle_room wheel = Some (k, wheel') -> 0 < tx_room -> 0 < recycle_room ->
  match decision with
  | None => k = Recycled
  | Some decision => fate_of_action (cd_action decision) k
  end.
Proof.
  assert (forall (a : Fate) (w : W), Some (a, w) = Some (k, wheel') -> a = k) as Hinj by (intros a w [=]; done).
  intros Hk Htx Hre. revert Hk. unfold fate_step, recycled_fate, should_drop, should_delay.
  rewrite (proj2 (Z.ltb_lt 0 tx_room)), (proj2 (Z.ltb_lt 0 recycle_room)) by done.
  destruct decision as [decision|]; [|by intros <-%Hinj]. unfold fate_of_action.
  case_bool_decide as Hdrop; [rewrite Hdrop; by intros <-%Hinj|]. case_bool_decide as Hdelay.
  - rewrite Hdelay. intros ([status w] & _ & <-%Hinj)%bind_Some. case_match; auto.
  - intros <-%Hinj. by destruct (cd_action decision).
Qed.

Lemma batch_fates_action {W : Type} `{!DelayQueue W} tick_ns (decision : PacketDescriptor -> option ChaosDecision) ds tx_room recycle_room (wheel wheel' : W) entries :
  batch_fates tick_ns ((fun d => (d, decision d)) <$> ds) tx_room recycle_room wheel = Some (entries, wheel') ->
  zlen ds <= tx_room -> zlen ds <= recycle_room ->
  Forall2 (fun d e => e.1 = report d (decision d) /\
    match decision d with None => e.2 = Recycled | Some decision => fate_of_action (cd_action decision) e.2 end) ds entries.
Proof.
  revert tx_room recycle_room wheel entries. induction ds as [|d ds IH]; intros tx_room recycle_room wheel entries; [by intros [= <- _]|].
  rewrite fmap_cons, zlen_cons. cbn [batch_fates]. pose proof (zlen_nonneg ds).
  intros ([k w] & Hk & ([es w'] & Hes & Heq)%bind_Some)%bind_Some Htx Hre.
  apply (inj Some), pair_equal_spec in Heq as [<- <-]. constructor.
  - split; [done|]. by eapply fate_step_action; [exact Hk|lia|lia].
  - by eapply IH; [exact Hes|clear Hes; case_decide; lia|clear Hes; case_decide; lia].
Qed.

(** The decision under the longer list. *)
Lemma decide_packet_fast_snoc view rules rule :
  decide_packet_fast view (rules ++ [rule])
  = if bool_decide (Forall (fun r => rule_matches_packet r view = false) rules) && rule_matches_packet rule view
    then decide_for_rule_fast rule view else decide_packet_fast view rules.
Proof.
  case_bool_decide as Hall; cbn [andb].
  - rewrite decide_packet_fast_app by done. cbn [decide_packet_fast]. destruct (rule_matches_packet rule view); [done|].
    by rewrite decide_packet_fast_none.
  - destruct (first_match view rules) as [?|(before & r & after & -> & Hb & Hm)]; [done|].
    rewrite <-app_assoc, (decide_packet_fast_app _ before (r :: after)), decide_packet_fast_app by done.
    cbn [app decide_packet_fast]. by rewrite !Hm.
Qed.

Lemma action_effect umem_base umem_size rules rule mem d e :
  fits 16 (cr_probability rule) ->
  let decision := received_decision umem_base umem_size (rules ++ [rule]) mem d in
  e.1 = report d decision /\
  match decision with None => e.2 = Recycled | Some decision => fate_of_action (cd_action decision) e.2 end ->
  rule_effect umem_base umem_size rules rule mem d e.
Proof.
  intros Hp decision. subst decision. unfold rule_effect, received_decision, report.
  destruct e as [pf k], (received_view _ _ _ _) as [view|]; cbn [mbind option_bind fst snd default pass_decision cd_rule_id cd_action];
    [|by intros [-> ->]].
  rewrite decide_packet_fast_snoc. cbn [from_option id]. destruct (_ && _); [|done].
  destruct (decide_for_rule_fast_spec rule view (proj1 Hp)) as (Ha & Hi & _). by rewrite Hi, Ha.
Qed.

(** C6: a rule sent to the control plane takes effect on the next packets.  After any run
    of requests, [install_rule] runs, and if the table has room the published snapshot is
    the old one with the rule at the end, exactly as it was sent.  Then, in every batch of
    disjoint frames that is processed under that snapshot, with room in the spans: every
    valid packet that the new rule matches and no older one does is reported with the
    rule's id and gets its action if the roll of its flow is below the probability (it is
    dropped, delayed, or passed on); every other packet is treated exactly as under the
    old rules; a packet to delay is scheduled with the delay of its decision, and recycled only
    if the queue refuses it.  With a full table the rule is refused and the snapshot stays. *)
Theorem installed_rule_takes_effect padding requests results core rule :
  Forall (fits 8) padding -> Forall request_ok requests ->
  handle_requests padding ControlPlaneCore_new requests = Some (results, core) -> rule_ok rule ->
  let rules := sn_rules_ (current_rules core) in
  exists core', install_rule padding core rule = Some core' /\
    let rules' := sn_rules_ (current_rules core') in
    (kDefaultMaxRules <= zlen rules -> rules' = rules) /\
    (zlen rules < kDefaultMaxRules -> rules' = rules ++ [rule] /\
     forall (W : Type) (queue : DelayQueue W) mem umem_base umem_size ds (wheel : W) tx recycle tick_ns held,
       batch_args_ok umem_base umem_size [] tick_ns mem ds tx recycle -> dq_holds wheel held ->
       ForallOrdPairs (frames_disjoint umem_base umem_size) ds -> zlen ds <= zlen tx -> zlen ds <= zlen recycle ->
       exists st entries,
         process_packet_batch mem umem_base umem_size ds rules' wheel tx recycle tick_ns = Some st /\
         take (Z.to_nat (br_tx_count (ba_result st))) (ba_tx_output st) = with_fate Transmitted entries /\
         take (Z.to_nat (br_recycle_count (ba_result st))) (ba_recycle_output st) = with_fate Recycled entries /\
         dq_holds (ba_wheel st) (reverse (pf_key <$> with_fate Delayed entries) ++ held) /\
         Forall2 (rule_effect umem_base umem_size rules rule mem) ds entries /\
         batch_fates tick_ns ((fun d => (d, received_decision umem_base umem_size (rules ++ [rule]) mem d)) <$> ds)
           (zlen tx) (zlen recycle) wheel = Some (entries, ba_wheel st)).
Proof.
  intros Hpad Hok Hrun Hr rules. pose proof (handle_requests_repr _ _ _ _ Hpad Hok Hrun) as Hc. fold rules in Hc.
  destruct (install_rule_spec _ _ _ _ _ Hpad Hc Hr) as (core' & Hinst & [Hc' Hs]). exists core'. split; [done|].
  intros rules'. assert (rules' = if bool_decide (zlen rules < kDefaultMaxRules) then rules ++ [rule] else rules) as E by done.
  split; [intros Hfull; rewrite E, bool_decide_false by lia; done|]. intros Hroom. rewrite bool_decide_true in E, Hc' by done.
  split; [done|]. rewrite E. intros W queue mem umem_base umem_size ds wheel tx recycle tick_ns held Hargs Hw Hdis Htx Hrec.
  destruct (batch_run mem umem_base umem_size ds (rules ++ [rule]) wheel tx recycle tick_ns held) as (st & es & Hb & Hinv & H2 & _ & _ & _ & Hf); [|done|].
  { destruct Hargs. split; try done. eapply Forall_impl; [apply (cr_rules_ok _ _ _ _ Hc')|]. intros r Hr'. apply (ro_delay _ Hr'). }
  exists st, es. destruct Hinv as [_ Ht _ Hre _ Hwh _]. destruct (Hf Hdis) as [Hfates _].
  split_and!; [done|apply Ht|apply Hre|done| |done].
  eapply Forall2_impl; [by eapply batch_fates_action|]. intros d e. apply action_effect, Hr.
Qed.

(** The rule is taken by a plane that has already answered two requests. *)
Lemma installed_rule_takes_effect_witness :
  exists results core core',
    handle_requests [0; 0; 0; 0] ControlPlaneCore_new [(example_clear_request, replicate 64 0); ([1; 2; 3], replicate 64 0)]
      = Some (results, core) /\
    install_rule [0; 0; 0; 0] core example_rule = Some core' /\ sn_rules_ (current_rules core') = [example_rule] /\
    exists st entries,
      process_packet_batch (DelayQueue0 := small_wheel_queue) example_umem (Some 2) 128 example_descriptors
        (sn_rules_ (current_rules core')) (TimingWheel_default 4 2) example_outputs example_outputs 1000000 = Some st /\
      Forall2 (rule_effect (Some 2) 128 [] example_rule example_umem) example_descriptors entries.
Proof.
  destruct (handle_requests [0; 0; 0; 0] ControlPlaneCore_new [(example_clear_request, replicate 64 0); ([1; 2; 3], replicate 64 0)])
    as [[results core]|] eqn:Hrun; [|by vm_compute in Hrun].
  assert (sn_rules_ (current_rules core) = []) as Hnil by (vm_compute in Hrun; by injection Hrun as <- <-).
  destruct (installed_rule_takes_effect [0; 0; 0; 0] [(example_clear_request, replicate 64 0); ([1; 2; 3], replicate 64 0)] results core example_rule)
    as (core' & Hinst & _ & Heff).
  - by repeat constructor.
  - repeat constructor; by vm_compute.
  - exact Hrun.
  - by repeat split; try (vm_compute; lia); repeat constructor.
  - rewrite Hnil in Heff. destruct (Heff ltac:(done)) as [Hrules Hbatch].
    exists results, core, core'. split; [reflexivity|]. split; [exact Hinst|]. split; [exact Hrules|].
    destruct (Hbatch _ small_wheel_queue example_umem (Some 2) 128 example_descriptors (TimingWheel_default 4 2) example_outputs example_outputs 1000000 [])
      as (st & es & Hst & _ & _ & _ & H2 & _).
    + destruct example_batch_ok. by split.
    + clear Hrun Hinst Hbatch. by apply TimingWheel_default_holds.
    + apply example_frames_disjoint.
    + apply Z.leb_le; reflexivity.
    + apply Z.leb_le; reflexivity.
    + exists st, es. split; [exact Hst|exact H2].
Defined.
