(* ===== verification/Main.v ===== *)
(** * [src/main.cpp]: the command line and the server mode

    [main] chooses between the server, the two demonstrations and live mode; numbers on
    the command line go through [std::stoi] and [std::stoul], whose exceptions nobody
    catches. *)

From Stdlib Require Import Ascii String.
From S2P Require Import Prelude Types Ring ChaosEngine Protocol ControlCore ControlPlane ControlServer Demo.
Local Open Scope string_scope.
Local Open Scope Z_scope.

(** ** [std::stoi] and [std::stoul] in base 10; [None] is an exception *)

Definition is_space (c : ascii) : bool := let n := Z.of_nat (nat_of_ascii c) in (n =? 32) || ((9 <=? n) && (n <=? 13)).

Definition digit_value (c : ascii) : option Z :=
  let n := Z.of_nat (nat_of_ascii c) in if (48 <=? n) && (n <=? 57) then Some (n - 48) else None.

Fixpoint skip_spaces (l : list ascii) : list ascii :=
  match l with
  | c :: l' => if is_space c then skip_spaces l' else l
  | [] => []
  end.

(** The value of the digits at the front, after [acc]. *)
Fixpoint digits_value (l : list ascii) (acc : Z) : Z :=
  match l with
  | c :: l => match digit_value c with Some d => digits_value l (10 * acc + d) | None => acc end
  | [] => acc
  end.

Definition unsigned_value (l : list ascii) : option Z :=
  match l with
  | c :: _ => match digit_value c with Some _ => Some (digits_value l 0) | None => None end
  | [] => None
  end.

Definition signed_value (s : string) : option Z :=
  match skip_spaces (list_ascii_of_string s) with
  | "-"%char :: l => v ← unsigned_value l; Some (- v)
  | "+"%char :: l => unsigned_value l
  | l => unsigned_value l
  end.

Definition stoi (s : string) : option Z :=
  v ← signed_value s; if (- 2 ^ 31 <=? v) && (v <? 2 ^ 31) then Some v else None.

(** A negative number is negated in [unsigned long]. *)
Definition stoul (s : string) : option Z :=
  v ← signed_value s; if (- 2 ^ 64 <? v) && (v <? 2 ^ 64) then Some (u64 v) else None.

(** ** [main] *)

Inductive MainCommand :=
| Main_Server (port : Z)
| Main_RuntimeDemo
| Main_Live (interface_name : string) (queue_id : Z)
| Main_Demo.

Definition argument_is (argv : list string) (i : nat) (text : string) : bool := argv !! i =?? Some text.

(** What [main] runs; [argv] has [argc] elements. *)
Definition main_command (argv : list string) : option MainCommand :=
  if argument_is argv 1 "--server" then
    port ← (match argv !! 2%nat with Some text => v ← stoi text; Some (u16 v) | None => Some kDemoControlPort end);
    Some (Main_Server port)
  else if argument_is argv 1 "--runtime-demo" then Some Main_RuntimeDemo
  else if argument_is argv 1 "--live" then
    let interface_name := default "eth0" (argv !! 2%nat) in
    queue_id ← (match argv !! 3%nat with Some text => v ← stoul text; Some (u32 v) | None => Some 0 end);
    Some (Main_Live interface_name queue_id)
  else Some Main_Demo.

(** ** [run_server]

    [running] is a local variable that nobody clears, so its value is [true] in each of
    the [rounds] rounds before the loop is left.  The server's destructor runs at the end,
    also when [init] fails. *)

Section run_server.
Context {World : Type} `{!Os World} (padding : list Byte).

Definition run_server (send_fuel rounds : nat) (w : World) (port : Z)
    : option (ControlPlaneStatus * ControlPlaneServer * World) :=
  let core := ControlPlaneCore_new in
  let server := ControlPlaneServer_default core in
  let config := mkControlPlaneConfig port kMaxControlConnections 8 in
  let '(status, server, w) := cs_init w server config core in
  '(server, w) ← (if negb (status =?? ControlPlaneStatus_Ok) then Some (server, w)
                  else cs_run padding send_fuel w server (replicate rounds true));
  '(server, w) ← cs_shutdown w server;
  Some (status, server, w).

End run_server.

(** ** Decimal numbers *)

Definition digit_char (d : Z) : ascii := ascii_of_nat (Z.to_nat (48 + d)).

Definition decimal (ds : list Z) : string := string_of_list_ascii (digit_char <$> ds).

Definition decimal_value (ds : list Z) : Z := foldl (fun acc d => 10 * acc + d) 0 ds.

Lemma digit_value_char d : 0 <= d <= 9 -> digit_value (digit_char d) = Some d.
Proof.
  intros Hd. unfold digit_value, digit_char. rewrite nat_ascii_embedding by lia. rewrite Z2Nat.id by lia.
  destruct (Z.leb_spec 48 (48 + d)), (Z.leb_spec (48 + d) 57); try lia. cbn. f_equal. lia.
Qed.

Lemma digits_value_decimal ds acc :
  Forall (fun d => 0 <= d <= 9) ds -> digits_value (digit_char <$> ds) acc = foldl (fun acc d => 10 * acc + d) acc ds.
Proof.
  intros H. revert acc. induction H as [|d ds Hd _ IH]; intros acc; [done|]. cbn [fmap list_fmap digits_value].
  rewrite digit_value_char by done. apply IH.
Qed.

Lemma signed_value_decimal ds :
  ds <> [] -> Forall (fun d => 0 <= d <= 9) ds -> signed_value (decimal ds) = Some (decimal_value ds).
Proof.
  intros Hne Hds. unfold signed_value, decimal. rewrite list_ascii_of_string_of_list_ascii.
  destruct ds as [|d ds]; [done|]. pose proof Hds as [Hd _]%Forall_cons.
  assert (unsigned_value (digit_char <$> d :: ds) = Some (decimal_value (d :: ds))) as Hu.
  { unfold decimal_value. rewrite <-(digits_value_decimal (d :: ds) 0) by done. unfold unsigned_value. cbn [fmap list_fmap].
    by rewrite digit_value_char. }
  assert (In d [0; 1; 2; 3; 4; 5; 6; 7; 8; 9]) as Hin by (cbn; lia). cbn [fmap list_fmap] in *.
  repeat (destruct Hin as [<-|Hin]; [exact Hu|]). done.
Qed.

Lemma decimal_value_nonneg ds : Forall (fun d => 0 <= d <= 9) ds -> 0 <= decimal_value ds.
Proof.
  unfold decimal_value. intros H. enough (forall acc, 0 <= acc -> 0 <= foldl (fun acc d => 10 * acc + d) acc ds) as E by (by apply E).
  induction H as [|d ds Hd _ IH]; intros acc Ha; cbn; [done|]. apply IH. lia.
Qed.

(** The command line.  [--server] takes the default port 9090 or the decimal number
    given, of which the low 16 bits are used; [--live] takes interface eth0 and queue 0
    or those given, the queue's low 32 bits; [--runtime-demo] runs its demonstration and
    everything else, also no argument at all, the other one.  A number that is not
    below [2^31] (a port) or [2^64] (a queue) ends the program with an exception. *)
Theorem main_dispatches program interface_name rest ds :
  ds <> [] -> Forall (fun d => 0 <= d <= 9) ds ->
  main_command [program] = Some Main_Demo /\
  main_command [program; "--server"] = Some (Main_Server 9090) /\
  main_command (program :: "--server" :: decimal ds :: rest)
    = (if decimal_value ds <? 2 ^ 31 then Some (Main_Server (decimal_value ds mod 2 ^ 16)) else None) /\
  main_command (program :: "--runtime-demo" :: rest) = Some Main_RuntimeDemo /\
  main_command [program; "--live"] = Some (Main_Live "eth0" 0) /\
  main_command [program; "--live"; interface_name] = Some (Main_Live interface_name 0) /\
  main_command (program :: "--live" :: interface_name :: decimal ds :: rest)
    = (if decimal_value ds <? 2 ^ 64 then Some (Main_Live interface_name (decimal_value ds mod 2 ^ 32)) else None) /\
  (forall text, text <> "--server" -> text <> "--runtime-demo" -> text <> "--live" ->
     main_command (program :: text :: rest) = Some Main_Demo).
Proof.
  intros Hne Hds. pose proof (signed_value_decimal ds Hne Hds) as Hv. pose proof (decimal_value_nonneg ds Hds) as H0.
  split_and!; try done.
  - unfold main_command, stoi. cbn [argument_is lookup list_lookup]. change (argument_is _ 1 "--server") with true. cbn iota.
    rewrite Hv. cbn [mbind option_bind]. destruct (Z.leb_spec (- 2 ^ 31) (decimal_value ds)); [|lia]. cbn [andb]. by destruct (_ <? _).
  - unfold main_command, stoul. change (argument_is _ 1 "--server") with false. change (argument_is _ 1 "--runtime-demo") with false.
    change (argument_is _ 1 "--live") with true. cbn iota. cbn [lookup list_lookup]. rewrite Hv. cbn [mbind option_bind].
    destruct (Z.ltb_spec (- 2 ^ 64) (decimal_value ds)); [|lia]. cbn [andb]. destruct (Z.ltb_spec (decimal_value ds) (2 ^ 64)); [|done].
    cbn [mbind option_bind default from_option id]. rewrite (wrap_small 64) by (unfold fits; lia). done.
  - intros text H1 H2 H3. unfold main_command, argument_is. cbn [lookup list_lookup].
    rewrite !bool_decide_false by congruence. done.
Qed.

Lemma main_dispatches_witness :
  main_command ["chronosx"; "--server"; decimal [7; 0; 0; 0; 0]] = Some (Main_Server 4464).
Proof.
  destruct (main_dispatches "chronosx" "eth1" [] [7; 0; 0; 0; 0]) as (_ & _ & H & _).
  - done.
  - repeat constructor; lia.
  - exact H.
Defined.

(** The server mode runs without undefined behaviour, whatever the operating system
    returns, and closes what it has opened. *)
Lemma run_server_runs {World : Type} `{!Os World} `{!OsLaws World} (padding : list Byte) send_fuel rounds (w : World) port :
  Forall (fits 8) padding -> length padding = 4%nat ->
  (os_interrupts w + Z.to_nat kControlResponseBufferBytes <= send_fuel)%nat ->
  exists status server w', run_server padding send_fuel rounds w port = Some (status, server, w') /\
    os_open w' = os_open w /\ srv_idle server.
Proof.
  intros Hpad Hsize Hfuel. unfold run_server.
  pose proof (init_spec w (ControlPlaneServer_default ControlPlaneCore_new) (mkControlPlaneConfig port kMaxControlConnections 8)
    ControlPlaneCore_new [] StatUpdate_default (ControlPlaneServer_default_idle _) ControlPlaneCore_new_repr) as Hi.
  destruct (cs_init _ _ _ _) as [[status server] w1]. destruct Hi as [[Hint _] Hi]. case_bool_decide as Hst; cbn [negb].
  - destruct (run_keeps padding Hpad Hsize send_fuel (replicate rounds true) _ _ _ _ _ _ Hi) as (s2 & w2 & conns & rules' & -> & Hr); [lia|].
    destruct (shutdown_spec _ _ _ _ _ _ Hr) as (s3 & w3 & Hsd & Ho & Hidle & _). cbn [mbind option_bind]. rewrite Hsd.
    by exists status, s3, w3.
  - destruct Hi as [Hidle Ho]. destruct (shutdown_idle w1 server Hidle) as (s3 & Hsd & Hidle3). cbn [mbind option_bind].
    rewrite Hsd. by exists status, s3, w1.
Qed.
