(* ===== verification/Client.v ===== *)
(** * [tools/chronos_client.py]: the command-line client

    The client has its own implementation of the wire protocol, in Python.  Integers of
    [struct.pack] out of their range raise an exception, which ends the program: [None].
    Sockets, commands and printing are in [ClientSession.v]. *)

From S2P Require Import Prelude Types PacketParser ChaosEngine Protocol ControlCore.

Definition HEADER_SIZE : Z := 24.

(** ** CRC-32 *)

Fixpoint client_crc_bits (n : nat) (crc : Z) : Z :=
  match n with
  | O => crc
  | S n => client_crc_bits n (if negb (Z.land crc 1 =? 0) then Z.lxor (Z.shiftr crc 1) 0xEDB88320 else Z.shiftr crc 1)
  end.

Definition crc32_table : list Z := (fun i => Z.land (client_crc_bits 8 (Z.of_nat i)) 0xFFFFFFFF) <$> seq 0 256.

Definition CRC_TABLE : list Z := Eval vm_compute in crc32_table.

Fixpoint client_crc_loop (data : list Byte) (crc : Z) : option Z :=
  match data with
  | [] => Some crc
  | byte :: data =>
      entry ← CRC_TABLE.[Z.land (Z.lxor crc byte) 0xFF];
      client_crc_loop data (Z.lxor entry (Z.shiftr crc 8))
  end.

Definition compute_crc32 (data : list Byte) : option Z :=
  crc ← client_crc_loop data 0xFFFFFFFF; Some (Z.lxor crc 0xFFFFFFFF).

(** ** Messages *)

(** [struct.pack_into] of one big-endian integer of [n] bytes. *)
Definition pack_into (n : nat) (buf : list Byte) (offset : nat) (value : Z) : option (list Byte) :=
  if decide (fits (8 * Z.of_nat n) value /\ (offset + n <= length buf)%nat)
  then Some (take offset buf ++ be_bytes n value ++ drop (offset + n) buf) else None.

Definition client_encode_message (opcode sequence : Z) (payload : list Byte) : option (list Byte) :=
  let buf := replicate (Z.to_nat HEADER_SIZE) 0 in
  buf ← pack_into 2 buf 0 0x4358;
  buf ← pack_into 1 buf 2 1;
  buf ← pack_into 1 buf 3 opcode;
  buf ← pack_into 4 buf 4 sequence;
  buf ← pack_into 4 buf 8 (zlen payload);
  buf ← pack_into 4 buf 12 0;
  crc ← compute_crc32 (buf ++ payload);
  buf ← pack_into 4 buf 12 crc;
  Some (buf ++ payload).

Definition verify_message_crc (header payload : list Byte) : option bool :=
  if negb (zlen header =? HEADER_SIZE) then Some false
  else
    let expected := be_value (field_at header 12 4) in
    normalized ← pack_into 4 header 12 0;
    crc ← compute_crc32 (normalized ++ payload);
    Some (crc =? expected).

(** ** Rules *)

(** [struct.pack(">QQIIIHHHBBBxxx", ...)] of [cmd_add_rule]. *)
Definition client_pack_rule (seed delay rule_id port prob action : Z) : option (list Byte) :=
  if decide (fits 64 seed /\ fits 64 delay /\ fits 32 rule_id /\ fits 16 port /\ fits 16 prob /\ fits 8 action) then
    Some (be_bytes 8 seed ++ be_bytes 8 delay ++ be_bytes 4 rule_id ++ be_bytes 4 0 ++ be_bytes 4 0 ++ be_bytes 2 0 ++
          be_bytes 2 port ++ be_bytes 2 prob ++ [6] ++ [action] ++ [1] ++ [0; 0; 0])
  else None.

(** What [cmd_list_rules] prints of a rule: its id, port, action, probability and whether it is enabled. *)
Definition client_list_rule (payload : list Byte) (offset : nat) : Z * Z * Z * Z * bool :=
  (be_value (field_at payload (offset + 16) 4), be_value (field_at payload (offset + 30) 2),
   be_value (field_at payload (offset + 35) 1), be_value (field_at payload (offset + 32) 2),
   negb (be_value (field_at payload (offset + 36) 1) =? 0)).

(** ** The CRC is the server's *)

Lemma CRC_TABLE_server : CRC_TABLE = kCrc32Table.
Proof. reflexivity. Qed.

Lemma client_crc_server data crc : Forall (fits 8) data -> client_crc_loop data crc = crc32_update crc data.
Proof.
  intros H. revert crc. induction H as [|byte data Hb _ IH]; intros crc; [done|]. cbn [client_crc_loop crc32_update].
  rewrite CRC_TABLE_server. change 0xFF with (Z.ones 8). rewrite land_ones_wrap by lia. rewrite wrap_wrap_le by lia.
  destruct (kCrc32Table.[_]); cbn [mbind option_bind]; [|done]. by rewrite Z.lxor_comm, IH.
Qed.

Lemma compute_crc32_server data : Forall (fits 8) data -> compute_crc32 data = crc32 data.
Proof. intros H. unfold compute_crc32, crc32. by rewrite client_crc_server. Qed.

(** Fields written one after the other. *)
Lemma pack_into_mid n (pre l post : list Byte) offset value :
  fits (8 * Z.of_nat n) value -> length pre = offset -> length l = n ->
  pack_into n (pre ++ l ++ post) offset value = Some (pre ++ be_bytes n value ++ post).
Proof.
  intros Hv <- <-. unfold pack_into. rewrite decide_True; [|split; [done|rewrite !length_app; lia]].
  rewrite take_app_length, (drop_app_ge pre) by lia. replace (length pre + length l - length pre)%nat with (length l) by lia.
  by rewrite drop_app_length.
Qed.

Lemma pack_into_front n (l post : list Byte) value :
  fits (8 * Z.of_nat n) value -> length l = n -> pack_into n (l ++ post) 0 value = Some (be_bytes n value ++ post).
Proof. intros Hv Hl. by apply (pack_into_mid n [] l post 0). Qed.

Lemma be_bytes_1 x : fits 8 x -> be_bytes 1 x = [x].
Proof. intros Hx. cbn. rewrite Z.div_1_r. f_equal. by apply wrap_small. Qed.

(** The header of a client's request. *)
Definition client_header (opcode sequence : Z) : MessageHeader :=
  mkMessageHeader 0 0 (opcode_of_byte opcode) sequence 0 0 0.

Lemma client_header_ok opcode sequence : fits 8 opcode -> fits 32 sequence -> header_ok (client_header opcode sequence).
Proof. intros. split; try done. by apply opcode_of_byte_wf. Qed.

(** The CRC computed over a header with a zero CRC field. *)
Lemma client_message_crc h payload :
  header_ok h -> Forall (fits 8) payload -> compute_crc32 (header_bytes h 0 ++ payload) = Some (message_crc h payload).
Proof.
  intros Hh Hp. assert (Forall (fits 8) (header_bytes h 0 ++ payload)) as Hf.
  { apply Forall_app. split; [apply header_bytes_fits; apply Hh|done]. }
  by rewrite compute_crc32_server, crc32_serial.
Qed.

Lemma pack_crc h crc crc' : fits 32 crc' -> pack_into 4 (header_bytes h crc) 12 crc' = Some (header_bytes h crc').
Proof.
  intros Hc. destruct (header_bytes_prefix h) as (pre & post & Hl & Hcrc). rewrite !Hcrc.
  apply pack_into_mid; [done|done|apply be_bytes_length].
Qed.

Lemma client_encode_spec opcode sequence payload :
  fits 8 opcode -> fits 32 sequence -> Forall (fits 8) payload -> fits 32 (zlen payload) ->
  client_encode_message opcode sequence payload
  = Some (message_bytes (sent_header (client_header opcode sequence) payload) payload).
Proof.
  intros Ho Hs Hp Hl. pose proof (client_header_ok _ _ Ho Hs) as Hh. unfold client_encode_message.
  change (replicate (Z.to_nat HEADER_SIZE) 0) with ([0; 0] ++ [0] ++ [0] ++ replicate 4 0 ++ replicate 4 0 ++ replicate 4 0 ++ replicate 8 0).
  rewrite pack_into_front by done. cbn [mbind option_bind].
  rewrite (pack_into_mid 1 _ [0]) by done. cbn [mbind option_bind].
  set (M := be_bytes 2 _). set (V := be_bytes 1 1).
  rewrite (app_assoc M), (pack_into_mid 1 (M ++ V) [0]) by done. cbn [mbind option_bind]. rewrite be_bytes_1 by done.
  rewrite (app_assoc (M ++ V)), (pack_into_mid 4 _ (replicate 4 0)) by done. cbn [mbind option_bind].
  set (S4 := be_bytes 4 sequence).
  rewrite (app_assoc _ S4), (pack_into_mid 4 _ (replicate 4 0)) by done. cbn [mbind option_bind].
  set (L := be_bytes 4 (zlen payload)).
  set (h := mkMessageHeader kProtocolMagic kProtocolVersion (opcode_of_byte opcode) sequence (zlen payload) 0 0).
  replace (((((M ++ V) ++ [opcode]) ++ S4)) ++ L ++ replicate 4 0 ++ replicate 8 0) with (header_bytes h 0)
    by (unfold header_bytes; cbn [mh_opcode h]; rewrite opcode_byte_of_byte, <-!app_assoc; done).
  rewrite pack_crc by done. cbn [mbind option_bind].
  assert (header_ok h) as Hh' by (destruct Hh; by split).
  rewrite client_message_crc by done. cbn [mbind option_bind]. by rewrite pack_crc by by apply message_crc_fits.
Qed.

Lemma verify_message_spec h payload :
  header_ok h -> Forall (fits 8) payload ->
  verify_message_crc (header_bytes h (mh_crc32 h)) payload = Some (message_crc h payload =? mh_crc32 h).
Proof.
  intros Hh Hp. unfold verify_message_crc. rewrite (zlen_length _ 24) by apply header_bytes_length. cbn [negb Z.eqb].
  rewrite pack_crc by done. cbn [mbind option_bind]. rewrite client_message_crc by done. cbn [mbind option_bind]. do 2 f_equal.
  destruct (header_bytes_prefix h) as (pre & post & Hlen & Hcrc). rewrite Hcrc. unfold field_at.
  rewrite <-Hlen, drop_app_length, take_app_length', be_value_be_bytes by by rewrite be_bytes_length.
  apply wrap_small, Hh.
Qed.

(** ** The client speaks the server's protocol *)

(** The Python client and the C++ server agree on messages.  Every request the client
    encodes is accepted by the server's [decode_message], with the opcode, the sequence
    number and the payload the client gave; and every message the server's
    [encode_message] writes passes the client's CRC check. *)
Theorem client_speaks_protocol :
  (forall opcode sequence payload,
     fits 8 opcode -> fits 32 sequence -> Forall (fits 8) payload -> zlen payload <= kMaxControlPayloadBytes ->
     exists request h,
       client_encode_message opcode sequence payload = Some request /\
       decode_message request = Some (mkDecodeResult ProtocolStatus_Ok (mkDecodedMessage h payload)) /\
       opcode_byte (mh_opcode h) = opcode /\ mh_sequence h = sequence) /\
  (forall header payload output encoded output',
     header_ok header -> Forall (fits 8) payload ->
     encode_message header payload output = Some (encoded, output') -> er_status encoded = ProtocolStatus_Ok ->
     verify_message_crc (take 24 output') (take (length payload) (drop 24 output')) = Some true).
Proof.
  split.
  - intros opcode sequence payload Ho Hs Hp Hl. pose proof (zlen_nonneg payload). pose proof (client_header_ok _ _ Ho Hs).
    do 2 eexists. rewrite client_encode_spec by (done || unfold fits, kMaxControlPayloadBytes in *; lia). split; [done|].
    split; [rewrite <-(app_nil_r (message_bytes _ _)); by apply decode_sent|]. split; [apply opcode_byte_of_byte|done].
  - intros header payload output encoded output' Hh Hp He Hok.
    destruct (decide (zlen payload <= kMaxControlPayloadBytes /\ kProtocolHeaderBytes + zlen payload <= zlen output))
      as [[Hmax Hroom]|Hno].
    + rewrite encode_message_spec in He by done. apply (inj Some), pair_equal_spec in He as [_ <-].
      unfold message_bytes. rewrite <-app_assoc.
      pose proof (sent_header_ok _ _ Hh Hp Hmax) as Hs. set (h := sent_header header payload) in *.
      rewrite take_app_length', drop_app_length', take_app_length by by rewrite header_bytes_length.
      rewrite verify_message_spec by done. f_equal. apply Z.eqb_refl.
    + rewrite encode_message_refused in He by lia. injection He as <- <-. cbn in Hok. by destruct (_ <? _).
Qed.

Lemma client_speaks_protocol_witness :
  (exists request h,
    client_encode_message 0x10 7 [] = Some request /\
    decode_message request = Some (mkDecodeResult ProtocolStatus_Ok (mkDecodedMessage h [])) /\
    opcode_byte (mh_opcode h) = 0x10 /\ mh_sequence h = 7) /\
  (exists output', encode_message example_header [1; 2; 3] (replicate 32 0) = Some (mkEncodeResult ProtocolStatus_Ok 27, output') /\
    verify_message_crc (take 24 output') (take 3 (drop 24 output')) = Some true).
Proof.
  split; [apply (proj1 client_speaks_protocol 0x10 7 []); by vm_compute|].
  eexists. split; [vm_compute; reflexivity|].
  refine (proj2 client_speaks_protocol example_header [1; 2; 3] (replicate 32 0)
    (mkEncodeResult ProtocolStatus_Ok 27) _ example_header_ok _ _ _);
    [by repeat constructor|vm_compute; reflexivity|reflexivity].
Defined.

(** ** Rules *)

(** The value whose little-endian bytes are the big-endian bytes of [x]. *)
Definition bswap (n : nat) (x : Z) : Z := le_value (be_bytes n x).

(** The rule the server takes [cmd_add_rule]'s payload for. *)
Definition installed_rule (seed delay rule_id port prob action : Z) : ChaosRule :=
  mkChaosRule (bswap 8 seed) (bswap 8 delay) (bswap 4 rule_id) 0 0 0 (bswap 2 port) (bswap 2 prob) 6
    (packet_action_of_byte action) 1 [0; 0; 0].

Lemma client_rule_of_bytes seed delay rule_id port prob action payload :
  client_pack_rule seed delay rule_id port prob action = Some payload ->
  Forall (fits 8) payload /\ zlen payload = sizeof_ChaosRule /\
  rule_of_bytes payload = installed_rule seed delay rule_id port prob action /\
  forall rest, client_list_rule (payload ++ rest) 0 = (rule_id, port, action, prob, true).
Proof.
  unfold client_pack_rule. case_decide as H; [|done]. destruct H as (Hs & Hd & Hi & Hp & Hb & Ha).
  intros E. apply (inj Some) in E as <-. split_and!.
  - rewrite !Forall_app. split_and!; auto using be_bytes_fits; by repeat constructor.
  - reflexivity.
  - unfold rule_of_bytes, installed_rule, bswap. set (l := be_bytes 8 seed ++ _).
    change (field_at l 0 8) with (be_bytes 8 seed). change (field_at l 8 8) with (be_bytes 8 delay).
    change (field_at l 16 4) with (be_bytes 4 rule_id). change (field_at l 20 4) with (be_bytes 4 0).
    change (field_at l 24 4) with (be_bytes 4 0). change (field_at l 28 2) with (be_bytes 2 0).
    change (field_at l 30 2) with (be_bytes 2 port). change (field_at l 32 2) with (be_bytes 2 prob).
    change (field_at l 34 1) with [6]. change (field_at l 35 1) with [action]. change (field_at l 36 1) with [1].
    change (field_at l 37 3) with [0; 0; 0]. by rewrite (le_value_singleton action).
  - intros rest. unfold client_list_rule. cbn [Nat.add]. set (l := _ ++ rest).
    change (field_at l 16 4) with (be_bytes 4 rule_id). change (field_at l 30 2) with (be_bytes 2 port).
    change (field_at l 35 1) with [action]. change (field_at l 32 2) with (be_bytes 2 prob).
    change (field_at l 36 1) with [1]. rewrite !be_value_be_bytes, !wrap_small by done.
    unfold be_value. cbn [length]. by rewrite Z.mul_1_r, Z.add_0_r.
Qed.

Lemma client_list_rule_app (l k : list Byte) : client_list_rule (l ++ k) (length l) = client_list_rule k 0.
Proof. unfold client_list_rule, field_at. by rewrite !drop_app_add. Qed.

(** A request the client encodes reaches the handler as it was meant. *)
Lemma client_request_handled MaxRules padding core rules stats opcode sequence payload response :
  0 < MaxRules -> MaxRules < 2 ^ 64 -> Forall (fits 8) padding -> core_repr MaxRules core rules stats ->
  fits 8 opcode -> fits 32 sequence -> Forall (fits 8) payload -> zlen payload <= kMaxControlPayloadBytes ->
  Forall (fits 8) response ->
  exists request h,
    client_encode_message opcode sequence payload = Some request /\
    mh_opcode h = opcode_of_byte opcode /\ mh_sequence h = sequence /\
    handled MaxRules stats response
      (core_reply MaxRules padding rules stats (mkDecodeResult ProtocolStatus_Ok (mkDecodedMessage h payload)))
      (handle MaxRules padding core request response).
Proof.
  intros Hm Hm' Hpad Hc Ho Hs Hp Hl Hr. pose proof (zlen_nonneg payload).
  pose proof (client_header_ok _ _ Ho Hs) as Hh. pose proof (sent_header_ok _ _ Hh Hp Hl) as Hsent.
  exists (message_bytes (sent_header (client_header opcode sequence) payload) payload).
  exists (sent_header (client_header opcode sequence) payload).
  rewrite client_encode_spec by (done || unfold fits, kMaxControlPayloadBytes in *; lia). split; [done|].
  set (h := sent_header _ payload) in *. split; [done|]. split; [done|].
  assert (Forall (fits 8) (message_bytes h payload)) as Hreq.
  { unfold message_bytes. apply Forall_app. split; [apply header_bytes_fits; apply Hsent|done]. }
  destruct (handle_handled MaxRules padding Hm Hm' Hpad _ _ _ _ _ Hc Hreq Hr) as (decoded & Hd & Hrun).
  rewrite <-(app_nil_r (message_bytes h payload)) in Hd. subst h. rewrite decode_sent in Hd by done.
  apply (inj Some) in Hd as <-. exact Hrun.
Qed.

(** C39: [add-rule] installs another rule than the one asked for.  Whatever the arguments,
    while its table has room, the server accepts the request of [cmd_add_rule] and confirms it, but every field of
    the rule it appends to its table that is wider than a byte holds the argument with
    its bytes reversed: the client packs the rule in network order and the server copies
    it into a [ChaosRule] of the host.  [list-rules] reads the bytes back in the
    client's order, so it shows the rule that was asked for. *)
Theorem client_rule_swapped MaxRules padding core rules stats seed delay rule_id port prob action sequence response :
  0 < MaxRules -> MaxRules < 2 ^ 64 -> Forall (fits 8) padding -> core_repr MaxRules core rules stats ->
  fits 64 seed -> fits 64 delay -> fits 32 rule_id -> fits 16 port -> fits 16 prob -> fits 8 action ->
  fits 32 sequence -> Forall (fits 8) response -> kProtocolHeaderBytes <= zlen response -> zlen rules < MaxRules ->
  exists payload request rsp response' core',
    client_pack_rule seed delay rule_id port prob action = Some payload /\
    client_encode_message 0x20 sequence payload = Some request /\
    handle MaxRules padding core request response = Some (rsp, response', core') /\
    rsp_status rsp = ProtocolStatus_Ok /\ rsp_opcode rsp = Opcode_Pong /\
    cc_rules core' = rules ++ [installed_rule seed delay rule_id port prob action] /\
    client_list_rule (mjoin (bytes_of_rule <$> cc_rules core')) (40 * length rules) = (rule_id, port, action, prob, true).
Proof.
  intros Hm Hm' Hpad Hc Hs Hd Hi Hp Hb Ha Hq Hr Hroom Hfull.
  destruct (client_pack_rule seed delay rule_id port prob action) as [payload|] eqn:Hpack;
    [|unfold client_pack_rule in Hpack; by rewrite decide_True in Hpack].
  destruct (client_rule_of_bytes _ _ _ _ _ _ _ Hpack) as (Hbytes & Hlen & Hrule & Hlist).
  destruct (client_request_handled MaxRules padding core rules stats 0x20 sequence payload response)
    as (request & h & He & Hop & _ & rsp & response' & core' & Hrun & Hc' & Hdel);
    [done..|by rewrite Hlen|done|].
  exists payload, request, rsp, response', core'. revert Hc' Hdel. unfold core_reply.
  rewrite bool_decide_false by by intros []. cbn [dr_message dm_header dm_payload]. rewrite Hop.
  change (opcode_of_byte 0x20) with Opcode_AddRule. cbv iota.
  rewrite bool_decide_false by by intros []. rewrite bool_decide_true by done. cbn [fst snd rp_status rp_opcode rp_sequence rp_payload].
  intros Hc' (Hopc & _ & Hdel). rewrite bool_decide_true in Hdel by (by unfold zlen in *; cbn [length]).
  assert (cc_rules core' = rules ++ [rule_of_bytes payload]) as Hrules by apply (rt_repr_rules MaxRules), Hc'.
  split_and!; [done|done|done|apply Hdel|done|by rewrite Hrules, Hrule|].
  assert (length payload = 40%nat) as H40 by (unfold zlen, sizeof_ChaosRule in Hlen; lia).
  rewrite Hrules, fmap_app, join_app. rewrite <-rules_bytes_length by apply Hc. rewrite client_list_rule_app.
  change (mjoin (bytes_of_rule <$> [rule_of_bytes payload])) with (bytes_of_rule (rule_of_bytes payload) ++ []).
  by rewrite bytes_of_rule_of_bytes.
Qed.

Lemma client_rule_swapped_witness :
  exists payload request rsp response' core',
    client_pack_rule 0xBEEF 0 1 8080 10000 1 = Some payload /\
    client_encode_message 0x20 1 payload = Some request /\
    handle 128 [0; 0; 0; 0] (ControlCore_default 128) request (replicate 64 0) = Some (rsp, response', core') /\
    rsp_status rsp = ProtocolStatus_Ok /\
    (fun r => (cr_dst_port r, cr_probability r)) <$> cc_rules core' = [(36895, 4135)].
Proof.
  destruct (client_rule_swapped 128 [0; 0; 0; 0] (ControlCore_default 128) [] StatUpdate_default 0xBEEF 0 1 8080 10000 1 1
    (replicate 64 0)) as (payload & request & rsp & response' & core' & H1 & H2 & H3 & H4 & _ & H5 & _);
    [done|done|by repeat constructor|by apply ControlCore_default_repr|done|done|done|done|done|done|done|by repeat constructor|done|done|].
  exists payload, request, rsp, response', core'. split_and!; [exact H1|exact H2|exact H3|exact H4|].
  rewrite H5. vm_compute. reflexivity.
Defined.
