(* ===== verification/ClientSession.v ===== *)
(** * [tools/chronos_client.py]: the commands and their connection

    The client sends one request over a stream socket, reads the answer in as many pieces
    as the network delivers it in, and prints what it says.  An exception ends the command:
    [inl].  The arguments are those that [argparse] delivers; what the socket does is a
    type class, and its instance here is the control plane of the server behind a network
    that cuts the answer anywhere. *)

From stdpp Require Import pretty.
From S2P Require Import Prelude Types PacketParser ChaosEngine Protocol ControlCore ControlPlane Client.
Local Open Scope string_scope.
Local Open Scope list_scope.
Local Open Scope Z_scope.

(** ** Exceptions *)

(** Those the client raises, and those of the libraries with their text. *)
Inductive PyError :=
| HeaderTooShort (length : Z)
| CrcMismatch
| ConnectionClosed
| ConnectionRefused
| LibraryError (message : string).

(** [str(e)]. *)
Definition py_str (e : PyError) : string :=
  match e with
  | HeaderTooShort length => "Header too short: " +:+ pretty length +:+ " < " +:+ pretty HEADER_SIZE
  | CrcMismatch => "Response CRC mismatch"
  | ConnectionClosed => "Connection closed"
  | ConnectionRefused => "Connection refused"
  | LibraryError message => message
  end.

(** [None] is a computation that does not end. *)
Abbreviation Py A := (option (PyError + A)).

Definition py_ret {A} (a : A) : Py A := Some (inr a).
Definition py_raise {A} (e : PyError) : Py A := Some (inl e).
Definition py_bind {A B} (m : Py A) (k : A -> Py B) : Py B :=
  match m with
  | None => None
  | Some (inl e) => Some (inl e)
  | Some (inr a) => k a
  end.

Declare Scope py_scope.
Delimit Scope py_scope with py.
Notation "x <- y ; z" := (py_bind y (fun x => z)) (at level 20, y at level 100, z at level 200, only parsing) : py_scope.
Notation "' x <- y ; z" := (py_bind y (fun x => z)) (at level 20, x pattern, y at level 100, z at level 200, only parsing) : py_scope.
Local Open Scope py_scope.

(** ** Sockets *)

(** [sendall], and [recv] of at most so many bytes; no bytes mean that the peer has closed
    the connection. *)
Class StreamSocket (S : Type) := {
  sock_sendall : S -> list Byte -> Py S;
  sock_recv : S -> Z -> Py (list Byte * S);
}.

Section client.
Context {S : Type} `{!StreamSocket S}.

(** The loop of [recv_exact]; every round adds a byte, so [nbytes] rounds are enough. *)
Fixpoint recv_exact_loop (fuel : nat) (sock : S) (nbytes : Z) (data : list Byte) : Py (list Byte * S) :=
  if zlen data <? nbytes then
    match fuel with
    | O => None
    | Datatypes.S fuel =>
        '(chunk, sock) <- sock_recv sock (nbytes - zlen data);
        if zlen chunk =? 0 then py_raise ConnectionClosed
        else recv_exact_loop fuel sock nbytes (data ++ chunk)
    end
  else py_ret (data, sock).

Definition recv_exact (sock : S) (nbytes : Z) : Py (list Byte * S) := recv_exact_loop (Z.to_nat nbytes) sock nbytes [].

(** [struct.unpack_from] of one big-endian integer of [n] bytes. *)
Definition unpack_from (n : nat) (data : list Byte) (offset : nat) : Z := be_value (field_at data offset n).

(** A header with a CRC of its own; the client does not call it. *)
Definition client_encode_header (opcode sequence payload_length : Z) : option (list Byte) :=
  let buf := replicate (Z.to_nat HEADER_SIZE) 0 in
  buf ← pack_into 2 buf 0 0x4358;
  buf ← pack_into 1 buf 2 1;
  buf ← pack_into 1 buf 3 opcode;
  buf ← pack_into 4 buf 4 sequence;
  buf ← pack_into 4 buf 8 payload_length;
  crc ← compute_crc32 (take 12 buf);
  pack_into 4 buf 12 crc.

Record ClientHeader := mkClientHeader {
  ch_magic : Z;
  ch_version : Z;
  ch_opcode : Z;
  ch_sequence : Z;
  ch_payload_length : Z;
  ch_crc : Z;
}.

Definition client_decode_header (data : list Byte) : Py ClientHeader :=
  if zlen data <? HEADER_SIZE then py_raise (HeaderTooShort (zlen data))
  else py_ret (mkClientHeader (unpack_from 2 data 0) (unpack_from 1 data 2) (unpack_from 1 data 3)
                 (unpack_from 4 data 4) (unpack_from 4 data 8) (unpack_from 4 data 12)).

(** The exceptions of [struct.pack] and of an item out of a byte's range; [struct_message]
    is their text. *)
Context (struct_message : string).

Definition packing {A} (m : option A) : Py A :=
  match m with Some a => py_ret a | None => py_raise (LibraryError struct_message) end.

Definition send_message (sock : S) (opcode sequence : Z) (payload : list Byte) : Py (Z * Z * list Byte * S) :=
  request <- packing (client_encode_message opcode sequence payload);
  sock <- sock_sendall sock request;
  '(resp_header, sock) <- recv_exact sock HEADER_SIZE;
  h <- client_decode_header resp_header;
  '(resp_payload, sock) <- (if 0 <? ch_payload_length h then recv_exact sock (ch_payload_length h) else py_ret ([], sock));
  valid <- packing (verify_message_crc resp_header resp_payload);
  if negb valid then py_raise CrcMismatch else py_ret (ch_opcode h, ch_sequence h, resp_payload, sock).

(** ** Printing *)

Definition hex_digit (d : Z) : string :=
  default "0" (["0"; "1"; "2"; "3"; "4"; "5"; "6"; "7"; "8"; "9"; "A"; "B"; "C"; "D"; "E"; "F"] !! Z.to_nat d).

(** [0x{opcode:02X}] of a byte. *)
Definition hex2 (x : Z) : string := "0x" +:+ hex_digit (x / 16) +:+ hex_digit (x mod 16).

(** [ACTION_NAMES.get(action, other)]. *)
Definition action_name (action : Z) (other : string) : string :=
  if action =? 0 then "pass" else if action =? 1 then "drop" else if action =? 2 then "delay"
  else if action =? 3 then "corrupt" else other.

(** [ACTION_MAP.get(action, 0)]. *)
Definition action_value (action : string) : Z :=
  if decide (action = "drop") then 1 else if decide (action = "delay") then 2 else if decide (action = "corrupt") then 3 else 0.

(** ** Commands: the lines they print *)

Definition cmd_ping (sock : S) (seq : Z) : Py (list string * S) :=
  '(opcode, _, _, sock) <- send_message sock 0x01 seq [];
  py_ret ([if opcode =? 0x02 then "Pong received (seq=" +:+ pretty seq +:+ ")"
           else "Unexpected response opcode: " +:+ hex2 opcode], sock).

Definition stats_lines (payload : list Byte) : list string :=
  ["Stats:";
   "  timestamp_cycles:   " +:+ pretty (unpack_from 8 payload 0);
   "  packets_seen:       " +:+ pretty (unpack_from 8 payload 8);
   "  packets_dropped:    " +:+ pretty (unpack_from 8 payload 16);
   "  bytes_seen:         " +:+ pretty (unpack_from 8 payload 24);
   "  average_latency_ns: " +:+ pretty (unpack_from 8 payload 32);
   "  last_action:        " +:+ action_name (unpack_from 1 payload 40) "unknown"].

Definition cmd_stats (sock : S) (seq : Z) : Py (list string * S) :=
  '(opcode, _, payload, sock) <- send_message sock 0x10 seq [];
  py_ret (if (opcode =? 0x11) && (48 <=? zlen payload) then stats_lines payload
          else if opcode =? 0xFF then ["Error response"]
          else ["Unexpected response: opcode=" +:+ hex2 opcode +:+ " payload_len=" +:+ pretty (zlen payload)], sock).

(** The arguments of [add-rule]; [ar_port] is the rule's port. *)
Record AddRuleArgs := mkAddRuleArgs {
  ar_rule_id : Z;
  ar_port : Z;
  ar_action : string;
  ar_prob : Z;
  ar_seed : Z;
  ar_delay : Z;
}.

Definition cmd_add_rule (sock : S) (seq : Z) (args : AddRuleArgs) : Py (list string * S) :=
  payload <- packing (client_pack_rule (ar_seed args) (ar_delay args) (ar_rule_id args) (ar_port args) (ar_prob args)
                        (action_value (ar_action args)));
  '(opcode, _, _, sock) <- send_message sock 0x20 seq payload;
  py_ret ([if opcode =? 0x02 then
             "Rule " +:+ pretty (ar_rule_id args) +:+ " added: port=" +:+ pretty (ar_port args) +:+ " action=" +:+ ar_action args +:+
             " prob=" +:+ pretty (ar_prob args)
           else if opcode =? 0xFF then "Failed to add rule"
           else "Unexpected response: " +:+ hex2 opcode], sock).

Definition cmd_clear_rules (sock : S) (seq : Z) : Py (list string * S) :=
  '(opcode, _, _, sock) <- send_message sock 0x22 seq [];
  py_ret ([if opcode =? 0x02 then "All rules cleared" else "Unexpected response: " +:+ hex2 opcode], sock).

Definition rule_line (payload : list Byte) (offset : nat) : string :=
  let '(rule_id, dst_port, action, prob, enabled) := client_list_rule payload offset in
  "  [" +:+ pretty rule_id +:+ "] port=" +:+ pretty dst_port +:+ " action=" +:+ action_name action "?" +:+
  " prob=" +:+ pretty prob +:+ "/10000 enabled=" +:+ (if enabled : bool then "yes" else "no").

Definition cmd_list_rules (sock : S) (seq : Z) : Py (list string * S) :=
  '(opcode, _, payload, sock) <- send_message sock 0x23 seq [];
  py_ret (if opcode =? 0x24 then
            let count := (length payload / 40)%nat in
            ("Rules (" +:+ pretty (Z.of_nat count) +:+ "):") :: ((fun i => rule_line payload (i * 40)) <$> List.seq 0 count)
          else if opcode =? 0xFF then ["Error listing rules"]
          else ["Unexpected response: " +:+ hex2 opcode], sock).

(** ** [main] *)

Inductive Command :=
| Command_ping
| Command_stats
| Command_add_rule (args : AddRuleArgs)
| Command_list_rules
| Command_clear_rules.

Definition run_command (sock : S) (seq : Z) (command : Command) : Py (list string * S) :=
  match command with
  | Command_ping => cmd_ping sock seq
  | Command_stats => cmd_stats sock seq
  | Command_add_rule args => cmd_add_rule sock seq args
  | Command_list_rules => cmd_list_rules sock seq
  | Command_clear_rules => cmd_clear_rules sock seq
  end.

(** What the client prints and its exit status; [help] is the help text of [argparse], and
    [connect] is [socket.create_connection]. *)
Definition client_main (help : list string) (connect : string -> Z -> Py S) (host : string) (port : Z)
    (command : option Command) : option (list string * Z) :=
  match command with
  | None => Some (help, 1)
  | Some command =>
      outcome ← (sock <- connect host port; run_command sock 1 command);
      match outcome with
      | inr (lines, _) => Some (lines, 0)
      | inl ConnectionRefused =>
          Some (["Error: Could not connect to " +:+ host +:+ ":" +:+ pretty port;
                 "Is the Chronos-X control server running? (./chronosx --server)"], 1)
      | inl e => Some (["Error: " +:+ py_str e], 1)
      end
  end.

End client.

(** ** The server behind a network *)

(** The control plane, the bytes of its answers that are on their way, and how the network
    cuts them: each [recv] gets at least one byte and at most one more than the next
    number. *)
Record ServerPeer := mkServerPeer {
  peer_core : ControlPlaneCore;
  peer_pending : list Byte;
  peer_cuts : list nat;
}.

Section peer.
Context (padding : list Byte).

Definition peer_sendall (p : ServerPeer) (request : list Byte) : Py ServerPeer :=
  '(rsp, response, core) ← handle_request padding (peer_core p) request (replicate (Z.to_nat kControlResponseBufferBytes) 0);
  py_ret (mkServerPeer core (peer_pending p ++ take (Z.to_nat (rsp_bytes_written rsp)) response) (peer_cuts p)).

Definition peer_recv (p : ServerPeer) (n : Z) : Py (list Byte * ServerPeer) :=
  match peer_pending p with
  | [] => py_raise (LibraryError "timed out")
  | pending =>
      let k := match peer_cuts p with [] => Z.to_nat n | cut :: _ => Nat.min (Z.to_nat n) (S cut) end in
      py_ret (take k pending, mkServerPeer (peer_core p) (drop k pending) (tail (peer_cuts p)))
  end.

#[local] Instance peer_socket : StreamSocket ServerPeer := {
  sock_sendall := peer_sendall;
  sock_recv := peer_recv;
}.

(** [recv_exact] does not depend on the cuts. *)
Lemma recv_exact_loop_peer fuel core a b cuts data nbytes :
  (length a <= fuel)%nat -> nbytes = zlen data + zlen a ->
  exists cuts', recv_exact_loop fuel (mkServerPeer core (a ++ b) cuts) nbytes data = py_ret (data ++ a, mkServerPeer core b cuts').
Proof.
  revert a cuts data. induction fuel as [|fuel IH]; intros a cuts data Hf Hn.
  { destruct a; [|cbn in Hf; lia]. rewrite zlen_nil in Hn. cbn [recv_exact_loop]. zcase; [lia|]. rewrite app_nil_r. by eexists. }
  destruct a as [|x a].
  { rewrite zlen_nil in Hn. cbn [recv_exact_loop]. zcase; [lia|]. rewrite app_nil_r. by eexists. }
  cbn [recv_exact_loop]. rewrite zlen_cons in Hn. pose proof (zlen_nonneg a). zcase; [|lia].
  cbn [sock_recv peer_socket]. unfold peer_recv. cbn [peer_pending peer_cuts peer_core app].
  assert (Z.to_nat (nbytes - zlen data) = S (length a)) as -> by (unfold zlen in *; lia).
  set (k := match cuts with [] => _ | _ => _ end).
  assert (exists j, k = S j /\ (j <= length a)%nat) as (j & -> & Hj) by (destruct cuts; [by exists (length a)|exists (Nat.min (length a) n); split; lia]).
  cbn [py_bind py_ret take drop]. rewrite zlen_cons. pose proof (zlen_nonneg (take j (a ++ b))). zcase; [lia|].
  rewrite take_app_le, drop_app_le by done.
  destruct (IH (drop j a) (tail cuts) (data ++ x :: take j a)) as (cuts' & ->).
  - rewrite length_drop. cbn in Hf. lia.
  - rewrite zlen_app, zlen_cons. unfold zlen. rewrite length_take, length_drop. unfold zlen in *. lia.
  - exists cuts'. unfold py_ret. rewrite <-app_assoc. cbn [app]. by rewrite take_drop.
Qed.

Lemma recv_exact_peer core a b cuts nbytes :
  nbytes = zlen a -> exists cuts', recv_exact (mkServerPeer core (a ++ b) cuts) nbytes = py_ret (a, mkServerPeer core b cuts').
Proof. intros ->. apply (recv_exact_loop_peer _ core a b cuts []); unfold zlen; [lia|done]. Qed.

(** The client's view of a header. *)
Lemma client_decode_header_spec h :
  header_ok h -> client_decode_header (header_bytes h (mh_crc32 h))
    = py_ret (mkClientHeader (mh_magic h) (mh_version h) (opcode_byte (mh_opcode h)) (mh_sequence h) (mh_payload_length h) (mh_crc32 h)).
Proof.
  intros []. unfold client_decode_header. rewrite (zlen_length _ 24) by apply header_bytes_length. cbn [Z.ltb Z.compare].
  change (zlen (header_bytes h (mh_crc32 h)) <? HEADER_SIZE) with false. unfold unpack_from. set (l := header_bytes h (mh_crc32 h)).
  change (field_at l 0 2) with (be_bytes 2 (mh_magic h)). change (field_at l 2 1) with [mh_version h].
  change (field_at l 3 1) with [opcode_byte (mh_opcode h)]. change (field_at l 4 4) with (be_bytes 4 (mh_sequence h)).
  change (field_at l 8 4) with (be_bytes 4 (mh_payload_length h)). change (field_at l 12 4) with (be_bytes 4 (mh_crc32 h)).
  rewrite !be_value_be_bytes, !wrap_small by done. unfold be_value. cbn [length]. by rewrite !Z.mul_1_r, !Z.add_0_r.
Qed.

Hypothesis padding_bytes : Forall (fits 8) padding.
Context (struct_message : string).

(** One exchange: the client gets the reply of the specification, whatever the cuts. *)
Lemma send_message_peer core rules stats cuts opcode sequence payload :
  plane_repr core rules stats -> fits 8 opcode -> fits 32 sequence -> Forall (fits 8) payload ->
  zlen payload <= kMaxControlPayloadBytes ->
  let h := sent_header (client_header opcode sequence) payload in
  let reply := plane_reply padding rules stats (mkDecodeResult ProtocolStatus_Ok (mkDecodedMessage h payload)) in
  kProtocolHeaderBytes + zlen (rp_payload reply.1) <= kControlResponseBufferBytes ->
  exists core' cuts', plane_repr core' reply.2 stats /\
    send_message struct_message (mkServerPeer core [] cuts) opcode sequence payload
    = py_ret (opcode_byte (rp_opcode reply.1), rp_sequence reply.1, rp_payload reply.1, mkServerPeer core' [] cuts').
Proof.
  intros Hc Ho Hs Hp Hl h reply Hroom. pose proof (zlen_nonneg payload). pose proof (client_header_ok _ _ Ho Hs) as Hh.
  pose proof (sent_header_ok _ _ Hh Hp Hl) as Hsent. fold h in Hsent.
  assert (Forall (fits 8) (message_bytes h payload)) as Hreq.
  { unfold message_bytes. apply Forall_app. split; [apply header_bytes_fits; apply Hsent|done]. }
  remember (replicate (Z.to_nat kControlResponseBufferBytes) 0) as buffer eqn:Hbuffer.
  assert (zlen buffer = kControlResponseBufferBytes) as Hzb by (rewrite Hbuffer; by rewrite zlen_replicate).
  assert (Forall (fits 8) buffer) as Hbuf by (rewrite Hbuffer; by apply Forall_replicate).
  assert (fits 32 (zlen payload)) as Hl32 by (unfold fits, kMaxControlPayloadBytes in *; lia).
  pose proof (client_encode_spec opcode sequence payload Ho Hs Hp Hl32) as Hencode. fold h in Hencode.
  destruct (handle_request_spec padding padding_bytes core rules stats (message_bytes h payload) buffer Hc Hreq)
    as (decoded & rsp & response & core' & Hd & Hrun & Hc' & _ & [Hz Hfits] & Hdel);
    [exact Hbuf|by rewrite Hzb|].
  rewrite <-(app_nil_r (message_bytes h payload)) in Hd. unfold h in Hd at 1. rewrite decode_sent in Hd by done.
  apply (inj Some) in Hd as <-. fold h reply in Hdel, Hc'.
  rewrite Hzb, bool_decide_true in Hdel by (unfold kMaxControlPayloadBytes, kControlResponseBufferBytes, kProtocolHeaderBytes in *; lia).
  destruct Hdel as (_ & Hbw & h' & Hdec & Hop & Hseq). set (total := kProtocolHeaderBytes + _) in *.
  destruct (decode_accepted _ _ (Forall_take _ (Z.to_nat total) _ Hfits) Hdec eq_refl) as (Hh' & Hsent' & Hp' & Hlen' & Hmax' & Hmsg).
  cbn [dr_message dm_header dm_payload] in *. set (answer := rp_payload reply.1) in *. fold total in Hmsg.
  rewrite (drop_ge (take _ _)), app_nil_r in Hmsg by (rewrite length_take; lia).
  unfold send_message. rewrite Hencode.
  cbn [packing py_bind py_ret sock_sendall peer_socket]. unfold peer_sendall. cbn [peer_core]. rewrite <-Hbuffer, Hrun.
  cbn [mbind option_bind py_bind py_ret peer_pending peer_cuts app]. rewrite Hbw, Hmsg. unfold message_bytes.
  destruct (recv_exact_peer core' (header_bytes h' (mh_crc32 h')) answer cuts HEADER_SIZE) as (cuts1 & ->);
    [by rewrite (zlen_length _ 24) by apply header_bytes_length|].
  cbn [py_bind py_ret]. rewrite client_decode_header_spec by done. cbn [py_bind py_ret ch_payload_length ch_opcode ch_sequence].
  rewrite <-Hlen', Hop, Hseq.
  assert (exists cuts2, (if 0 <? zlen answer then recv_exact (mkServerPeer core' answer cuts1) (zlen answer)
    else py_ret ([], mkServerPeer core' answer cuts1)) = py_ret (answer, mkServerPeer core' [] cuts2)) as (cuts2 & ->).
  { zcase.
    - destruct (recv_exact_peer core' answer [] cuts1 (zlen answer) eq_refl) as (c & H'). rewrite app_nil_r in H'. by exists c.
    - assert (answer = []) as -> by (apply length_zero_iff_nil; unfold zlen in *; lia). by exists cuts1. }
  cbn [py_bind py_ret]. rewrite verify_message_spec by done.
  assert (message_crc h' answer = mh_crc32 h') as -> by (rewrite <-Hsent'; apply message_crc_with_crc).
  rewrite Z.eqb_refl. cbn [packing py_bind py_ret negb]. exists core', cuts2. split; [exact Hc'|reflexivity].
Qed.

(** ** What each command says and does

    The numbers of the server are in the host's byte order, and the client reads them in
    network order: [bswap]. *)

Definition shown_rule (r : ChaosRule) : string :=
  "  [" +:+ pretty (bswap 4 (cr_id r)) +:+ "] port=" +:+ pretty (bswap 2 (cr_dst_port r)) +:+
  " action=" +:+ action_name (to_wire_value (cr_action r)) "?" +:+ " prob=" +:+ pretty (bswap 2 (cr_probability r)) +:+
  "/10000 enabled=" +:+ (if cr_enabled r =? 0 then "no" else "yes").

Definition shown_stats (s : StatUpdate) : list string :=
  ["Stats:";
   "  timestamp_cycles:   " +:+ pretty (bswap 8 (su_timestamp_cycles s));
   "  packets_seen:       " +:+ pretty (bswap 8 (su_packets_seen s));
   "  packets_dropped:    " +:+ pretty (bswap 8 (su_packets_dropped s));
   "  bytes_seen:         " +:+ pretty (bswap 8 (su_bytes_seen s));
   "  average_latency_ns: " +:+ pretty (bswap 8 (su_average_latency_ns s));
   "  last_action:        " +:+ action_name (to_wire_value (su_last_action s)) "unknown"].

Definition command_outcome (rules : list ChaosRule) (stats : StatUpdate) (command : Command) : list string * list ChaosRule :=
  match command with
  | Command_ping => (["Pong received (seq=1)"], rules)
  | Command_stats => (shown_stats stats, rules)
  | Command_add_rule a =>
      if zlen rules <? kDefaultMaxRules then
        (["Rule " +:+ pretty (ar_rule_id a) +:+ " added: port=" +:+ pretty (ar_port a) +:+ " action=" +:+ ar_action a +:+
          " prob=" +:+ pretty (ar_prob a)],
         rules ++ [installed_rule (ar_seed a) (ar_delay a) (ar_rule_id a) (ar_port a) (ar_prob a) (action_value (ar_action a))])
      else (["Failed to add rule"], rules)
  | Command_list_rules => (("Rules (" +:+ pretty (zlen rules) +:+ "):") :: (shown_rule <$> rules), rules)
  | Command_clear_rules => (["All rules cleared"], [])
  end.

(** The arguments fit the fields of a rule. *)
Definition args_fit (a : AddRuleArgs) : Prop :=
  fits 64 (ar_seed a) /\ fits 64 (ar_delay a) /\ fits 32 (ar_rule_id a) /\ fits 16 (ar_port a) /\ fits 16 (ar_prob a).

#[global] Instance args_fit_dec a : Decision (args_fit a).
Proof. unfold args_fit. apply _. Defined.

Lemma action_value_fits s : fits 8 (action_value s).
Proof. unfold action_value. repeat case_decide; done. Qed.

Lemma be_value_singleton x : be_value [x] = x.
Proof. unfold be_value. cbn [length]. by rewrite Z.mul_1_r, Z.add_0_r. Qed.

Lemma rule_line_shown r rest : rule_ok r -> rule_line (bytes_of_rule r ++ rest) 0 = shown_rule r.
Proof.
  intros Hr. unfold rule_line, client_list_rule, shown_rule. cbn [Nat.add]. set (l := _ ++ rest).
  change (field_at l 16 4) with (le_bytes 4 (cr_id r)). change (field_at l 30 2) with (le_bytes 2 (cr_dst_port r)).
  change (field_at l 35 1) with [to_wire_value (cr_action r)]. change (field_at l 32 2) with (le_bytes 2 (cr_probability r)).
  change (field_at l 36 1) with [cr_enabled r]. rewrite !be_value_singleton. by destruct (cr_enabled r =? 0).
Qed.

Lemma rule_lines_shown pre rules k :
  Forall rule_ok rules -> length pre = (k * 40)%nat ->
  (fun i => rule_line (pre ++ mjoin (bytes_of_rule <$> rules)) (i * 40)) <$> List.seq k (length rules) = shown_rule <$> rules.
Proof.
  intros H. revert pre k. induction H as [|r rules Hr _ IH]; intros pre k Hk; [done|]. cbn [length List.seq fmap list_fmap mjoin list_join]. f_equal.
  - rewrite <-Hk. unfold rule_line. rewrite client_list_rule_app. by apply rule_line_shown.
  - rewrite app_assoc. apply IH. rewrite length_app, (bytes_of_rule_length r) by apply Hr. lia.
Qed.

Lemma stats_lines_shown s : length padding = 4%nat -> stats_lines (bytes_of_stats padding s) = shown_stats s.
Proof.
  intros Hp. unfold stats_lines, shown_stats, unpack_from. set (l := bytes_of_stats padding s).
  change (field_at l 0 8) with (le_bytes 8 (su_timestamp_cycles s)). change (field_at l 8 8) with (le_bytes 8 (su_packets_seen s)).
  change (field_at l 16 8) with (le_bytes 8 (su_packets_dropped s)). change (field_at l 24 8) with (le_bytes 8 (su_bytes_seen s)).
  change (field_at l 32 8) with (le_bytes 8 (su_average_latency_ns s)). change (field_at l 40 1) with [to_wire_value (su_last_action s)].
  by rewrite be_value_singleton.
Qed.

Hypothesis padding_length : length padding = 4%nat.

Lemma bytes_of_stats_length s : length (bytes_of_stats padding s) = 48%nat.
Proof. unfold bytes_of_stats. rewrite !length_app, !le_bytes_length, padding_length. done. Qed.

(** A command whose arguments fit. *)
Definition command_fits (command : Command) : Prop :=
  match command with Command_add_rule a => args_fit a | _ => True end.

Lemma add_rule_reply rules stats h payload :
  mh_opcode h = Opcode_AddRule -> zlen payload = sizeof_ChaosRule ->
  plane_reply padding rules stats (mkDecodeResult ProtocolStatus_Ok (mkDecodedMessage h payload))
  = if zlen rules <? kDefaultMaxRules
    then (mkReply ProtocolStatus_Ok Opcode_Pong (mh_sequence h) [], rules ++ [rule_of_bytes payload])
    else (error_reply ProtocolStatus_RuleTableFull (mh_sequence h), rules).
Proof.
  intros Ho Hl. unfold plane_reply, core_reply. cbn [dr_status dr_message dm_header dm_payload]. rewrite bool_decide_false, Ho by by intros [].
  rewrite bool_decide_false by by intros []. zcase; [by rewrite bool_decide_true|by rewrite bool_decide_false by lia].
Qed.

Lemma run_command_peer core rules stats cuts command :
  plane_repr core rules stats -> command_fits command ->
  exists core' cuts', plane_repr core' (command_outcome rules stats command).2 stats /\
    run_command struct_message (mkServerPeer core [] cuts) 1 command
    = py_ret ((command_outcome rules stats command).1, mkServerPeer core' [] cuts').
Proof.
  intros Hc Hfit. pose proof (cr_rules_ok _ _ _ _ (proj1 Hc)) as Hok.
  assert (zlen rules <= kDefaultMaxRules) as Hmax by apply (cr_table _ _ _ _ (proj1 Hc)).
  destruct command as [| |a| |]; cbn [run_command command_outcome fst snd].
  - unfold cmd_ping. destruct (send_message_peer core rules stats cuts 0x01 1 [] Hc) as (core' & cuts' & Hc' & ->); try done.
    by exists core', cuts'.
  - unfold cmd_stats.
    assert (zlen (bytes_of_stats padding stats) = 48) as Hz by (unfold zlen; by rewrite bytes_of_stats_length).
    destruct (send_message_peer core rules stats cuts 0x10 1 [] Hc) as (core' & cuts' & Hc' & ->); try done.
    { change (rp_payload _) with (bytes_of_stats padding stats). by rewrite Hz. }
    exists core', cuts'. split; [done|]. cbn [py_bind py_ret]. change (rp_payload _) with (bytes_of_stats padding stats).
    rewrite Hz. change (opcode_byte _ =? 0x11) with true. cbn [andb Z.leb Z.compare]. by rewrite stats_lines_shown.
  - destruct Hfit as (Hs & Hd & Hi & Hp & Hb). pose proof (action_value_fits (ar_action a)) as Ha. unfold cmd_add_rule.
    destruct (client_pack_rule _ _ _ _ _ _) as [payload|] eqn:Hpack; [|unfold client_pack_rule in Hpack; by rewrite decide_True in Hpack].
    destruct (client_rule_of_bytes _ _ _ _ _ _ _ Hpack) as (Hbytes & Hlen & Hrule & _). cbn [packing py_bind py_ret].
    pose proof (send_message_peer core rules stats cuts 0x20 1 payload Hc) as Hx. cbv zeta in Hx. rewrite add_rule_reply, Hrule in Hx by done.
    destruct Hx as (core' & cuts' & Hc' & ->); [done|done|done|by rewrite Hlen|by destruct (_ <? _)|].
    exists core', cuts'. split; destruct (_ <? _); done.
  - unfold cmd_list_rules.
    pose proof (rules_bytes_length _ Hok) as Hlen.
    destruct (send_message_peer core rules stats cuts 0x23 1 [] Hc) as (core' & cuts' & Hc' & ->); try done.
    { change (rp_payload _) with (mjoin (bytes_of_rule <$> rules)). unfold zlen in *. rewrite Hlen.
      unfold kProtocolHeaderBytes, kControlResponseBufferBytes, kDefaultMaxRules in *. lia. }
    exists core', cuts'. split; [done|]. cbn [py_bind py_ret]. change (rp_payload _) with (mjoin (bytes_of_rule <$> rules)).
    change (opcode_byte _ =? 0x24) with true. cbv iota zeta. rewrite Hlen, (Nat.mul_comm 40), Nat.div_mul by done.
    pose proof (rule_lines_shown [] rules 0 Hok eq_refl) as Hlines. cbn [app] in Hlines. by rewrite Hlines.
  - unfold cmd_clear_rules. destruct (send_message_peer core rules stats cuts 0x22 1 [] Hc) as (core' & cuts' & Hc' & ->); try done.
    by exists core', cuts'.
Qed.

(** C17: the client and the server work together.  For every control plane that holds
    [rules] and [stats], every command with arguments that fit, and every way in which the
    network cuts the answer into pieces, the client ends normally: the request is
    understood, the answer is put together and passes the CRC check, and both the lines
    printed and the rules that the server publishes afterwards are those of
    [command_outcome].  [add-rule] with an argument that does not fit ends with an error
    and without a byte sent; a refused connection is reported. *)
Theorem client_session help host port :
  (forall core rules stats cuts command, plane_repr core rules stats -> command_fits command ->
     client_main struct_message help (fun _ _ => py_ret (mkServerPeer core [] cuts)) host port (Some command)
     = Some ((command_outcome rules stats command).1, 0) /\
     exists core' cuts',
       run_command struct_message (mkServerPeer core [] cuts) 1 command
       = py_ret ((command_outcome rules stats command).1, mkServerPeer core' [] cuts') /\
       sn_rules_ (current_rules core') = (command_outcome rules stats command).2) /\
  (forall (S : Type) (sock : StreamSocket S) (s : S) a, ~ args_fit a ->
     client_main struct_message help (fun _ _ => py_ret s) host port (Some (Command_add_rule a)) = Some (["Error: " +:+ struct_message], 1)) /\
  (forall (S : Type) (sock : StreamSocket S) command,
     client_main (S := S) struct_message help (fun _ _ => py_raise ConnectionRefused) host port (Some command)
     = Some (["Error: Could not connect to " +:+ host +:+ ":" +:+ pretty port;
              "Is the Chronos-X control server running? (./chronosx --server)"], 1)).
Proof.
  split_and!.
  - intros core rules stats cuts command Hc Hfit. destruct (run_command_peer core rules stats cuts command Hc Hfit) as (core' & cuts' & Hc' & Hrun).
    unfold client_main. cbn [py_bind py_ret]. rewrite Hrun. split; [done|]. exists core', cuts'. split; [done|apply Hc'].
  - intros S sock s a Hno. unfold client_main. cbn [py_bind py_ret run_command]. unfold cmd_add_rule, client_pack_rule.
    rewrite decide_False; [done|]. unfold args_fit in Hno. tauto.
  - done.
Qed.

End peer.

(** A rule is added over a network that delivers single bytes. *)
Lemma client_session_witness :
  client_main (StreamSocket0 := peer_socket [0; 0; 0; 0]) "" [] (fun _ _ => py_ret (mkServerPeer ControlPlaneCore_new [] (replicate 100 0%nat)))
    "127.0.0.1" 9090 (Some (Command_add_rule (mkAddRuleArgs 1 8080 "drop" 10000 0xBEEF 0)))
  = Some (["Rule 1 added: port=8080 action=drop prob=10000"], 0).
Proof.
  destruct (client_session [0; 0; 0; 0] ltac:(by repeat constructor) "" eq_refl [] "127.0.0.1" 9090) as (Hcmd & _).
  destruct (Hcmd ControlPlaneCore_new [] StatUpdate_default (replicate 100 0%nat)
    (Command_add_rule (mkAddRuleArgs 1 8080 "drop" 10000 0xBEEF 0)) ControlPlaneCore_new_repr) as [Hmain _].
  - unfold command_fits, args_fit. cbn [ar_seed ar_delay ar_rule_id ar_port ar_prob]. unfold fits. lia.
  - rewrite Hmain. vm_compute. reflexivity.
Defined.

(** The CRC of [encode_header] covers twelve bytes, that of the protocol the whole header:
    the server rejects such a message. *)
Example encode_header_rejected :
  (request ← client_encode_header 0x01 1 0; decoded ← decode_message request; Some (dr_status decoded))
  = Some ProtocolStatus_CrcMismatch.
Proof. vm_compute. reflexivity. Qed.
